(* ===== verification/_CoqProject ===== *)
-Q . S2P
Prelude.v
Machine.v
F64.v
Types.v
Bytes.v
Keccak.v
Abi.v
Pool.v
UniswapV2.v
Balancer.v
Bancor.v
Curve.v
UniswapV3.v
PoolState.v
Registry.v
TokenIndex.v
PriceGraph.v
Snapshot.v
Opportunity.v
Optimizer.v
BellmanFord.v
EventDecoder.v
NodePool.v
FirstSeen.v
CycleGating.v
RouterDecoder.v
HotToken.v
V2ReservesCache.v
Revm.v
Simulator.v
BytecodeCache.v
Fork.v
MempoolBackrun.v
PostStateReplay.v
FeeOnTransfer.v
PoolAdmission.v
Discovery.v
PoolValidator.v
DiscoveryService.v
HotCache.v
RouterSpec.v
Pipeline.v
Engine.v
Bootstrap.v
Detection.v
EngineSim.v
EngineRun.v
PairIndex.v
BackrunSizing.v
MempoolPipeline.v
MempoolSpec.v
Ingest.v
RpcProvider.v
Server.v
Historical.v
ProfitScorer.v
AetherExecutor.v
ExecutorSpec.v
ExecutorProfit.v
