(* ===== verification/Prelude.v ===== *)
(** * Aether: a verification development of the Rust core and the contract

    Aether is a searcher for cyclic arbitrage on Ethereum. Node streams deliver
    logs, blocks and pending transactions. An engine keeps a graph of token
    prices over the pools it knows, finds negative cycles in it, sizes and
    simulates the trades on a fork of the chain and publishes those that pay. A
    second pipeline predicts what a pending swap does to its pool, scans the
    graph with that state and publishes a backrun after simulating both
    transactions. Published messages go to a Go executor that sends them to the
    on-chain contract.

    ** Files

    Foundations. [Prelude] (this file): the [Ret]/[Panic] monad of Rust code that
    can panic, tactics, generic lemmas. [Machine]: fixed-width integers; class
    [Build] is the overflow behaviour, panicking or wrapping, and every theorem
    is about both. [F64]: IEEE binary64 by [SpecFloat]; [Libm] holds [ln],
    [exp], [powi], [powf]. [Types]: common/types.rs and detector/gas.rs.
    [Bytes], [Keccak], [Abi]: byte strings, Keccak-256 and the contract ABI. The
    code uses alloy's; [Keccak] and [SolAbi] are classes, with an executable
    reference instance each.

    Pools (crates/pools). [Pool]: the trait as a class with its laws, the calldata
    builders of swap_encode.rs. [UniswapV2] (and sushiswap.rs), [Balancer] (and
    balancer_v3.rs), [Bancor], [Curve], [UniswapV3]: the adapters. [PoolState]:
    the post-swap dispatchers of lib.rs. [Registry]: registry.rs, over any
    instance of the trait. [RouterDecoder], [RouterSpec]: router_decoder.rs, and
    the router calls with what they mean.

    State and detection (crates/state, crates/detector). [TokenIndex],
    [PriceGraph], [Snapshot], [HotCache]: the files of the same names.
    [Opportunity], [Optimizer], [BellmanFord]: opportunity.rs, optimizer.rs,
    bellman_ford.rs.

    Ingestion and discovery (crates/ingestion, crates/discovery).
    [EventDecoder], [NodePool]: event_decoder.rs, node_pool.rs. [Discovery]:
    scorer.rs, cache.rs. [PoolValidator]: validator.rs. [DiscoveryService]:
    service.rs, events.rs, volume.rs, config.rs. [Ingest]: config.rs and the
    pending-transaction source mempool.rs.

    Simulation (crates/simulator). [Revm]: what the code uses of the revm crate,
    as a class with [cache_laws], and the forked states of fork.rs. [Simulator]:
    lib.rs. [BytecodeCache], [V2ReservesCache]: the caches. [Fork]: the pre-warm
    of fork.rs with slot_prefetch.rs. [MempoolBackrun], [PostStateReplay],
    [FeeOnTransfer]: the files of the same names. [Pipeline]: calldata.rs and the
    messages of grpc-server/pipeline.rs.

    Engine (crates/grpc-server). [Engine]: the state and handlers of engine.rs.
    [Bootstrap]: start-up, reserve fetching, hot-cache synchronisation.
    [Detection]: the detection cycle, with the simulation as an argument.
    [EngineSim]: the cycle over [Simulator]. [EngineRun]: the event loop.
    [CycleGating], [FirstSeen], [HotToken], [PoolAdmission]: the files of the same
    names. [PairIndex], [BackrunSizing], [MempoolPipeline]: mempool_pipeline.rs;
    [MempoolSpec] holds the theorems about it. [RpcProvider]: provider.rs.
    [Server]: the gRPC handlers of service.rs, start-up (main.rs), discovery
    with the hot-cache loop (discovery_integration.rs), and the whole process as
    a sequence of activities. [Historical]: historical.rs, pools and their states
    at a block. [ProfitScorer]: bin/aether_profit_scorer.rs, the offline scorer
    of confirmed predictions with its loop.

    Contract (contracts/src). [AetherExecutor]: AetherExecutor.sol with what it
    uses of the OpenZeppelin contracts, and the machine that runs it among
    contracts with arbitrary code. [ExecutorSpec]: what its calls keep.
    [ExecutorProfit]: what a flash loan pays.

    ** What the theorems show

    - The engine. Over any sequence of events the engine responds, without panic,
      and keeps its invariant: graph, index, registry, snapshots and caches agree
      ([engine_always_responds]). Start-up registers the valid entries and seeds
      exactly the reserves the chain returned. An update moves both edges of a
      pool and its cached state together, and a detection cycle consumes it.
    - The process. From start-up, over any sequence of engine events, requests,
      discovery work and cache refreshes, the server answers and its parts agree
      ([server_always_responds]); the control and health services do what the
      state says ([control_plane_exact]); a stream delivers exactly the messages
      above its threshold.
    - The sources. Polling asks for each range of blocks once and dispatches what
      decodes; the provider fails over, gives up after a bounded outage and stops
      early only on a log that panics the decoder; pending transactions handed on
      hash to their reported hash.
    - What is published. A published arbitrage is a closed chain of steps with the
      amounts the quotes give, simulated with the calldata it carries
      ([detection_publishes_validated]), and on the fork its net profit is the
      growth of the balance ([published_profit_is_made]). A published backrun was
      executed after its victim and its profit exceeds its gas
      ([published_backrun_is_made], [backrun_accepts_exactly]); a size the
      optimiser chooses is paid by exact quotes ([backrun_sizing_sound]).
    - The mempool. The decoder inverts the calldata of every supported router
      call; a pending transaction becomes exactly the tasks it is worth; a V2 task
      completes and persists one prediction.
    - The scorer. Every row it writes is justified by the state it read, whatever
      the polls and refreshes in between; a row marked profitable was earned by
      the exact walk or on the fork, gas included; the walk is the sequential
      execution of the swaps.
    - Discovery. Every pool in the discovery cache was announced by a configured
      factory and passed validation ([discovery_admits_validated]); the analytical
      validation is exact; the polling listener asks for every block once.
    - The contract, with arbitrary code at every other address and calls back to
      any depth. Only owner, pending owner and pausers change its administration;
      a router changes only after a day's notice; its guards are released after
      every transaction and a V3 pool is paid once. With a plain token and a
      lending pool that lends and collects, [executeArb] repays the loan and pays
      the owner at least the floor less the tip, or reverts
      ([arb_pays_or_reverts]).
    - Data structures as refinements: the price graph is a map from (from, to,
      pool) to an edge, pair indices list exactly the pools that trade the pair,
      the token index is a bijection, the collector holds the best k, snapshots
      are read whole under any interleaving, caches are transparent.
    - Pool mathematics at 256 bits: quotes are the exact floors and do not
      decrease the invariant, exact-output quotes suffice and are least,
      predictions agree with the quotes, Newton's iterations end.
    - Formats: logs, calldata and messages round trip; every decoding failure is
      an error value, and the inputs that panic are characterised.
    - Theorems that refute a comment or an intention are stated as such, next to
      the component.

    ** Bounds and fuel

    Loops that the code bounds (256 Newton rounds, 256 search rounds, the
    iterations of the ternary search, two levels of nested multicalls) use that bound as
    fuel, so the model is the loop. The detector's queue loop has no bound in the
    code other than its clock; its fuel is the number of relaxations a graph
    allows under the hop limit, and [scans_report] proves that a scan ends with
    fuel left. Keccak-f runs its 24 rounds. Calls between contracts recurse on
    the frames left of the EVM's 1024; the invariants are proved for any number.
    Everything else is structural recursion.

    ** What is assumed

    Code outside the repository enters as an argument or a class: revm
    ([Revm], [cache_laws]), the ABI decoder ([SolAbi]), Keccak-256, the
    transcendental functions, the node's answers, the code of the contracts the
    executor calls, the clocks, the traversal order of hash maps ([HashOrder]), and
    the completion order of concurrent requests.
    Each theorem with such a hypothesis is applied to a concrete instance in its
    witness.

    ** Not modelled

    Log lines, Prometheus counters other than the labels that tell outcomes
    apart, and the rows of the trade ledger: they are outputs nothing reads back.
    Channel plumbing, timers and task spawning: operations run to completion, in
    any order the theorem quantifies over; [Snapshot] models the one place where
    threads interleave on shared cells, and [HotCache] the two-store swap. The
    sockets below the node's answers, the channels of subscription.rs, the gRPC
    transport, TOML and JSON parsing, the SQL of the database writers, tracing and
    signal handling: I/O around calls that are modelled. The offline replay
    binary: it drives an Anvil process. Of the EVM, gas. The Go services are
    separate programs. *)

From Stdlib Require Import ZArith Lia Sorting.Sorted.
From stdpp Require Import base option numbers gmap list.

Local Open Scope Z_scope.

(** ** Outcomes

    A Rust expression either evaluates ([Ret]) or panics ([Panic]): division
    by zero, an index out of range, an arithmetic overflow in a build with
    overflow checks, a failed narrowing conversion. *)

Inductive outcome (A : Type) : Type :=
| Ret (a : A)
| Panic.
Arguments Ret {A} _.
Arguments Panic {A}.

#[export] Instance outcome_ret : MRet outcome := fun A a => Ret a.
#[export] Instance outcome_bind : MBind outcome :=
  fun A B f m => match m with Ret a => f a | Panic => Panic end.
#[export] Instance outcome_fmap : FMap outcome :=
  fun A B f m => match m with Ret a => Ret (f a) | Panic => Panic end.

#[export] Instance outcome_eq_dec `{EqDecision A} : EqDecision (outcome A).
Proof. solve_decision. Defined.

Declare Scope aether_scope.
Delimit Scope aether_scope with aether.

(** Two computations that may panic are sequenced with stdpp's
    [x ← m; k]. [x <-? o; k] is Rust's [let x = o?;] in a function that
    returns an [Option]. *)
Notation "x <-? o ; k" := (match o with Some x => k | None => Ret None end)
  (at level 20, o at level 100, k at level 200, only parsing) : aether_scope.
Open Scope aether_scope.

Lemma bind_Ret {A B} (f : A -> outcome B) m b :
  m ≫= f = Ret b <-> exists a, m = Ret a /\ f a = Ret b.
Proof. destruct m; naive_solver. Qed.

(** Invert a hypothesis [m ≫= f = Ret b], as deep as the sequence goes. *)
Ltac unbind H :=
  repeat lazymatch type of H with
  | mbind _ _ = Ret _ =>
      let a := fresh "v" in let E := fresh "Hv" in
      apply bind_Ret in H as (a & E & H); cbv beta in H
  end.

(** The computation returns (it does not panic). *)
Definition returns {A} (m : outcome A) : Prop := exists a, m = Ret a.

(** A vector access [v[i]]: a panic when [i] is out of range. *)
Definition index {A} (l : list A) (i : nat) : outcome A :=
  match l !! i with Some a => Ret a | None => Panic end.

(** A vector store [v[i] = a]: a panic when [i] is out of range. *)
Definition store {A} (l : list A) (i : nat) (a : A) : outcome (list A) :=
  if decide (i < length l)%nat then Ret (<[i := a]> l) else Panic.

(** [Iterator::position]. *)
Definition position {A} (p : A -> bool) (l : list A) : option nat :=
  fst <$> list_find (fun a => p a = true) l.

Lemma position_None {A} (p : A -> bool) l :
  position p l = None <-> forall x, x ∈ l -> p x = false.
Proof.
  unfold position. rewrite fmap_None, list_find_None, Forall_forall.
  split; intros H x Hx; specialize (H x Hx); by destruct (p x).
Qed.

Lemma position_Some {A} (p : A -> bool) l i :
  position p l = Some i -> exists x, l !! i = Some x /\ p x = true.
Proof.
  unfold position. rewrite fmap_Some. intros ([k x] & E & ->).
  apply list_find_Some in E as (H & Hx & _). by exists x.
Qed.

Lemma index_Some {A} (l : list A) i a : l !! i = Some a -> index l i = Ret a.
Proof. unfold index. by intros ->. Qed.

Lemma store_lt {A} (l : list A) i a : (i < length l)%nat -> store l i a = Ret (<[i := a]> l).
Proof. intros H. unfold store. by rewrite decide_True. Qed.

Lemma index_lt {A} (l : list A) i :
  (i < length l)%nat -> exists a, index l i = Ret a /\ l !! i = Some a.
Proof.
  intros H. destruct (lookup_lt_is_Some_2 l i H) as [a Ha]. exists a.
  by rewrite (index_Some _ _ _ Ha).
Qed.

Lemma index_Ret {A} (l : list A) i a : index l i = Ret a -> l !! i = Some a.
Proof. unfold index. destruct (l !! i); naive_solver. Qed.

(** ** Ordering results and the standard library's ordering adaptors *)

(** [Option<Ordering>::unwrap_or(Ordering::Equal)]. *)
Definition unwrap_or_equal (o : option comparison) : comparison :=
  match o with Some c => c | None => Eq end.

(** [slice::sort_by]: a stable sort. For a comparison that is a total
    preorder the stable sorted permutation is unique, so an insertion sort
    computes it. *)
Section SortBy.
Context {A : Type} (cmp : A -> A -> comparison).

Fixpoint insert_by (x : A) (l : list A) : list A :=
  match l with
  | [] => [x]
  | y :: l' => match cmp y x with
               | Lt => y :: insert_by x l'
               | _ => x :: y :: l'
               end
  end.

Definition sort_by (l : list A) : list A := foldr insert_by [] l.

(** [Iterator::min_by]: the first of the minimal elements. *)
Definition min_by (l : list A) : option A :=
  match l with
  | [] => None
  | x :: l' => Some (foldl (fun acc y => match cmp acc y with Gt => y | _ => acc end) x l')
  end.

Lemma insert_by_perm x l : insert_by x l ≡ₚ x :: l.
Proof.
  induction l as [|y l IH]; simpl; [done|].
  destruct (cmp y x); [done| |done]. rewrite IH. apply Permutation_swap.
Qed.

Lemma sort_by_perm l : sort_by l ≡ₚ l.
Proof. induction l as [|x l IH]; simpl; [done|]. by rewrite insert_by_perm, IH. Qed.

Lemma sort_by_length l : length (sort_by l) = length l.
Proof. apply Permutation_length, sort_by_perm. Qed.

Lemma elem_of_sort_by x l : x ∈ sort_by l <-> x ∈ l.
Proof. by rewrite sort_by_perm. Qed.

(** The comparison never reports [Gt] for a pair in order; on a domain [D]
    it is a total preorder. *)
Definition not_gt (x y : A) : Prop := cmp x y <> Gt.

Section Ordered.
Context (D : A -> Prop).
Context (cmp_sym : forall x y, D x -> D y -> cmp x y = CompOpp (cmp y x)).
Context (cmp_trans : forall x y z, D x -> D y -> D z -> not_gt x y -> not_gt y z -> not_gt x z).

Lemma not_gt_total x y : D x -> D y -> cmp y x <> Lt -> not_gt x y.
Proof. unfold not_gt. intros Hx Hy Hn. rewrite cmp_sym by done. by destruct (cmp y x). Qed.

Lemma insert_by_sorted x l :
  D x -> Forall D l -> StronglySorted not_gt l -> StronglySorted not_gt (insert_by x l).
Proof.
  intros Hx. induction l as [|y l IH]; simpl; intros HD Hs; [by repeat constructor|].
  apply Forall_cons in HD as [Hy HD].
  inversion Hs as [|? ? Hs' Hall]; subst.
  assert (HyD : Forall D (y :: l)) by (by constructor).
  destruct (cmp y x) eqn:E.
  1, 3: constructor; [done|]; apply Forall_cons; split;
    [apply not_gt_total; [done|done|congruence]|];
    apply Forall_forall; intros z Hz;
    rewrite Forall_forall in Hall; rewrite Forall_forall in HD;
    apply (cmp_trans x y z); auto; apply not_gt_total; [done|done|congruence].
  constructor; [by apply IH|].
  rewrite insert_by_perm. apply Forall_cons; split; [unfold not_gt; congruence|done].
Qed.

Lemma sort_by_sorted l : Forall D l -> StronglySorted not_gt (sort_by l).
Proof.
  induction l as [|x l IH]; simpl; intros HD; [constructor|].
  apply Forall_cons in HD as [Hx HD].
  apply insert_by_sorted; [done| |by apply IH].
  by rewrite sort_by_perm.
Qed.
End Ordered.

Definition min_step (acc y : A) : A := match cmp acc y with Gt => y | _ => acc end.

Lemma foldl_min_step_elem l x : foldl min_step x l ∈ x :: l.
Proof.
  revert x. induction l as [|y l IH]; intros x; simpl; [by left|].
  specialize (IH (min_step x y)).
  assert (min_step x y = x \/ min_step x y = y) as [E|E]
    by (unfold min_step; destruct (cmp x y); auto);
    rewrite E in *; apply elem_of_cons in IH as [->|IH].
  all: rewrite !elem_of_cons; auto.
Qed.

Lemma min_by_elem l x : min_by l = Some x -> x ∈ l.
Proof. destruct l as [|y l]; simpl; [done|]. intros [= <-]. apply foldl_min_step_elem. Qed.

Lemma min_by_is_Some l : l <> [] -> is_Some (min_by l).
Proof. by destruct l; [|eexists]. Qed.

Section MinOrdered.
Context (D : A -> Prop).
Context (cmp_sym : forall x y, D x -> D y -> cmp x y = CompOpp (cmp y x)).
Context (cmp_trans : forall x y z, D x -> D y -> D z -> not_gt x y -> not_gt y z -> not_gt x z).

Lemma cmp_refl x : D x -> not_gt x x.
Proof. unfold not_gt. intros Hx E. pose proof (cmp_sym x x Hx Hx). rewrite E in *. done. Qed.

Lemma foldl_min_step_le l x :
  D x -> Forall D l ->
  not_gt (foldl min_step x l) x /\ Forall (not_gt (foldl min_step x l)) l.
Proof.
  revert x. induction l as [|y l IH]; intros x Hx HD; simpl.
  { split; [by apply cmp_refl|done]. }
  apply Forall_cons in HD as [Hy HD].
  assert (Hm : D (min_step x y)) by (unfold min_step; by destruct (cmp x y)).
  destruct (IH (min_step x y) Hm HD) as [H1 H2].
  assert (Hf : D (foldl min_step (min_step x y) l)).
  { pose proof (foldl_min_step_elem l (min_step x y)) as He.
    apply elem_of_cons in He as [He|He]; [by rewrite He|].
    rewrite Forall_forall in HD. by apply HD. }
  assert (Hmx : not_gt (min_step x y) x /\ not_gt (min_step x y) y).
  { unfold min_step, not_gt. pose proof (cmp_sym y x Hy Hx).
    pose proof (cmp_refl x Hx). pose proof (cmp_refl y Hy).
    destruct (cmp x y) eqn:E; split; try done; rewrite ?E; try congruence;
    rewrite H; done. }
  destruct Hmx as [Hmx Hmy]. split; [by apply (cmp_trans _ (min_step x y))|].
  apply Forall_cons; split; [by apply (cmp_trans _ (min_step x y))|done].
Qed.

Lemma min_by_le l x : Forall D l -> min_by l = Some x -> Forall (not_gt x) l.
Proof.
  destruct l as [|y l]; simpl; [done|]. intros HD [= <-].
  apply Forall_cons in HD as [Hy HD]. change (foldl _ y l) with (foldl min_step y l).
  destruct (foldl_min_step_le l y Hy HD). by apply Forall_cons.
Qed.
End MinOrdered.
End SortBy.

(** ** Hash maps

    The order in which a [HashMap] is traversed is unspecified: it is a
    parameter that enumerates the entries of each map once. *)
Class HashOrder : Type := {
  map_iter : forall {K V} `{Countable K}, gmap K V -> list (K * V);
  map_iter_perm : forall {K V} `{Countable K} (m : gmap K V), map_iter m ≡ₚ map_to_list m;
}.

(** One such order. *)
Definition canonical_order : HashOrder :=
  {| map_iter := fun K V _ _ => map_to_list; map_iter_perm := fun K V _ _ m => reflexivity _ |}.

Lemma elem_of_map_iter `{HashOrder} {K V} `{Countable K} (m : gmap K V) k v :
  (k, v) ∈ map_iter m <-> m !! k = Some v.
Proof. by rewrite map_iter_perm, elem_of_map_to_list. Qed.

(** A [HashSet] in the order it is traversed. *)
Definition set_iter `{HashOrder} {K} `{Countable K} (s : gset K) : list K :=
  (map_iter (mapset.mapset_car s)).*1.

Lemma elem_of_set_iter `{HashOrder} {K} `{Countable K} (a : K) (s : gset K) :
  a ∈ set_iter s <-> a ∈ s.
Proof.
  unfold set_iter. rewrite list_elem_of_fmap. split.
  - intros ([x []] & -> & Hx). by apply elem_of_map_iter in Hx.
  - intros Ha. exists (a, tt). split; [done|]. by apply elem_of_map_iter.
Qed.

Lemma NoDup_set_iter `{HashOrder} {K} `{Countable K} (s : gset K) : NoDup (set_iter s).
Proof. unfold set_iter. rewrite map_iter_perm. apply NoDup_fst_map_to_list. Qed.

Lemma set_iter_eq `{HashOrder} {K} `{Countable K} (s : gset K) : list_to_set (set_iter s) = s.
Proof. apply set_eq. intros a. by rewrite elem_of_list_to_set, elem_of_set_iter. Qed.
