(* ===== verification/Machine.v ===== *)
(** * Machine integers

    Fixed-width integers as [Z] with their range written out: Rust's [u8],
    [u32], [u64], [u128], [i32], [i64], [i128] and alloy's [U256]. An
    operation whose exact result is out of range either panics or wraps,
    depending on how the program is built; the model carries that choice as a
    parameter, so every theorem holds for both. *)

From Stdlib Require Import ZArith Lia.
From S2P Require Import Prelude.
From stdpp Require Import base option numbers list.

Local Open Scope Z_scope.

(** [overflow_checks]: primitive integers panic on overflow (debug profile)
    or wrap (release profile). [uint_checks]: the same choice for the [+],
    [-], [*] operators of the [U256] type of the alloy crate, which is code
    outside the repository. *)
Class Build : Type := {
  overflow_checks : bool;
  uint_checks : bool;
}.

(** The two builds of the program. *)
Definition release : Build := {| overflow_checks := false; uint_checks := false |}.
Definition debug : Build := {| overflow_checks := true; uint_checks := true |}.

(** [r] fits in [w] unsigned bits. *)
Definition in_u (w r : Z) : Prop := 0 <= r < 2 ^ w.
Definition in_ub (w r : Z) : bool := (0 <=? r) && (r <? 2 ^ w).
(** [r] fits in [w] signed bits. *)
Definition in_s (w r : Z) : Prop := - 2 ^ (w - 1) <= r < 2 ^ (w - 1).

Lemma in_ub_spec w r : in_ub w r = true <-> in_u w r.
Proof. unfold in_ub, in_u. rewrite andb_true_iff, Z.leb_le, Z.ltb_lt. done. Qed.

(** Reinterpret the low [w] bits as a signed integer. *)
Definition to_signed (w r : Z) : Z :=
  let m := r mod 2 ^ w in if m <? 2 ^ (w - 1) then m else m - 2 ^ w.

(** The result [r] of an unsigned operation at width [w]. *)
Definition arith (checks : bool) (w r : Z) : outcome Z :=
  if in_ub w r then Ret r
  else if checks then Panic else Ret (r mod 2 ^ w).

(** The result of a signed operation. *)
Definition arith_s (checks : bool) (w r : Z) : outcome Z :=
  if (- 2 ^ (w - 1) <=? r) && (r <? 2 ^ (w - 1)) then Ret r
  else if checks then Panic else Ret (to_signed w r).

Definition u256_max : Z := 2 ^ 256 - 1.
Definition u32_max : Z := 2 ^ 32 - 1.
Definition u64_max : Z := 2 ^ 64 - 1.
Definition u128_max : Z := 2 ^ 128 - 1.

Section Ops.
Context `{B : Build}.

(** alloy [U256] operators. *)
Definition u256_add (a b : Z) : outcome Z := arith uint_checks 256 (a + b).
Definition u256_sub (a b : Z) : outcome Z := arith uint_checks 256 (a - b).
Definition u256_mul (a b : Z) : outcome Z := arith uint_checks 256 (a * b).
(** Division panics on a zero divisor in every build. *)
Definition u256_div (a b : Z) : outcome Z := if b =? 0 then Panic else Ret (a / b).

(** Primitive operators. *)
Definition u32_add (a b : Z) : outcome Z := arith overflow_checks 32 (a + b).
Definition u32_sub (a b : Z) : outcome Z := arith overflow_checks 32 (a - b).
Definition u64_add (a b : Z) : outcome Z := arith overflow_checks 64 (a + b).
Definition u64_sub (a b : Z) : outcome Z := arith overflow_checks 64 (a - b).
Definition u64_mul (a b : Z) : outcome Z := arith overflow_checks 64 (a * b).
Definition i32_add (a b : Z) : outcome Z := arith_s overflow_checks 32 (a + b).
Definition i32_mul (a b : Z) : outcome Z := arith_s overflow_checks 32 (a * b).
End Ops.

(** Checked and saturating operations. *)
Definition checked (w r : Z) : option Z := if in_ub w r then Some r else None.
Definition u256_checked_add (a b : Z) : option Z := checked 256 (a + b).
Definition u256_checked_sub (a b : Z) : option Z := checked 256 (a - b).
Definition saturate (w r : Z) : Z := Z.max 0 (Z.min r (2 ^ w - 1)).
Definition u64_saturating_sub (a b : Z) : Z := saturate 64 (a - b).
Definition u64_saturating_add (a b : Z) : Z := saturate 64 (a + b).
Definition u256_saturating_add (a b : Z) : Z := saturate 256 (a + b).
Definition u256_saturating_mul (a b : Z) : Z := saturate 256 (a * b).

(** [U256::to::<u128>()] panics when the value does not fit. *)
Definition u256_to_u128 (a : Z) : outcome Z := if in_ub 128 a then Ret a else Panic.
(** [as_limbs()[i]]: the [i]-th 64-bit limb. *)
Definition limb (a : Z) (i : Z) : Z := (a / 2 ^ (64 * i)) mod 2 ^ 64.
(** An [as u32] cast of an unsigned value. *)
Definition as_u32 (a : Z) : Z := a mod 2 ^ 32.

(** ** In-range operations return the exact result *)

Lemma arith_exact c w r : in_u w r -> arith c w r = Ret r.
Proof. intros H. unfold arith. apply in_ub_spec in H. by rewrite H. Qed.

(** Whatever the build, an operation returns a value of its width. *)
Lemma arith_range c w r a : 0 <= w -> arith c w r = Ret a -> in_u w a.
Proof.
  intros Hw. unfold arith. destruct (in_ub w r) eqn:E.
  - intros [= <-]. by apply in_ub_spec.
  - destruct c; [done|]. intros [= <-]. apply Z.mod_pos_bound, Z.pow_pos_nonneg; lia.
Qed.

Lemma arith_s_exact c w r : in_s w r -> arith_s c w r = Ret r.
Proof.
  unfold in_s, arith_s. intros H.
  by rewrite (proj2 (Z.leb_le _ _)), (proj2 (Z.ltb_lt _ _)) by lia.
Qed.

Lemma checked_Some w r a : checked w r = Some a <-> a = r /\ in_u w r.
Proof.
  unfold checked. destruct (in_ub w r) eqn:E.
  - apply in_ub_spec in E. naive_solver.
  - split; [done|]. intros [_ H]. apply in_ub_spec in H. congruence.
Qed.

Lemma checked_in w r : in_u w r -> checked w r = Some r.
Proof. intros H. by apply checked_Some. Qed.

Lemma checked_None w r : checked w r = None <-> ~ in_u w r.
Proof.
  unfold checked. rewrite <- in_ub_spec. destruct (in_ub w r); naive_solver.
Qed.

Lemma saturate_range w r : 0 <= w -> in_u w (saturate w r).
Proof. intros Hw. unfold in_u, saturate. assert (0 < 2 ^ w) by (apply Z.pow_pos_nonneg; lia). lia. Qed.

Lemma saturate_exact w r : in_u w r -> saturate w r = r.
Proof. unfold in_u, saturate. lia. Qed.

Section OpsLemmas.
Context `{B : Build}.

Lemma u256_add_exact a b : in_u 256 (a + b) -> u256_add a b = Ret (a + b).
Proof. apply arith_exact. Qed.
Lemma u256_sub_exact a b : in_u 256 (a - b) -> u256_sub a b = Ret (a - b).
Proof. apply arith_exact. Qed.
Lemma u256_mul_exact a b : in_u 256 (a * b) -> u256_mul a b = Ret (a * b).
Proof. apply arith_exact. Qed.
Lemma u256_div_exact a b : b <> 0 -> u256_div a b = Ret (a / b).
Proof. intros H. unfold u256_div. apply Z.eqb_neq in H. by rewrite H. Qed.
Lemma u32_sub_exact a b : in_u 32 (a - b) -> u32_sub a b = Ret (a - b).
Proof. apply arith_exact. Qed.
Lemma u64_sub_exact a b : in_u 64 (a - b) -> u64_sub a b = Ret (a - b).
Proof. apply arith_exact. Qed.
Lemma u64_add_exact a b : in_u 64 (a + b) -> u64_add a b = Ret (a + b).
Proof. apply arith_exact. Qed.
Lemma u64_mul_exact a b : in_u 64 (a * b) -> u64_mul a b = Ret (a * b).
Proof. apply arith_exact. Qed.
End OpsLemmas.

(** ** Bounds of products of bounded factors *)

Lemma in_u_intro w r : 0 <= r -> r < 2 ^ w -> in_u w r.
Proof. by split. Qed.

Lemma in_u_le w w' r : w <= w' -> in_u w r -> in_u w' r.
Proof.
  unfold in_u. intros Hw [H0 H]. split; [done|].
  eapply Z.lt_le_trans; [done|]. destruct (Z.le_gt_cases 0 w).
  - apply Z.pow_le_mono_r; lia.
  - rewrite Z.pow_neg_r in H by lia. lia.
Qed.

Lemma mul_bound a b m n : 0 <= a <= m -> 0 <= b <= n -> 0 <= a * b <= m * n.
Proof. intros Ha Hb. split; [nia|]. apply Z.mul_le_mono_nonneg; lia. Qed.

Lemma in_u_mul v w a b : 0 <= v -> 0 <= w -> in_u v a -> in_u w b -> in_u (v + w) (a * b).
Proof. unfold in_u. intros Hv Hw Ha Hb. rewrite Z.pow_add_r by done. nia. Qed.

Lemma in_u_add w a b : 0 <= w -> in_u w a -> in_u w b -> in_u (w + 1) (a + b).
Proof. unfold in_u. intros Hw Ha Hb. rewrite Z.pow_add_r by done. lia. Qed.

Lemma div_le_self a b : 0 <= a -> 0 < b -> 0 <= a / b <= a.
Proof.
  intros Ha Hb. split; [apply Z.div_pos; lia|]. apply Z.div_le_upper_bound; nia.
Qed.

Lemma in_u_div w a b : 0 <= b -> in_u w a -> in_u w (a / b).
Proof.
  unfold in_u. intros Hb [Ha Hw]. destruct (Z.eq_dec b 0) as [->|].
  - rewrite Z.div_0_r. lia.
  - split; [apply Z.div_pos; lia|]. assert (a / b <= a) by (apply Z.div_le_upper_bound; nia). lia.
Qed.

Lemma in_u_small w a b : in_u w a -> 0 <= b <= a -> in_u w b.
Proof. unfold in_u. lia. Qed.

(** Reduce the powers of two in range hypotheses to numerals. *)
Ltac range := unfold in_u, u256_max, u64_max, u32_max, u128_max in *;
  change (2 ^ 256) with 115792089237316195423570985008687907853269984665640564039457584007913129639936 in *;
  change (2 ^ 128) with 340282366920938463463374607431768211456 in *;
  change (2 ^ 112) with 5192296858534827628530496329220096 in *;
  change (2 ^ 96) with 79228162514264337593543950336 in *;
  change (2 ^ 64) with 18446744073709551616 in *;
  change (2 ^ 32) with 4294967296 in *.

(** Evaluate one operation that is in range, or all of them in order; bounds
    on products are given beforehand with [mul_bound]. *)
Ltac in_range := range; lia.
Ltac exact_op m :=
  lazymatch m with
  | u256_mul ?a ?b => rewrite (u256_mul_exact a b) by in_range
  | u256_add ?a ?b => rewrite (u256_add_exact a b) by in_range
  | u256_sub ?a ?b => rewrite (u256_sub_exact a b) by in_range
  | u256_div ?a ?b => rewrite (u256_div_exact a b) by in_range
  | u32_sub ?a ?b => rewrite (u32_sub_exact a b) by in_range
  | u64_sub ?a ?b => rewrite (u64_sub_exact a b) by in_range
  | u64_add ?a ?b => rewrite (u64_add_exact a b) by in_range
  | u64_mul ?a ?b => rewrite (u64_mul_exact a b) by in_range
  end.
Ltac exact_step :=
  lazymatch goal with
  | |- mbind _ ?m = _ => exact_op m
  | |- fmap _ ?m = _ => exact_op m
  | |- ?m = _ => exact_op m
  end;
  cbn [mbind outcome_bind fmap outcome_fmap].
Ltac exact_ops := repeat exact_step.

Create HintDb aether.
#[export] Hint Resolve in_u_intro in_u_div saturate_range : aether.

(** ** Bit fields *)

(** Fields that do not overlap: their disjunction is their sum. *)
Lemma lor_shiftl_add a b n : 0 <= n -> 0 <= a < 2 ^ n -> Z.lor a (Z.shiftl b n) = a + b * 2 ^ n.
Proof.
  intros Hn Ha. rewrite <- Z.shiftl_mul_pow2 by done. rewrite <- Z.add_lor_land.
  assert (Z.land a (Z.shiftl b n) = 0) as ->; [|lia].
  apply Z.bits_inj'. intros k Hk. rewrite Z.land_spec, Z.bits_0.
  destruct (Z.lt_ge_cases k n) as [Hl|Hg].
  - rewrite (Z.shiftl_spec_low b n k) by lia. apply andb_false_r.
  - rewrite <- (Z.mod_small a (2 ^ n)) by lia. by rewrite Z.mod_pow2_bits_high by lia.
Qed.

Lemma shiftl_lor_add a b n : 0 <= n -> 0 <= b < 2 ^ n -> Z.lor (Z.shiftl a n) b = a * 2 ^ n + b.
Proof. intros Hn Hb. rewrite Z.lor_comm, lor_shiftl_add by done. lia. Qed.
