(* ===== verification/F64.v ===== *)
(** * IEEE 754 binary64

    Rust's [f64] through the executable specification of floating-point
    arithmetic of the Rocq library ([SpecFloat], precision 53, maximal exponent
    1024): every operation rounds to nearest even, with signed zeros,
    infinities and NaN. The transcendental functions ([ln], [exp], [powi],
    [powf]) have no specified precision in Rust's documentation; they are
    operations of the class [Libm]. *)

From Stdlib Require Import ZArith Lia SpecFloat Sorting.Sorted.
From S2P Require Import Prelude.
From stdpp Require Import base option numbers list.

Local Open Scope Z_scope.

Abbreviation f64 := spec_float.

Definition prec : Z := 53.
Definition emax : Z := 1024.

Definition f64_add : f64 -> f64 -> f64 := SFadd prec emax.
Definition f64_sub : f64 -> f64 -> f64 := SFsub prec emax.
Definition f64_mul : f64 -> f64 -> f64 := SFmul prec emax.
Definition f64_div : f64 -> f64 -> f64 := SFdiv prec emax.
Definition f64_sqrt : f64 -> f64 := SFsqrt prec emax.
Definition f64_neg : f64 -> f64 := SFopp.
Definition f64_abs : f64 -> f64 := SFabs.
Definition f64_lt : f64 -> f64 -> bool := SFltb.
Definition f64_le : f64 -> f64 -> bool := SFleb.
Definition f64_eqb : f64 -> f64 -> bool := SFeqb.
Definition f64_gt (x y : f64) : bool := SFltb y x.
Definition f64_ge (x y : f64) : bool := SFleb y x.
(** [f64::partial_cmp]. *)
Definition partial_cmp : f64 -> f64 -> option comparison := SFcompare.

Definition is_nan (x : f64) : bool := match x with S754_nan => true | _ => false end.
Definition is_finite (x : f64) : bool :=
  match x with S754_zero _ | S754_finite _ _ _ => true | _ => false end.

(** An integer rounded to the nearest double ([n as f64], an integer literal). *)
Definition f64_of_Z (n : Z) : f64 := binary_normalize prec emax n 0 false.
(** A decimal literal [n / d] with both parts exact doubles. *)
Definition f64_of_ratio (n d : Z) : f64 := f64_div (f64_of_Z n) (f64_of_Z d).
Definition f64_zero : f64 := S754_zero false.
Definition f64_one : f64 := f64_of_Z 1.
Definition f64_infinity : f64 := S754_infinity false.

(** [f64::max]: the other operand when one is NaN. *)
Definition f64_max (x y : f64) : f64 :=
  if is_nan x then y else if is_nan y then x else if f64_lt x y then y else x.
(** [f64::clamp]. *)
Definition f64_clamp (x lo hi : f64) : f64 :=
  if f64_lt x lo then lo else if f64_gt x hi then hi else x.

(** The integer part towards zero, towards minus infinity, and the nearest
    integer with halves away from zero. *)
Definition trunc_Z (s : bool) (m : positive) (e : Z) : Z :=
  let v := if 0 <=? e then Z.pos m * 2 ^ e else Z.pos m / 2 ^ (- e) in
  if s then - v else v.
Definition floor_Z (s : bool) (m : positive) (e : Z) : Z :=
  let v := if s then - Z.pos m else Z.pos m in
  if 0 <=? e then v * 2 ^ e else v / 2 ^ (- e).
Definition round_Z (s : bool) (m : positive) (e : Z) : Z :=
  let v := if 0 <=? e then Z.pos m * 2 ^ e
           else (2 * Z.pos m + 2 ^ (- e)) / (2 * 2 ^ (- e)) in
  if s then - v else v.
(** [f64::floor] and [f64::round]; the results are exact doubles. *)
Definition f64_floor (x : f64) : f64 :=
  match x with S754_finite s m e => binary_normalize prec emax (floor_Z s m e) 0 s | _ => x end.
Definition f64_round (x : f64) : f64 :=
  match x with S754_finite s m e => binary_normalize prec emax (round_Z s m e) 0 s | _ => x end.

(** A saturating cast [x as iN/uN] to the range [lo .. hi]; NaN goes to 0. *)
Definition f64_as (lo hi : Z) (x : f64) : Z :=
  match x with
  | S754_nan => 0
  | S754_zero _ => 0
  | S754_infinity s => if s then lo else hi
  | S754_finite s m e => Z.max lo (Z.min hi (trunc_Z s m e))
  end.
Definition f64_as_i64 : f64 -> Z := f64_as (- 2 ^ 63) (2 ^ 63 - 1).
Definition f64_as_i32 : f64 -> Z := f64_as (- 2 ^ 31) (2 ^ 31 - 1).
Definition f64_as_u128 : f64 -> Z := f64_as 0 (2 ^ 128 - 1).

(** The library functions whose precision Rust leaves unspecified. *)
Class Libm : Type := {
  f64_ln : f64 -> f64;
  f64_exp : f64 -> f64;
  f64_powi : f64 -> Z -> f64;
  f64_powf : f64 -> f64 -> f64;
}.

(** ** The order on doubles

    [rank] embeds the doubles other than NaN in a lexicographic order, from
    which the order lemmas follow. *)

Definition rank (x : f64) : Z * Z * Z :=
  match x with
  | S754_nan => (0, 0, 0)
  | S754_zero _ => (0, 0, 0)
  | S754_infinity s => (if s then -2 else 2, 0, 0)
  | S754_finite true m e => (-1, - e, - Z.pos m)
  | S754_finite false m e => (1, e, Z.pos m)
  end.

Definition lex (p q : Z * Z * Z) : comparison :=
  let '(a1, b1, c1) := p in let '(a2, b2, c2) := q in
  match a1 ?= a2 with
  | Eq => match b1 ?= b2 with Eq => c1 ?= c2 | c => c end
  | c => c
  end.

Definition lex_lt (p q : Z * Z * Z) : Prop :=
  let '(a1, b1, c1) := p in let '(a2, b2, c2) := q in
  a1 < a2 \/ (a1 = a2 /\ (b1 < b2 \/ (b1 = b2 /\ c1 < c2))).

Lemma lex_spec p q :
  match lex p q with Eq => p = q | Lt => lex_lt p q | Gt => lex_lt q p end.
Proof.
  destruct p as [[a1 b1] c1], q as [[a2 b2] c2]; simpl.
  destruct (Z.compare_spec a1 a2); [|simpl; lia..].
  destruct (Z.compare_spec b1 b2); [|simpl; lia..].
  destruct (Z.compare_spec c1 c2); [by subst|simpl; lia..].
Qed.

Lemma partial_cmp_rank x y :
  is_nan x = false -> is_nan y = false -> partial_cmp x y = Some (lex (rank x) (rank y)).
Proof.
  intros Hx Hy.
  destruct x as [sx|sx| |sx mx ex], y as [sy|sy| |sy my ey]; try done;
    try destruct sx; try destruct sy; try reflexivity; unfold partial_cmp, SFcompare, rank, lex;
    change (Z.compare (-1) (-1)) with Eq; change (Z.compare 1 1) with Eq;
    rewrite ?Z.compare_opp; cbn [Z.compare].
  rewrite (Z.compare_antisym ex ey). destruct (ex ?= ey); try done.
  simpl. f_equal. symmetry. apply Pos.compare_antisym.
Qed.

Lemma partial_cmp_nan x y : partial_cmp x y = None <-> is_nan x = true \/ is_nan y = true.
Proof.
  destruct (is_nan x) eqn:Ex; [destruct x; naive_solver|].
  destruct (is_nan y) eqn:Ey; [destruct y, x; naive_solver|].
  rewrite partial_cmp_rank by done. naive_solver.
Qed.

(** The comparison the code sorts with: incomparable elements are equal. *)
Definition f64_cmp (x y : f64) : comparison := unwrap_or_equal (partial_cmp x y).

Lemma f64_cmp_rank x y :
  is_nan x = false -> is_nan y = false -> f64_cmp x y = lex (rank x) (rank y).
Proof. intros Hx Hy. unfold f64_cmp. by rewrite partial_cmp_rank. Qed.

Lemma f64_cmp_sym x y :
  is_nan x = false -> is_nan y = false -> f64_cmp x y = CompOpp (f64_cmp y x).
Proof.
  intros Hx Hy. rewrite !f64_cmp_rank by done.
  pose proof (lex_spec (rank x) (rank y)) as H1. pose proof (lex_spec (rank y) (rank x)) as H2.
  destruct (rank x) as [[a1 b1] c1], (rank y) as [[a2 b2] c2].
  destruct (lex (a1, b1, c1) (a2, b2, c2)), (lex (a2, b2, c2) (a1, b1, c1)); simpl in *;
    try done; try (injection H1; intros); try (injection H2; intros); lia.
Qed.

Lemma f64_cmp_trans x y z :
  is_nan x = false -> is_nan y = false -> is_nan z = false ->
  f64_cmp x y <> Gt -> f64_cmp y z <> Gt -> f64_cmp x z <> Gt.
Proof.
  intros Hx Hy Hz. rewrite !f64_cmp_rank by done.
  pose proof (lex_spec (rank x) (rank y)) as H1. pose proof (lex_spec (rank y) (rank z)) as H2.
  pose proof (lex_spec (rank x) (rank z)) as H3.
  destruct (rank x) as [[a1 b1] c1], (rank y) as [[a2 b2] c2], (rank z) as [[a3 b3] c3].
  destruct (lex (a1, b1, c1) (a2, b2, c2)), (lex (a2, b2, c2) (a3, b3, c3)),
    (lex (a1, b1, c1) (a3, b3, c3)); simpl in *; try done; intros _ _ _;
    try (injection H1; intros); try (injection H2; intros); lia.
Qed.

Lemma f64_lt_cmp x y : f64_lt x y = true <-> partial_cmp x y = Some Lt.
Proof. unfold f64_lt, SFltb, partial_cmp. destruct (SFcompare x y) as [[]|]; naive_solver. Qed.

Lemma f64_le_cmp x y :
  f64_le x y = true <-> partial_cmp x y = Some Lt \/ partial_cmp x y = Some Eq.
Proof. unfold f64_le, SFleb, partial_cmp. destruct (SFcompare x y) as [[]|]; naive_solver. Qed.

Lemma f64_lt_not_nan x y : f64_lt x y = true -> is_nan x = false /\ is_nan y = false.
Proof. rewrite f64_lt_cmp. destruct x, y; simpl; try done. Qed.

Lemma f64_le_not_nan x y : f64_le x y = true -> is_nan x = false /\ is_nan y = false.
Proof. rewrite f64_le_cmp. destruct x, y; simpl; naive_solver. Qed.

Lemma f64_lt_irrefl x : f64_lt x x = false.
Proof.
  destruct (f64_lt x x) eqn:E; [|done].
  pose proof (f64_lt_not_nan _ _ E) as [Hx _]. apply f64_lt_cmp in E.
  rewrite partial_cmp_rank in E by done. injection E as E.
  pose proof (lex_spec (rank x) (rank x)) as H. rewrite E in H.
  destruct (rank x) as [[a b] c]; simpl in H; lia.
Qed.

Lemma f64_lt_rank x y :
  f64_lt x y = true <-> is_nan x = false /\ is_nan y = false /\ lex_lt (rank x) (rank y).
Proof.
  split.
  - intros E. destruct (f64_lt_not_nan _ _ E) as [Hx Hy]. split_and!; [done..|].
    apply f64_lt_cmp in E. rewrite partial_cmp_rank in E by done. injection E as E.
    pose proof (lex_spec (rank x) (rank y)) as H. by rewrite E in H.
  - intros (Hx & Hy & H). apply f64_lt_cmp. rewrite partial_cmp_rank by done.
    pose proof (lex_spec (rank x) (rank y)) as H'.
    destruct (rank x) as [[a1 b1] c1], (rank y) as [[a2 b2] c2].
    destruct (lex (a1, b1, c1) (a2, b2, c2)); simpl in *; try done;
      try (injection H'; intros); lia.
Qed.

Lemma f64_le_rank x y :
  f64_le x y = true <->
  is_nan x = false /\ is_nan y = false /\ (lex_lt (rank x) (rank y) \/ rank x = rank y).
Proof.
  split.
  - intros E. destruct (f64_le_not_nan _ _ E) as [Hx Hy]. split_and!; [done..|].
    apply f64_le_cmp in E. rewrite partial_cmp_rank in E by done.
    pose proof (lex_spec (rank x) (rank y)) as H.
    destruct E as [E|E]; injection E as E; rewrite E in H; auto.
  - intros (Hx & Hy & H). apply f64_le_cmp. rewrite partial_cmp_rank by done.
    pose proof (lex_spec (rank x) (rank y)) as H'.
    destruct (rank x) as [[a1 b1] c1], (rank y) as [[a2 b2] c2].
    destruct (lex (a1, b1, c1) (a2, b2, c2)); simpl in *; auto;
      destruct H as [H|H]; try (injection H; intros); lia.
Qed.

Lemma lex_lt_trans p q r : lex_lt p q -> lex_lt q r -> lex_lt p r.
Proof. destruct p as [[??]?], q as [[??]?], r as [[??]?]; simpl. lia. Qed.

Lemma lex_lt_total p q : lex_lt p q \/ p = q \/ lex_lt q p.
Proof.
  destruct p as [[a1 b1] c1], q as [[a2 b2] c2]; simpl.
  destruct (Z.lt_trichotomy a1 a2) as [|[->|]]; [lia| |lia].
  destruct (Z.lt_trichotomy b1 b2) as [|[->|]]; [lia| |lia].
  destruct (Z.lt_trichotomy c1 c2) as [|[->|]]; [lia|auto|lia].
Qed.

Lemma f64_le_trans x y z : f64_le x y = true -> f64_le y z = true -> f64_le x z = true.
Proof.
  rewrite !f64_le_rank. intros (?&?&[|E1]) (?&?&[|E2]); split_and!; try done.
  - left. by eapply lex_lt_trans.
  - rewrite <- E2. auto.
  - rewrite E1. auto.
  - rewrite E1. auto.
Qed.

Lemma f64_not_lt_le x y :
  is_nan x = false -> is_nan y = false -> f64_lt x y = false -> f64_le y x = true.
Proof.
  intros Hx Hy E. apply f64_le_rank. split_and!; [done..|].
  destruct (lex_lt_total (rank x) (rank y)) as [H|[H|H]]; [|by auto|by auto].
  assert (f64_lt x y = true) by (by apply f64_lt_rank). congruence.
Qed.

Lemma f64_lt_le x y : f64_lt x y = true -> f64_le x y = true.
Proof. rewrite f64_lt_rank, f64_le_rank. naive_solver. Qed.

Lemma f64_le_refl x : is_nan x = false -> f64_le x x = true.
Proof. intros Hx. apply f64_le_rank. auto. Qed.

(** [clamp] lands in its interval whenever the input is a number. *)
Lemma f64_clamp_range x lo hi :
  is_nan x = false -> f64_le lo hi = true ->
  f64_le lo (f64_clamp x lo hi) = true /\ f64_le (f64_clamp x lo hi) hi = true.
Proof.
  intros Hx Hlh. destruct (f64_le_not_nan _ _ Hlh) as [Hl Hh].
  unfold f64_clamp, f64_gt. fold (f64_lt hi x).
  destruct (f64_lt x lo) eqn:E1; [by split; [apply f64_le_refl|]|].
  destruct (f64_lt hi x) eqn:E2; [by split; [|apply f64_le_refl]|].
  split; by apply f64_not_lt_le.
Qed.

Lemma f64_max_ub x y :
  is_nan x = false -> is_nan y = false ->
  f64_le x (f64_max x y) = true /\ f64_le y (f64_max x y) = true.
Proof.
  intros Hx Hy. unfold f64_max. rewrite Hx, Hy.
  destruct (f64_lt x y) eqn:E.
  - split; [by apply f64_lt_le|by apply f64_le_refl].
  - split; [by apply f64_le_refl|by apply f64_not_lt_le].
Qed.

Lemma f64_as_range lo hi x : lo <= 0 <= hi -> lo <= f64_as lo hi x <= hi.
Proof. intros H. unfold f64_as. destruct x as [|[]| |]; lia. Qed.



(** ** Sorting by a floating-point key *)

Section SortKey.
Context {A : Type} (key : A -> f64).

Definition asc (a b : A) : comparison := f64_cmp (key a) (key b).
Definition desc (a b : A) : comparison := f64_cmp (key b) (key a).
Definition keyed (a : A) : Prop := is_nan (key a) = false.
Definition key_le (a b : A) : Prop := f64_le (key a) (key b) = true.

Lemma f64_cmp_not_gt x y : is_nan x = false -> is_nan y = false ->
  f64_cmp x y <> Gt -> f64_le x y = true.
Proof.
  intros Hx Hy. unfold f64_cmp. rewrite f64_le_cmp.
  destruct (partial_cmp x y) as [[]|] eqn:E; simpl; try naive_solver.
  apply partial_cmp_nan in E. destruct E; congruence.
Qed.

Lemma StronglySorted_keyed (R S : A -> A -> Prop) l :
  (forall a b, keyed a -> keyed b -> R a b -> S a b) ->
  Forall keyed l -> StronglySorted R l -> StronglySorted S l.
Proof.
  intros HRS Hk Hs. induction Hs as [|a l Hs IH Ha]; constructor;
    apply Forall_cons in Hk as [Hka Hk]; [by apply IH|].
  rewrite Forall_forall in *. intros x Hx. by apply HRS; [|apply Hk|apply Ha].
Qed.

Lemma sort_asc_sorted l : Forall keyed l -> StronglySorted key_le (sort_by asc l).
Proof.
  intros H. apply (StronglySorted_keyed (Prelude.not_gt asc)).
  - intros a b Ha Hb. by apply f64_cmp_not_gt.
  - by rewrite sort_by_perm.
  - apply (sort_by_sorted asc keyed); [|by intros x y z; apply f64_cmp_trans|done].
    intros x y Hx Hy. by apply f64_cmp_sym.
Qed.

Lemma sort_desc_sorted l : Forall keyed l -> StronglySorted (flip key_le) (sort_by desc l).
Proof.
  intros H. apply (StronglySorted_keyed (Prelude.not_gt desc)).
  - intros a b Ha Hb. by apply f64_cmp_not_gt.
  - by rewrite sort_by_perm.
  - apply (sort_by_sorted desc keyed); [| |done].
    + intros x y Hx Hy. by apply f64_cmp_sym.
    + intros x y z Hx Hy Hz H1 H2. by apply (f64_cmp_trans _ (key y)).
Qed.

(** Cutting a sorted list keeps its best elements. *)
Lemma StronglySorted_split (R : A -> A -> Prop) l l' :
  StronglySorted R (l ++ l') ->
  StronglySorted R l /\ StronglySorted R l' /\ Forall (fun a => Forall (R a) l') l.
Proof.
  induction l as [|a l IH]; simpl; intros H; [by split_and!; [constructor|..]|].
  inversion H as [|? ? H1 H2]; subst. apply Forall_app in H2 as [H2 H3].
  destruct (IH H1) as (Hs & Hs' & Hf). split_and!; [by constructor|done|by constructor].
Qed.

(** The first [n] of a list sorted best first, and what they leave out. *)
Lemma take_best l n : StronglySorted (flip key_le) l ->
  StronglySorted (flip key_le) (take n l) /\
  exists left_out, take n l ++ left_out = l /\
    (left_out = [] \/ length (take n l) = n) /\
    Forall (fun p => Forall (key_le p) (take n l)) left_out.
Proof.
  intros Hs. rewrite <- (take_drop n l) in Hs.
  apply StronglySorted_split in Hs as (Hs & _ & Hf). split; [done|].
  exists (drop n l). rewrite take_drop. split; [done|]. split.
  - rewrite length_take. destruct (Nat.le_gt_cases n (length l)); [right; lia|left].
    apply drop_ge. lia.
  - rewrite Forall_forall in Hf. apply Forall_forall. intros p Hp. apply Forall_forall.
    intros x Hx. specialize (Hf x Hx). rewrite Forall_forall in Hf. by apply Hf.
Qed.
End SortKey.

(** ** Finite operands never give NaN *)

Lemma shr_1_nonneg r : 0 <= shr_m r -> 0 <= shr_m (shr_1 r).
Proof. destruct r as [[|[p|p|]|p] rr s]; simpl; lia. Qed.

Lemma iter_pos_ind {A} (f : A -> A) (P : A -> Prop) n :
  (forall x, P x -> P (f x)) -> forall x, P x -> P (SpecFloat.iter_pos f n x).
Proof. intros Hf. induction n as [n IH|n IH|]; intros x Hx; simpl; auto. Qed.

Lemma shr_fexp_nonneg m e l : 0 <= m -> 0 <= shr_m (shr_fexp prec emax m e l).1.
Proof.
  intros Hm. unfold shr_fexp, shr.
  assert (Hr : 0 <= shr_m (shr_record_of_loc m l)) by (by destruct l as [|[]]).
  destruct (_ - e); simpl; try done.
  by apply (iter_pos_ind shr_1 (fun r => 0 <= shr_m r)); [apply shr_1_nonneg|].
Qed.

Lemma round_aux_not_nan s m e l :
  0 <= m -> is_nan (binary_round_aux prec emax s m e l) = false.
Proof.
  intros Hm. unfold binary_round_aux.
  pose proof (shr_fexp_nonneg m e l Hm) as H1.
  destruct (shr_fexp prec emax m e l) as [r1 e1]. simpl in H1.
  assert (H2 : 0 <= round_nearest_even (shr_m r1) (loc_of_shr_record r1)).
  { unfold round_nearest_even. destruct (loc_of_shr_record r1) as [|[]]; try lia.
    destruct (Z.even _); lia. }
  pose proof (shr_fexp_nonneg _ e1 loc_Exact H2) as H3.
  destruct (shr_fexp prec emax _ e1 loc_Exact) as [r2 e2]. simpl in H3.
  destruct (shr_m r2); [done| |lia]. by destruct (_ <=? _).
Qed.

Lemma normalize_not_nan m e s : is_nan (binary_normalize prec emax m e s) = false.
Proof.
  destruct m as [|p|p]; simpl; [done|..]; unfold binary_round;
    destruct (shl_align _ _ _) as [mz ez]; by apply round_aux_not_nan.
Qed.

Lemma f64_of_Z_not_nan n : is_nan (f64_of_Z n) = false.
Proof. apply normalize_not_nan. Qed.

Lemma f64_mul_finite x y :
  is_finite x = true -> is_finite y = true -> is_nan (f64_mul x y) = false.
Proof. destruct x, y; try done; intros _ _; simpl. by apply round_aux_not_nan. Qed.

Lemma f64_add_finite x y :
  is_finite x = true -> is_finite y = true -> is_nan (f64_add x y) = false.
Proof.
  destruct x as [[]|[]| |], y as [[]|[]| |]; try done; intros _ _; apply normalize_not_nan.
Qed.

Lemma f64_div_finite x y :
  is_finite x = true -> is_finite y = true -> f64_eqb y f64_zero = false ->
  is_nan (f64_div x y) = false.
Proof.
  destruct x as [|[]| |sx mx ex], y as [|[]| |sy my ey]; try done; intros _ _ _. simpl.
  unfold f64_div, SFdiv, SFdiv_core_binary.
  set (m' := match _ with Z0 => _ | Z.pos _ => _ | Z.neg _ => _ end).
  assert (Hm : 0 <= m') by (subst m'; destruct (_ - _); [lia|apply Z.shiftl_nonneg; lia|lia]).
  destruct (Z.div_eucl m' (Z.pos my)) as [q r] eqn:Hd. apply round_aux_not_nan.
  change q with (q, r).1. rewrite <- Hd. change (Z.div_eucl m' (Z.pos my)).1 with (m' / Z.pos my).
  apply Z.div_pos; lia.
Qed.
