(* ===== verification/Types.v ===== *)
(** * Common types

    The data types of [crates/common/src/types.rs] that the components share,
    and the gas model of [crates/detector/src/gas.rs]. An address is its
    20-byte big-endian value, a [U256] an integer below [2 ^ 256]. *)

From Stdlib Require Import ZArith Lia String.
From S2P Require Import Prelude.
From S2P Require Import Machine.
From S2P Require Import F64.
From stdpp Require Import base option numbers countable strings gmap list.

Local Open Scope Z_scope.

Inductive ProtocolType : Type :=
| UniswapV2 | UniswapV3 | SushiSwap | Curve | BalancerV2 | BancorV3 | BalancerV3.

#[export] Instance ProtocolType_eq_dec : EqDecision ProtocolType.
Proof. solve_decision. Defined.

(** [repr(u8)]: the on-chain code of a protocol. *)
Definition protocol_code (p : ProtocolType) : Z :=
  match p with
  | UniswapV2 => 1 | UniswapV3 => 2 | SushiSwap => 3 | Curve => 4
  | BalancerV2 => 5 | BancorV3 => 6 | BalancerV3 => 7
  end.

Definition protocol_of_code (c : Z) : option ProtocolType :=
  if c =? 1 then Some UniswapV2 else if c =? 2 then Some UniswapV3
  else if c =? 3 then Some SushiSwap else if c =? 4 then Some Curve
  else if c =? 5 then Some BalancerV2 else if c =? 6 then Some BancorV3
  else if c =? 7 then Some BalancerV3 else None.

#[export] Instance ProtocolType_countable : Countable ProtocolType.
Proof. apply (inj_countable protocol_code protocol_of_code). by intros []. Defined.

Definition base_gas (p : ProtocolType) : Z :=
  match p with
  | UniswapV2 => 60000
  | UniswapV3 => 180000
  | SushiSwap => 60000
  | Curve => 130000
  | BalancerV2 => 120000
  | BancorV3 => 150000
  | BalancerV3 => 120000
  end.

Abbreviation Address := Z (only parsing).

Module addresses.
Definition WETH : Address := 0xC02aaA39b223FE8D0A0e5C4F27eAD9083C756Cc2.
Definition USDC : Address := 0xA0b86991c6218b36c1d19D4a2e9Eb0cE3606eB48.
Definition USDT : Address := 0xdAC17F958D2ee523a2206206994597C13D831ec7.
Definition DAI : Address := 0x6B175474E89094C44Da98b954EedeAC495271d0F.
Definition WBTC : Address := 0x2260FAC5E5542a773Aa44fBCfeDf7C193bc2C599.
End addresses.

(** [Address::ZERO]. *)
Definition zero_address : Address := 0.

Definition known_token_decimals (addr : Address) : option Z :=
  if addr =? addresses.WETH then Some 18
  else if addr =? addresses.USDC then Some 6
  else if addr =? addresses.USDT then Some 6
  else if addr =? addresses.DAI then Some 18
  else if addr =? addresses.WBTC then Some 8
  else None.

Definition erc20_balance_slot_for_token (addr : Address) : option Z :=
  if addr =? addresses.WETH then Some 3
  else if addr =? addresses.USDC then Some 9
  else if (addr =? addresses.DAI) || (addr =? addresses.USDT) then Some 2
  else None.

Record PoolId : Type := mkPoolId { pid_address : Address; pid_protocol : ProtocolType }.

#[export] Instance PoolId_eq_dec : EqDecision PoolId.
Proof. solve_decision. Defined.
#[export] Instance PoolId_countable : Countable PoolId.
Proof.
  apply (inj_countable' (fun i => (pid_address i, pid_protocol i)) (fun p => mkPoolId p.1 p.2)).
  by intros [].
Defined.

Inductive PoolTier : Type := Hot | Warm | Cold.
#[export] Instance PoolTier_eq_dec : EqDecision PoolTier.
Proof. solve_decision. Defined.

Record ArbHop : Type := mkArbHop {
  hop_protocol : ProtocolType;
  hop_pool_address : Address;
  hop_token_in : Address;
  hop_token_out : Address;
  hop_amount_in : Z;
  hop_expected_out : Z;
  hop_estimated_gas : Z;
}.

Record SwapStep : Type := mkSwapStep {
  step_protocol : ProtocolType;
  step_pool_address : Address;
  step_token_in : Address;
  step_token_out : Address;
  step_amount_in : Z;
  step_min_amount_out : Z;
  step_calldata : list Z;
}.

Record ArbOpportunity : Type := mkArbOpportunity {
  opp_id : string;
  opp_hops : list ArbHop;
  opp_total_profit_wei : Z;
  opp_total_gas : Z;
  opp_gas_cost_wei : Z;
  opp_net_profit_wei : Z;
  opp_block_number : Z;
  opp_timestamp_ns : Z;
}.

Record ValidatedArb : Type := mkValidatedArb {
  arb_id : string;
  arb_hops : list ArbHop;
  arb_steps : list SwapStep;
  arb_total_profit_wei : Z;
  arb_total_gas : Z;
  arb_gas_cost_wei : Z;
  arb_net_profit_wei : Z;
  arb_block_number : Z;
  arb_timestamp_ns : Z;
  arb_flashloan_token : Address;
  arb_flashloan_amount : Z;
  arb_calldata : list Z;
}.

Record SimulationResult : Type := mkSimulationResult {
  sim_success : bool;
  sim_profit_wei : Z;
  sim_gas_used : Z;
  sim_revert_reason : option string;
}.

Inductive NodeState : Type := Connected | Healthy | Degraded | Reconnecting | Failed.
#[export] Instance NodeState_eq_dec : EqDecision NodeState.
Proof. solve_decision. Defined.

(** ** Gas *)

Definition FLASHLOAN_BASE_GAS : Z := 80000.
Definition TX_BASE_GAS : Z := 21000.
Definition EXECUTOR_OVERHEAD_GAS : Z := 30000.
Definition UNIV3_PER_TICK_GAS : Z := 5000.

Section Gas.
Context `{B : Build}.

(** [extra_ticks] is a [u32]. *)
Definition estimate_swap_gas (protocol : ProtocolType) (extra_ticks : Z) : outcome Z :=
  let base := base_gas protocol in
  match protocol with
  | UniswapV3 => t ← u64_mul extra_ticks UNIV3_PER_TICK_GAS; u64_add base t
  | _ => Ret base
  end.

Fixpoint add_swap_gas (total : Z) (i : nat) (protocols : list ProtocolType)
    (tick_counts : list Z) : outcome Z :=
  match protocols with
  | [] => Ret total
  | p :: ps =>
      let ticks := default 0 (tick_counts !! i) in
      g ← estimate_swap_gas p ticks;
      total' ← u64_add total g;
      add_swap_gas total' (S i) ps tick_counts
  end.

Definition estimate_total_gas (protocols : list ProtocolType) (tick_counts : list Z) : outcome Z :=
  t1 ← u64_add TX_BASE_GAS FLASHLOAN_BASE_GAS;
  t2 ← u64_add t1 EXECUTOR_OVERHEAD_GAS;
  add_swap_gas t2 0 protocols tick_counts.

(** [(gas_units as f64 * gas_price_gwei * 1e9) as u128]. *)
Definition gas_cost_wei (gas_units : Z) (gas_price_gwei : f64) : Z :=
  f64_as_u128 (f64_mul (f64_mul (f64_of_Z gas_units) gas_price_gwei) (f64_of_Z 1000000000)).

(** The sum the estimate stands for, over unbounded integers. *)
Definition swap_gas_spec (p : ProtocolType) (ticks : Z) : Z :=
  base_gas p + (if decide (p = UniswapV3) then ticks * UNIV3_PER_TICK_GAS else 0).
Fixpoint route_gas_spec (i : nat) (ps : list ProtocolType) (ticks : list Z) : Z :=
  match ps with
  | [] => 0
  | p :: ps => swap_gas_spec p (default 0 (ticks !! i)) + route_gas_spec (S i) ps ticks
  end.

Lemma swap_gas_spec_bounds p t : in_u 32 t -> 0 <= swap_gas_spec p t <= 180000 + 2 ^ 32 * 5000.
Proof. unfold swap_gas_spec, UNIV3_PER_TICK_GAS. range. intros H. destruct p; simpl; lia. Qed.

Lemma estimate_swap_gas_exact p t :
  in_u 32 t -> estimate_swap_gas p t = Ret (swap_gas_spec p t).
Proof.
  intros H. unfold estimate_swap_gas, swap_gas_spec. destruct p; simpl; try done.
  unfold UNIV3_PER_TICK_GAS. rewrite u64_mul_exact by (range; lia). simpl.
  rewrite u64_add_exact by (range; lia). done.
Qed.

Lemma add_swap_gas_exact ps : forall total i ticks,
  Forall (in_u 32) ticks ->
  0 <= total -> total + Z.of_nat (length ps) * (180000 + 2 ^ 32 * 5000) < 2 ^ 64 ->
  add_swap_gas total i ps ticks = Ret (total + route_gas_spec i ps ticks).
Proof.
  induction ps as [|p ps IH]; intros total i ticks Ht H0 Hb; simpl.
  { f_equal; lia. }
  assert (Hti : in_u 32 (default 0 (ticks !! i))).
  { destruct (ticks !! i) eqn:E; simpl; [|range; lia].
    eapply Forall_lookup_1 in E; [done|apply Ht]. }
  pose proof (swap_gas_spec_bounds p _ Hti) as Hg.
  rewrite estimate_swap_gas_exact by done. simpl in *.
  rewrite u64_add_exact by (range; lia). simpl.
  rewrite IH by (done || range; lia). f_equal; lia.
Qed.

(** The estimate of a route of up to a thousand hops does not overflow. *)
Lemma estimate_total_gas_exact ps ticks : Forall (in_u 32) ticks -> Z.of_nat (length ps) <= 1000 ->
  estimate_total_gas ps ticks = Ret (131000 + route_gas_spec 0 ps ticks).
Proof.
  intros Ht Hn. unfold estimate_total_gas, TX_BASE_GAS, FLASHLOAN_BASE_GAS, EXECUTOR_OVERHEAD_GAS.
  rewrite u64_add_exact by (range; lia). cbn [mbind outcome_bind].
  rewrite u64_add_exact by (range; lia). cbn [mbind outcome_bind].
  by rewrite add_swap_gas_exact by (done || range; lia).
Qed.
End Gas.
