(* ===== verification/Bytes.v ===== *)
(** * Bytes and ABI words

    Byte strings as lists of integers below 256, big-endian values, slices,
    and the 32-byte words of the contract ABI. *)

From Stdlib Require Import ZArith Lia.
From S2P Require Import Prelude.
From S2P Require Import Machine.
From S2P Require Import Types.
From stdpp Require Import base option numbers list.

Local Open Scope Z_scope.

(** Big-endian value, and the [n]-byte big-endian form of a value. *)
Definition be (l : list Z) : Z := foldl (fun acc b => acc * 256 + b) 0 l.
Fixpoint to_be (n : nat) (v : Z) : list Z :=
  match n with
  | O => []
  | S n => to_be n (v / 256) ++ [v mod 256]
  end.

(** [&data[a..b]] panics out of range. *)
Definition slice (l : list Z) (a b : nat) : outcome (list Z) :=
  if (b <=? length l)%nat then Ret (take (b - a) (drop a l)) else Panic.

(** [Address::from_slice(&topic[12..])]. *)
Definition topic_address (topic : Z) : Address := topic mod 2 ^ 160.

Lemma length_to_be n : forall v, length (to_be n v) = n.
Proof. induction n as [|n IH]; intros v; simpl; [done|]. rewrite length_app, IH. simpl. lia. Qed.

Lemma be_snoc l b : be (l ++ [b]) = be l * 256 + b.
Proof. unfold be. by rewrite foldl_app. Qed.

Lemma be_app l1 l2 : be (l1 ++ l2) = be l1 * 256 ^ Z.of_nat (length l2) + be l2.
Proof.
  induction l2 as [|b l2 IH] using rev_ind.
  { rewrite app_nil_r. change (be []) with 0. change (256 ^ Z.of_nat (length [])) with 1. lia. }
  rewrite app_assoc, !be_snoc, IH, length_app.
  rewrite Nat2Z.inj_add, Z.pow_add_r by lia. change (256 ^ Z.of_nat (length [b])) with 256. lia.
Qed.

Lemma be_to_be n : forall v, be (to_be n v) = v mod 256 ^ Z.of_nat n.
Proof.
  induction n as [|n IH]; intros v; simpl to_be.
  { change (256 ^ Z.of_nat 0) with 1. by rewrite Z.mod_1_r. }
  rewrite be_snoc, IH, Nat2Z.inj_succ, Z.pow_succ_r by lia.
  rewrite (Z.rem_mul_r v 256) by (try apply Z.pow_pos_nonneg; lia). lia.
Qed.

Lemma take_to_be n k : forall v, (k <= n)%nat ->
  take k (to_be n v) = to_be k (v / 256 ^ Z.of_nat (n - k)).
Proof.
  induction n as [|n IH]; intros v Hk; [by destruct k; [|lia]|].
  destruct (decide (k = S n)) as [->|Hne].
  { rewrite Nat.sub_diag, take_ge by (rewrite length_to_be; lia). by rewrite Z.div_1_r. }
  simpl to_be. rewrite take_app_le by (rewrite length_to_be; lia). rewrite IH by lia.
  rewrite Z.div_div by (try apply Z.pow_pos_nonneg; lia). do 2 f_equal.
  replace (Z.of_nat (S n - k)) with (Z.succ (Z.of_nat (n - k))) by lia.
  by rewrite Z.pow_succ_r by lia.
Qed.

(** ** ABI words *)

(** An ABI word: the 256-bit two's complement form. *)
Definition word (v : Z) : list Z := to_be 32 (v mod 2 ^ 256).
Definition words (vs : list Z) : list Z := mjoin (word <$> vs).

Lemma length_word v : length (word v) = 32%nat.
Proof. apply length_to_be. Qed.

Lemma be_word v : 0 <= v < 2 ^ 256 -> be (word v) = v.
Proof.
  intros H. unfold word. rewrite be_to_be. change (256 ^ Z.of_nat 32) with (2 ^ 256).
  by rewrite !Z.mod_small by (rewrite ?Z.mod_small by lia; lia).
Qed.

Lemma words_cons v vs : words (v :: vs) = word v ++ words vs.
Proof. done. Qed.

Lemma length_words vs : length (words vs) = (32 * length vs)%nat.
Proof.
  induction vs as [|v vs IH]; [done|].
  rewrite words_cons, length_app, length_word, IH. simpl length. lia.
Qed.

(** The word at index [i]. *)
Lemma slice_words vs : forall i v, vs !! i = Some v ->
  slice (words vs) (32 * i) (32 * i + 32) = Ret (word v).
Proof.
  induction vs as [|x vs IH]; intros i v H; [done|].
  unfold slice. rewrite length_words, words_cons.
  pose proof (lookup_lt_Some _ _ _ H) as Hlt. simpl length in Hlt |- *.
  rewrite (proj2 (Nat.leb_le _ _)) by lia.
  replace (32 * i + 32 - 32 * i)%nat with 32%nat by lia.
  destruct i as [|i].
  - injection H as ->. rewrite Nat.mul_0_r, drop_0, take_app_le by (rewrite length_word; lia).
    by rewrite take_ge by (rewrite length_word; lia).
  - rewrite drop_app_ge by (rewrite length_word; lia). rewrite length_word.
    specialize (IH i v H). unfold slice in IH. rewrite length_words in IH.
    rewrite (proj2 (Nat.leb_le _ _)) in IH by (apply lookup_lt_Some in H; lia).
    replace (32 * S i - 32)%nat with (32 * i)%nat by lia.
    by replace (32 * i + 32 - 32 * i)%nat with 32%nat in IH by lia.
Qed.

Lemma slice_word_at vs i a b v : vs !! i = Some v -> a = (32 * i)%nat -> b = (32 * i + 32)%nat ->
  slice (words vs) a b = Ret (word v).
Proof. intros H -> ->. by apply slice_words. Qed.

Lemma drop_to_be k : forall n v, drop n (to_be (n + k) v) = to_be k v.
Proof.
  induction k as [|k IH]; intros n v.
  { rewrite Nat.add_0_r, drop_ge; [done|by rewrite length_to_be]. }
  rewrite Nat.add_succ_r. simpl to_be. rewrite drop_app_le by (rewrite length_to_be; lia).
  by rewrite IH.
Qed.

Lemma slice_in l a b : (b <= length l)%nat -> slice l a b = Ret (take (b - a) (drop a l)).
Proof. intros H. unfold slice. by rewrite (proj2 (Nat.leb_le _ _) H). Qed.

Definition is_byte (b : Z) : Prop := 0 <= b < 256.

Lemma be_nonneg l : Forall is_byte l -> 0 <= be l.
Proof.
  induction l as [|b l IH] using rev_ind; intros H; [done|].
  apply Forall_app in H as [Hl Hb]. apply Forall_cons in Hb as [Hb _].
  rewrite be_snoc. specialize (IH Hl). unfold is_byte in Hb. lia.
Qed.

Lemma be_bounds l : Forall is_byte l -> 0 <= be l < 256 ^ Z.of_nat (length l).
Proof.
  induction l as [|b l IH] using rev_ind; intros H; [done|].
  apply Forall_app in H as [Hl Hb]. apply Forall_cons in Hb as [Hb _].
  rewrite be_snoc, length_app. specialize (IH Hl). unfold is_byte in Hb.
  replace (Z.of_nat (length l + length [b])) with (Z.of_nat (length l) + 1) by (simpl; lia).
  rewrite Z.pow_add_r by lia. lia.
Qed.
