(* ===== verification/Keccak.v ===== *)
(** * Keccak-256

    The hash that names contract functions, events and storage slots. The code
    calls the implementation of the alloy crate, so the models take a [Keccak]
    instance. [keccak_reference] is the published function (the sponge over
    Keccak-f[1600] with rate 1088 and the original padding); it instantiates
    the class where a statement is evaluated on concrete input. *)

From Stdlib Require Import ZArith Lia String Ascii.
From S2P Require Import Prelude.
From S2P Require Import Machine.
From S2P Require Import Types.
From S2P Require Import Bytes.
From stdpp Require Import base option numbers strings list.

Local Open Scope Z_scope.

Class Keccak : Type := { keccak256 : list Z -> Z }.

(** The bytes of an ASCII string. *)
Definition string_bytes (s : string) : list Z :=
  (fun c => Z.of_nat (nat_of_ascii c)) <$> list_ascii_of_string s.

Module Reference.

Definition lane_mask : Z := 2 ^ 64 - 1.
Definition rotl (x n : Z) : Z :=
  Z.land (Z.lor (Z.shiftl x n) (Z.shiftr x (64 - n))) lane_mask.
Definition lane (a : list Z) (i : nat) : Z := nth i a 0.

Definition round_constants : list Z :=
  [0x0000000000000001; 0x0000000000008082; 0x800000000000808A; 0x8000000080008000;
   0x000000000000808B; 0x0000000080000001; 0x8000000080008081; 0x8000000000008009;
   0x000000000000008A; 0x0000000000000088; 0x0000000080008009; 0x000000008000000A;
   0x000000008000808B; 0x800000000000008B; 0x8000000000008089; 0x8000000000008003;
   0x8000000000008002; 0x8000000000000080; 0x000000000000800A; 0x800000008000000A;
   0x8000000080008081; 0x8000000000008080; 0x0000000080000001; 0x8000000080008008].

(** Rotation offsets, lane [x + 5 * y] first to last. *)
Definition offsets : list Z :=
  [0; 1; 62; 28; 27; 36; 44; 6; 55; 20; 3; 10; 43; 25; 39; 41; 45; 15; 21; 8; 18; 2; 61; 56; 14].

Definition theta (a : list Z) : list Z :=
  let c := (fun x => Z.lxor (lane a x) (Z.lxor (lane a (x + 5)) (Z.lxor (lane a (x + 10))
                      (Z.lxor (lane a (x + 15)) (lane a (x + 20)))))) <$> seq 0 5 in
  let d := (fun x => Z.lxor (lane c ((x + 4) mod 5)) (rotl (lane c ((x + 1) mod 5)) 1))
             <$> seq 0 5 in
  (fun i => Z.lxor (lane a i) (lane d (i mod 5))) <$> seq 0 25.

(** Lane [(x, y)] of the result is the rotated lane [(x + 3 * y, x)]. *)
Definition rho_pi (a : list Z) : list Z :=
  (fun i => let x := (i mod 5)%nat in let y := (i / 5)%nat in
            let j := ((x + 3 * y) mod 5 + 5 * x)%nat in
            rotl (lane a j) (nth j offsets 0)) <$> seq 0 25.

Definition chi (b : list Z) : list Z :=
  (fun i => let x := (i mod 5)%nat in let r := (5 * (i / 5))%nat in
            Z.lxor (lane b i)
              (Z.land (Z.lxor (lane b (r + (x + 1) mod 5)) lane_mask)
                      (lane b (r + (x + 2) mod 5)))) <$> seq 0 25.

Definition iota (rc : Z) (a : list Z) : list Z :=
  match a with [] => [] | l :: a => Z.lxor l rc :: a end.

Definition keccak_f (a : list Z) : list Z :=
  foldl (fun a rc => iota rc (chi (rho_pi (theta a)))) a round_constants.

Definition rate : nat := 136.

(** The original padding: [0x01], zeros, and [0x80] in the last byte. *)
Definition pad (msg : list Z) : list Z :=
  let q := (rate - length msg mod rate)%nat in
  msg ++ (if (q =? 1)%nat then [0x81] else 1 :: repeat 0 (q - 2) ++ [0x80]).

(** The [n] little-endian lanes of a block. *)
Fixpoint block_lanes (n : nat) (bs : list Z) : list Z :=
  match n with
  | O => []
  | S n => be (rev (take 8 bs)) :: block_lanes n (drop 8 bs)
  end.

Fixpoint absorb (blocks : nat) (bs a : list Z) : list Z :=
  match blocks with
  | O => a
  | S n =>
      let block := block_lanes 17 (take rate bs) ++ repeat 0 8 in
      absorb n (drop rate bs) (keccak_f (zip_with Z.lxor a block))
  end.

Definition digest (msg : list Z) : list Z :=
  let p := pad msg in
  let a := absorb (length p / rate) p (repeat 0 25) in
  mjoin ((fun l => rev (to_be 8 l)) <$> take 4 a).
End Reference.

Definition keccak_reference : Keccak := {| keccak256 msg := be (Reference.digest msg) |}.

(** The digest of the empty string, and the selector of the ERC-20
    [transfer]. *)
Example digest_empty :
  keccak256 (Keccak:=keccak_reference) []
  = 0xc5d2460186f7233c927e7db2dcc703c0e500b653ca82273b7bfad8045d85a470.
Proof. vm_compute. reflexivity. Qed.

Example digest_transfer :
  take 4 (to_be 32 (keccak256 (Keccak:=keccak_reference)
                      (string_bytes "transfer(address,uint256)"))) = [0xa9; 0x05; 0x9c; 0xbb].
Proof. vm_compute. reflexivity. Qed.
