(* ===== verification/Abi.v ===== *)
(** * The contract ABI

    Types and values of the Solidity ABI, the encoding the ABI specification
    defines, and what the code relies on from the alloy crate: [SolAbi] is its
    decoder, whose documented behaviour is to invert the encoding, and a
    function's selector is the first four bytes of the Keccak-256 digest of its
    signature. [abi_reference] is a decoder with that behaviour. *)

From Stdlib Require Import ZArith Lia String.
From S2P Require Import Prelude.
From S2P Require Import Machine.
From S2P Require Import Types.
From S2P Require Import Bytes.
From S2P Require Import Keccak.
From stdpp Require Import base option numbers strings pretty list.

Local Open Scope Z_scope.

#[warnings="-register-all"]
Inductive sol : Type :=
| SUint (bits : N)
| SInt (bits : N)
| SAddress
| SBool
| SBytes32
| SBytes
| SArray (t : sol)
| STuple (ts : list sol).

(** Structural induction that reaches the components of a tuple. *)
Lemma sol_nested_ind (P : sol -> Prop)
    (Huint : forall n, P (SUint n)) (Hint : forall n, P (SInt n)) (Haddr : P SAddress)
    (Hbool : P SBool) (Hb32 : P SBytes32) (Hbytes : P SBytes)
    (Harr : forall t, P t -> P (SArray t)) (Htup : forall ts, Forall P ts -> P (STuple ts)) :
  forall t, P t.
Proof.
  fix IH 1. intros [n|n| | | | |t|ts].
  1-7: clear Htup; first [apply Huint|apply Hint|apply Harr, IH|assumption].
  apply Htup. induction ts as [|t ts IHts]; constructor; [apply IH|exact IHts].
Qed.

(** The Rust type of a value: integers and addresses as integers, byte strings
    as lists of bytes, a tuple or a parameter list as a nested pair. *)
Fixpoint denote (t : sol) : Type :=
  match t with
  | SBool => bool
  | SBytes => list Z
  | SArray t => list (denote t)
  | STuple ts =>
      (fix go (ts : list sol) : Type :=
         match ts with [] => unit | t :: ts => (denote t * go ts)%type end) ts
  | _ => Z
  end.

Abbreviation params ts := (denote (STuple ts)) (only parsing).

(** ** Signatures *)

Fixpoint sol_name (t : sol) : string :=
  match t with
  | SUint n => "uint" +:+ pretty n
  | SInt n => "int" +:+ pretty n
  | SAddress => "address"
  | SBool => "bool"
  | SBytes32 => "bytes32"
  | SBytes => "bytes"
  | SArray t => sol_name t +:+ "[]"
  | STuple ts => "(" +:+ String.concat "," (map sol_name ts) +:+ ")"
  end.

(** [name(type,...)]. *)
Definition signature (name : string) (ts : list sol) : string := name +:+ sol_name (STuple ts).

(** [SolCall::SELECTOR]. *)
Definition selector_of `{Keccak} (name : string) (ts : list sol) : list Z :=
  take 4 (to_be 32 (keccak256 (string_bytes (signature name ts)))).

Lemma length_selector `{Keccak} name ts : length (selector_of name ts) = 4%nat.
Proof. unfold selector_of. by rewrite length_take, length_to_be. Qed.

(** ** Encoding *)

(** Types whose encoding has no fixed size: their place in a tuple holds an
    offset. *)
Fixpoint dynamic (t : sol) : bool :=
  match t with
  | SBytes | SArray _ => true
  | STuple ts => existsb dynamic ts
  | _ => false
  end.

(** Bytes a value of the type takes in the head of a tuple. *)
Fixpoint static_size (t : sol) : nat :=
  match t with
  | STuple ts => sum_list (map static_size ts)
  | _ => 32
  end.
Definition head_size (t : sol) : nat := if dynamic t then 32%nat else static_size t.

(** A component of a tuple: whether it is dynamic, and its encoding. *)
Definition part : Type := bool * list Z.

Definition part_head (p : part) : nat := if p.1 then 32%nat else length p.2.
Fixpoint heads (off : nat) (ps : list part) : list Z :=
  match ps with
  | [] => []
  | (true, b) :: ps => word (Z.of_nat off) ++ heads (off + length b) ps
  | (false, b) :: ps => b ++ heads off ps
  end.
Definition tails (ps : list part) : list Z := mjoin ((fun p : part => if p.1 then p.2 else []) <$> ps).

(** Heads first, each dynamic component by the offset of its tail. *)
Definition layout (ps : list part) : list Z :=
  heads (sum_list (part_head <$> ps)) ps ++ tails ps.

(** Zero padding to a multiple of 32 bytes. *)
Definition pad32 (bs : list Z) : list Z := bs ++ repeat 0 ((32 - length bs mod 32) mod 32).

Fixpoint encode (t : sol) : denote t -> list Z :=
  match t with
  | SBool => fun b => word (if b : bool then 1 else 0)
  | SBytes => fun bs => word (Z.of_nat (length bs)) ++ pad32 bs
  | SArray t => fun vs =>
      word (Z.of_nat (length vs)) ++ layout (map (fun v => (dynamic t, encode t v)) vs)
  | STuple ts => fun v =>
      layout ((fix go (ts : list sol) : params ts -> list part :=
         match ts with
         | [] => fun _ => []
         | t :: ts => fun v => (dynamic t, encode t v.1) :: go ts v.2
         end) ts v)
  | _ => fun z => word z
  end.

(** The parts of a parameter list. *)
Fixpoint parts (ts : list sol) : params ts -> list part :=
  match ts with
  | [] => fun _ => []
  | t :: ts => fun v => (dynamic t, encode t v.1) :: parts ts v.2
  end.

Lemma encode_tuple ts (v : params ts) : encode (STuple ts) v = layout (parts ts v).
Proof. done. Qed.

(** Values in the range of their type. *)
Fixpoint in_range (t : sol) : denote t -> Prop :=
  match t with
  | SUint n => fun z => 0 <= z < 2 ^ Z.of_N n /\ (n <= 256)%N
  | SInt n => fun z => - 2 ^ (Z.of_N n - 1) <= z < 2 ^ (Z.of_N n - 1) /\ (0 < n <= 256)%N
  | SAddress => fun z => 0 <= z < 2 ^ 160
  | SBool => fun _ => True
  | SBytes32 => fun z => 0 <= z < 2 ^ 256
  | SBytes => fun bs => Forall is_byte bs
  | SArray t => fun vs => Forall (in_range t) vs /\ Z.of_nat (length vs) < 2 ^ 256
  | STuple ts => fun v =>
      (fix go (ts : list sol) : params ts -> Prop :=
         match ts with
         | [] => fun _ => True
         | t :: ts => fun v => in_range t v.1 /\ go ts v.2
         end) ts v
  end.

(** A value that has an encoding: in range, and with lengths and offsets that
    fit a word. *)
Definition encodable (t : sol) (v : denote t) : Prop :=
  in_range t v /\ Z.of_nat (length (encode t v)) < 2 ^ 256.

(** The same test, computed. *)
Fixpoint in_rangeb (t : sol) : denote t -> bool :=
  match t with
  | SUint n => fun z => (0 <=? z) && (z <? 2 ^ Z.of_N n) && (n <=? 256)%N
  | SInt n => fun z => (- 2 ^ (Z.of_N n - 1) <=? z) && (z <? 2 ^ (Z.of_N n - 1))
                       && (0 <? n)%N && (n <=? 256)%N
  | SAddress => fun z => (0 <=? z) && (z <? 2 ^ 160)
  | SBool => fun _ => true
  | SBytes32 => fun z => (0 <=? z) && (z <? 2 ^ 256)
  | SBytes => forallb (fun b => (0 <=? b) && (b <? 256))
  | SArray t => fun vs => forallb (in_rangeb t) vs && (Z.of_nat (length vs) <? 2 ^ 256)
  | STuple ts => fun v =>
      (fix go (ts : list sol) : params ts -> bool :=
         match ts with
         | [] => fun _ => true
         | t :: ts => fun v => in_rangeb t v.1 && go ts v.2
         end) ts v
  end.

Definition encodableb (t : sol) (v : denote t) : bool :=
  in_rangeb t v && (Z.of_nat (length (encode t v)) <? 2 ^ 256).

Lemma in_rangeb_sound t : forall v, in_rangeb t v = true -> in_range t v.
Proof.
  induction t as [n|n| | | | |t IH|ts IH] using sol_nested_ind; intros v H;
    cbn [in_rangeb in_range] in *;
    rewrite ?andb_true_iff, ?Z.leb_le, ?Z.ltb_lt, ?N.leb_le, ?N.ltb_lt in H; try (by intuition).
  - apply List.Forall_forall. intros b Hb. apply (proj1 (List.forallb_forall _ _) H) in Hb.
    rewrite andb_true_iff, Z.leb_le, Z.ltb_lt in Hb. done.
  - destruct H as [H Hl]. split; [|done]. apply List.Forall_forall. intros w Hw.
    by apply IH, (proj1 (List.forallb_forall _ _) H).
  - induction IH as [|t ts Ht Hts IHts]; [done|].
    apply andb_true_iff in H as [H1 H2]. split; [by apply Ht|by apply IHts].
Qed.

Lemma encodableb_sound t v : encodableb t v = true -> encodable t v.
Proof.
  unfold encodableb. rewrite andb_true_iff, Z.ltb_lt. intros [H Hl].
  split; [by apply in_rangeb_sound|done].
Qed.

(** ** Decoding *)

(** The codec of the alloy crate: [SolCall::abi_encode], and
    [SolType::abi_decode_params] on an encoded parameter list and
    [SolCall::abi_decode] on calldata, with their documented behaviour. Input
    that is not an encoding decodes to an error text or to some value. *)
Class SolAbi `{Keccak} : Type := {
  abi_encode_call : forall (name : string) ts, params ts -> list Z;
  abi_decode_params : forall ts, list Z -> string + params ts;
  abi_decode_call : forall (name : string) ts, list Z -> string + params ts;
  abi_encode_spec : forall name ts v,
    abi_encode_call name ts v = selector_of name ts ++ encode (STuple ts) v;
  abi_params_inverse : forall ts (v : params ts), encodable (STuple ts) v ->
    abi_decode_params ts (encode (STuple ts) v) = inr v;
  abi_call_inverse : forall name ts (v : params ts), encodable (STuple ts) v ->
    abi_decode_call name ts (selector_of name ts ++ encode (STuple ts) v) = inr v;
}.

(** ** A decoder *)

Module Decoder.

Definition word_at (b : list Z) (pos : nat) : option Z :=
  if (pos + 32 <=? length b)%nat then Some (be (take 32 (drop pos b))) else None.

(** The value that starts at [pos], or at the offset stored there. *)
Definition at_head {A} (dyn : bool) (dec : list Z -> option A) (b : list Z) (pos : nat)
    : option A :=
  if dyn then off ← word_at b pos; dec (drop (Z.to_nat off) b) else dec (drop pos b).

Fixpoint dec_many {A} (dyn : bool) (size : nat) (dec : list Z -> option A) (b : list Z)
    (n pos : nat) : option (list A) :=
  match n with
  | O => Some []
  | S n => v ← at_head dyn dec b pos;
           vs ← dec_many dyn size dec b n (pos + size); Some (v :: vs)
  end.

Fixpoint dec (t : sol) : list Z -> option (denote t) :=
  match t with
  | SInt n => fun b => to_signed (Z.of_N n) <$> word_at b 0
  | SBool => fun b => (fun w => negb (w =? 0)) <$> word_at b 0
  | SBytes => fun b =>
      n ← word_at b 0;
      if (32 + Z.to_nat n <=? length b)%nat then Some (take (Z.to_nat n) (drop 32 b)) else None
  | SArray t => fun b =>
      n ← word_at b 0; dec_many (dynamic t) (head_size t) (dec t) (drop 32 b) (Z.to_nat n) 0
  | STuple ts => fun b =>
      (fix go (ts : list sol) (pos : nat) : option (params ts) :=
         match ts with
         | [] => Some tt
         | t :: ts => v ← at_head (dynamic t) (dec t) b pos;
                      vs ← go ts (pos + head_size t)%nat; Some (v, vs)
         end) ts 0%nat
  | _ => fun b => word_at b 0
  end.

(** The tuple case, from any position. *)
Definition dec_params (b : list Z) : forall ts, nat -> option (params ts) :=
  fix go (ts : list sol) (pos : nat) : option (params ts) :=
    match ts with
    | [] => Some tt
    | t :: ts => v ← at_head (dynamic t) (dec t) b pos;
                 vs ← go ts (pos + head_size t)%nat; Some (v, vs)
    end.

Lemma dec_tuple ts b : dec (STuple ts) b = dec_params b ts 0.
Proof. done. Qed.

Lemma word_at_word pre v post : 0 <= v < 2 ^ 256 ->
  word_at (pre ++ word v ++ post) (length pre) = Some v.
Proof.
  intros Hv. unfold word_at. rewrite !length_app, length_word.
  rewrite (proj2 (Nat.leb_le _ _)) by lia.
  rewrite drop_app_length, take_app_length' by (by rewrite length_word). by rewrite be_word.
Qed.

Lemma word_at_0 v post : 0 <= v < 2 ^ 256 -> word_at (word v ++ post) 0 = Some v.
Proof. apply (word_at_word []). Qed.

(** A signed value is its word, read back at its width. *)
Lemma word_at_signed n v post :
  - 2 ^ (Z.of_N n - 1) <= v < 2 ^ (Z.of_N n - 1) -> (0 < n <= 256)%N ->
  to_signed (Z.of_N n) <$> word_at (word v ++ post) 0 = Some v.
Proof.
  intros Hv Hn. assert (Hw : word v = word (v mod 2 ^ 256)) by (unfold word; by rewrite Zmod_mod).
  rewrite Hw, word_at_0 by (apply Z.mod_pos_bound; lia). simpl. f_equal.
  unfold to_signed.
  assert (He : (v mod 2 ^ 256) mod 2 ^ Z.of_N n = v mod 2 ^ Z.of_N n).
  { apply Z.mod_mod_divide.
    exists (2 ^ (256 - Z.of_N n)). rewrite <- Z.pow_add_r by lia. f_equal. lia. }
  rewrite He.
  assert (Hp : 2 ^ Z.of_N n = 2 * 2 ^ (Z.of_N n - 1))
    by (rewrite <- Z.pow_succ_r by lia; f_equal; lia).
  destruct (Z.leb_spec 0 v).
  - rewrite Z.mod_small by lia. destruct (Z.ltb_spec v (2 ^ (Z.of_N n - 1))); lia.
  - rewrite <- (Z_mod_plus_full v 1), Z.mod_small by lia.
    destruct (Z.ltb_spec (v + 1 * 2 ^ Z.of_N n) (2 ^ (Z.of_N n - 1))); lia.
Qed.

(** The encoding of [v] followed by anything decodes to [v]. *)
Definition decodes (t : sol) : Prop :=
  forall (v : denote t) rest, encodable t v -> dec t (encode t v ++ rest) = Some v.

(** *** Components of a layout *)

Lemma length_heads ps : forall off, length (heads off ps) = sum_list (part_head <$> ps).
Proof.
  induction ps as [|[[] e] ps IH]; intros off; [done| |];
    rewrite fmap_cons; cbn [heads sum_list fmap]; rewrite length_app, IH, ?length_word; done.
Qed.

Lemma tails_cons d e ps : tails ((d, e) :: ps) = (if d : bool then e else []) ++ tails ps.
Proof. done. Qed.

Lemma part_in_layout ps d e : (d, e) ∈ ps -> (length e <= length (layout ps))%nat.
Proof.
  unfold layout. rewrite length_app, length_heads.
  induction ps as [|[d' e'] ps IH]; intros Hin; [by apply elem_of_nil in Hin|].
  rewrite tails_cons, length_app, fmap_cons. simpl sum_list.
  apply elem_of_cons in Hin as [[= <- <-]|Hin]; [|specialize (IH Hin); lia].
  unfold part_head. destruct d; simpl; lia.
Qed.

(** An array of dynamic elements is at least as long as its heads. *)
Lemma length_dynamic_array t vs : dynamic t = true ->
  (length vs <= length (encode (SArray t) vs))%nat.
Proof.
  intros Hd. cbn [encode]. unfold layout. rewrite !length_app, length_heads, Hd.
  assert (Hs : sum_list (part_head <$> map (fun v => (true, encode t v)) vs) = (32 * length vs)%nat).
  { induction vs as [|v vs IH]; [done|]. cbn [map]. rewrite fmap_cons.
    change (part_head (true, encode t v) :: ?l) with (32%nat :: l). cbn [sum_list_with id length].
    rewrite IH. lia. }
  lia.
Qed.

(** What is left to read of a layout: the heads of [ps] at [pos], and their
    tails where the offsets say. *)
Definition view (b : list Z) (pos : nat) (ps : list part) : Prop :=
  exists pre off mid post,
    b = pre ++ heads off ps ++ mid ++ tails ps ++ post /\ length pre = pos /\
    off = (length pre + length (heads off ps) + length mid)%nat /\
    Z.of_nat (off + length (tails ps)) < 2 ^ 256.

Lemma view_layout ps post : Z.of_nat (length (layout ps)) < 2 ^ 256 -> view (layout ps ++ post) 0 ps.
Proof.
  intros Hl. exists [], (sum_list (part_head <$> ps)), [], post.
  unfold layout in *. rewrite length_app, length_heads in Hl.
  rewrite length_heads. simpl. rewrite <- !app_assoc. repeat split; lia.
Qed.

Lemma view_cons b pos d e ps : view b pos ((d, e) :: ps) -> view b (pos + part_head (d, e)) ps.
Proof.
  intros (pre & off & mid & post & Hb & Hpos & Hoff & Hfit).
  rewrite tails_cons in Hb, Hfit. destruct d; cbn [heads app] in Hb, Hoff, Hfit; unfold part_head; cbn [fst snd].
  - exists (pre ++ word (Z.of_nat off)), (off + length e)%nat, (mid ++ e), post.
    rewrite Hb, <- !app_assoc, !length_app, length_word in *. repeat split; lia.
  - exists (pre ++ e), off, mid, post.
    rewrite Hb, <- !app_assoc, !length_app in *. repeat split; lia.
Qed.

(** The next component decodes from its head. *)
Lemma view_head {A} (dec : list Z -> option A) v b pos d e ps :
  (forall r, dec (e ++ r) = Some v) -> view b pos ((d, e) :: ps) -> at_head d dec b pos = Some v.
Proof.
  intros Hdec (pre & off & mid & post & Hb & <- & Hoff & Hfit).
  rewrite tails_cons in Hb, Hfit. destruct d; cbn [heads app] in Hb, Hoff, Hfit; unfold at_head; subst b.
  - rewrite <- (app_assoc (word _)), word_at_word by lia. cbn [mbind option_bind].
    rewrite Nat2Z.id.
    replace (pre ++ word (Z.of_nat off) ++ _) with
      ((pre ++ word (Z.of_nat off) ++ heads (off + length e) ps ++ mid) ++ e ++ tails ps ++ post)
      by (by rewrite <- !app_assoc).
    rewrite drop_app_length'; [apply Hdec|]. rewrite !length_app, length_word in *. lia.
  - by rewrite drop_app_length, <- app_assoc.
Qed.

(** *** Sizes of the heads *)

Lemma static_layout ps : (forall d e, (d, e) ∈ ps -> d = false) ->
  length (layout ps) = sum_list ((length ∘ snd) <$> ps).
Proof.
  intros Hs. unfold layout. rewrite length_app, length_heads.
  induction ps as [|[d e] ps IH]; [done|].
  rewrite tails_cons, length_app, !fmap_cons. simpl sum_list.
  rewrite (Hs d e) by left. unfold part_head at 1. simpl.
  rewrite <- IH by (intros d' e' H; apply (Hs d' e'); by right). lia.
Qed.

Lemma static_length t : dynamic t = false -> forall v, length (encode t v) = static_size t.
Proof.
  induction t as [n|n| | | | |t IH|ts IH] using sol_nested_ind; intros Hd v;
    try done; try apply length_word.
  rewrite encode_tuple. change (existsb dynamic ts = false) in Hd.
  assert ((forall d e, (d, e) ∈ parts ts v -> d = false) /\
               (length ∘ snd) <$> parts ts v = map static_size ts) as [H1 H2].
  { induction ts as [|t ts IHts].
    { split; [|done]. intros d e He. by apply elem_of_nil in He. }
    simpl in Hd. apply orb_false_iff in Hd as [Ht Hts]. apply Forall_cons in IH as [IHt IH].
    destruct (IHts IH Hts v.2) as [H1 H2]. split.
    - intros d e [[= -> _]|He]%elem_of_cons; [done|by apply (H1 d e)].
    - change (length (encode t v.1) :: ((length ∘ snd) <$> parts ts v.2)
              = static_size t :: map static_size ts). by rewrite H2, IHt. }
  rewrite static_layout by done. by rewrite H2.
Qed.

Lemma head_part t v : part_head (dynamic t, encode t v) = head_size t.
Proof.
  unfold part_head, head_size. destruct (dynamic t) eqn:E; [done|]. by apply static_length.
Qed.
(** *** The round trip *)

Lemma dec_many_encode t vs : forall b pos,
  (forall v, v ∈ vs -> forall r, dec t (encode t v ++ r) = Some v) ->
  view b pos (map (fun v => (dynamic t, encode t v)) vs) ->
  dec_many (dynamic t) (head_size t) (dec t) b (length vs) pos = Some vs.
Proof.
  induction vs as [|v vs IH]; intros b pos Hdec Hview; [done|].
  cbn [length dec_many]. rewrite (view_head _ v _ _ _ _ _ (Hdec v ltac:(left)) Hview).
  cbn [mbind option_bind]. apply view_cons in Hview. rewrite head_part in Hview.
  by rewrite (IH b _ (fun w Hw => Hdec w ltac:(by right)) Hview).
Qed.

Lemma dec_params_encode ts : Forall decodes ts -> forall (v : params ts) b pos,
  in_range (STuple ts) v -> (forall d e, (d, e) ∈ parts ts v -> Z.of_nat (length e) < 2 ^ 256) ->
  view b pos (parts ts v) -> dec_params b ts pos = Some v.
Proof.
  induction 1 as [|t ts Ht Hts IH]; intros v b pos Hr Hl Hview; [by destruct v|].
  destruct v as [v vs], Hr as [Hv Hvs]. cbn [dec_params].
  rewrite (view_head _ v _ _ _ _ _
             (fun r => Ht v r (conj Hv (Hl (dynamic t) _ ltac:(left)))) Hview).
  cbn [mbind option_bind]. apply view_cons in Hview. rewrite head_part in Hview.
  by rewrite (IH vs b _ Hvs (fun d e He => Hl d e ltac:(by right)) Hview).
Qed.

Lemma dec_bytes bs rest : encodable SBytes bs -> dec SBytes (encode SBytes bs ++ rest) = Some bs.
Proof.
  intros [_ Hl]. cbn [encode dec] in *. rewrite length_app, length_word in Hl.
  rewrite <- app_assoc, word_at_0 by (unfold pad32 in Hl; rewrite length_app in Hl; lia).
  cbn [mbind option_bind]. rewrite Nat2Z.id. unfold pad32. rewrite !length_app, length_word.
  rewrite (proj2 (Nat.leb_le _ _)) by lia.
  by rewrite drop_app_length' by (by rewrite length_word); rewrite <- app_assoc, take_app_length.
Qed.

Lemma dec_array t : decodes t -> decodes (SArray t).
Proof.
  intros Ht vs rest [Hr Hl]. cbn [encode dec] in *. rewrite length_app, length_word in Hl.
  destruct Hr as [Hr Hn]. rewrite <- app_assoc, word_at_0 by lia.
  cbn [mbind option_bind]. rewrite Nat2Z.id, drop_app_length' by (by rewrite length_word).
  apply dec_many_encode; [|by apply view_layout; lia].
  intros v Hv r. apply Ht. split; [by apply (proj1 (Forall_forall _ _) Hr)|].
  enough (length (encode t v) <= length (layout (map (fun v => (dynamic t, encode t v)) vs)))%nat
    by lia.
  apply (part_in_layout _ (dynamic t)). apply list_elem_of_In, in_map_iff.
  exists v. by rewrite <- list_elem_of_In.
Qed.

Lemma dec_tuple_encode ts : Forall decodes ts -> decodes (STuple ts).
Proof.
  intros Hts v rest [Hr Hl]. rewrite encode_tuple in *. rewrite dec_tuple.
  apply dec_params_encode; [done|done| |by apply view_layout].
  intros d e He. pose proof (part_in_layout _ _ _ He). lia.
Qed.

Lemma dec_encode t : decodes t.
Proof.
  induction t as [n|n| | | | |t IH|ts IH] using sol_nested_ind;
    [| | | | | |by apply dec_array|by apply dec_tuple_encode]; intros v rest [Hr Hl];
    cbn [in_range] in Hr; cbn [encode dec].
  - destruct Hr as [Hr Hn]. apply word_at_0.
    pose proof (Z.pow_le_mono_r 2 (Z.of_N n) 256). lia.
  - destruct Hr as [Hr Hn]. by apply word_at_signed.
  - apply word_at_0. lia.
  - rewrite word_at_0 by (destruct v; lia). by destruct v.
  - by apply word_at_0.
  - by apply dec_bytes.
Qed.
End Decoder.

Definition reference_params ts (b : list Z) : string + params ts :=
  match Decoder.dec (STuple ts) b with Some v => inr v | None => inl "buffer overrun" end%string.

(** Strip the selector and decode the parameters. *)
Definition reference_call `{Keccak} name ts (b : list Z) : string + params ts :=
  if decide (take 4 b = selector_of name ts) then reference_params ts (drop 4 b)
  else inl "type check failed"%string.

Lemma reference_params_inverse ts (v : params ts) : encodable (STuple ts) v ->
  reference_params ts (encode (STuple ts) v) = inr v.
Proof.
  intros Hv. pose proof (Decoder.dec_encode (STuple ts) v [] Hv) as E.
  unfold reference_params. rewrite app_nil_r in E. by rewrite E.
Qed.

Lemma reference_call_inverse `{Keccak} name ts (v : params ts) : encodable (STuple ts) v ->
  reference_call name ts (selector_of name ts ++ encode (STuple ts) v) = inr v.
Proof.
  intros Hv. unfold reference_call.
  rewrite take_app_length', drop_app_length' by (by rewrite length_selector).
  rewrite decide_True by done. by apply reference_params_inverse.
Qed.

Definition abi_reference `{Keccak} : SolAbi := {|
  abi_encode_call name ts v := selector_of name ts ++ encode (STuple ts) v;
  abi_decode_params := reference_params;
  abi_decode_call := reference_call;
  abi_encode_spec name ts v := eq_refl;
  abi_params_inverse := reference_params_inverse;
  abi_call_inverse := reference_call_inverse;
|}.
