(* ===== verification/Pool.v ===== *)
(** * The pool interface and its calldata

    The [Pool] trait of [crates/pools/src/lib.rs] as a type class, what every
    adapter promises its callers ([PoolLaws]), and the calldata builders of
    [crates/pools/src/swap_encode.rs] that the adapters share. The ABI
    serialiser is the alloy crate's; it is the operation of the class
    [AbiCodec], and the builders are modelled up to the call they hand to it. *)

From Stdlib Require Import ZArith Lia.
From S2P Require Import Prelude.
From S2P Require Import Machine.
From S2P Require Import Types.
From stdpp Require Import base option numbers list.

Local Open Scope Z_scope.

(** ** The trait *)

Class Pool (P : Type) : Type := {
  protocol : P -> ProtocolType;
  address : P -> Address;
  tokens : P -> list Address;
  fee_bps : P -> Z;
  get_amount_out : P -> Address -> Z -> outcome (option Z);
  get_amount_in : P -> Address -> Z -> outcome (option Z);
  update_state : P -> Z -> Z -> P;
  encode_swap : P -> Address -> Z -> Z -> list Z;
  liquidity_depth : P -> outcome Z;
}.

(** What every adapter promises, whatever its curve: a quote for nothing or
    for a token the pool does not hold is [None] (never a panic), and a state
    update changes neither the identity of the pool nor its token list, which
    the registry's indexes are keyed by. *)
Class PoolLaws (P : Type) `{Pool P} : Prop := {
  out_zero p t : get_amount_out p t 0 = Ret None;
  in_zero p t : get_amount_in p t 0 = Ret None;
  out_unknown p t a : t ∉ tokens p -> get_amount_out p t a = Ret None;
  in_unknown p t a : t ∉ tokens p -> get_amount_in p t a = Ret None;
  update_address p r0 r1 : address (update_state p r0 r1) = address p;
  update_protocol p r0 r1 : protocol (update_state p r0 r1) = protocol p;
  update_tokens p r0 r1 : tokens (update_state p r0 r1) = tokens p;
}.

(** ** Calls and their serialisation *)

(** The decoded form of the calls the [sol!] interfaces declare. A [bytes32]
    is its big-endian value. *)
Inductive SolCall : Type :=
| V2SwapCall (amount0Out amount1Out : Z) (to : Address) (data : list Z)
| V3SwapCall (recipient : Address) (zeroForOne : bool) (amountSpecified : Z)
    (sqrtPriceLimitX96 : Z) (data : list Z)
| CurveExchangeCall (i j dx min_dy : Z)
| BancorTradeCall (sourceToken targetToken : Address)
    (sourceAmount minReturnAmount deadline : Z) (beneficiary : Address)
| BalancerSwapCall (poolId kind : Z) (assetIn assetOut : Address) (amount : Z)
    (userData : list Z) (sender : Address) (fromInternalBalance : bool)
    (recipient : Address) (toInternalBalance : bool) (limit deadline : Z).

Class AbiCodec : Type := {
  abi_encode : SolCall -> list Z;
  abi_decode : list Z -> option SolCall;
}.

(** The calls as the adapters build them. *)

Definition univ2_swap_call (token0 token_in : Address) (min_out : Z) (to : Address) : SolCall :=
  let '(amount0_out, amount1_out) :=
    if token_in =? token0 then (0, min_out) else (min_out, 0) in
  V2SwapCall amount0_out amount1_out to [].

Definition univ3_swap_call (token0 token_in : Address) (amount_in : Z) (recipient : Address)
    : SolCall :=
  let zero_for_one := token_in =? token0 in
  (* [saturating_to::<u128>], which always fits an [I256] *)
  let amount_i256 := saturate 128 amount_in in
  let sqrt_limit := if zero_for_one then 4295128740 else 2 ^ 160 - 2 in
  let max_uint160 := 2 ^ 160 - 1 in
  let clamped := Z.min sqrt_limit max_uint160 in
  V3SwapCall recipient zero_for_one amount_i256 clamped [].

Definition curve_exchange_call (token_in : Address) (toks : list Address)
    (amount_in min_out : Z) : option SolCall :=
  if (length toks <? 2)%nat then None
  else
    match position (fun t => t =? token_in) toks with
    | None => None
    | Some i =>
        let j := if (i =? 0)%nat then 1 else 0 in
        Some (CurveExchangeCall (Z.of_nat i) j amount_in min_out)
    end.

Definition balancer_vault_swap_call (pool_address token_in token_out : Address)
    (amount_in min_out : Z) : SolCall :=
  BalancerSwapCall pool_address 0 token_in token_out amount_in []
    zero_address false zero_address false min_out u64_max.

Definition bancor_trade_call (token_in token_out : Address) (amount_in min_out : Z)
    (beneficiary : Address) : SolCall :=
  BancorTradeCall token_in token_out amount_in min_out u64_max beneficiary.

Section Encode.
Context `{C : AbiCodec}.

Definition encode_univ2_swap (token0 token_in : Address) (min_out : Z) (to : Address) : list Z :=
  abi_encode (univ2_swap_call token0 token_in min_out to).

Definition encode_univ3_swap (token0 token_in : Address) (amount_in : Z) (recipient : Address)
    : list Z :=
  abi_encode (univ3_swap_call token0 token_in amount_in recipient).

(** Empty calldata when the input token is not a coin of the pool. *)
Definition encode_curve_exchange (token_in : Address) (toks : list Address)
    (amount_in min_out : Z) : list Z :=
  match curve_exchange_call token_in toks amount_in min_out with
  | Some c => abi_encode c
  | None => []
  end.

Definition encode_balancer_vault_swap (pool_address token_in token_out : Address)
    (amount_in min_out : Z) : list Z :=
  abi_encode (balancer_vault_swap_call pool_address token_in token_out amount_in min_out).

Definition encode_bancor_trade (token_in token_out : Address) (amount_in min_out : Z)
    (beneficiary : Address) : list Z :=
  abi_encode (bancor_trade_call token_in token_out amount_in min_out beneficiary).
End Encode.

(** ** Constant-product arithmetic

    Facts on the curve [x * y = k] that the V2, Balancer (equal weights) and
    Bancor adapters share. *)

(** The output never reaches the output reserve. *)
Lemma cp_out_lt x y d : 0 < x -> 0 < y -> 0 <= d -> 0 <= y * d / (x + d) < y.
Proof.
  intros Hx Hy Hd. split; [apply Z.div_pos; nia|]. apply Z.div_lt_upper_bound; nia.
Qed.

(** Rounding the output down never decreases the product of the reserves. *)
Lemma cp_product_mono x y d : 0 < x -> 0 < y -> 0 <= d ->
  x * y <= (x + d) * (y - y * d / (x + d)).
Proof.
  intros Hx Hy Hd. pose proof (Z.mul_div_le (y * d) (x + d) ltac:(lia)). nia.
Qed.

(** An input that exceeds the exact inverse buys the output it was computed
    for. *)
Lemma cp_inverse x y dy d : 0 < x -> 0 <= d -> x * dy < (y - dy) * d -> dy <= y * d / (x + d).
Proof. intros Hx Hd H. apply Z.div_le_lower_bound; nia. Qed.

(** A proportional discount never increases a quote. *)
Lemma discount_le a m : 0 <= a -> 0 <= m <= 10000 -> 0 <= a * m / 10000 <= a.
Proof.
  intros Ha Hm. split; [apply Z.div_pos; nia|]. apply Z.div_le_upper_bound; nia.
Qed.
