(* ===== verification/UniswapV2.v ===== *)
(** * Uniswap V2 and SushiSwap pools

    [crates/pools/src/uniswap_v2.rs] and [crates/pools/src/sushiswap.rs]: the
    constant-product adapter and its SushiSwap wrapper. *)

From Stdlib Require Import ZArith Lia.
From S2P Require Import Prelude.
From S2P Require Import Machine.
From S2P Require Import Types.
From S2P Require Import Pool.
From stdpp Require Import base option numbers list.

Local Open Scope Z_scope.

Module UniswapV2Pool.

Record t : Type := mk {
  address : Address;
  token0 : Address;
  token1 : Address;
  reserve0 : Z;
  reserve1 : Z;
  fee_bps : Z;
}.

Definition new (address token0 token1 : Address) (fee_bps : Z) : t :=
  mk address token0 token1 0 0 fee_bps.

(** The pair of reserves seen from the input token. *)
Definition reserves_from (p : t) (token_in : Address) : option (Z * Z) :=
  if token_in =? token0 p then Some (reserve0 p, reserve1 p)
  else if token_in =? token1 p then Some (reserve1 p, reserve0 p)
  else None.

(** The pair of reserves seen from the output token. *)
Definition reserves_to (p : t) (token_out : Address) : option (Z * Z) :=
  if token_out =? token1 p then Some (reserve0 p, reserve1 p)
  else if token_out =? token0 p then Some (reserve1 p, reserve0 p)
  else None.

(** [10_000u64.saturating_sub(self.fee_bps as u64)]. *)
Definition fee_complement (p : t) : Z := u64_saturating_sub 10000 (fee_bps p).

Section Quotes.
Context `{B : Build}.

Definition get_amount_out (p : t) (token_in : Address) (amount_in : Z) : outcome (option Z) :=
  if amount_in =? 0 then Ret None
  else
    match reserves_from p token_in with
    | None => Ret None
    | Some (reserve_in, reserve_out) =>
        if (reserve_in =? 0) || (reserve_out =? 0) then Ret None
        else
          amount_in_with_fee ← u256_mul amount_in (fee_complement p);
          numerator ← u256_mul amount_in_with_fee reserve_out;
          scaled ← u256_mul reserve_in 10000;
          denominator ← u256_add scaled amount_in_with_fee;
          q ← u256_div numerator denominator;
          Ret (Some q)
    end.

Definition get_amount_in (p : t) (token_out : Address) (amount_out : Z) : outcome (option Z) :=
  if amount_out =? 0 then Ret None
  else
    match reserves_to p token_out with
    | None => Ret None
    | Some (reserve_in, reserve_out) =>
        if (reserve_in =? 0) || (reserve_out =? 0) then Ret None
        else if reserve_out <=? amount_out then Ret None
        else
          n1 ← u256_mul reserve_in amount_out;
          numerator ← u256_mul n1 10000;
          left ← u256_sub reserve_out amount_out;
          denominator ← u256_mul left (fee_complement p);
          q ← u256_div numerator denominator;
          r ← u256_add q 1;
          Ret (Some r)
    end.
End Quotes.

Definition update_state (p : t) (r0 r1 : Z) : t :=
  mk (address p) (token0 p) (token1 p) r0 r1 (fee_bps p).

Definition tokens (p : t) : list Address := [token0 p; token1 p].

Definition liquidity_depth (p : t) : Z := Z.min (reserve0 p) (reserve1 p).

#[global] Instance v2_pool `{B : Build} `{C : AbiCodec} : Pool t := {|
  Pool.protocol _ := UniswapV2;
  Pool.address := address;
  Pool.tokens := tokens;
  Pool.fee_bps := fee_bps;
  Pool.get_amount_out := get_amount_out;
  Pool.get_amount_in := get_amount_in;
  Pool.update_state := update_state;
  Pool.encode_swap p token_in _ min_out :=
    encode_univ2_swap (token0 p) token_in min_out zero_address;
  Pool.liquidity_depth p := Ret (liquidity_depth p);
|}.

(** ** Well-formed pools: the widths of the fields on chain and in Rust *)

Record wf (p : t) : Prop := {
  wf_reserve0 : in_u 112 (reserve0 p);
  wf_reserve1 : in_u 112 (reserve1 p);
  wf_fee : in_u 32 (fee_bps p);
}.

Lemma reserves_from_None p tk : reserves_from p tk = None <-> tk ∉ tokens p.
Proof.
  unfold reserves_from, tokens. rewrite !not_elem_of_cons.
  pose proof (not_elem_of_nil (A:=Z) tk).
  destruct (Z.eqb_spec tk (token0 p)), (Z.eqb_spec tk (token1 p)); naive_solver.
Qed.

Lemma reserves_to_None p tk : reserves_to p tk = None <-> tk ∉ tokens p.
Proof.
  unfold reserves_to, tokens. rewrite !not_elem_of_cons.
  pose proof (not_elem_of_nil (A:=Z) tk).
  destruct (Z.eqb_spec tk (token0 p)), (Z.eqb_spec tk (token1 p)); naive_solver.
Qed.

Lemma reserves_from_wf p tk x y : wf p -> reserves_from p tk = Some (x, y) -> in_u 112 x /\ in_u 112 y.
Proof. intros [] H. unfold reserves_from in H. repeat case_match; naive_solver. Qed.

Lemma reserves_to_wf p tk x y : wf p -> reserves_to p tk = Some (x, y) -> in_u 112 x /\ in_u 112 y.
Proof. intros [] H. unfold reserves_to in H. repeat case_match; naive_solver. Qed.

Lemma fee_complement_eq p : wf p -> fee_complement p = Z.max 0 (10000 - fee_bps p).
Proof. intros []. unfold fee_complement, u64_saturating_sub, saturate. range. lia. Qed.

#[global] Instance v2_laws `{B : Build} `{C : AbiCodec} : PoolLaws t.
Proof.
  split; simpl; try done; intros p tk a Hn.
  - unfold get_amount_out. apply reserves_from_None in Hn. rewrite Hn. by case_match.
  - unfold get_amount_in. apply reserves_to_None in Hn. rewrite Hn. by case_match.
Qed.

Section Facts.
Context `{B : Build}.

(** Inside the 112-bit range no step of the quote overflows, so it is the
    exact quotient in every build. *)
Lemma v2_amount_out_eq p tk a x y :
  wf p -> in_u 112 a -> 0 < a -> reserves_from p tk = Some (x, y) -> 0 < x -> 0 < y ->
  get_amount_out p tk a =
    Ret (Some (y * (a * fee_complement p) / (x * 10000 + a * fee_complement p))).
Proof.
  intros Hwf Ha Ha0 Hr Hx Hy.
  destruct (reserves_from_wf _ _ _ _ Hwf Hr) as [Hxw Hyw].
  unfold get_amount_out. rewrite Hr, (fee_complement_eq p Hwf).
  destruct Hwf as [_ _ Hf].
  set (f := Z.max 0 (10000 - fee_bps p)).
  assert (0 <= f <= 10000) by (subst f; range; lia). clearbody f.
  rewrite (proj2 (Z.eqb_neq a 0)), (proj2 (Z.eqb_neq x 0)), (proj2 (Z.eqb_neq y 0)) by lia.
  simpl.
  pose proof (mul_bound a f (2 ^ 112) 10000 ltac:(range; lia) ltac:(lia)).
  pose proof (mul_bound (a * f) y (2 ^ 112 * 10000) (2 ^ 112) ltac:(lia) ltac:(range; lia)).
  exact_ops. do 2 f_equal. f_equal; lia.
Qed.

(** On 112-bit amounts a quote returns, with a 112-bit answer. *)
Lemma v2_amount_out_bounded p tk a : wf p -> in_u 112 a ->
  exists r, get_amount_out p tk a = Ret r /\ forall out, r = Some out -> in_u 112 out.
Proof.
  intros Hp Ha. destruct (Z.eq_dec a 0) as [->|Hn].
  { exists None. by split. }
  destruct (reserves_from p tk) as [[x y]|] eqn:Er; cycle 1.
  { exists None. unfold get_amount_out. rewrite Er. by destruct (a =? 0). }
  destruct (reserves_from_wf _ _ _ _ Hp Er) as [Hx Hy].
  destruct (decide (0 < x /\ 0 < y)) as [[Hx0 Hy0]|Hz]; cycle 1.
  { exists None. unfold get_amount_out. rewrite Er.
    assert ((x =? 0) || (y =? 0) = true) as -> by (range; lia). by destruct (a =? 0). }
  rewrite (v2_amount_out_eq p tk a x y) by (done || range; lia).
  eexists. split; [done|]. intros out [= <-].
  assert (0 <= fee_complement p) by (rewrite fee_complement_eq; [lia|done]).
  set (w := a * fee_complement p). assert (0 <= w) by (subst w; range; nia).
  clearbody w. apply (in_u_small 112 y); [done|]. split; [apply Z.div_pos; nia|].
  apply Z.div_le_upper_bound; nia.
Qed.

Lemma get_amount_in_eq p tk dy x y :
  wf p -> 0 < dy < y -> reserves_to p tk = Some (x, y) -> 0 < x -> fee_bps p < 10000 ->
  get_amount_in p tk dy =
    Ret (Some (x * dy * 10000 / ((y - dy) * fee_complement p) + 1)).
Proof.
  intros Hwf Hdy Hr Hx Hfee.
  destruct (reserves_to_wf _ _ _ _ Hwf Hr) as [Hxw Hyw].
  unfold get_amount_in. rewrite Hr, (fee_complement_eq p Hwf).
  destruct Hwf as [_ _ Hf].
  set (f := Z.max 0 (10000 - fee_bps p)).
  assert (0 < f <= 10000) by (subst f; range; lia). clearbody f.
  rewrite (proj2 (Z.eqb_neq dy 0)), (proj2 (Z.eqb_neq x 0)), (proj2 (Z.eqb_neq y 0)) by lia.
  rewrite (proj2 (Z.leb_gt y dy)) by lia. simpl.
  pose proof (mul_bound x dy (2 ^ 112) (2 ^ 112) ltac:(range; lia) ltac:(range; lia)).
  pose proof (mul_bound (y - dy) f (2 ^ 112) 10000 ltac:(range; lia) ltac:(lia)).
  assert ((y - dy) * f <> 0) by nia.
  exact_ops.
  pose proof (div_le_self (x * dy * 10000) ((y - dy) * f) ltac:(nia) ltac:(nia)).
  by exact_ops.
Qed.
End Facts.

(** ** Properties *)

Section Properties.
Context `{B : Build}.

(** C13. Quoting a V2 swap: for reserves and input below [2 ^ 112] the
    256-bit arithmetic never overflows (in any build), the quote is the
    constant-product output rounded down, it never empties the output side,
    and after the swap settles the product of the reserves has not
    decreased. *)
Theorem v2_quote_sound p tk a x y :
  wf p -> in_u 112 a -> 0 < a -> reserves_from p tk = Some (x, y) -> 0 < x -> 0 < y ->
  exists dy,
    get_amount_out p tk a = Ret (Some dy) /\
    dy = a * (10000 - Z.min 10000 (fee_bps p)) * y
         / (x * 10000 + a * (10000 - Z.min 10000 (fee_bps p))) /\
    0 <= dy < y /\ x * y <= (x + a) * (y - dy).
Proof.
  intros Hwf Ha Ha0 Hr Hx Hy. eexists. split; [by eapply v2_amount_out_eq|].
  rewrite (fee_complement_eq p Hwf). destruct Hwf as [_ _ Hf].
  replace (Z.max 0 (10000 - fee_bps p)) with (10000 - Z.min 10000 (fee_bps p)) by lia.
  set (f := 10000 - Z.min 10000 (fee_bps p)).
  assert (0 <= f <= 10000) by (subst f; range; lia). clearbody f.
  split; [f_equal; lia|].
  pose proof (cp_out_lt (x * 10000) y (a * f) ltac:(lia) Hy ltac:(nia)).
  pose proof (cp_product_mono (x * 10000) y (a * f) ltac:(lia) Hy ltac:(nia)).
  set (q := y * (a * f) / (x * 10000 + a * f)) in *.
  assert ((x * 10000 + a * f) * (y - q) <= (x + a) * 10000 * (y - q))
    by (apply Z.mul_le_mono_nonneg_r; nia).
  lia.
Qed.

(** Exact-output quoting is sufficient: the input [get_amount_in] asks
    for (when it fits the 112-bit range) buys at least the requested output
    when it is fed back to [get_amount_out] in the same direction. *)
Theorem v2_in_out_round_trip p tin tout dy x y dx :
  wf p -> 0 < dy < y -> fee_bps p < 10000 -> 0 < x ->
  reserves_to p tout = Some (x, y) -> reserves_from p tin = Some (x, y) ->
  get_amount_in p tout dy = Ret (Some dx) -> in_u 112 dx ->
  exists dy', get_amount_out p tin dx = Ret (Some dy') /\ dy <= dy'.
Proof.
  intros Hwf Hdy Hfee Hx Hto Hfrom Hin Hdx.
  rewrite (get_amount_in_eq p tout dy x y) in Hin by done.
  rewrite (fee_complement_eq p Hwf) in Hin. injection Hin as Hin.
  set (N := x * dy * 10000) in *.
  set (f := Z.max 0 (10000 - fee_bps p)) in *.
  assert (Hf : 0 < f <= 10000) by (destruct Hwf; subst f; range; lia).
  assert (Hpos : 0 < (y - dy) * f) by nia.
  pose proof (Z.div_pos N _ ltac:(subst N; nia) Hpos).
  pose proof (Z.mul_succ_div_gt N _ Hpos).
  eexists. split.
  { apply v2_amount_out_eq; try done; lia. }
  rewrite (fee_complement_eq p Hwf). fold f.
  apply cp_inverse; [lia|nia|subst N; nia].
Qed.

(** A fee of 100% or more divides by zero: [get_amount_in] panics for
    every valid request, while [get_amount_out] quotes zero. *)
Theorem v2_full_fee_panics p tout dy x y :
  wf p -> 10000 <= fee_bps p -> 0 < dy < y -> 0 < x ->
  reserves_to p tout = Some (x, y) ->
  get_amount_in p tout dy = Panic.
Proof.
  intros Hwf Hfee Hdy Hx Hr.
  destruct (reserves_to_wf _ _ _ _ Hwf Hr) as [Hxw Hyw].
  unfold get_amount_in. rewrite Hr, (fee_complement_eq p Hwf).
  rewrite (proj2 (Z.eqb_neq dy 0)), (proj2 (Z.eqb_neq x 0)), (proj2 (Z.eqb_neq y 0)) by lia.
  rewrite (proj2 (Z.leb_gt y dy)) by lia. cbn [orb].
  rewrite Z.max_l by lia.
  pose proof (mul_bound x dy (2 ^ 112) (2 ^ 112) ltac:(range; lia) ltac:(range; lia)).
  exact_ops. unfold u256_div. by rewrite Z.mul_0_r.
Qed.
End Properties.

(** A mainnet-shaped pool for the witnesses. *)
Definition sample : t := mk 1 10 20 (1000 * 10 ^ 18) (2000000 * 10 ^ 6) 30.

Lemma v2_sample_wf : wf sample.
Proof. split; vm_compute; split; congruence. Qed.

Lemma v2_quote_sound_witness :
  exists dy, get_amount_out (B:=release) sample 10 (10 ^ 18) = Ret (Some dy) /\
    dy = 10 ^ 18 * (10000 - Z.min 10000 (fee_bps sample)) * (2000000 * 10 ^ 6)
         / (1000 * 10 ^ 18 * 10000 + 10 ^ 18 * (10000 - Z.min 10000 (fee_bps sample))) /\
    0 <= dy < 2000000 * 10 ^ 6 /\
    1000 * 10 ^ 18 * (2000000 * 10 ^ 6)
      <= (1000 * 10 ^ 18 + 10 ^ 18) * (2000000 * 10 ^ 6 - dy).
Proof.
  apply (v2_quote_sound (B:=release) sample 10 (10 ^ 18));
    [apply v2_sample_wf|vm_compute; split; congruence|lia|reflexivity|lia|lia].
Defined.

Lemma v2_in_out_round_trip_witness :
  exists dy', get_amount_out (B:=debug) sample 10 1003010030091274 = Ret (Some dy') /\
    2000000 <= dy'.
Proof.
  apply (v2_in_out_round_trip (B:=debug) sample 10 20 2000000 (1000 * 10 ^ 18)
           (2000000 * 10 ^ 6) 1003010030091274);
    [apply v2_sample_wf|vm_compute; split; reflexivity|reflexivity|lia|reflexivity|reflexivity
    |vm_compute; reflexivity|vm_compute; split; congruence].
Defined.

Lemma v2_full_fee_panics_witness :
  get_amount_in (B:=release) (mk 1 10 20 1000 1000 10000) 20 5 = Panic.
Proof.
  apply (v2_full_fee_panics (B:=release) (mk 1 10 20 1000 1000 10000) 20 5 1000 1000);
    [split; vm_compute; split; congruence|simpl; lia|lia|lia|reflexivity].
Defined.

End UniswapV2Pool.

Module SushiSwapPool.

Record t : Type := mk { inner : UniswapV2Pool.t }.

Definition new (address token0 token1 : Address) (fee_bps : Z) : t :=
  mk (UniswapV2Pool.new address token0 token1 fee_bps).

#[global] Instance sushi_pool `{B : Build} `{C : AbiCodec} : Pool t := {|
  Pool.protocol _ := SushiSwap;
  Pool.address p := Pool.address (inner p);
  Pool.tokens p := Pool.tokens (inner p);
  Pool.fee_bps p := Pool.fee_bps (inner p);
  Pool.get_amount_out p := Pool.get_amount_out (inner p);
  Pool.get_amount_in p := Pool.get_amount_in (inner p);
  Pool.update_state p r0 r1 := mk (Pool.update_state (inner p) r0 r1);
  Pool.encode_swap p := Pool.encode_swap (inner p);
  Pool.liquidity_depth p := Pool.liquidity_depth (inner p);
|}.

#[global] Instance sushi_pool_laws `{B : Build} `{C : AbiCodec} : PoolLaws t.
Proof.
  split; intros [p]; try done; intros.
  - by apply (out_unknown p).
  - by apply (in_unknown p).
Qed.

End SushiSwapPool.
