(* ===== verification/Balancer.v ===== *)
(** * Balancer V2 and V3 pools

    [crates/pools/src/balancer.rs] and [crates/pools/src/balancer_v3.rs]: the
    two-token weighted pool (exact constant product at equal weights, a
    first-order approximation with a 2% discount otherwise), its post-swap
    predictor, and the V3 wrapper with a 5% discount. *)

From Stdlib Require Import ZArith Lia.
From S2P Require Import Prelude.
From S2P Require Import Machine.
From S2P Require Import Types.
From S2P Require Import Pool.
From stdpp Require Import base option numbers list.

Local Open Scope Z_scope.

Module BalancerPool.

Definition UNEQUAL_WEIGHT_SAFETY_MARGIN_BPS : Z := 200.

Record t : Type := mk {
  address : Address;
  token0 : Address;
  token1 : Address;
  balance0 : Z;
  balance1 : Z;
  weight0 : Z;
  weight1 : Z;
  fee_bps : Z;
}.

Record BalancerPostState : Type := mkPost {
  new_balance0 : Z;
  new_balance1 : Z;
  amount_out : Z;
  analytical : bool;
}.

Definition new (address token0 token1 : Address) (weight0 weight1 fee_bps : Z) : t :=
  mk address token0 token1 0 0 weight0 weight1 fee_bps.

(** The balances and weights [(bal_in, bal_out, w_in, w_out)] seen from the
    input token, and from the output token. *)
Definition side_from (p : t) (token_in : Address) : option (Z * Z * Z * Z) :=
  if token_in =? token0 p then Some (balance0 p, balance1 p, weight0 p, weight1 p)
  else if token_in =? token1 p then Some (balance1 p, balance0 p, weight1 p, weight0 p)
  else None.
Definition side_to (p : t) (token_out : Address) : option (Z * Z * Z * Z) :=
  if token_out =? token1 p then Some (balance0 p, balance1 p, weight0 p, weight1 p)
  else if token_out =? token0 p then Some (balance1 p, balance0 p, weight1 p, weight0 p)
  else None.

Section Quotes.
Context `{B : Build}.

Definition get_amount_out (p : t) (token_in : Address) (amount_in : Z) : outcome (option Z) :=
  if amount_in =? 0 then Ret None
  else
    match side_from p token_in with
    | None => Ret None
    | Some (bal_in, bal_out, w_in, w_out) =>
        if (bal_in =? 0) || (bal_out =? 0) then Ret None
        else
          fee_complement ← u32_sub 10000 (fee_bps p);
          scaled ← u256_mul amount_in fee_complement;
          amount_in_after_fee ← u256_div scaled 10000;
          if w_in =? w_out then
            numerator ← u256_mul bal_out amount_in_after_fee;
            denominator ← u256_add bal_in amount_in_after_fee;
            q ← u256_div numerator denominator;
            Ret (Some q)
          else
            n1 ← u256_mul bal_out amount_in_after_fee;
            numerator ← u256_mul n1 w_in;
            d1 ← u256_mul bal_in w_out;
            d2 ← u256_mul amount_in_after_fee w_in;
            denominator ← u256_add d1 d2;
            if denominator =? 0 then Ret None
            else
              raw ← u256_div numerator denominator;
              discounted ← u256_mul raw (10000 - UNEQUAL_WEIGHT_SAFETY_MARGIN_BPS);
              q ← u256_div discounted 10000;
              Ret (Some q)
    end.

(** [amount_before_fee * 10000 / (10000 - self.fee_bps)]. *)
Definition undo_fee (p : t) (amount_before_fee : Z) : outcome (option Z) :=
  scaled ← u256_mul amount_before_fee 10000;
  fee_complement ← u32_sub 10000 (fee_bps p);
  q ← u256_div scaled fee_complement;
  Ret (Some q).

Definition get_amount_in (p : t) (token_out : Address) (amount_out : Z) : outcome (option Z) :=
  if amount_out =? 0 then Ret None
  else
    match side_to p token_out with
    | None => Ret None
    | Some (bal_in, bal_out, w_in, w_out) =>
        if (bal_in =? 0) || (bal_out =? 0) || (bal_out <=? amount_out) then Ret None
        else if w_in =? w_out then
          numerator ← u256_mul bal_in amount_out;
          denominator ← u256_sub bal_out amount_out;
          q ← u256_div numerator denominator;
          amount_in_before_fee ← u256_add q 1;
          undo_fee p amount_in_before_fee
        else
          n1 ← u256_mul bal_in amount_out;
          numerator ← u256_mul n1 w_out;
          left ← u256_sub bal_out amount_out;
          denominator ← u256_mul left w_in;
          if denominator =? 0 then Ret None
          else
            q ← u256_div numerator denominator;
            amount_in_before_fee ← u256_add q 1;
            undo_fee p amount_in_before_fee
    end.

Definition predict_post_state (p : t) (token_in : Address) (amount_in : Z)
    : outcome (option BalancerPostState) :=
  if amount_in =? 0 then Ret None
  else
    quote ← get_amount_out p token_in amount_in;
    out <-? quote;
    let analytical := weight0 p =? weight1 p in
    if token_in =? token0 p then
      b0 <-? u256_checked_add (balance0 p) amount_in;
      b1 <-? u256_checked_sub (balance1 p) out;
      Ret (Some (mkPost b0 b1 out analytical))
    else if token_in =? token1 p then
      b0 <-? u256_checked_sub (balance0 p) out;
      b1 <-? u256_checked_add (balance1 p) amount_in;
      Ret (Some (mkPost b0 b1 out analytical))
    else Ret None.
End Quotes.

Definition update_state (p : t) (r0 r1 : Z) : t :=
  mk (address p) (token0 p) (token1 p) r0 r1 (weight0 p) (weight1 p) (fee_bps p).

Definition tokens (p : t) : list Address := [token0 p; token1 p].

Definition liquidity_depth (p : t) : Z := Z.min (balance0 p) (balance1 p).

(** The other token of the pool. *)
Definition token_out_of (p : t) (token_in : Address) : option Address :=
  if token_in =? token0 p then Some (token1 p)
  else if token_in =? token1 p then Some (token0 p)
  else None.

Definition encode_swap `{C : AbiCodec} (p : t) (token_in : Address) (amount_in min_out : Z)
    : list Z :=
  match token_out_of p token_in with
  | None => []
  | Some token_out => encode_balancer_vault_swap (address p) token_in token_out amount_in min_out
  end.

#[global] Instance balancer_pool `{B : Build} `{C : AbiCodec} : Pool t := {|
  Pool.protocol _ := BalancerV2;
  Pool.address := address;
  Pool.tokens := tokens;
  Pool.fee_bps := fee_bps;
  Pool.get_amount_out := get_amount_out;
  Pool.get_amount_in := get_amount_in;
  Pool.update_state := update_state;
  Pool.encode_swap := encode_swap;
  Pool.liquidity_depth p := Ret (liquidity_depth p);
|}.

(** ** Well-formed pools

    Balances below [2 ^ 112] (Balancer's own cap), weights below [2 ^ 30]
    (they are normalised to at most 10^6), and a fee below 100%. *)
Record wf (p : t) : Prop := {
  wf_balance0 : in_u 112 (balance0 p);
  wf_balance1 : in_u 112 (balance1 p);
  wf_weight0 : 0 < weight0 p < 2 ^ 30;
  wf_weight1 : 0 < weight1 p < 2 ^ 30;
  wf_fee : 0 <= fee_bps p < 10000;
}.

Lemma side_from_None p tk : side_from p tk = None <-> tk ∉ tokens p.
Proof.
  unfold side_from, tokens. rewrite !not_elem_of_cons.
  pose proof (not_elem_of_nil (A:=Z) tk).
  destruct (Z.eqb_spec tk (token0 p)), (Z.eqb_spec tk (token1 p)); naive_solver.
Qed.

Lemma side_to_None p tk : side_to p tk = None <-> tk ∉ tokens p.
Proof.
  unfold side_to, tokens. rewrite !not_elem_of_cons.
  pose proof (not_elem_of_nil (A:=Z) tk).
  destruct (Z.eqb_spec tk (token0 p)), (Z.eqb_spec tk (token1 p)); naive_solver.
Qed.

Lemma side_from_wf p tk x y wi wo :
  wf p -> side_from p tk = Some (x, y, wi, wo) ->
  in_u 112 x /\ in_u 112 y /\ 0 < wi < 2 ^ 30 /\ 0 < wo < 2 ^ 30.
Proof. intros [] H. unfold side_from in H. repeat case_match; naive_solver. Qed.

Lemma side_to_wf p tk x y wi wo :
  wf p -> side_to p tk = Some (x, y, wi, wo) ->
  in_u 112 x /\ in_u 112 y /\ 0 < wi < 2 ^ 30 /\ 0 < wo < 2 ^ 30.
Proof. intros [] H. unfold side_to in H. repeat case_match; naive_solver. Qed.

#[global] Instance balancer_laws `{B : Build} `{C : AbiCodec} : PoolLaws t.
Proof.
  split; simpl; try done; intros p tk a Hn.
  - unfold get_amount_out. apply side_from_None in Hn. rewrite Hn. by case_match.
  - unfold get_amount_in. apply side_to_None in Hn. rewrite Hn. by case_match.
Qed.

(** The input net of the fee. *)
Definition net_of_fee (p : t) (a : Z) : Z := a * (10000 - fee_bps p) / 10000.

Lemma net_of_fee_le p a : wf p -> 0 <= a -> 0 <= net_of_fee p a <= a.
Proof. intros [] Ha. apply discount_le; lia. Qed.

Section Facts.
Context `{B : Build}.

(** In range, the quote is exact in every build, on both branches. *)
Lemma get_amount_out_equal p tk a x y w :
  wf p -> in_u 112 a -> 0 < a -> side_from p tk = Some (x, y, w, w) -> 0 < x -> 0 < y ->
  get_amount_out p tk a = Ret (Some (y * net_of_fee p a / (x + net_of_fee p a))).
Proof.
  intros Hwf Ha Ha0 Hs Hx Hy. destruct (side_from_wf _ _ _ _ _ _ Hwf Hs) as (Hxw & Hyw & _).
  pose proof (net_of_fee_le p a Hwf ltac:(lia)) as Hn. destruct Hwf as [_ _ _ _ Hf].
  unfold get_amount_out. rewrite Hs.
  rewrite (proj2 (Z.eqb_neq a 0)), (proj2 (Z.eqb_neq x 0)), (proj2 (Z.eqb_neq y 0)) by lia.
  rewrite Z.eqb_refl. cbn [orb].
  pose proof (mul_bound a (10000 - fee_bps p) (2 ^ 112) 10000 ltac:(range; lia) ltac:(lia)).
  exact_ops. change (a * (10000 - fee_bps p) / 10000) with (net_of_fee p a).
  pose proof (mul_bound y (net_of_fee p a) (2 ^ 112) (2 ^ 112) ltac:(range; lia) ltac:(range; lia)).
  by exact_ops.
Qed.

Lemma get_amount_out_unequal p tk a x y wi wo :
  wf p -> in_u 112 a -> 0 < a -> side_from p tk = Some (x, y, wi, wo) -> 0 < x -> 0 < y ->
  wi <> wo ->
  get_amount_out p tk a =
    Ret (Some (y * net_of_fee p a * wi / (x * wo + net_of_fee p a * wi) * 9800 / 10000)).
Proof.
  intros Hwf Ha Ha0 Hs Hx Hy Hne.
  destruct (side_from_wf _ _ _ _ _ _ Hwf Hs) as (Hxw & Hyw & Hwi & Hwo).
  pose proof (net_of_fee_le p a Hwf ltac:(lia)) as Hn. destruct Hwf as [_ _ _ _ Hf].
  unfold get_amount_out. rewrite Hs.
  rewrite (proj2 (Z.eqb_neq a 0)), (proj2 (Z.eqb_neq x 0)), (proj2 (Z.eqb_neq y 0)) by lia.
  rewrite (proj2 (Z.eqb_neq wi wo) Hne). cbn [orb].
  pose proof (mul_bound a (10000 - fee_bps p) (2 ^ 112) 10000 ltac:(range; lia) ltac:(lia)).
  exact_ops. change (a * (10000 - fee_bps p) / 10000) with (net_of_fee p a).
  set (n := net_of_fee p a) in *. clearbody n.
  pose proof (mul_bound y n (2 ^ 112) (2 ^ 112) ltac:(range; lia) ltac:(range; lia)).
  pose proof (mul_bound (y * n) wi (2 ^ 112 * 2 ^ 112) (2 ^ 30) ltac:(lia) ltac:(lia)).
  pose proof (mul_bound n wi (2 ^ 112) (2 ^ 30) ltac:(range; lia) ltac:(lia)).
  pose proof (mul_bound x wo (2 ^ 112) (2 ^ 30) ltac:(range; lia) ltac:(lia)).
  assert (0 < x * wo) by nia.
  exact_ops. rewrite (proj2 (Z.eqb_neq _ 0)) by lia. exact_ops.
  pose proof (cp_out_lt (x * wo) y (n * wi) ltac:(lia) Hy ltac:(lia)) as Hq.
  rewrite Z.mul_assoc in Hq. unfold UNEQUAL_WEIGHT_SAFETY_MARGIN_BPS.
  exact_ops. done.
Qed.
End Facts.

(** ** Weighted products

    Bernoulli's inequality and the growth of [(1 + X / n) ^ n] in [n], in
    cross-multiplied form over the integers: what a first-order approximation
    of a power is worth. *)

Lemma bernoulli q p (m : nat) : 0 <= p <= q ->
  q ^ Z.of_nat m * (q - Z.of_nat (S m) * p) <= (q - p) ^ Z.of_nat (S m).
Proof.
  intros H. induction m as [|m IH]; [simpl Z.of_nat; rewrite Z.pow_0_r, Z.pow_1_r; lia|].
  rewrite (Nat2Z.inj_succ (S m)), Z.pow_succ_r by lia.
  rewrite (Nat2Z.inj_succ m), (Z.pow_succ_r q) by lia. rewrite (Nat2Z.inj_succ m) in IH.
  assert (0 <= q ^ Z.of_nat m) by (apply Z.pow_nonneg; lia).
  apply (Z.mul_le_mono_nonneg_l _ _ (q - p)) in IH; [|lia].
  eapply Z.le_trans; [|exact IH].
  set (k := Z.of_nat m) in *. assert (0 <= k) by lia. clearbody k.
  replace (q * q ^ k * (q - Z.succ (Z.succ k) * p)) with (q ^ k * (q * (q - (k + 2) * p))) by lia.
  replace ((q - p) * (q ^ k * (q - Z.succ k * p))) with (q ^ k * ((q - p) * (q - (k + 1) * p))) by lia.
  apply Z.mul_le_mono_nonneg_l; nia.
Qed.

Lemma growth_step A X n : 0 < A -> 0 <= X -> 0 < n ->
  (n * A + X) ^ n * ((n + 1) * A) ^ (n + 1) <= ((n + 1) * A + X) ^ (n + 1) * (n * A) ^ n.
Proof.
  intros HA HX Hn.
  pose proof (bernoulli ((n + 1) * (n * A + X)) X (Z.to_nat n) ltac:(nia)) as H.
  rewrite Nat2Z.inj_succ, Z2Nat.id in H by lia. change (Z.succ n) with (n + 1) in H.
  replace ((n + 1) * (n * A + X) - X) with (n * ((n + 1) * A + X)) in H by lia.
  replace ((n + 1) * (n * A + X) - (n + 1) * X) with ((n + 1) * (n * A)) in H by lia.
  rewrite !Z.pow_mul_l in *.
  apply (Z.mul_le_mono_pos_l _ _ n); [done|].
  apply (Z.mul_le_mono_nonneg_r _ _ (A ^ n)) in H; [|apply Z.pow_nonneg; lia].
  rewrite !Z.pow_add_r, !Z.pow_1_r in * by lia. lia.
Qed.

Lemma growth A X n (k : nat) : 0 < A -> 0 <= X -> 0 < n ->
  (n * A + X) ^ n * ((n + Z.of_nat k) * A) ^ (n + Z.of_nat k)
  <= ((n + Z.of_nat k) * A + X) ^ (n + Z.of_nat k) * (n * A) ^ n.
Proof.
  intros HA HX Hn. induction k as [|k IH]; [rewrite Z.add_0_r; lia|].
  set (n' := n + Z.of_nat k) in *.
  replace (n + Z.of_nat (S k)) with (n' + 1) by lia.
  assert (Hn' : 0 < n') by lia.
  pose proof (growth_step A X n' HA HX Hn') as Hs.
  assert (0 < (n' * A) ^ n') by (apply Z.pow_pos_nonneg; nia).
  apply (Z.mul_le_mono_pos_r _ _ ((n' * A) ^ n')); [done|].
  apply (Z.mul_le_mono_nonneg_r _ _ (((n' + 1) * A) ^ (n' + 1))) in IH;
    [|apply Z.pow_nonneg; nia].
  apply (Z.mul_le_mono_nonneg_r _ _ ((n * A) ^ n)) in Hs; [|apply Z.pow_nonneg; nia].
  lia.
Qed.

(** An output at most the first-order approximation keeps the weighted
    product when the input side weighs at least as much as the output side. *)
Lemma weighted_product_mono x y n wi wo out :
  0 < x -> 0 <= n -> 0 < wo <= wi -> 0 <= out <= y ->
  y * (x * wo) <= (y - out) * (x * wo + n * wi) ->
  x ^ wi * y ^ wo <= (x + n) ^ wi * (y - out) ^ wo.
Proof.
  intros Hx Hn Hw Hout H. assert (Hxw : 0 < x * wo) by nia.
  pose proof (growth x (n * wi) wo (Z.to_nat (wi - wo)) Hx ltac:(nia) ltac:(lia)) as G.
  replace (wo + Z.of_nat (Z.to_nat (wi - wo))) with wi in G by lia.
  replace (wi * x + n * wi) with (wi * (x + n)) in G by lia.
  rewrite !Z.pow_mul_l in G.
  assert (Hwi : 0 < wi ^ wi) by (apply Z.pow_pos_nonneg; lia).
  assert (G' : (wo * x + n * wi) ^ wo * x ^ wi <= (x + n) ^ wi * (wo * x) ^ wo)
    by (apply (Z.mul_le_mono_pos_l _ _ (wi ^ wi)); [done|]; rewrite (Z.pow_mul_l wo x); lia).
  pose proof (Z.pow_le_mono_l (y * (x * wo)) ((y - out) * (x * wo + n * wi)) wo
    (conj (Z.mul_nonneg_nonneg y (x * wo) ltac:(lia) ltac:(lia)) H)) as H'. clear H. rename H' into H. rewrite (Z.pow_mul_l y), (Z.pow_mul_l (y - out)) in H.
  assert (Hxo : 0 < (x * wo) ^ wo) by (apply Z.pow_pos_nonneg; lia).
  apply (Z.mul_le_mono_pos_r _ _ ((x * wo) ^ wo)); [done|].
  replace (wo * x) with (x * wo) in G' by lia.
  apply (Z.mul_le_mono_nonneg_r _ _ ((y - out) ^ wo)) in G'; [|apply Z.pow_nonneg; lia].
  apply (Z.mul_le_mono_nonneg_r _ _ (x ^ wi)) in H; [|apply Z.pow_nonneg; lia].
  lia.
Qed.

(** ** Properties *)

Section Properties.
Context `{B : Build}.

(** The balances of a post-state in the direction of the swap. *)
Definition post_in (p : t) (tk : Address) (s : BalancerPostState) : Z :=
  if tk =? token0 p then new_balance0 s else new_balance1 s.
Definition post_out (p : t) (tk : Address) (s : BalancerPostState) : Z :=
  if tk =? token0 p then new_balance1 s else new_balance0 s.

Lemma predict_post_state_of_quote p tk a out x y wi wo :
  0 < a -> side_from p tk = Some (x, y, wi, wo) ->
  get_amount_out p tk a = Ret (Some out) -> in_u 256 (x + a) -> in_u 256 (y - out) ->
  exists s, predict_post_state p tk a = Ret (Some s) /\
    post_in p tk s = x + a /\ post_out p tk s = y - out /\
    amount_out s = out /\ analytical s = (weight0 p =? weight1 p).
Proof.
  intros Ha Hs Hq Hin Hout. unfold predict_post_state.
  rewrite (proj2 (Z.eqb_neq a 0)), Hq by lia. cbn [mbind outcome_bind].
  unfold side_from in Hs. unfold post_in, post_out.
  unfold u256_checked_add, u256_checked_sub.
  destruct (tk =? token0 p); [|destruct (tk =? token1 p); [|done]];
    injection Hs as <- <- <- <-;
    rewrite (proj2 (checked_Some 256 _ _) (conj eq_refl Hin)),
      (proj2 (checked_Some 256 _ _) (conj eq_refl Hout)); eexists; split_and!; done.
Qed.

(** Post-swap prediction on an equal-weight pool: for balances and input
    below [2 ^ 112] the predictor returns, flags the answer as exact, credits
    the whole input, debits exactly the quoted output (strictly less than the
    output balance), and the product of the balances does not decrease. *)
Theorem balancer_equal_weight_prediction p tk a x y w :
  wf p -> in_u 112 a -> 0 < a -> side_from p tk = Some (x, y, w, w) -> 0 < x -> 0 < y ->
  exists s, predict_post_state p tk a = Ret (Some s) /\ analytical s = true /\
    get_amount_out p tk a = Ret (Some (amount_out s)) /\ 0 <= amount_out s < y /\
    post_in p tk s = x + a /\ post_out p tk s = y - amount_out s /\
    x * y <= post_in p tk s * post_out p tk s.
Proof.
  intros Hwf Ha Ha0 Hs Hx Hy.
  pose proof (get_amount_out_equal p tk a x y w Hwf Ha Ha0 Hs Hx Hy) as Hq.
  destruct (side_from_wf _ _ _ _ _ _ Hwf Hs) as (Hxw & Hyw & _).
  pose proof (net_of_fee_le p a Hwf ltac:(lia)) as Hn.
  pose proof (cp_out_lt x y (net_of_fee p a) Hx Hy ltac:(lia)) as Ho.
  pose proof (cp_product_mono x y (net_of_fee p a) Hx Hy ltac:(lia)) as Hk.
  set (out := y * net_of_fee p a / (x + net_of_fee p a)) in *.
  destruct (predict_post_state_of_quote p tk a out x y w w) as (s & Hp & Hi & Ho' & He & Han);
    try done; [range; lia..|].
  exists s. rewrite Hi, Ho', He, Han. split_and!; try done; try lia.
  - unfold side_from in Hs. apply Z.eqb_eq. repeat case_match; naive_solver.
  - eapply Z.le_trans; [exact Hk|]. apply Z.mul_le_mono_nonneg_r; lia.
Qed.

(** The discounted first-order quote of an unequal-weight pool is
    conservative when the input side weighs at least as much as the output
    side: settling it never decreases the pool's weighted product
    [bal_in ^ w_in * bal_out ^ w_out]. *)
Theorem balancer_heavier_input_conservative p tk a x y wi wo :
  wf p -> in_u 112 a -> 0 < a -> side_from p tk = Some (x, y, wi, wo) -> 0 < x -> 0 < y ->
  wo < wi ->
  exists out, get_amount_out p tk a = Ret (Some out) /\ 0 <= out < y /\
    x ^ wi * y ^ wo <= (x + a) ^ wi * (y - out) ^ wo.
Proof.
  intros Hwf Ha Ha0 Hs Hx Hy Hw.
  destruct (side_from_wf _ _ _ _ _ _ Hwf Hs) as (_ & _ & Hwi & Hwo).
  pose proof (net_of_fee_le p a Hwf ltac:(lia)) as Hn.
  eexists. split; [by apply get_amount_out_unequal; try done; lia|].
  set (n := net_of_fee p a) in *. clearbody n.
  assert (Hxw : 0 < x * wo) by nia. assert (Hnw : 0 <= n * wi) by nia.
  rewrite <- (Z.mul_assoc y n wi).
  pose proof (cp_out_lt (x * wo) y (n * wi) Hxw Hy Hnw) as Hraw.
  set (raw := y * (n * wi) / (x * wo + n * wi)) in *.
  pose proof (discount_le raw 9800 ltac:(lia) ltac:(lia)) as Hd.
  set (out := raw * 9800 / 10000) in *. split; [lia|].
  assert (Hm : raw * (x * wo + n * wi) <= y * (n * wi))
    by (rewrite Z.mul_comm; apply Z.mul_div_le; lia).
  eapply Z.le_trans; [apply (weighted_product_mono x y n wi wo out); [lia..|nia]|].
  apply Z.mul_le_mono_nonneg_r; [apply Z.pow_nonneg; lia|]. apply Z.pow_le_mono_l. lia.
Qed.

(** When the input side is the lighter one the same quote is optimistic:
    on this 20/80 pool it pays out more than the weighted product allows,
    whatever the build, although the source calls the approximation
    conservative. *)
Theorem balancer_lighter_input_optimistic :
  exists p tk a x y wi wo out,
    wf p /\ side_from p tk = Some (x, y, wi, wo) /\ wi < wo /\ 0 < a /\
    get_amount_out p tk a = Ret (Some out) /\
    (x + a) ^ wi * (y - out) ^ wo < x ^ wi * y ^ wo.
Proof.
  set (p := mk 1 10 20 1000 1000 20 80 0).
  assert (Hwf : wf p) by (split; vm_compute; split; congruence).
  exists p, 10, 1000, 1000, 1000, 20, 80, 196.
  split_and!; done.
Qed.

Lemma undo_fee_eq p b : wf p -> in_u 240 b ->
  undo_fee p b = Ret (Some (b * 10000 / (10000 - fee_bps p))).
Proof.
  intros [] Hb. unfold undo_fee. unfold in_u in Hb.
  change (2 ^ 240) with 1766847064778384329583297500742918515827483896875618958121606201292619776 in Hb.
  by exact_ops.
Qed.

Lemma get_amount_in_equal p tk dy x y w :
  wf p -> 0 < dy < y -> side_to p tk = Some (x, y, w, w) -> 0 < x ->
  get_amount_in p tk dy = Ret (Some ((x * dy / (y - dy) + 1) * 10000 / (10000 - fee_bps p))).
Proof.
  intros Hwf Hdy Hs Hx. destruct (side_to_wf _ _ _ _ _ _ Hwf Hs) as (Hxw & Hyw & _).
  unfold get_amount_in. rewrite Hs.
  rewrite (proj2 (Z.eqb_neq dy 0)), (proj2 (Z.eqb_neq x 0)), (proj2 (Z.eqb_neq y 0)) by lia.
  rewrite (proj2 (Z.leb_gt y dy)), Z.eqb_refl by lia. cbn [orb].
  pose proof (mul_bound x dy (2 ^ 112) (2 ^ 112) ltac:(range; lia) ltac:(range; lia)).
  exact_ops.
  pose proof (div_le_self (x * dy) (y - dy) ltac:(lia) ltac:(lia)).
  exact_ops. apply undo_fee_eq; [done|].
  unfold in_u. change (2 ^ 240) with (2 ^ 112 * 2 ^ 112 * 2 ^ 16). range. lia.
Qed.

(** Exact-output quoting on an equal-weight pool can fall short by the
    rounding of the fee, and by no more: the quoted input plus one base unit
    buys at least the requested output. *)
Theorem balancer_in_out_round_trip p tin tout dy x y w dx :
  wf p -> 0 < dy < y -> 0 < x ->
  side_to p tout = Some (x, y, w, w) -> side_from p tin = Some (x, y, w, w) ->
  get_amount_in p tout dy = Ret (Some dx) -> in_u 112 (dx + 1) ->
  exists dy', get_amount_out p tin (dx + 1) = Ret (Some dy') /\ dy <= dy'.
Proof.
  intros Hwf Hdy Hx Hto Hfrom Hin Hdx.
  rewrite (get_amount_in_equal p tout dy x y w) in Hin by done. injection Hin as Hin.
  pose proof (wf_fee p Hwf) as Hf. set (b := x * dy / (y - dy) + 1) in *.
  pose proof (Z.mul_succ_div_gt (x * dy) (y - dy) ltac:(lia)).
  pose proof (Z.div_pos (x * dy) (y - dy) ltac:(nia) ltac:(lia)).
  pose proof (Z.mul_succ_div_gt (b * 10000) (10000 - fee_bps p) ltac:(lia)).
  pose proof (Z.div_pos (b * 10000) (10000 - fee_bps p) ltac:(lia) ltac:(lia)).
  assert (b <= net_of_fee p (dx + 1)).
  { apply Z.div_le_lower_bound; [lia|]. rewrite <- Hin. lia. }
  eexists. split; [apply (get_amount_out_equal p tin (dx + 1) x y w); try done; lia|].
  apply cp_inverse; [lia|lia|]. nia.
Qed.
End Properties.

(** The quoted input itself may buy nothing at all: here one base unit is
    asked for, and it is eaten by the rounding of the fee. *)
Theorem balancer_in_out_shortfall :
  exists p tin tout dy dx dy',
    wf p /\ get_amount_in (B:=release) p tout dy = Ret (Some dx) /\
    get_amount_out (B:=release) p tin dx = Ret (Some dy') /\ dy' < dy.
Proof.
  exists (mk 1 10 20 10 1000 500000 500000 30), 10, 20, 50, 1, 0.
  split; [split; vm_compute; split; congruence|]. by vm_compute.
Qed.

(** An 80/20 pool and a 50/50 pool for the witnesses. *)
Definition pool_5050 : t := mk 1 10 20 (1000 * 10 ^ 18) (3000 * 10 ^ 18) 500000 500000 30.
Definition pool_8020 : t := mk 1 10 20 (1000 * 10 ^ 18) (3000 * 10 ^ 18) 80 20 30.

Lemma pool_5050_wf : wf pool_5050.
Proof. split; vm_compute; split; congruence. Qed.
Lemma pool_8020_wf : wf pool_8020.
Proof. split; vm_compute; split; congruence. Qed.

Lemma balancer_equal_weight_prediction_witness :
  exists s, predict_post_state (B:=release) pool_5050 20 (10 ^ 18) = Ret (Some s) /\
    analytical s = true /\
    get_amount_out (B:=release) pool_5050 20 (10 ^ 18) = Ret (Some (amount_out s)) /\
    0 <= amount_out s < 1000 * 10 ^ 18 /\
    post_in pool_5050 20 s = 3000 * 10 ^ 18 + 10 ^ 18 /\
    post_out pool_5050 20 s = 1000 * 10 ^ 18 - amount_out s /\
    3000 * 10 ^ 18 * (1000 * 10 ^ 18) <= post_in pool_5050 20 s * post_out pool_5050 20 s.
Proof.
  apply (balancer_equal_weight_prediction (B:=release) pool_5050 20 (10 ^ 18)
           (3000 * 10 ^ 18) (1000 * 10 ^ 18) 500000);
    [apply pool_5050_wf|vm_compute; split; congruence|lia|reflexivity|lia|lia].
Defined.

Lemma balancer_heavier_input_conservative_witness :
  exists out, get_amount_out (B:=debug) pool_8020 10 (10 ^ 18) = Ret (Some out) /\
    0 <= out < 3000 * 10 ^ 18 /\
    (1000 * 10 ^ 18) ^ 80 * (3000 * 10 ^ 18) ^ 20
      <= (1000 * 10 ^ 18 + 10 ^ 18) ^ 80 * (3000 * 10 ^ 18 - out) ^ 20.
Proof.
  apply (balancer_heavier_input_conservative (B:=debug) pool_8020 10 (10 ^ 18)
           (1000 * 10 ^ 18) (3000 * 10 ^ 18) 80 20);
    [apply pool_8020_wf|vm_compute; split; congruence|lia|reflexivity|lia|lia|lia].
Defined.

Lemma balancer_in_out_round_trip_witness :
  exists dy', get_amount_out (B:=release) (mk 1 10 20 10 1000 500000 500000 30) 10 (1 + 1)
    = Ret (Some dy') /\ 50 <= dy'.
Proof.
  apply (balancer_in_out_round_trip (B:=release) (mk 1 10 20 10 1000 500000 500000 30)
           10 20 50 10 1000 500000 1);
    [split; vm_compute; split; congruence|lia|lia|reflexivity|reflexivity|vm_compute; reflexivity
    |vm_compute; split; congruence].
Defined.

End BalancerPool.

Module BalancerV3Pool.

Definition SAFETY_MARGIN_BPS : Z := 500.

Record t : Type := mk { inner : BalancerPool.t }.

Definition new_v3 (address token0 token1 : Address) (weight0 weight1 fee_bps : Z) : t :=
  mk (BalancerPool.new address token0 token1 weight0 weight1 fee_bps).

Section V3.
Context `{B : Build}.

Definition predict_post_state_v3 (p : t) (token_in : Address) (amount_in : Z)
    : outcome (option BalancerPool.BalancerPostState) :=
  BalancerPool.predict_post_state (inner p) token_in amount_in.

Definition apply_safety_margin (amount : Z) : outcome Z :=
  scaled ← u256_mul amount (10000 - SAFETY_MARGIN_BPS);
  u256_div scaled 10000.

Definition get_amount_out_v3 (p : t) (token_in : Address) (amount_in : Z) : outcome (option Z) :=
  quote ← BalancerPool.get_amount_out (inner p) token_in amount_in;
  out <-? quote;
  r ← apply_safety_margin out;
  Ret (Some r).
End V3.

#[global] Instance balancer_v3_pool `{B : Build} `{C : AbiCodec} : Pool t := {|
  Pool.protocol _ := BalancerV3;
  Pool.address p := BalancerPool.address (inner p);
  Pool.tokens p := BalancerPool.tokens (inner p);
  Pool.fee_bps p := BalancerPool.fee_bps (inner p);
  Pool.get_amount_out := get_amount_out_v3;
  Pool.get_amount_in p := BalancerPool.get_amount_in (inner p);
  Pool.update_state p r0 r1 := mk (BalancerPool.update_state (inner p) r0 r1);
  Pool.encode_swap p := BalancerPool.encode_swap (inner p);
  Pool.liquidity_depth p := Ret (BalancerPool.liquidity_depth (inner p));
|}.

#[global] Instance balancer_v3_laws `{B : Build} `{C : AbiCodec} : PoolLaws t.
Proof.
  split; intros [p]; try done; intros.
  - change (get_amount_out_v3 (mk p) t0 a = Ret None). unfold get_amount_out_v3.
    match goal with H : _ ∉ _ |- _ => pose proof (out_unknown p t0 a H) as E end. simpl in E. simpl. by rewrite E.
  - match goal with H : _ ∉ _ |- _ => exact (in_unknown p t0 a H) end.
Qed.

End BalancerV3Pool.
