(* ===== verification/Bancor.v ===== *)
(** * Bancor V3 pools

    [crates/pools/src/bancor.rs]: the token/BNT bonding-curve adapter, its
    post-swap predictor, and the two-pool predictor for trades that route
    through BNT. *)

From Stdlib Require Import ZArith Lia.
From S2P Require Import Prelude.
From S2P Require Import Machine.
From S2P Require Import Types.
From S2P Require Import Pool.
From stdpp Require Import base option numbers list.

Local Open Scope Z_scope.

Module BancorPool.

Definition BNT_ADDRESS : Address := 0x1F573D6Fb3F13d689FF844B4cE37794d79a7FF1C.
Definition ANALYTICAL_SAFETY_MARGIN_BPS : Z := 200.

Record t : Type := mk {
  address : Address;
  token : Address;
  bnt : Address;
  token_balance : Z;
  bnt_balance : Z;
  fee_bps : Z;
}.

Record BancorPostState : Type := mkPost {
  new_balance_in : Z;
  new_balance_out : Z;
  amount_out : Z;
  analytical : bool;
}.

Definition new (address token bnt : Address) (fee_bps : Z) : t :=
  mk address token bnt 0 0 fee_bps.

Definition balances_from (p : t) (token_in : Address) : option (Z * Z) :=
  if token_in =? token p then Some (token_balance p, bnt_balance p)
  else if token_in =? bnt p then Some (bnt_balance p, token_balance p)
  else None.
Definition balances_to (p : t) (token_out : Address) : option (Z * Z) :=
  if token_out =? bnt p then Some (token_balance p, bnt_balance p)
  else if token_out =? token p then Some (bnt_balance p, token_balance p)
  else None.

Section Quotes.
Context `{B : Build}.

Definition get_amount_out (p : t) (token_in : Address) (amount_in : Z) : outcome (option Z) :=
  if amount_in =? 0 then Ret None
  else
    match balances_from p token_in with
    | None => Ret None
    | Some (bal_in, bal_out) =>
        if (bal_in =? 0) || (bal_out =? 0) then Ret None
        else
          fee_complement ← u32_sub 10000 (fee_bps p);
          scaled ← u256_mul amount_in fee_complement;
          amount_in_after_fee ← u256_div scaled 10000;
          numerator ← u256_mul bal_out amount_in_after_fee;
          denominator ← u256_add bal_in amount_in_after_fee;
          raw ← u256_div numerator denominator;
          discounted ← u256_mul raw (10000 - ANALYTICAL_SAFETY_MARGIN_BPS);
          q ← u256_div discounted 10000;
          Ret (Some q)
    end.

Definition get_amount_in (p : t) (token_out : Address) (amount_out : Z) : outcome (option Z) :=
  if amount_out =? 0 then Ret None
  else
    match balances_to p token_out with
    | None => Ret None
    | Some (bal_in, bal_out) =>
        if (bal_in =? 0) || (bal_out =? 0) || (bal_out <=? amount_out) then Ret None
        else
          numerator ← u256_mul bal_in amount_out;
          denominator ← u256_sub bal_out amount_out;
          q ← u256_div numerator denominator;
          amount_before_fee ← u256_add q 1;
          scaled ← u256_mul amount_before_fee 10000;
          fee_complement ← u32_sub 10000 (fee_bps p);
          r ← u256_div scaled fee_complement;
          Ret (Some r)
    end.

Definition predict_post_state (p : t) (token_in : Address) (amount_in : Z)
    : outcome (option BancorPostState) :=
  if (token_balance p =? 0) || (bnt_balance p =? 0) || (amount_in =? 0) then Ret None
  else if negb (token_in =? token p) && negb (token_in =? bnt p) then Ret None
  else
    let '(bal_in, bal_out) :=
      if token_in =? token p then (token_balance p, bnt_balance p)
      else (bnt_balance p, token_balance p) in
    quote ← get_amount_out p token_in amount_in;
    out <-? quote;
    if (out =? 0) || (bal_out <=? out) then Ret None
    else
      new_in ← u256_add bal_in amount_in;
      new_out ← u256_sub bal_out out;
      Ret (Some (mkPost new_in new_out out true)).

Definition predict_post_state_multihop (p : t) (token_in : Address) (amount_in : Z)
    (token_out : Address) (second_pool : t)
    : outcome (option (BancorPostState * BancorPostState)) :=
  if negb (bnt p =? BNT_ADDRESS) || negb (bnt second_pool =? BNT_ADDRESS) then Ret None
  else if (token_in =? BNT_ADDRESS) || (token_out =? BNT_ADDRESS) then Ret None
  else if negb (token p =? token_in) then Ret None
  else if negb (token second_pool =? token_out) then Ret None
  else
    leg_a ← predict_post_state p token_in amount_in;
    a <-? leg_a;
    if amount_out a =? 0 then Ret None
    else
      leg_b ← predict_post_state second_pool BNT_ADDRESS (amount_out a);
      b <-? leg_b;
      Ret (Some (a, b)).
End Quotes.

Definition update_state (p : t) (r0 r1 : Z) : t :=
  mk (address p) (token p) (bnt p) r0 r1 (fee_bps p).

Definition tokens (p : t) : list Address := [token p; bnt p].

Definition liquidity_depth (p : t) : Z := Z.min (token_balance p) (bnt_balance p).

Definition encode_swap `{C : AbiCodec} (p : t) (token_in : Address) (amount_in min_out : Z)
    : list Z :=
  if token_in =? token p then
    encode_bancor_trade token_in (bnt p) amount_in min_out zero_address
  else if token_in =? bnt p then
    encode_bancor_trade token_in (token p) amount_in min_out zero_address
  else [].

#[global] Instance bancor_pool `{B : Build} `{C : AbiCodec} : Pool t := {|
  Pool.protocol _ := BancorV3;
  Pool.address := address;
  Pool.tokens := tokens;
  Pool.fee_bps := fee_bps;
  Pool.get_amount_out := get_amount_out;
  Pool.get_amount_in := get_amount_in;
  Pool.update_state := update_state;
  Pool.encode_swap := encode_swap;
  Pool.liquidity_depth p := Ret (liquidity_depth p);
|}.

(** Balances below [2 ^ 112] and a fee of at most 100%. *)
Record wf (p : t) : Prop := {
  wf_token_balance : in_u 112 (token_balance p);
  wf_bnt_balance : in_u 112 (bnt_balance p);
  wf_fee : 0 <= fee_bps p <= 10000;
}.

Lemma balances_from_None p tk : balances_from p tk = None <-> tk ∉ tokens p.
Proof.
  unfold balances_from, tokens. rewrite !not_elem_of_cons.
  pose proof (not_elem_of_nil (A:=Z) tk).
  destruct (Z.eqb_spec tk (token p)), (Z.eqb_spec tk (bnt p)); naive_solver.
Qed.

Lemma balances_to_None p tk : balances_to p tk = None <-> tk ∉ tokens p.
Proof.
  unfold balances_to, tokens. rewrite !not_elem_of_cons.
  pose proof (not_elem_of_nil (A:=Z) tk).
  destruct (Z.eqb_spec tk (token p)), (Z.eqb_spec tk (bnt p)); naive_solver.
Qed.

Lemma balances_from_wf p tk x y :
  wf p -> balances_from p tk = Some (x, y) -> in_u 112 x /\ in_u 112 y.
Proof. intros [] H. unfold balances_from in H. repeat case_match; naive_solver. Qed.

#[global] Instance bancor_laws `{B : Build} `{C : AbiCodec} : PoolLaws t.
Proof.
  split; simpl; try done; intros p tk a Hn.
  - unfold get_amount_out. apply balances_from_None in Hn. rewrite Hn. by case_match.
  - unfold get_amount_in. apply balances_to_None in Hn. rewrite Hn. by case_match.
Qed.

(** The quote as an integer expression. *)
Definition quote (p : t) (x y a : Z) : Z :=
  let n := a * (10000 - fee_bps p) / 10000 in y * n / (x + n) * 9800 / 10000.

Section Facts.
Context `{B : Build}.

Lemma bancor_amount_out_eq p tk a x y :
  wf p -> in_u 112 a -> 0 < a -> balances_from p tk = Some (x, y) -> 0 < x -> 0 < y ->
  get_amount_out p tk a = Ret (Some (quote p x y a)).
Proof.
  intros Hwf Ha Ha0 Hs Hx Hy. destruct (balances_from_wf _ _ _ _ Hwf Hs) as (Hxw & Hyw).
  destruct Hwf as [_ _ Hf]. unfold get_amount_out. rewrite Hs.
  rewrite (proj2 (Z.eqb_neq a 0)), (proj2 (Z.eqb_neq x 0)), (proj2 (Z.eqb_neq y 0)) by lia.
  cbn [orb]. unfold quote.
  pose proof (mul_bound a (10000 - fee_bps p) (2 ^ 112) 10000 ltac:(range; lia) ltac:(lia)).
  pose proof (discount_le a (10000 - fee_bps p) ltac:(lia) ltac:(lia)) as Hn.
  exact_ops. set (n := a * (10000 - fee_bps p) / 10000) in *. clearbody n.
  pose proof (mul_bound y n (2 ^ 112) (2 ^ 112) ltac:(range; lia) ltac:(range; lia)).
  pose proof (cp_out_lt x y n Hx Hy ltac:(lia)).
  exact_ops. unfold ANALYTICAL_SAFETY_MARGIN_BPS. by exact_ops.
Qed.

Lemma quote_bounds p x y a :
  wf p -> 0 <= a -> 0 < x -> 0 < y ->
  0 <= quote p x y a < y /\ x * y <= (x + a) * (y - quote p x y a).
Proof.
  intros [_ _ Hf] Ha Hx Hy. unfold quote.
  pose proof (discount_le a (10000 - fee_bps p) ltac:(lia) ltac:(lia)) as Hn.
  set (n := a * (10000 - fee_bps p) / 10000) in *. clearbody n.
  pose proof (cp_out_lt x y n Hx Hy ltac:(lia)). pose proof (cp_product_mono x y n Hx Hy ltac:(lia)).
  set (raw := y * n / (x + n)) in *.
  pose proof (discount_le raw 9800 ltac:(lia) ltac:(lia)). split; [lia|]. nia.
Qed.

(** The predictor computes exactly the quote, and rejects it when it is
    zero. *)
Lemma bancor_post_state_eq p tk a x y :
  wf p -> in_u 112 a -> 0 < a -> balances_from p tk = Some (x, y) -> 0 < x -> 0 < y ->
  predict_post_state p tk a =
    Ret (if quote p x y a =? 0 then None
         else Some (mkPost (x + a) (y - quote p x y a) (quote p x y a) true)).
Proof.
  intros Hwf Ha Ha0 Hs Hx Hy. destruct (balances_from_wf _ _ _ _ Hwf Hs) as (Hxw & Hyw).
  pose proof (quote_bounds p x y a Hwf ltac:(lia) Hx Hy) as [Hq _].
  unfold predict_post_state. rewrite (bancor_amount_out_eq p tk a x y) by done.
  unfold balances_from in Hs.
  assert (Hb : (token_balance p =? 0) = false /\ (bnt_balance p =? 0) = false).
  { rewrite !Z.eqb_neq. repeat case_match; simplify_eq; lia. }
  destruct Hb as [-> ->]. rewrite (proj2 (Z.eqb_neq a 0)) by lia. cbn [orb].
  set (q := quote p x y a) in *. clearbody q.
  destruct (tk =? token p) eqn:E1; [|destruct (tk =? bnt p) eqn:E2; [|done]];
    injection Hs as -> ->; cbn [negb andb mbind outcome_bind];
    rewrite (proj2 (Z.leb_gt y q)) by lia; rewrite orb_false_r;
    destruct (q =? 0) eqn:E; try done; by exact_ops.
Qed.
End Facts.

(** ** Properties *)

Section Properties.
Context `{B : Build}.

(** Post-swap prediction on a Bancor pool (balances and input below
    [2 ^ 112]): the predictor never panics; it answers exactly when the
    discounted quote is positive, and then it credits the whole input, debits
    the quote (strictly less than the output balance) and never decreases the
    product of the balances. *)
Theorem bancor_prediction_sound p tk a x y :
  wf p -> in_u 112 a -> 0 < a -> balances_from p tk = Some (x, y) -> 0 < x -> 0 < y ->
  exists out, get_amount_out p tk a = Ret (Some out) /\ 0 <= out < y /\
    (out = 0 -> predict_post_state p tk a = Ret None) /\
    (0 < out -> exists s, predict_post_state p tk a = Ret (Some s) /\
       amount_out s = out /\ new_balance_in s = x + a /\ new_balance_out s = y - out /\
       x * y <= new_balance_in s * new_balance_out s).
Proof.
  intros Hwf Ha Ha0 Hs Hx Hy.
  pose proof (quote_bounds p x y a Hwf ltac:(lia) Hx Hy) as [Hq Hk].
  exists (quote p x y a). split; [by apply bancor_amount_out_eq|]. split; [done|].
  rewrite (bancor_post_state_eq p tk a x y) by done. split.
  - by intros ->.
  - intros Hpos. rewrite (proj2 (Z.eqb_neq _ 0)) by lia. by eexists.
Qed.

(** A predicted two-pool trade conserves BNT: what the first pool pays
    out is what the second is credited, each leg is its own pool's prediction,
    and the pools are the canonical token/BNT pairs of the two tokens. *)
Theorem bancor_multihop_conserves p q tin tout a sa sb :
  wf p -> wf q -> in_u 112 a -> 0 < a ->
  0 < token_balance p -> 0 < bnt_balance p -> 0 < token_balance q -> 0 < bnt_balance q ->
  predict_post_state_multihop p tin a tout q = Ret (Some (sa, sb)) ->
  predict_post_state p tin a = Ret (Some sa) /\
  predict_post_state q BNT_ADDRESS (amount_out sa) = Ret (Some sb) /\
  token p = tin /\ token q = tout /\ bnt p = BNT_ADDRESS /\ bnt q = BNT_ADDRESS /\
  new_balance_out sa + new_balance_in sb = bnt_balance p + bnt_balance q /\
  new_balance_in sa = token_balance p + a.
Proof.
  intros Hp Hq Ha Ha0 Hp1 Hp2 Hq1 Hq2 H. unfold predict_post_state_multihop in H.
  destruct (Z.eqb_spec (bnt p) BNT_ADDRESS) as [Hb1|]; [|done].
  destruct (Z.eqb_spec (bnt q) BNT_ADDRESS) as [Hb2|]; [|done]. cbn [negb orb] in H.
  destruct (Z.eqb_spec tin BNT_ADDRESS) as [|Hi]; [done|].
  destruct (Z.eqb_spec tout BNT_ADDRESS) as [|Ho]; [done|]. cbn [orb] in H.
  destruct (Z.eqb_spec (token p) tin) as [Ht|]; [|done].
  destruct (Z.eqb_spec (token q) tout) as [Ht'|]; [|done]. cbn [negb] in H.
  assert (F1 : balances_from p tin = Some (token_balance p, bnt_balance p)).
  { unfold balances_from. by rewrite Ht, Z.eqb_refl. }
  assert (F2 : balances_from q BNT_ADDRESS = Some (bnt_balance q, token_balance q)).
  { unfold balances_from. rewrite Ht', Hb2, Z.eqb_refl.
    by rewrite (proj2 (Z.eqb_neq BNT_ADDRESS tout)). }
  pose proof (quote_bounds p _ _ a Hp ltac:(lia) Hp1 Hp2) as [Hqa _].
  rewrite (bancor_post_state_eq p tin a _ _ Hp Ha Ha0 F1 Hp1 Hp2) in *.
  set (qa := quote p (token_balance p) (bnt_balance p) a) in *.
  destruct (Z.eqb_spec qa 0) as [|Hqa0]; [done|]. cbn in H.
  rewrite (proj2 (Z.eqb_neq qa 0) Hqa0) in H.
  assert (Hqw : in_u 112 qa) by (destruct Hp; range; lia).
  rewrite (bancor_post_state_eq q BNT_ADDRESS qa _ _ Hq Hqw ltac:(lia) F2 Hq2 Hq1) in H.
  set (qb := quote q _ _ qa) in *. cbn in H.
  destruct (Z.eqb_spec qb 0) as [|Hqb0]; [done|]. injection H as <- <-.
  split_and!; try done; simpl; [|lia].
  rewrite (bancor_post_state_eq q BNT_ADDRESS qa _ _ Hq Hqw ltac:(lia) F2 Hq2 Hq1).
  fold qb. by rewrite (proj2 (Z.eqb_neq qb 0)).
Qed.
End Properties.

(** The inverse quote does not undo the 2% discount of the forward one:
    on this deep pool the quoted input buys about 2% less than requested. *)
Theorem bancor_in_out_shortfall :
  exists p tin tout dy dx dy',
    wf p /\ get_amount_in (B:=release) p tout dy = Ret (Some dx) /\
    get_amount_out (B:=release) p tin dx = Ret (Some dy') /\ dy' * 1000 < dy * 981.
Proof.
  exists (mk 1 10 20 (10 ^ 24) (10 ^ 24) 30), 10, 20, (10 ^ 18), 1003010030091273823,
    979999999999999999.
  split; [split; vm_compute; split; congruence|]. by vm_compute.
Qed.

Definition pool_a : t := mk 1 100 BNT_ADDRESS (5000 * 10 ^ 18) (9000 * 10 ^ 18) 20.
Definition pool_b : t := mk 2 200 BNT_ADDRESS (7000 * 10 ^ 18) (8000 * 10 ^ 18) 20.

Lemma pool_a_wf : wf pool_a.
Proof. split; vm_compute; split; congruence. Qed.
Lemma pool_b_wf : wf pool_b.
Proof. split; vm_compute; split; congruence. Qed.

Lemma bancor_prediction_sound_witness :
  exists out, get_amount_out (B:=release) pool_a 100 (10 ^ 18) = Ret (Some out) /\
    0 <= out < 9000 * 10 ^ 18 /\
    (out = 0 -> predict_post_state (B:=release) pool_a 100 (10 ^ 18) = Ret None) /\
    (0 < out -> exists s, predict_post_state (B:=release) pool_a 100 (10 ^ 18) = Ret (Some s) /\
       amount_out s = out /\ new_balance_in s = 5000 * 10 ^ 18 + 10 ^ 18 /\
       new_balance_out s = 9000 * 10 ^ 18 - out /\
       5000 * 10 ^ 18 * (9000 * 10 ^ 18) <= new_balance_in s * new_balance_out s).
Proof.
  apply (bancor_prediction_sound (B:=release) pool_a 100 (10 ^ 18));
    [apply pool_a_wf|vm_compute; split; congruence|lia|reflexivity|lia|lia].
Defined.

Lemma bancor_multihop_conserves_witness :
  let sa := mkPost (5000 * 10 ^ 18 + 10 ^ 18) (9000 * 10 ^ 18 - 1760120679912289506) 1760120679912289506 true in
  let sb := mkPost (8000 * 10 ^ 18 + 1760120679912289506) (7000 * 10 ^ 18 - 1505954206081383363) 1505954206081383363 true in
  predict_post_state (B:=release) pool_a 100 (10 ^ 18) = Ret (Some sa) /\
  predict_post_state (B:=release) pool_b BNT_ADDRESS (amount_out sa) = Ret (Some sb) /\
  token pool_a = 100 /\ token pool_b = 200 /\ bnt pool_a = BNT_ADDRESS /\
  bnt pool_b = BNT_ADDRESS /\
  new_balance_out sa + new_balance_in sb = bnt_balance pool_a + bnt_balance pool_b /\
  new_balance_in sa = token_balance pool_a + 10 ^ 18.
Proof.
  apply (bancor_multihop_conserves (B:=release) pool_a pool_b 100 200 (10 ^ 18));
    [apply pool_a_wf|apply pool_b_wf|vm_compute; split; congruence|lia|vm_compute; reflexivity
    |vm_compute; reflexivity|vm_compute; reflexivity|vm_compute; reflexivity
    |vm_compute; reflexivity].
Defined.

End BancorPool.
