(* ===== verification/Curve.v ===== *)
(** * Curve StableSwap pools

    [crates/pools/src/curve.rs]: Newton's method for the invariant [D] and for
    a balance [y], the two quotes built on them, and the post-swap
    predictor. The loops run at most 256 rounds; the fuel of the model is that
    bound, so the definitions are the loops and not an approximation. *)

From Stdlib Require Import ZArith Lia.
From S2P Require Import Prelude.
From S2P Require Import Machine.
From S2P Require Import Types.
From S2P Require Import Pool.
From stdpp Require Import base option numbers list.

Local Open Scope Z_scope.

Module CurvePool.

Record t : Type := mk {
  address : Address;
  tokens : list Address;
  balances : list Z;
  amplification : Z;
  fee_bps : Z;
}.

Record CurvePostState : Type := mkPost {
  idx_i : nat;
  idx_j : nat;
  new_balance_in : Z;
  new_balance_out : Z;
  amount_out : Z;
  analytical : bool;
}.

Definition new (address : Address) (tokens : list Address) (amplification fee_bps : Z) : t :=
  mk address tokens (replicate (length tokens) 0) amplification fee_bps.

Section Newton.
Context `{B : Build}.

(** [for b in &self.balances { s += *b }]. *)
Fixpoint sum_balances (acc : Z) (bs : list Z) : outcome Z :=
  match bs with
  | [] => Ret acc
  | b :: bs => acc' ← u256_add acc b; sum_balances acc' bs
  end.

(** The inner loop of [get_d]; [None] is its early [return U256::ZERO]. *)
Fixpoint d_p_loop (n d d_p : Z) (bs : list Z) : outcome (option Z) :=
  match bs with
  | [] => Ret (Some d_p)
  | b :: bs =>
      if b =? 0 then Ret None
      else
        m ← u256_mul d_p d;
        bn ← u256_mul b n;
        d_p' ← u256_div m bn;
        d_p_loop n d d_p' bs
  end.

(** One Newton step for [D] from its power term: numerator and denominator. *)
Definition d_numerator (ann n s d d_p : Z) : outcome Z :=
  t1 ← u256_mul ann s;
  t2 ← u256_mul d_p n;
  t3 ← u256_add t1 t2;
  u256_mul t3 d.
Definition d_denominator (ann n d d_p : Z) : outcome Z :=
  a1 ← u256_sub ann 1;
  a2 ← u256_mul a1 d;
  n1 ← u256_add n 1;
  a3 ← u256_mul n1 d_p;
  u256_add a2 a3.

(** The two iterates are within one unit. *)
Definition converged (cur prev : Z) : outcome bool :=
  if prev <? cur then diff ← u256_sub cur prev; Ret (diff <=? 1)
  else diff ← u256_sub prev cur; Ret (diff <=? 1).

Fixpoint get_d_loop (rounds : nat) (bs : list Z) (ann n s d : Z) : outcome Z :=
  match rounds with
  | O => Ret d
  | S rounds =>
      r ← d_p_loop n d d bs;
      match r with
      | None => Ret 0
      | Some d_p =>
          numerator ← d_numerator ann n s d d_p;
          denominator ← d_denominator ann n d d_p;
          if denominator =? 0 then Ret d
          else
            d' ← u256_div numerator denominator;
            stop ← converged d' d;
            if (stop : bool) then Ret d' else get_d_loop rounds bs ann n s d'
      end
  end.

Definition get_d (p : t) : outcome Z :=
  let n := Z.of_nat (length (balances p)) in
  s ← sum_balances 0 (balances p);
  if s =? 0 then Ret 0
  else
    ann ← u256_mul (amplification p) n;
    get_d_loop 256 (balances p) ann n s s.

(** The loop over the coins other than [i] and [j]. *)
Fixpoint get_y_loop_coins (i j k : nat) (n d s c : Z) (bs : list Z) : outcome (Z * Z) :=
  match bs with
  | [] => Ret (s, c)
  | b :: bs =>
      if ((k =? i) || (k =? j))%nat then get_y_loop_coins i j (S k) n d s c bs
      else
        s' ← u256_add s b;
        m ← u256_mul c d;
        bn ← u256_mul b n;
        c' ← u256_div m bn;
        get_y_loop_coins i j (S k) n d s' c' bs
  end.

Fixpoint get_y_loop (rounds : nat) (b c d y : Z) : outcome Z :=
  match rounds with
  | O => Ret y
  | S rounds =>
      yy ← u256_mul y y;
      num ← u256_add yy c;
      y2 ← u256_mul 2 y;
      y2b ← u256_add y2 b;
      den ← u256_sub y2b d;
      y' ← u256_div num den;
      stop ← converged y' y;
      if (stop : bool) then Ret y' else get_y_loop rounds b c d y'
  end.

Definition get_y (p : t) (i j : nat) (x : Z) : outcome (option Z) :=
  let n := length (balances p) in
  if (n <=? i)%nat || (n <=? j)%nat || (i =? j)%nat then Ret None
  else
    d ← get_d p;
    if d =? 0 then Ret None
    else
      let n_u256 := Z.of_nat n in
      ann ← u256_mul (amplification p) n_u256;
      dd ← u256_mul d d;
      xn ← u256_mul x n_u256;
      c0 ← u256_div dd xn;
      ' (s, c1) ← get_y_loop_coins i j 0 n_u256 d x c0 (balances p);
      c1d ← u256_mul c1 d;
      annn ← u256_mul ann n_u256;
      c ← u256_div c1d annn;
      da ← u256_div d ann;
      b ← u256_add s da;
      y ← get_y_loop 256 b c d d;
      Ret (Some y).

Definition get_amount_out (p : t) (token_in : Address) (amount_in : Z) : outcome (option Z) :=
  if amount_in =? 0 then Ret None
  else if (2 <? length (tokens p))%nat then Ret None
  else
    i <-? position (fun tk => tk =? token_in) (tokens p);
    let j := if (i =? 0)%nat then 1%nat else 0%nat in
    bal_i ← index (balances p) i;
    x ← u256_add bal_i amount_in;
    oy ← get_y p i j x;
    y <-? oy;
    bal_j ← index (balances p) j;
    dy <-? u256_checked_sub bal_j y;
    if dy =? 0 then Ret None
    else
      f1 ← u256_mul dy (fee_bps p);
      fee ← u256_div f1 10000;
      r ← u256_sub dy fee;
      Ret (Some r).

Definition get_amount_in (p : t) (token_out : Address) (amount_out : Z) : outcome (option Z) :=
  if amount_out =? 0 then Ret None
  else
    j <-? position (fun tk => tk =? token_out) (tokens p);
    let i := if (j =? 0)%nat then 1%nat else 0%nat in
    scaled ← u256_mul amount_out 10000;
    fee_complement ← u32_sub 10000 (fee_bps p);
    amount_out_before_fee ← u256_div scaled fee_complement;
    bal_j ← index (balances p) j;
    y_new <-? u256_checked_sub bal_j amount_out_before_fee;
    ox ← get_y p j i y_new;
    x <-? ox;
    bal_i ← index (balances p) i;
    dx <-? u256_checked_sub x bal_i;
    r ← u256_add dx 1;
    Ret (Some r).

Definition predict_post_state (p : t) (token_in : Address) (amount_in : Z)
    : outcome (option CurvePostState) :=
  if amount_in =? 0 then Ret None
  else if (length (balances p) <? 2)%nat then Ret None
  else
    i <-? position (fun tk => tk =? token_in) (tokens p);
    if negb (length (tokens p) =? 2)%nat then Ret None
    else
      let j := if (i =? 0)%nat then 1%nat else 0%nat in
      bal_i ← index (balances p) i;
      new_in <-? u256_checked_add bal_i amount_in;
      oy ← get_y p i j new_in;
      y_new <-? oy;
      bal_j ← index (balances p) j;
      dy <-? u256_checked_sub bal_j y_new;
      if dy =? 0 then Ret None
      else
        f1 ← u256_mul dy (fee_bps p);
        fee ← u256_div f1 10000;
        out <-? u256_checked_sub dy fee;
        bal_j' ← index (balances p) j;
        new_out <-? u256_checked_sub bal_j' out;
        Ret (Some (mkPost i j new_in new_out out true)).

Definition liquidity_depth (p : t) : outcome Z := sum_balances 0 (balances p).
End Newton.

Definition update_state (p : t) (r0 r1 : Z) : t :=
  if (2 <=? length (balances p))%nat
  then mk (address p) (tokens p) (<[1%nat := r1]> (<[0%nat := r0]> (balances p)))
         (amplification p) (fee_bps p)
  else p.

Definition encode_swap `{C : AbiCodec} (p : t) (token_in : Address) (amount_in min_out : Z)
    : list Z :=
  encode_curve_exchange token_in (tokens p) amount_in min_out.

#[global] Instance curve_pool `{B : Build} `{C : AbiCodec} : Pool t := {|
  Pool.protocol _ := Curve;
  Pool.address := address;
  Pool.tokens := tokens;
  Pool.fee_bps := fee_bps;
  Pool.get_amount_out := get_amount_out;
  Pool.get_amount_in := get_amount_in;
  Pool.update_state := update_state;
  Pool.encode_swap := encode_swap;
  Pool.liquidity_depth := liquidity_depth;
|}.

Lemma tokens_position_None tk (l : list Z) :
  tk ∉ l -> position (fun x => x =? tk) l = None.
Proof.
  intros Hn. apply position_None. intros x Hx. apply Z.eqb_neq. by intros ->.
Qed.

#[global] Instance curve_laws `{B : Build} `{C : AbiCodec} : PoolLaws t.
Proof.
  split; simpl; try done.
  - intros p tk a Hn. unfold get_amount_out. rewrite tokens_position_None by done. by repeat case_match.
  - intros p tk a Hn. unfold get_amount_in. rewrite tokens_position_None by done. by repeat case_match.
  - intros p r0 r1. unfold update_state. by case_match.
  - intros p r0 r1. unfold update_state. by case_match.
Qed.

(** ** What the adapter relies on *)

Record wf (p : t) : Prop := {
  wf_tokens : length (tokens p) = 2%nat;
  wf_balances : length (balances p) = 2%nat;
  wf_range : Forall (in_u 240) (balances p);
  wf_fee : 0 <= fee_bps p <= 10000;
}.

(** The index of the other coin. *)
Definition other (i : nat) : nat := if (i =? 0)%nat then 1%nat else 0%nat.

Section Properties.
Context `{B : Build}.

Lemma u256_div_nonneg a b r : 0 <= a -> 0 <= b -> u256_div a b = Ret r -> 0 <= r.
Proof.
  intros Ha Hb. unfold u256_div. destruct (b =? 0) eqn:E; [done|]. intros [= <-].
  apply Z.eqb_neq in E. apply Z.div_pos; lia.
Qed.

(** Every iterate of the Newton loops is a quotient of unsigned values. *)
Lemma get_y_loop_nonneg rounds b c d : forall y r,
  0 <= y -> get_y_loop rounds b c d y = Ret r -> 0 <= r.
Proof.
  induction rounds as [|rounds IH]; intros y r Hy; simpl; intros H; [congruence|].
  unbind H. apply arith_range in Hv0, Hv3; [|lia..].
  apply u256_div_nonneg in Hv4; [|range; lia|range; lia].
  destruct v5; [congruence|by eapply IH].
Qed.

Lemma get_d_loop_nonneg rounds bs ann n s : forall d r,
  0 <= d -> get_d_loop rounds bs ann n s d = Ret r -> 0 <= r.
Proof.
  induction rounds as [|rounds IH]; intros d r Hd; simpl; intros H; [congruence|].
  unbind H. destruct v as [d_p|]; [|by injection H as <-].
  unbind H. rename v into num, v0 into den, Hv0 into En, Hv1 into Ed.
  destruct (den =? 0); [congruence|]. unbind H.
  unfold d_numerator in En. unfold d_denominator in Ed. unbind En. unbind Ed.
  apply arith_range in En, Ed; [|lia..].
  apply u256_div_nonneg in Hv0; [|range; lia|range; lia].
  destruct v0; [congruence|by eapply IH].
Qed.

Lemma sum_balances_nonneg bs : forall acc s,
  0 <= acc -> sum_balances acc bs = Ret s -> 0 <= s.
Proof.
  induction bs as [|b bs IH]; intros acc s Ha; simpl; intros H; [congruence|].
  unbind H. apply arith_range in Hv; [|lia]. eapply IH, H. range; lia.
Qed.

Lemma get_d_nonneg p d : get_d p = Ret d -> 0 <= d.
Proof.
  unfold get_d. intros H. apply bind_Ret in H as (s & Hs & H).
  apply sum_balances_nonneg in Hs; [|done].
  destruct (s =? 0); [by injection H as <-|]. unbind H. by eapply get_d_loop_nonneg.
Qed.

Lemma get_y_nonneg p i j x y : get_y p i j x = Ret (Some y) -> 0 <= y.
Proof.
  unfold get_y. destruct (_ || _ || _); [done|].
  intros H. apply bind_Ret in H as (d & Hd & H).
  destruct (d =? 0); [done|]. unbind H. destruct v3 as [s c1]. unbind H.
  injection H as <-. eapply get_y_loop_nonneg; [|done]. by eapply get_d_nonneg.
Qed.

(** Both quotes are one function of the Newton solution [y]. *)
Definition settle (p : t) (bal_j y : Z) : option Z :=
  if y <? bal_j then Some (bal_j - y - (bal_j - y) * fee_bps p / 10000) else None.

(** The two coins of a well-formed pool, seen from the input token. *)
Lemma wf_sides p tk i : wf p -> position (fun x => x =? tk) (tokens p) = Some i ->
  exists bal_i bal_j, tokens p !! i = Some tk /\
    balances p !! i = Some bal_i /\ balances p !! other i = Some bal_j /\
    in_u 240 bal_i /\ in_u 240 bal_j.
Proof.
  intros [Ht Hb Hr Hf] (x & Hx & E)%position_Some. apply Z.eqb_eq in E as ->.
  pose proof (lookup_lt_Some _ _ _ Hx).
  destruct (balances p) as [|b0 [|b1 [|]]] eqn:Eb; simplify_eq/=.
  rewrite !Forall_cons in Hr. destruct Hr as (? & ? & _).
  destruct i as [|[|]]; [exists b0, b1|exists b1, b0|lia]; done.
Qed.

Lemma curve_amount_out_eq p tk a i bal_i bal_j :
  wf p -> in_u 240 a -> a <> 0 -> position (fun x => x =? tk) (tokens p) = Some i ->
  balances p !! i = Some bal_i -> balances p !! other i = Some bal_j ->
  in_u 240 bal_i -> in_u 240 bal_j ->
  get_amount_out p tk a
  = (oy ← get_y p i (other i) (bal_i + a); Ret (y ← oy; settle p bal_j y)).
Proof.
  intros Hwf Ha Ha0 Hpos Hi Hj Hbi Hbj. pose proof (wf_tokens p Hwf) as Ht.
  pose proof (wf_fee p Hwf) as Hf.
  unfold get_amount_out. rewrite (proj2 (Z.eqb_neq a 0)) by done.
  rewrite Hpos, Ht. cbn [Nat.ltb Nat.leb]. fold (other i).
  rewrite (index_Some _ _ _ Hi), (index_Some _ _ _ Hj). cbn [mbind outcome_bind].
  exact_ops. destruct (get_y p i (other i) (bal_i + a)) as [[y|]|] eqn:Ey; try done.
  cbn [mbind outcome_bind option_bind]. apply get_y_nonneg in Ey. unfold settle, u256_checked_sub.
  destruct (Z.ltb_spec y bal_j).
  - rewrite checked_in by (range; lia).
    rewrite (proj2 (Z.eqb_neq (bal_j - y) 0)) by lia.
    pose proof (mul_bound (bal_j - y) (fee_bps p) (2 ^ 240) 10000 ltac:(range; lia) Hf).
    pose proof (discount_le (bal_j - y) (fee_bps p) ltac:(lia) Hf).
    exact_ops. done.
  - destruct (checked 256 (bal_j - y)) as [dy|] eqn:Ec; [|done].
    apply checked_Some in Ec as [-> Hin]. by rewrite (proj2 (Z.eqb_eq (bal_j - y) 0)) by (range; lia).
Qed.

Lemma curve_post_state_eq p tk a i bal_i bal_j :
  wf p -> in_u 240 a -> a <> 0 -> position (fun x => x =? tk) (tokens p) = Some i ->
  balances p !! i = Some bal_i -> balances p !! other i = Some bal_j ->
  in_u 240 bal_i -> in_u 240 bal_j ->
  predict_post_state p tk a
  = (oy ← get_y p i (other i) (bal_i + a);
     Ret (y ← oy; out ← settle p bal_j y;
          Some (mkPost i (other i) (bal_i + a) (bal_j - out) out true))).
Proof.
  intros Hwf Ha Ha0 Hpos Hi Hj Hbi Hbj. pose proof (wf_tokens p Hwf) as Ht.
  pose proof (wf_balances p Hwf) as Hb. pose proof (wf_fee p Hwf) as Hf.
  unfold predict_post_state. rewrite (proj2 (Z.eqb_neq a 0)) by done.
  rewrite Hpos, Ht, Hb. cbn [Nat.ltb Nat.leb Nat.eqb negb]. fold (other i).
  rewrite (index_Some _ _ _ Hi), (index_Some _ _ _ Hj). cbn [mbind outcome_bind].
  unfold u256_checked_add, u256_checked_sub.
  rewrite checked_in by (range; lia).
  destruct (get_y p i (other i) (bal_i + a)) as [[y|]|] eqn:Ey; try done.
  cbn [mbind outcome_bind option_bind]. apply get_y_nonneg in Ey. unfold settle.
  destruct (Z.ltb_spec y bal_j).
  - rewrite checked_in by (range; lia).
    rewrite (proj2 (Z.eqb_neq (bal_j - y) 0)) by lia.
    pose proof (mul_bound (bal_j - y) (fee_bps p) (2 ^ 240) 10000 ltac:(range; lia) Hf).
    pose proof (discount_le (bal_j - y) (fee_bps p) ltac:(lia) Hf).
    exact_ops. rewrite checked_in by (range; lia). by rewrite checked_in by (range; lia).
  - destruct (checked 256 (bal_j - y)) as [dy|] eqn:Ec; [|done].
    apply checked_Some in Ec as [-> Hin]. by rewrite (proj2 (Z.eqb_eq (bal_j - y) 0)) by (range; lia).
Qed.

(** The predictor and the quote are the same function: on a well-formed
    two-coin pool, whatever the token and the amount, [predict_post_state]
    panics, rejects or answers exactly when [get_amount_out] does, and its
    output amount is the quote. *)
Theorem curve_prediction_agrees p tk a :
  wf p -> in_u 240 a ->
  fmap (M:=outcome) (fmap (M:=option) amount_out) (predict_post_state p tk a)
  = get_amount_out p tk a.
Proof.
  intros Hwf Ha. destruct (Z.eq_dec a 0) as [->|Ha0]; [done|].
  destruct (position (fun x => x =? tk) (tokens p)) as [i|] eqn:Hpos.
  - destruct (wf_sides p tk i Hwf Hpos) as (bi & bj & _ & Hi & Hj & Hbi & Hbj).
    rewrite (curve_post_state_eq p tk a i bi bj), (curve_amount_out_eq p tk a i bi bj) by done.
    destruct (get_y p i (other i) (bi + a)) as [[y|]|]; try done. simpl.
    by destruct (settle p bj y).
  - unfold predict_post_state, get_amount_out. rewrite Hpos. by repeat case_match.
Qed.

(** A predicted Curve swap settles: the input side grows by exactly the
    amount paid, the output side pays exactly the quoted amount, which is the
    Newton difference less the fee, and the pool keeps at least the solved
    balance [y]. *)
Theorem curve_swap_settles p tk a st :
  wf p -> in_u 240 a -> predict_post_state p tk a = Ret (Some st) ->
  exists bal_i bal_j y,
    tokens p !! idx_i st = Some tk /\ idx_j st = other (idx_i st) /\
    balances p !! idx_i st = Some bal_i /\ balances p !! idx_j st = Some bal_j /\
    get_y p (idx_i st) (idx_j st) (bal_i + a) = Ret (Some y) /\
    new_balance_in st = bal_i + a /\
    new_balance_out st + amount_out st = bal_j /\
    amount_out st = (bal_j - y) - (bal_j - y) * fee_bps p / 10000 /\
    0 <= y <= new_balance_out st /\ 0 <= amount_out st.
Proof.
  intros Hwf Ha H. destruct (Z.eq_dec a 0) as [->|Ha0]; [done|].
  destruct (position (fun x => x =? tk) (tokens p)) as [i|] eqn:Hpos.
  2: { revert H. unfold predict_post_state. rewrite Hpos. by repeat case_match. }
  destruct (wf_sides p tk i Hwf Hpos) as (bi & bj & Htk & Hi & Hj & Hbi & Hbj).
  rewrite (curve_post_state_eq p tk a i bi bj) in H by done.
  destruct (get_y p i (other i) (bi + a)) as [[y|]|] eqn:Ey; try done.
  cbn [mbind outcome_bind option_bind] in H. unfold settle in H.
  destruct (Z.ltb_spec y bj); [|done]. injection H as <-.
  pose proof (get_y_nonneg _ _ _ _ _ Ey).
  pose proof (discount_le (bj - y) (fee_bps p) ltac:(lia) (wf_fee p Hwf)).
  exists bi, bj, y. cbn. repeat split; (done || lia).
Qed.

(** *** Newton's method for [D] on two coins *)

(** The power term of one round and its bound for a pool whose imbalance is
    at most a factor [2 ^ 20]. *)
Definition d_p_spec (x0 x1 d : Z) : Z := d * d / (x0 * 2) * d / (x1 * 2).

Record newton_range (x0 x1 ann : Z) : Prop := {
  nr_x0 : 0 < x0;
  nr_x1 : 0 < x1;
  nr_sum : x0 + x1 < 2 ^ 100;
  nr_imb0 : x0 + x1 <= 2 ^ 20 * x0;
  nr_imb1 : x0 + x1 <= 2 ^ 20 * x1;
  nr_ann : 2 <= ann < 2 ^ 21;
}.

Lemma d_p_first_bound x0 x1 ann d :
  newton_range x0 x1 ann -> 0 < d <= 2 * (x0 + x1) ->
  0 <= d * d / (x0 * 2) <= 2 ^ 21 * (x0 + x1).
Proof.
  intros [H0 H1 Hs I0 I1 Ha] Hd. set (s := x0 + x1) in *.
  split; [apply Z.div_pos; nia|]. apply Z.div_le_upper_bound; [lia|].
  assert (s * s <= 2 ^ 20 * x0 * s) by (apply Z.mul_le_mono_nonneg_r; lia).
  assert (d * d <= (2 * s) * (2 * s)) by nia. lia.
Qed.

Lemma d_p_bound x0 x1 ann d :
  newton_range x0 x1 ann -> 0 < d <= 2 * (x0 + x1) ->
  0 <= d_p_spec x0 x1 d <= 2 ^ 41 * (x0 + x1).
Proof.
  intros Hr Hd. pose proof (d_p_first_bound _ _ _ _ Hr Hd) as Hq.
  unfold d_p_spec. destruct Hr as [H0 H1 Hs I0 I1 Ha].
  set (q := d * d / (x0 * 2)) in *. set (s := x0 + x1) in *. clearbody q.
  split; [apply Z.div_pos; nia|]. apply Z.div_le_upper_bound; [lia|].
  assert (s * s <= 2 ^ 20 * x1 * s) by (apply Z.mul_le_mono_nonneg_r; lia).
  pose proof (mul_bound q d (2 ^ 21 * s) (2 * s) ltac:(lia) ltac:(lia)). lia.
Qed.

Lemma d_p_loop_exact x0 x1 ann d :
  newton_range x0 x1 ann -> 0 < d <= 2 * (x0 + x1) ->
  d_p_loop 2 d d [x0; x1] = Ret (Some (d_p_spec x0 x1 d)).
Proof.
  intros Hr Hd. pose proof (d_p_first_bound _ _ _ _ Hr Hd) as Hq.
  destruct Hr as [H0 H1 Hs I0 I1 Ha]. unfold d_p_spec.
  pose proof (mul_bound d d (2 ^ 101) (2 ^ 101) ltac:(lia) ltac:(lia)).
  pose proof (mul_bound (d * d / (x0 * 2)) d (2 ^ 121) (2 ^ 101) ltac:(lia) ltac:(lia)).
  cbn [d_p_loop]. rewrite (proj2 (Z.eqb_neq x0 0)), (proj2 (Z.eqb_neq x1 0)) by lia.
  exact_ops. done.
Qed.

Definition newton_d (x0 x1 ann d : Z) : Z :=
  (ann * (x0 + x1) + d_p_spec x0 x1 d * 2) * d
  / ((ann - 1) * d + 3 * d_p_spec x0 x1 d).

(** The next iterate is positive and at most twice the sum again. *)
Lemma newton_d_range x0 x1 ann d :
  newton_range x0 x1 ann -> 0 < d <= 2 * (x0 + x1) ->
  0 < newton_d x0 x1 ann d <= 2 * (x0 + x1).
Proof.
  intros Hr Hd. pose proof (d_p_bound _ _ _ _ Hr Hd) as Hp.
  assert (H1d : d = 1 -> d_p_spec x0 x1 d = 0).
  { intros ->. unfold d_p_spec. destruct Hr. rewrite (Z.div_small (1 * 1)) by lia. done. }
  unfold newton_d. set (e := d_p_spec x0 x1 d) in *. clearbody e.
  destruct Hr as [H0 H1 Hs I0 I1 Ha]. assert (Hs2 : 2 <= x0 + x1) by lia.
  set (s := x0 + x1) in *. clearbody s.
  assert (Hd0 : 0 < (ann - 1) * d) by (apply Z.mul_pos_pos; lia).
  split.
  - apply Z.div_str_pos. split; [lia|].
    pose proof (Z.mul_nonneg_nonneg d (ann * (s - 1)) ltac:(lia)
      ltac:(apply Z.mul_nonneg_nonneg; lia)).
    destruct (Z.eq_dec d 1) as [Hd1|Hd1]; [specialize (H1d Hd1); subst; lia|].
    pose proof (Z.mul_nonneg_nonneg e (2 * d - 3) ltac:(lia) ltac:(lia)). lia.
  - apply Z.div_le_upper_bound; [lia|].
    pose proof (Z.mul_nonneg_nonneg (s * d) (ann - 2) ltac:(nia) ltac:(lia)).
    pose proof (Z.mul_nonneg_nonneg e (6 * s - 2 * d) ltac:(lia) ltac:(lia)). lia.
Qed.

Lemma d_ratio_exact x0 x1 ann d :
  newton_range x0 x1 ann -> 0 < d <= 2 * (x0 + x1) ->
  let e := d_p_spec x0 x1 d in
  d_numerator ann 2 (x0 + x1) d e = Ret ((ann * (x0 + x1) + e * 2) * d) /\
  d_denominator ann 2 d e = Ret ((ann - 1) * d + 3 * e) /\
  0 < (ann - 1) * d + 3 * e.
Proof.
  intros Hr Hd. pose proof (d_p_bound _ _ _ _ Hr Hd) as Hp. simpl.
  set (e := d_p_spec x0 x1 d) in *. clearbody e.
  destruct Hr as [H0 H1 Hs I0 I1 Ha]. set (s := x0 + x1) in *. clearbody s.
  pose proof (mul_bound ann s (2 ^ 21) (2 ^ 100) ltac:(lia) ltac:(lia)).
  pose proof (mul_bound (ann - 1) d (2 ^ 21) (2 ^ 101) ltac:(lia) ltac:(lia)).
  pose proof (mul_bound (ann * s + e * 2) d (2 ^ 143) (2 ^ 101) ltac:(lia) ltac:(lia)).
  assert (0 < (ann - 1) * d) by (apply Z.mul_pos_pos; lia).
  unfold d_numerator, d_denominator. repeat split; [exact_ops; done|exact_ops; done|lia].
Qed.

Lemma converged_returns x y :
  in_u 256 x -> in_u 256 y -> exists b, converged x y = Ret b.
Proof.
  intros Hx Hy. unfold converged. destruct (Z.ltb_spec y x);
    (rewrite u256_sub_exact by (range; lia); simpl; eauto).
Qed.

Lemma get_d_loop_total x0 x1 ann :
  newton_range x0 x1 ann -> forall rounds d, 0 < d <= 2 * (x0 + x1) ->
  exists r, get_d_loop rounds [x0; x1] ann 2 (x0 + x1) d = Ret r /\ 0 < r <= 2 * (x0 + x1).
Proof.
  intros Hr. induction rounds as [|rounds IH]; intros d Hd; cbn [get_d_loop]; [eauto|].
  rewrite (d_p_loop_exact x0 x1 ann d Hr Hd). cbn [mbind outcome_bind].
  destruct (d_ratio_exact x0 x1 ann d Hr Hd) as (-> & -> & Hden). cbn [mbind outcome_bind].
  rewrite (proj2 (Z.eqb_neq _ 0)) by lia. rewrite u256_div_exact by lia.
  cbn [mbind outcome_bind]. fold (newton_d x0 x1 ann d).
  pose proof (newton_d_range x0 x1 ann d Hr Hd) as Hn. pose proof (nr_sum _ _ _ Hr).
  destruct (converged_returns (newton_d x0 x1 ann d) d) as [b ->]; [range; lia|range; lia|].
  cbn [mbind outcome_bind]. destruct b; eauto.
Qed.

(** C33. The invariant is always computed: for a two-coin pool below [2 ^ 100]
    units whose imbalance is at most [2 ^ 20] and whose amplification is
    between 1 and [2 ^ 20], Newton's method for [D] never overflows and never
    divides by zero in any of its rounds, and returns a positive value of at
    most twice the sum of the balances. *)
Theorem curve_d_total p x0 x1 :
  balances p = [x0; x1] -> newton_range x0 x1 (amplification p * 2) ->
  exists d, get_d p = Ret d /\ 0 < d <= 2 * (x0 + x1).
Proof.
  intros Hb Hr. pose proof Hr as [H0 H1 Hs I0 I1 Ha].
  unfold get_d. rewrite Hb. cbn [length sum_balances]. change (Z.of_nat 2) with 2.
  rewrite (u256_add_exact 0 x0) by (range; lia). cbn [mbind outcome_bind].
  rewrite u256_add_exact by (range; lia). cbn [mbind outcome_bind].
  rewrite (proj2 (Z.eqb_neq _ 0)) by lia. rewrite u256_mul_exact by (range; lia).
  cbn [mbind outcome_bind]. rewrite Z.add_0_l. apply get_d_loop_total; [done|lia].
Qed.

(** On a balanced pool the invariant is the sum of the balances, found in
    the first round. *)
Theorem curve_d_balanced p x :
  balances p = [x; x] -> newton_range x x (amplification p * 2) ->
  get_d p = Ret (2 * x).
Proof.
  intros Hb Hr. pose proof Hr as [H0 H1 Hs I0 I1 Ha].
  assert (Hd : 0 < x + x <= 2 * (x + x)) by lia.
  assert (E : d_p_spec x x (x + x) = x + x).
  { unfold d_p_spec. replace (x + x) with (x * 2) by lia. by rewrite !Z.div_mul by lia. }
  unfold get_d. rewrite Hb. cbn [length sum_balances]. change (Z.of_nat 2) with 2.
  rewrite (u256_add_exact 0 x) by (range; lia). cbn [mbind outcome_bind].
  rewrite u256_add_exact by (range; lia). cbn [mbind outcome_bind].
  rewrite (proj2 (Z.eqb_neq _ 0)) by lia. rewrite u256_mul_exact by (range; lia).
  cbn [mbind outcome_bind]. rewrite Z.add_0_l. change 256%nat with (S 255). cbn [get_d_loop].
  rewrite (d_p_loop_exact x x _ _ Hr Hd). cbn [mbind outcome_bind].
  destruct (d_ratio_exact x x _ _ Hr Hd) as (-> & -> & Hden). cbn [mbind outcome_bind].
  rewrite (proj2 (Z.eqb_neq _ 0)) by lia. rewrite u256_div_exact by lia. rewrite E.
  cbn [mbind outcome_bind]. set (ann := amplification p * 2) in *.
  replace ((ann * (x + x) + (x + x) * 2) * (x + x))
    with ((x + x) * ((ann - 1) * (x + x) + 3 * (x + x))) by lia.
  rewrite Z.div_mul by (rewrite E in Hden; lia).
  unfold converged. rewrite Z.ltb_irrefl, u256_sub_exact by (range; lia).
  cbn [mbind outcome_bind]. rewrite Z.sub_diag. cbn. f_equal; lia.
Qed.

(** Asking for the whole output balance panics instead of returning
    [None]: the pre-fee amount equals the balance, [get_y] is called with a
    zero balance, and its first quotient divides by zero. *)
Theorem curve_drain_panics p tk out i bal d :
  wf p -> 0 < out -> in_u 240 out -> fee_bps p < 10000 ->
  position (fun x => x =? tk) (tokens p) = Some i ->
  balances p !! i = Some bal -> out * 10000 / (10000 - fee_bps p) = bal ->
  get_d p = Ret d -> d <> 0 ->
  get_amount_in p tk out = Panic.
Proof.
  intros Hwf Ho0 Ho Hf Hpos Hi Hbal Hd Hd0. pose proof (wf_fee p Hwf).
  pose proof (lookup_lt_Some _ _ _ Hi) as Hlt. rewrite (wf_balances p Hwf) in Hlt.
  unfold get_amount_in. rewrite (proj2 (Z.eqb_neq out 0)), Hpos by lia. fold (other i).
  exact_ops. rewrite (index_Some _ _ _ Hi), Hbal. cbn [mbind outcome_bind].
  unfold u256_checked_sub. rewrite Z.sub_diag, checked_in by (range; lia).
  unfold get_y. rewrite (wf_balances p Hwf), Hd. cbn [mbind outcome_bind].
  replace (_ || _ || _) with false by (by destruct i as [|[|]]; [| |lia]).
  rewrite (proj2 (Z.eqb_neq d 0)) by done. change (Z.of_nat 2) with 2.
  destruct (u256_mul (amplification p) 2); [|done]. cbn [mbind outcome_bind].
  destruct (u256_mul d d); [|done]. cbn [mbind outcome_bind].
  by rewrite (u256_mul_exact 0 2) by (range; lia).
Qed.
End Properties.

(** A USDC/USDT-shaped pool, slightly imbalanced. *)
Definition sample : t := mk 1 [10; 20] [1000 * 10 ^ 18; 1200 * 10 ^ 18] 100 4.

Lemma curve_sample_wf : wf sample.
Proof.
  split; [done|done| |vm_compute; split; congruence].
  repeat constructor; vm_compute; congruence.
Qed.

Lemma curve_prediction_agrees_witness :
  fmap (M:=outcome) (fmap (M:=option) amount_out)
    (predict_post_state (B:=release) sample 10 (10 ^ 18))
  = get_amount_out (B:=release) sample 10 (10 ^ 18).
Proof.
  apply (curve_prediction_agrees (B:=release) sample 10 (10 ^ 18) curve_sample_wf).
  vm_compute. split; congruence.
Defined.

Lemma curve_swap_settles_witness :
  exists st, predict_post_state (B:=debug) sample 10 (10 ^ 18) = Ret (Some st) /\
  exists bal_i bal_j y,
    tokens sample !! idx_i st = Some 10 /\ idx_j st = other (idx_i st) /\
    balances sample !! idx_i st = Some bal_i /\ balances sample !! idx_j st = Some bal_j /\
    get_y (B:=debug) sample (idx_i st) (idx_j st) (bal_i + 10 ^ 18) = Ret (Some y) /\
    new_balance_in st = bal_i + 10 ^ 18 /\
    new_balance_out st + amount_out st = bal_j /\
    amount_out st = (bal_j - y) - (bal_j - y) * fee_bps sample / 10000 /\
    0 <= y <= new_balance_out st /\ 0 <= amount_out st.
Proof.
  exists (mkPost 0 1 1001000000000000000000 1198998578743191521471 1001421256808478529 true).
  assert (E : predict_post_state (B:=debug) sample 10 (10 ^ 18)
    = Ret (Some (mkPost 0 1 1001000000000000000000 1198998578743191521471
                  1001421256808478529 true))) by (vm_compute; reflexivity).
  split; [exact E|].
  apply (curve_swap_settles (B:=debug) sample 10 (10 ^ 18) _ curve_sample_wf); [|exact E].
  vm_compute. split; congruence.
Defined.

Lemma curve_d_total_witness :
  exists d, get_d (B:=debug) sample = Ret d /\
    0 < d <= 2 * (1000 * 10 ^ 18 + 1200 * 10 ^ 18).
Proof.
  apply (curve_d_total (B:=debug) sample (1000 * 10 ^ 18) (1200 * 10 ^ 18));
    [reflexivity|split; simpl; lia].
Defined.

Lemma curve_d_balanced_witness :
  get_d (B:=debug) (mk 1 [10; 20] [10 ^ 24; 10 ^ 24] 2000 4) = Ret (2 * 10 ^ 24).
Proof.
  apply (curve_d_balanced (B:=debug) (mk 1 [10; 20] [10 ^ 24; 10 ^ 24] 2000 4) (10 ^ 24));
    [reflexivity|split; simpl; lia].
Defined.

Lemma curve_drain_panics_witness :
  get_amount_in (B:=release) (mk 1 [10; 20] [1000; 1000] 100 0) 20 1000 = Panic.
Proof.
  apply (curve_drain_panics (B:=release) (mk 1 [10; 20] [1000; 1000] 100 0) 20 1000 1 1000 2000);
    [split; [done|done| |simpl; lia]; repeat constructor; vm_compute; congruence
    |lia|vm_compute; split; congruence|simpl; lia|reflexivity|reflexivity|reflexivity
    |vm_compute; reflexivity|lia].
Defined.

End CurvePool.
