(* ===== verification/UniswapV3.v ===== *)
(** * Uniswap V3 pools

    [crates/pools/src/uniswap_v3.rs]: the single-tick concentrated-liquidity
    quote, the post-swap predictor with its tick-bucket test, the virtual
    reserves the price graph is seeded with, and the binary search of the
    exact-output quote. The search runs at most 256 rounds, which is the fuel of
    the model. *)

From Stdlib Require Import ZArith Lia.
From S2P Require Import Prelude.
From S2P Require Import Machine.
From S2P Require Import F64.
From S2P Require Import Types.
From S2P Require Import Pool.
From stdpp Require Import base option numbers list.

Local Open Scope Z_scope.

Record TickInfo : Type := mkTickInfo {
  tick_index : Z;
  liquidity_net : Z;
  liquidity_gross : Z;
}.

Definition Q96 : Z := 2 ^ 96.
Definition TWO_POW_96_F64 : f64 := f64_of_Z 79228162514264337593543950336.
Definition LN_1_0001 : f64 := f64_of_ratio 9999500033330834 (10 ^ 20).
Definition SIMULATION_SAFETY_MARGIN_BPS : Z := 200.
Definition i32_min : Z := - 2 ^ 31.

(** The weights of the four limbs, as the source's literals. *)
Definition limb1_f64 : f64 := f64_of_Z 18446744073709551616.
Definition limb2_f64 : f64 := f64_of_Z (3402823669209385 * 10 ^ 23).
Definition limb3_f64 : f64 := f64_of_Z (1157920892373162 * 10 ^ 62).

Definition u256_to_f64 (v : Z) : f64 :=
  f64_add
    (f64_add
       (f64_add (f64_of_Z (limb v 0)) (f64_mul (f64_of_Z (limb v 1)) limb1_f64))
       (f64_mul (f64_of_Z (limb v 2)) limb2_f64))
    (f64_mul (f64_of_Z (limb v 3)) limb3_f64).

(** The conversion is written out a second time in the source. *)
Definition sqrt_price_x96_to_tick `{M : Libm} (sqrt_price_x96 : Z) : Z :=
  let raw := u256_to_f64 sqrt_price_x96 in
  if f64_le raw f64_zero || negb (is_finite raw) then i32_min
  else
    let sqrt_norm := f64_div raw TWO_POW_96_F64 in
    let price := f64_mul sqrt_norm sqrt_norm in
    if f64_le price f64_zero || negb (is_finite price) then i32_min
    else f64_as_i32 (f64_floor (f64_div (f64_ln price) LN_1_0001)).

Definition virtual_reserves (sqrt_price_x96 liquidity : Z) : option (f64 * f64) :=
  if (sqrt_price_x96 =? 0) || (liquidity =? 0) then None
  else
    let sqrt := u256_to_f64 sqrt_price_x96 in
    if f64_le sqrt f64_zero || negb (is_finite sqrt) then None
    else
      let l := f64_of_Z liquidity in
      let x_v := f64_div (f64_mul l TWO_POW_96_F64) sqrt in
      let y_v := f64_div (f64_mul l sqrt) TWO_POW_96_F64 in
      if negb (is_finite x_v) || negb (is_finite y_v)
         || f64_le x_v f64_zero || f64_le y_v f64_zero
      then None
      else Some (x_v, y_v).

Module UniswapV3Pool.

Record t : Type := mk {
  address : Address;
  token0 : Address;
  token1 : Address;
  fee_bps : Z;
  tick_spacing : Z;
  sqrt_price_x96 : Z;
  liquidity : Z;
  tick : Z;
  ticks : list TickInfo;
}.

Record V3PostState : Type := mkPost {
  new_sqrt_price_x96 : Z;
  new_liquidity : Z;
  amount_out : Z;
  single_tick : bool;
}.

Definition new (address token0 token1 : Address) (fee_bps tick_spacing : Z) : t :=
  mk address token0 token1 fee_bps tick_spacing 0 0 0 [].

Definition update_sqrt_price (p : t) (sqrt_price_x96 liquidity tick : Z) : t :=
  mk (address p) (token0 p) (token1 p) (fee_bps p) (tick_spacing p)
    sqrt_price_x96 liquidity tick (ticks p).

Definition set_ticks (p : t) (ticks : list TickInfo) : t :=
  mk (address p) (token0 p) (token1 p) (fee_bps p) (tick_spacing p)
    (sqrt_price_x96 p) (liquidity p) (tick p)
    (sort_by (fun a b => tick_index a ?= tick_index b) ticks).

Section Quotes.
Context `{B : Build} `{M : Libm}.

Definition is_within_active_tick_bucket (p : t) (new_sqrt : Z) : outcome bool :=
  if tick_spacing p <=? 0 then Ret true
  else
    let new_tick := sqrt_price_x96_to_tick new_sqrt in
    (* [div_euclid] by a positive divisor rounds down *)
    bucket_low ← i32_mul (tick p / tick_spacing p) (tick_spacing p);
    bucket_high ← i32_add bucket_low (tick_spacing p);
    Ret ((bucket_low <=? new_tick) && (new_tick <? bucket_high)).

(** The amount that trades after the pool fee. *)
Definition after_fee (p : t) (amount_in : Z) : outcome Z :=
  fee_complement ← u64_sub 10000 (fee_bps p);
  m ← u256_mul amount_in fee_complement;
  u256_div m 10000.

Definition predict_post_state (p : t) (token_in : Address) (amount_in : Z)
    : outcome (option V3PostState) :=
  if (sqrt_price_x96 p =? 0) || (liquidity p =? 0) || (amount_in =? 0) then Ret None
  else if negb (token_in =? token0 p) && negb (token_in =? token1 p) then Ret None
  else
    amount_in_after_fee ← after_fee p amount_in;
    let l := liquidity p in
    if token_in =? token0 p then
      numerator ← u256_mul l (sqrt_price_x96 p);
      lq ← u256_mul l Q96;
      dp ← u256_mul amount_in_after_fee (sqrt_price_x96 p);
      denominator ← u256_add lq dp;
      if denominator =? 0 then Ret None
      else
        nq ← u256_mul numerator Q96;
        new_sqrt ← u256_div nq denominator;
        if sqrt_price_x96 p <=? new_sqrt then Ret None
        else
          delta ← u256_sub (sqrt_price_x96 p) new_sqrt;
          ld ← u256_mul l delta;
          out ← u256_div ld Q96;
          single ← is_within_active_tick_bucket p new_sqrt;
          Ret (Some (mkPost new_sqrt l out single))
    else if l =? 0 then Ret None
    else
      aq ← u256_mul amount_in_after_fee Q96;
      delta_sqrt ← u256_div aq l;
      new_sqrt ← u256_add (sqrt_price_x96 p) delta_sqrt;
      lq ← u256_mul l Q96;
      numerator ← u256_mul lq delta_sqrt;
      denominator ← u256_mul (sqrt_price_x96 p) new_sqrt;
      if denominator =? 0 then Ret None
      else
        out ← u256_div numerator denominator;
        single ← is_within_active_tick_bucket p new_sqrt;
        Ret (Some (mkPost new_sqrt l out single)).

Definition compute_swap_within_tick (p : t) (token_in : Address) (amount_in : Z)
    : outcome (option Z) :=
  if (sqrt_price_x96 p =? 0) || (liquidity p =? 0) || (amount_in =? 0) then Ret None
  else
    amount_in_after_fee ← after_fee p amount_in;
    let l := liquidity p in
    if token_in =? token0 p then
      numerator ← u256_mul l (sqrt_price_x96 p);
      lq ← u256_mul l Q96;
      dp ← u256_mul amount_in_after_fee (sqrt_price_x96 p);
      denominator ← u256_add lq dp;
      if denominator =? 0 then Ret None
      else
        nq ← u256_mul numerator Q96;
        new_sqrt ← u256_div nq denominator;
        if sqrt_price_x96 p <=? new_sqrt then Ret (Some 0)
        else
          delta ← u256_sub (sqrt_price_x96 p) new_sqrt;
          ld ← u256_mul l delta;
          out ← u256_div ld Q96;
          Ret (Some out)
    else if l =? 0 then Ret None
    else
      aq ← u256_mul amount_in_after_fee Q96;
      delta_sqrt ← u256_div aq l;
      new_sqrt ← u256_add (sqrt_price_x96 p) delta_sqrt;
      lq ← u256_mul l Q96;
      numerator ← u256_mul lq delta_sqrt;
      denominator ← u256_mul (sqrt_price_x96 p) new_sqrt;
      if denominator =? 0 then Ret None
      else
        out ← u256_div numerator denominator;
        Ret (Some out).

Definition apply_simulation_safety_margin (amount : Z) : outcome Z :=
  c ← u32_sub 10000 SIMULATION_SAFETY_MARGIN_BPS;
  m ← u256_mul amount c;
  u256_div m 10000.

Definition get_amount_out (p : t) (token_in : Address) (amount_in : Z) : outcome (option Z) :=
  if negb (token_in =? token0 p) && negb (token_in =? token1 p) then Ret None
  else
    o ← compute_swap_within_tick p token_in amount_in;
    out <-? o;
    r ← apply_simulation_safety_margin out;
    Ret (Some r).

Fixpoint search (rounds : nat) (p : t) (token_in : Address) (amount_out low high : Z)
    : outcome Z :=
  match rounds with
  | O => Ret high
  | S rounds =>
      if high <=? low then Ret high
      else
        s ← u256_add low high;
        mid ← u256_div s 2;
        o ← get_amount_out p token_in mid;
        match o with
        | Some out =>
            if amount_out <=? out then search rounds p token_in amount_out low mid
            else low' ← u256_add mid 1; search rounds p token_in amount_out low' high
        | None => low' ← u256_add mid 1; search rounds p token_in amount_out low' high
        end
  end.

(** The bound of the [for] loop. *)
Definition search_rounds : nat := 256.

Definition get_amount_in (p : t) (token_out : Address) (amount_out : Z) : outcome (option Z) :=
  if amount_out =? 0 then Ret None
  else if negb (token_out =? token0 p) && negb (token_out =? token1 p) then Ret None
  else
    let token_in := if token_out =? token0 p then token1 p else token0 p in
    high ← u256_mul amount_out 2;
    r ← search search_rounds p token_in amount_out 1 high;
    Ret (Some r).
End Quotes.

(** The reserve update of the trait does nothing: the price state changes
    through [update_sqrt_price]. *)
Definition update_state (p : t) (reserve0 reserve1 : Z) : t := p.
Definition tokens (p : t) : list Address := [token0 p; token1 p].
Definition encode_swap `{C : AbiCodec} (p : t) (token_in : Address) (amount_in min_out : Z)
    : list Z :=
  encode_univ3_swap (token0 p) token_in amount_in zero_address.
Definition liquidity_depth (p : t) : outcome Z := Ret (liquidity p).

#[global] Instance v3_pool `{B : Build} `{C : AbiCodec} : Pool t := {|
  Pool.protocol _ := UniswapV3;
  Pool.address := address;
  Pool.tokens := tokens;
  Pool.fee_bps := fee_bps;
  Pool.get_amount_out := get_amount_out;
  Pool.get_amount_in := get_amount_in;
  Pool.update_state := update_state;
  Pool.encode_swap := encode_swap;
  Pool.liquidity_depth := liquidity_depth;
|}.

Lemma unknown_token p tk : tk ∉ tokens p ->
  negb (tk =? token0 p) && negb (tk =? token1 p) = true.
Proof.
  unfold tokens. rewrite !not_elem_of_cons. intros (H0 & H1 & _).
  by rewrite (proj2 (Z.eqb_neq _ _) H0), (proj2 (Z.eqb_neq _ _) H1).
Qed.

#[global] Instance v3_laws `{B : Build} `{C : AbiCodec} : PoolLaws t.
Proof.
  split; simpl; try done.
  - intros p tk. unfold get_amount_out, compute_swap_within_tick.
    rewrite Z.eqb_refl, orb_true_r. by case_match.
  - intros p tk a Hn. unfold get_amount_out. by rewrite unknown_token.
  - intros p tk a Hn. unfold get_amount_in. rewrite unknown_token by done. by case_match.
Qed.

(** ** The exact curve

    [L] and [s] are the active liquidity and the Q96 square-root price; the
    virtual reserves are [L * Q96 / s] of [token0] and [L * s / Q96] of
    [token1]. *)

Definition eff (p : t) (a : Z) : Z := a * (10000 - fee_bps p) / 10000.
Definition new_sqrt0 (p : t) (a : Z) : Z :=
  liquidity p * sqrt_price_x96 p * Q96
  / (liquidity p * Q96 + eff p a * sqrt_price_x96 p).
Definition raw0 (p : t) (a : Z) : Z :=
  liquidity p * (sqrt_price_x96 p - new_sqrt0 p a) / Q96.
Definition delta1 (p : t) (a : Z) : Z := eff p a * Q96 / liquidity p.
Definition raw1 (p : t) (a : Z) : Z :=
  liquidity p * Q96 * delta1 p a
  / (sqrt_price_x96 p * (sqrt_price_x96 p + delta1 p a)).
Definition raw (p : t) (tk : Address) (a : Z) : Z :=
  if tk =? token0 p then raw0 p a else raw1 p a.
Definition quote (p : t) (tk : Address) (a : Z) : Z := raw p tk a * 9800 / 10000.

(** The states and inputs for which no intermediate product of the quote
    leaves 256 bits. *)
Record exact_range (p : t) (a : Z) : Prop := {
  er_liquidity : 0 < liquidity p < 2 ^ 128;
  er_sqrt : 0 < sqrt_price_x96 p < 2 ^ 128;
  er_product : liquidity p * sqrt_price_x96 p < 2 ^ 160;
  er_amount : 0 <= a < 2 ^ 64;
  er_price : sqrt_price_x96 p + a * Q96 / liquidity p < 2 ^ 128;
  er_fee : 0 <= fee_bps p <= 10000;
}.

Section Properties.
Context `{B : Build} `{M : Libm}.

Lemma eff_bounds p a : 0 <= a -> 0 <= fee_bps p <= 10000 -> 0 <= eff p a <= a.
Proof. intros Ha Hf. apply discount_le; lia. Qed.

Lemma eff_mono p a a' : 0 <= fee_bps p <= 10000 -> a <= a' -> eff p a <= eff p a'.
Proof. intros Hf Ha. apply Z.div_le_mono; [lia|]. apply Z.mul_le_mono_nonneg_r; lia. Qed.

Lemma exact_range_le p a a' : exact_range p a' -> 0 <= a <= a' -> exact_range p a.
Proof.
  intros [HL Hs HLs Ha Hp Hf] Hle. split; try done; [lia|].
  assert (a * Q96 / liquidity p <= a' * Q96 / liquidity p); [|lia].
  apply Z.div_le_mono; [lia|]. unfold Q96. lia.
Qed.

Lemma after_fee_exact p a : exact_range p a -> after_fee p a = Ret (eff p a).
Proof.
  intros [_ _ _ Ha _ Hf]. unfold after_fee, eff.
  pose proof (mul_bound a (10000 - fee_bps p) (2 ^ 64) 10000 ltac:(lia) ltac:(lia)).
  exact_ops. done.
Qed.

Lemma new_sqrt0_bounds p a : exact_range p a -> 0 <= new_sqrt0 p a <= sqrt_price_x96 p.
Proof.
  intros [HL Hs _ Ha _ Hf]. pose proof (eff_bounds p a ltac:(lia) Hf).
  unfold new_sqrt0. set (L := liquidity p) in *. set (s := sqrt_price_x96 p) in *.
  assert (0 < L * Q96) by (unfold Q96; lia).
  assert (0 <= eff p a * s) by (apply Z.mul_nonneg_nonneg; lia).
  split; [apply Z.div_pos; [unfold Q96; nia|lia]|].
  apply Z.div_le_upper_bound; [lia|].
  pose proof (Z.mul_nonneg_nonneg (eff p a * s) s ltac:(lia) ltac:(lia)). nia.
Qed.

Lemma raw0_bounds p a : exact_range p a -> 0 <= raw0 p a < 2 ^ 160.
Proof.
  intros Hr. pose proof (new_sqrt0_bounds p a Hr). destruct Hr as [HL Hs HLs _ _ _].
  unfold raw0. set (L := liquidity p) in *. set (s := sqrt_price_x96 p) in *.
  pose proof (mul_bound L (s - new_sqrt0 p a) L s ltac:(lia) ltac:(lia)) as Hb.
  pose proof (div_le_self (L * (s - new_sqrt0 p a)) Q96 ltac:(lia) ltac:(done)). lia.
Qed.

Lemma delta1_bounds p a : exact_range p a ->
  0 <= delta1 p a /\ sqrt_price_x96 p + delta1 p a < 2 ^ 128 /\
  0 <= liquidity p * delta1 p a <= eff p a * Q96.
Proof.
  intros [HL Hs _ Ha Hp Hf]. pose proof (eff_bounds p a ltac:(lia) Hf). unfold delta1.
  set (L := liquidity p) in *.
  assert (0 <= eff p a * Q96) by (unfold Q96; lia).
  assert (0 <= eff p a * Q96 / L) by (apply Z.div_pos; lia).
  assert (eff p a * Q96 / L <= a * Q96 / L) by (apply Z.div_le_mono; unfold Q96; lia).
  pose proof (Z.mul_div_le (eff p a * Q96) L ltac:(lia)).
  repeat split; [done|lia| |lia]. apply Z.mul_nonneg_nonneg; lia.
Qed.

Lemma raw1_bounds p a : exact_range p a -> 0 <= raw1 p a <= liquidity p * Q96.
Proof.
  intros Hr. destruct (delta1_bounds p a Hr) as (Hd & _ & _).
  destruct Hr as [HL Hs _ _ _ _]. unfold raw1.
  set (L := liquidity p) in *. set (s := sqrt_price_x96 p) in *. set (d := delta1 p a) in *.
  assert (Hlq : 0 <= L * Q96) by (unfold Q96; lia).
  assert (Hden : d <= s * (s + d)) by nia.
  assert (0 < s * (s + d)) by (apply Z.mul_pos_pos; lia).
  split; [apply Z.div_pos; [apply Z.mul_nonneg_nonneg; lia|lia]|].
  apply Z.div_le_upper_bound; [lia|]. rewrite (Z.mul_comm (s * (s + d))).
  apply Z.mul_le_mono_nonneg_l; lia.
Qed.

Lemma raw_bounds p tk a : exact_range p a -> 0 <= raw p tk a < 2 ^ 224.
Proof.
  intros Hr. unfold raw. pose proof (raw0_bounds p a Hr). pose proof (raw1_bounds p a Hr).
  destruct Hr. unfold Q96 in *. destruct (tk =? token0 p); lia.
Qed.

Lemma compute_swap_exact p tk a : exact_range p a -> 0 < a ->
  compute_swap_within_tick p tk a = Ret (Some (raw p tk a)).
Proof.
  intros Hr Ha. pose proof (raw0_bounds p a Hr) as H0. pose proof (new_sqrt0_bounds p a Hr) as Hn.
  destruct (delta1_bounds p a Hr) as (Hd & Hd1 & Hld).
  unfold compute_swap_within_tick, raw. rewrite (after_fee_exact p a Hr).
  destruct Hr as [HL Hs HLs Hab Hp Hf]. pose proof (eff_bounds p a ltac:(lia) Hf) as He.
  revert H0 Hn Hd Hd1 Hld. unfold raw0, raw1, new_sqrt0, delta1.
  set (L := liquidity p) in *. set (s := sqrt_price_x96 p) in *. set (e := eff p a) in *.
  clearbody L s e. intros H0 Hn Hd Hd1 Hld.
  rewrite (proj2 (Z.eqb_neq s 0)), (proj2 (Z.eqb_neq L 0)), (proj2 (Z.eqb_neq a 0)) by lia.
  cbn [orb mbind outcome_bind]. unfold Q96 in *.
  pose proof (mul_bound e s (2 ^ 64) (2 ^ 128) ltac:(lia) ltac:(lia)).
  assert (0 <= L * s) by (apply Z.mul_nonneg_nonneg; lia).
  destruct (tk =? token0 p).
  - exact_ops. rewrite (proj2 (Z.eqb_neq (L * 2 ^ 96 + e * s) 0)) by lia. exact_ops.
    set (ns := L * s * 2 ^ 96 / (L * 2 ^ 96 + e * s)) in *. clearbody ns.
    destruct (Z.leb_spec s ns).
    + replace ns with s by lia. rewrite Z.sub_diag, Z.mul_0_r. done.
    + pose proof (mul_bound L (s - ns) L s ltac:(lia) ltac:(lia)). exact_ops. done.
  - set (d := e * 2 ^ 96 / L) in *.
    pose proof (mul_bound s (s + d) (2 ^ 128) (2 ^ 128 - 1) ltac:(lia) ltac:(lia)).
    assert (0 < s * (s + d)) by (apply Z.mul_pos_pos; lia).
    do 2 exact_step. fold d. clearbody d. exact_ops.
    rewrite (proj2 (Z.eqb_neq (s * (s + d)) 0)) by lia. exact_ops. done.
Qed.

Lemma get_amount_out_exact p tk a :
  exact_range p a -> 0 < a -> tk = token0 p \/ tk = token1 p ->
  get_amount_out p tk a = Ret (Some (quote p tk a)).
Proof.
  intros Hr Ha Htk. unfold get_amount_out.
  replace (negb (tk =? token0 p) && negb (tk =? token1 p)) with false
    by (destruct Htk as [->| ->]; rewrite Z.eqb_refl; [done|by rewrite andb_false_r]).
  rewrite (compute_swap_exact p tk a Hr Ha). pose proof (raw_bounds p tk a Hr).
  unfold apply_simulation_safety_margin, SIMULATION_SAFETY_MARGIN_BPS, quote.
  cbn [mbind outcome_bind].
  rewrite u32_sub_exact by (range; lia). cbn [mbind outcome_bind].
  rewrite u256_mul_exact by (range; lia). done.
Qed.

(** More input never buys less. *)
Lemma raw_mono p tk a a' : exact_range p a' -> 0 <= a <= a' -> raw p tk a <= raw p tk a'.
Proof.
  intros Hr' Hle. pose proof (exact_range_le p a a' Hr' Hle) as Hr.
  pose proof (eff_mono p a a' (er_fee _ _ Hr) ltac:(lia)) as Heff.
  pose proof (eff_bounds p a ltac:(lia) (er_fee _ _ Hr)) as He.
  destruct (delta1_bounds p a Hr) as (Hd & _ & _).
  destruct Hr as [HL Hs _ _ _ _]. unfold raw. destruct (tk =? token0 p).
  - unfold raw0. apply Z.div_le_mono; [done|]. apply Z.mul_le_mono_nonneg_l; [lia|].
    apply Z.sub_le_mono_l. unfold new_sqrt0.
    assert (0 <= eff p a * sqrt_price_x96 p) by (apply Z.mul_nonneg_nonneg; lia).
    apply Z.div_le_compat_l; [unfold Q96; nia|]. split; [unfold Q96; lia|].
    apply Z.add_le_mono_l, Z.mul_le_mono_nonneg_r; lia.
  - unfold raw1. assert (Hdm : delta1 p a <= delta1 p a')
      by (apply Z.div_le_mono; [|unfold Q96]; lia).
    set (L := liquidity p) in *. set (s := sqrt_price_x96 p) in *.
    set (d := delta1 p a) in *. set (d' := delta1 p a') in *. clearbody d d'.
    assert (0 < s * (s + d)) by (apply Z.mul_pos_pos; lia).
    assert (0 < s * (s + d')) by (apply Z.mul_pos_pos; lia).
    apply Z.div_le_lower_bound; [lia|].
    transitivity ((s * (s + d')) * (L * Q96 * d) / (s * (s + d))).
    + apply Z.div_mul_le; [|lia|lia]. unfold Q96. nia.
    + apply Z.div_le_upper_bound; [lia|].
      replace (s * (s + d') * (L * Q96 * d)) with (s * (L * Q96) * ((s + d') * d)) by lia.
      replace (s * (s + d) * (L * Q96 * d')) with (s * (L * Q96) * ((s + d) * d')) by lia.
      apply Z.mul_le_mono_nonneg_l; [unfold Q96; nia|]. nia.
Qed.

Lemma quote_mono p tk a a' : exact_range p a' -> 0 <= a <= a' -> quote p tk a <= quote p tk a'.
Proof.
  intros Hr Hle. apply Z.div_le_mono; [lia|]. apply Z.mul_le_mono_nonneg_r; [lia|].
  by apply raw_mono.
Qed.

(** *** The binary search *)

Lemma search_spec p tk out hi : tk = token0 p \/ tk = token1 p -> exact_range p hi ->
  forall rounds low high,
  1 <= low <= high -> high <= hi -> high - low < 2 ^ Z.of_nat rounds ->
  (forall a, 1 <= a < low -> quote p tk a < out) ->
  exists r, search rounds p tk out low high = Ret r /\ low <= r <= high /\
    (forall a, 1 <= a < r -> quote p tk a < out) /\ (r = high \/ out <= quote p tk r).
Proof.
  intros Htk Hr. pose proof (er_amount _ _ Hr) as Hhi.
  induction rounds as [|rounds IH]; intros low high Hlow Hhigh Hgap Hbelow; cbn [search].
  { simpl in Hgap. exists high. repeat split; auto; try lia.
    intros a Ha. apply Hbelow. lia. }
  destruct (Z.leb_spec high low) as [Hle|Hlt].
  { exists high. repeat split; auto; try lia. intros a Ha. apply Hbelow. lia. }
  rewrite Nat2Z.inj_succ, Z.pow_succ_r in Hgap by lia.
  rewrite u256_add_exact by (range; lia). cbn [mbind outcome_bind].
  rewrite u256_div_exact by lia. cbn [mbind outcome_bind].
  set (mid := (low + high) / 2).
  assert (Hmid : low <= mid < high /\ low + high - 1 <= 2 * mid <= low + high)
    by (subst mid; pose proof (Z.div_mod (low + high) 2); pose proof (Z.mod_pos_bound (low + high) 2);
        lia).
  clearbody mid. pose proof (exact_range_le p mid hi Hr ltac:(lia)) as Hrm.
  rewrite (get_amount_out_exact p tk mid Hrm) by (lia || done). cbn [mbind outcome_bind].
  destruct (Z.leb_spec out (quote p tk mid)) as [Hq|Hq].
  - destruct (IH low mid) as (r & -> & Hb & Hr1 & Hr2); try done; try lia.
    exists r. repeat split; try done; try lia. destruct Hr2 as [->|]; auto.
  - rewrite u256_add_exact by (range; lia). cbn [mbind outcome_bind].
    destruct (IH (mid + 1) high) as (r & -> & Hb & Hr1 & Hr2); try done; try lia.
    { intros a Ha. pose proof (quote_mono p tk a mid Hrm). lia. }
    exists r. repeat split; try done; lia.
Qed.

(** The input token of an exact-output request. *)
Definition input_of (p : t) (token_out : Address) : Address :=
  if token_out =? token0 p then token1 p else token0 p.

Lemma get_amount_in_spec p tout out :
  tout = token0 p \/ tout = token1 p -> 0 < out -> exact_range p (2 * out) ->
  exists r, get_amount_in p tout out = Ret (Some r) /\ 1 <= r <= 2 * out /\
    (forall a, 1 <= a < r -> quote p (input_of p tout) a < out) /\
    (r = 2 * out \/ out <= quote p (input_of p tout) r).
Proof.
  intros Ht Ho Hr. pose proof (er_amount _ _ Hr).
  assert (Hgap : out * 2 - 1 < 2 ^ Z.of_nat search_rounds)
    by (change (Z.of_nat search_rounds) with 256; range; lia).
  unfold get_amount_in. revert Hgap. generalize search_rounds. intros rounds Hgap.
  rewrite (proj2 (Z.eqb_neq out 0)) by lia.
  replace (negb (tout =? token0 p) && negb (tout =? token1 p)) with false
    by (destruct Ht as [->| ->]; rewrite Z.eqb_refl; [done|by rewrite andb_false_r]).
  fold (input_of p tout). rewrite u256_mul_exact by (range; lia). cbn [mbind outcome_bind].
  assert (Hti : input_of p tout = token0 p \/ input_of p tout = token1 p)
    by (unfold input_of; destruct (tout =? token0 p); auto).
  destruct (search_spec p (input_of p tout) out (2 * out) Hti Hr rounds 1 (out * 2))
    as (r & -> & Hb & Hbelow & Hd); [lia|lia|done|intros; lia|].
  exists r. cbn [mbind outcome_bind].
  repeat split; try done; lia.
Qed.

(** When twice the requested amount buys it, the exact-output search
    returns the least sufficient input: its quote reaches the request, and the
    quote of every smaller input falls short. 256 rounds are always enough. *)
Theorem v3_exact_output_least p tout out q :
  tout = token0 p \/ tout = token1 p -> 0 < out -> exact_range p (2 * out) ->
  get_amount_out p (input_of p tout) (2 * out) = Ret (Some q) -> out <= q ->
  exists r q', get_amount_in p tout out = Ret (Some r) /\
    get_amount_out p (input_of p tout) r = Ret (Some q') /\ out <= q' /\
    forall a, 0 < a < r -> exists qa,
      get_amount_out p (input_of p tout) a = Ret (Some qa) /\ qa < out.
Proof.
  intros Ht Ho Hr Hq Hle.
  assert (Hti : input_of p tout = token0 p \/ input_of p tout = token1 p)
    by (unfold input_of; destruct (tout =? token0 p); auto).
  rewrite get_amount_out_exact in Hq by (done || lia). injection Hq as <-.
  destruct (get_amount_in_spec p tout out Ht Ho Hr) as (r & -> & Hb & Hbelow & Hd).
  exists r, (quote p (input_of p tout) r).
  split; [done|]. split.
  { apply get_amount_out_exact; [|lia|done]. apply (exact_range_le p r (2 * out)); [done|lia]. }
  split; [destruct Hd as [->|]; done|]. intros a Ha.
  exists (quote p (input_of p tout) a). split; [|apply Hbelow; lia].
  apply get_amount_out_exact; [|lia|done]. apply (exact_range_le p a (2 * out)); [done|lia].
Qed.

(** The search starts from the upper bound [2 * amount_out], which is no
    bound at all when the input token is worth less than half the output
    token per raw unit: the result is then [2 * amount_out], whose own quote
    falls short of the request. *)
Theorem v3_exact_output_insufficient p tout out q :
  tout = token0 p \/ tout = token1 p -> 0 < out -> exact_range p (2 * out) ->
  get_amount_out p (input_of p tout) (2 * out) = Ret (Some q) -> q < out ->
  get_amount_in p tout out = Ret (Some (2 * out)).
Proof.
  intros Ht Ho Hr Hq Hlt.
  assert (Hti : input_of p tout = token0 p \/ input_of p tout = token1 p)
    by (unfold input_of; destruct (tout =? token0 p); auto).
  rewrite get_amount_out_exact in Hq by (done || lia). injection Hq as <-.
  destruct (get_amount_in_spec p tout out Ht Ho Hr) as (r & -> & Hb & Hbelow & [->|Hd]); [done|].
  pose proof (quote_mono p (input_of p tout) r (2 * out) Hr). lia.
Qed.

(** The quote is the predicted output less the 2% margin: whenever
    [predict_post_state] answers, in any build and for any state,
    [get_amount_out] is the discounted predicted output. *)
Theorem v3_prediction_agrees p tk a st :
  predict_post_state p tk a = Ret (Some st) ->
  get_amount_out p tk a
  = (q ← apply_simulation_safety_margin (amount_out st); Ret (Some q)).
Proof.
  unfold predict_post_state, get_amount_out, compute_swap_within_tick. intros H.
  destruct ((sqrt_price_x96 p =? 0) || (liquidity p =? 0) || (a =? 0)); [done|].
  destruct (negb (tk =? token0 p) && negb (tk =? token1 p)); [done|].
  apply bind_Ret in H as (e & -> & H). cbn [mbind outcome_bind].
  destruct (tk =? token0 p).
  - do 4 (apply bind_Ret in H as (? & -> & H); cbn [mbind outcome_bind]; cbv beta in H).
    destruct (_ =? 0); [done|].
    do 2 (apply bind_Ret in H as (? & -> & H); cbn [mbind outcome_bind]; cbv beta in H).
    destruct (sqrt_price_x96 p <=? _); [done|].
    do 3 (apply bind_Ret in H as (? & -> & H); cbn [mbind outcome_bind]; cbv beta in H).
    unbind H. by injection H as <-.
  - destruct (liquidity p =? 0); [done|].
    do 6 (apply bind_Ret in H as (? & -> & H); cbn [mbind outcome_bind]; cbv beta in H).
    destruct (_ =? 0); [done|].
    apply bind_Ret in H as (? & -> & H); cbn [mbind outcome_bind]; cbv beta in H.
    unbind H. by injection H as <-.
Qed.

(** Selling [token1] never breaks the curve: the quoted amount (and the
    undiscounted one) leaves the product of the virtual reserves at least
    where it was, with the fee excluded. *)
Theorem v3_sell1_keeps_invariant p a :
  exact_range p a -> 0 < a -> token0 p <> token1 p ->
  exists q, get_amount_out p (token1 p) a = Ret (Some q) /\
    let L := liquidity p in let s := sqrt_price_x96 p in
    0 <= q * s <= L * Q96 /\
    L * L * s * Q96 <= (L * Q96 - q * s) * (L * s + eff p a * Q96).
Proof.
  intros Hr Ha Hne. exists (quote p (token1 p) a). split; [by apply get_amount_out_exact; auto|].
  destruct (delta1_bounds p a Hr) as (Hd & _ & Hld). pose proof (raw1_bounds p a Hr) as Hb.
  unfold quote, raw. rewrite (proj2 (Z.eqb_neq _ _)) by congruence.
  pose proof (discount_le (raw1 p a) 9800 ltac:(lia) ltac:(lia)) as Hq.
  destruct Hr as [HL Hs _ _ _ _].
  set (q := raw1 p a * 9800 / 10000) in *. clearbody q. revert Hb Hq. unfold raw1.
  set (L := liquidity p) in *. set (s := sqrt_price_x96 p) in *. set (d := delta1 p a) in *.
  clearbody L s d. intros Hb Hq. cbn zeta.
  assert (Hden : 0 < s * (s + d)) by (apply Z.mul_pos_pos; lia).
  pose proof (Z.mul_div_le (L * Q96 * d) (s * (s + d)) Hden) as Hdiv.
  set (r := L * Q96 * d / (s * (s + d))) in *. clearbody r.
  assert (Hqs : q * s * (s + d) <= L * Q96 * d).
  { transitivity (s * (s + d) * r); [|done].
    replace (q * s * (s + d)) with (s * (s + d) * q) by lia.
    apply Z.mul_le_mono_nonneg_l; lia. }
  assert (Hlq : 0 <= L * Q96) by (unfold Q96; lia).
  assert (Hqs0 : 0 <= q * s) by (apply Z.mul_nonneg_nonneg; lia).
  assert (q * s <= L * Q96).
  { apply (Z.mul_le_mono_pos_r _ _ (s + d)); [lia|]. etransitivity; [apply Hqs|].
    apply Z.mul_le_mono_nonneg_l; lia. }
  split; [done|].
  transitivity ((L * Q96 - q * s) * (L * (s + d))).
  - assert (Hk : L * Q96 * s <= L * Q96 * (s + d) - q * s * (s + d)) by lia.
    pose proof (Z.mul_le_mono_nonneg_l _ _ L ltac:(lia) Hk). lia.
  - apply Z.mul_le_mono_nonneg_l; lia.
Qed.

(** Selling [token0] is covered by the safety margin: the square-root
    price is rounded against the pool, but once it moves by 50 units the 2%
    discount outweighs the rounding and the quoted amount leaves the product
    of the virtual reserves at least where it was. *)
Theorem v3_sell0_keeps_invariant p a :
  exact_range p a -> 0 < a -> 51 <= sqrt_price_x96 p - new_sqrt0 p a ->
  exists q, get_amount_out p (token0 p) a = Ret (Some q) /\
    let L := liquidity p in let s := sqrt_price_x96 p in
    0 <= q * Q96 <= L * s /\
    L * L * s * Q96 <= (L * Q96 + eff p a * s) * (L * s - q * Q96).
Proof.
  intros Hr Ha Hmove. exists (quote p (token0 p) a).
  split; [by apply get_amount_out_exact; auto|].
  pose proof (raw0_bounds p a Hr) as Hb. pose proof (new_sqrt0_bounds p a Hr) as Hn.
  pose proof (eff_bounds p a ltac:(lia) (er_fee _ _ Hr)) as He.
  unfold quote, raw. rewrite Z.eqb_refl. destruct Hr as [HL Hs _ _ _ _].
  pose proof (Z.mul_div_le (raw0 p a * 9800) 10000 ltac:(lia)) as Hq.
  pose proof (Z.div_pos (raw0 p a * 9800) 10000 ltac:(lia) ltac:(lia)) as Hq0.
  set (q := raw0 p a * 9800 / 10000) in *. clearbody q. revert Hb Hn Hmove Hq.
  unfold raw0, new_sqrt0.
  set (L := liquidity p) in *. set (s := sqrt_price_x96 p) in *. set (e := eff p a) in *.
  set (D := L * Q96 + e * s). set (ns := L * s * Q96 / D). intros Hb Hn Hmove Hq. cbn zeta.
  assert (HD : 0 < D)
    by (pose proof (Z.mul_nonneg_nonneg e s ltac:(lia) ltac:(lia)); unfold D, Q96; lia).
  pose proof (Z.mul_succ_div_gt (L * s * Q96) D HD) as Hfl. fold ns in Hfl.
  pose proof (Z.mul_div_le (L * (s - ns)) Q96 ltac:(done)) as Hraw.
  set (r := L * (s - ns) / Q96) in *. clearbody D ns r L s e.
  assert (HqQ : q * Q96 * 50 <= 49 * (L * (s - ns))) by (unfold Q96 in *; lia).
  assert (HLm : L * 51 <= L * (s - ns)) by (apply Z.mul_le_mono_nonneg_l; lia).
  assert (HLn : 0 <= L * ns) by (apply Z.mul_nonneg_nonneg; lia).
  assert (Hdisc : q * Q96 <= L * (s - ns) - L) by lia.
  split; [unfold Q96 in *; lia|].
  transitivity (D * (L * Z.succ ns)).
  - pose proof (Z.mul_le_mono_nonneg_l _ _ L ltac:(lia) (Z.lt_le_incl _ _ Hfl)). lia.
  - apply Z.mul_le_mono_nonneg_l; lia.
Qed.
End Properties.

(** ** Concrete pools *)

(** A balanced pair at price one. *)
Definition sample : t := mk 1 10 20 30 60 Q96 (10 ^ 18) 0 [].
(** The same depth at a price of one quarter. *)
Definition cheap_sample : t := mk 1 10 20 30 60 (2 ^ 95) (10 ^ 18) (-13864) [].
(** A USDC/WETH pool at 3000 USDC per WETH with [10 ^ 19] units of liquidity,
    the magnitudes of the mainnet 0.05% pool. *)
Definition usdc_weth : t :=
  mk 1 addresses.USDC addresses.WETH 5 10 1446501726624926496477173928747177 (10 ^ 19) 196256 [].

Lemma sample_range a : 0 <= a < 2 ^ 64 -> exact_range sample a.
Proof.
  intros Ha. split; try (simpl; unfold Q96; lia). simpl.
  assert (a * Q96 / 10 ^ 18 <= 2 ^ 64 * Q96 / 10 ^ 18) by (apply Z.div_le_mono; unfold Q96; lia).
  assert (Q96 + 2 ^ 64 * Q96 / 10 ^ 18 < 2 ^ 128) by reflexivity. lia.
Qed.

Lemma cheap_sample_range a : 0 <= a < 2 ^ 64 -> exact_range cheap_sample a.
Proof.
  intros Ha. split; try (simpl; unfold Q96; lia). simpl.
  assert (a * Q96 / 10 ^ 18 <= 2 ^ 64 * Q96 / 10 ^ 18) by (apply Z.div_le_mono; unfold Q96; lia).
  assert (2 ^ 95 + 2 ^ 64 * Q96 / 10 ^ 18 < 2 ^ 128) by reflexivity.
  change (Z.pow_pos 2 95) with (2 ^ 95). lia.
Qed.

(** The Q96 products do not fit 256 bits on mainnet-sized pools: selling
    1000 USDC into a pool at 3000 USDC per WETH is worth 0.33 WETH, but the
    wrapped product of liquidity, price and [2 ^ 96] quotes 178,916 WETH, and
    with checked arithmetic the quote panics. *)
Theorem v3_quote_wraps :
  quote usdc_weth addresses.USDC (10 ^ 9) = 326502737521673431 /\
  get_amount_out (B:=release) usdc_weth addresses.USDC (10 ^ 9)
    = Ret (Some 178916077587641999368484) /\
  get_amount_out (B:=debug) usdc_weth addresses.USDC (10 ^ 9) = Panic.
Proof. repeat split; vm_compute; reflexivity. Qed.

(** The conversion to [f64] weighs the top limb by [2 ^ 256], where the
    comment and the other limbs mean [2 ^ 192]: an integer of [2 ^ 192] converts
    to [2 ^ 256]. Values below [2 ^ 192], square-root prices among them, do not
    have that limb. *)
Theorem u256_to_f64_top_limb :
  u256_to_f64 (2 ^ 192) = f64_of_Z (2 ^ 256) /\
  u256_to_f64 (2 ^ 128) = f64_of_Z (2 ^ 128) /\
  forall v, 0 <= v < 2 ^ 192 -> limb v 3 = 0.
Proof.
  split; [vm_compute; reflexivity|]. split; [vm_compute; reflexivity|].
  intros v Hv. unfold limb. by rewrite Z.div_small by (simpl; lia).
Qed.

Lemma v3_exact_output_least_witness :
  exists r q', get_amount_in (B:=debug) sample 20 (10 ^ 15) = Ret (Some r) /\
    get_amount_out (B:=debug) sample (input_of sample 20) r = Ret (Some q') /\ 10 ^ 15 <= q' /\
    forall a, 0 < a < r -> exists qa,
      get_amount_out (B:=debug) sample (input_of sample 20) a = Ret (Some qa) /\ qa < 10 ^ 15.
Proof.
  apply (v3_exact_output_least (B:=debug) sample 20 (10 ^ 15) 1950231238909613);
    [by right|lia|apply sample_range; lia|vm_compute; reflexivity|lia].
Defined.

Lemma v3_exact_output_insufficient_witness :
  get_amount_in (B:=release) cheap_sample 20 (10 ^ 15) = Ret (Some (2 * 10 ^ 15)).
Proof.
  apply (v3_exact_output_insufficient (B:=release) cheap_sample 20 (10 ^ 15) 488043420709551);
    [by right|lia|apply cheap_sample_range; lia|vm_compute; reflexivity|lia].
Defined.

Lemma v3_prediction_agrees_witness :
  get_amount_out (B:=release) sample 10 (10 ^ 15)
  = (q ← apply_simulation_safety_margin (B:=release) 996006981039903; Ret (Some q)).
Proof.
  apply (v3_prediction_agrees (B:=release)
           (M:={| f64_ln x := x; f64_exp x := x; f64_powi x _ := x; f64_powf x _ := x |})
           sample 10 (10 ^ 15)
           (mkPost 79149250711305166342700278158 (10 ^ 18) 996006981039903 false)).
  vm_compute. reflexivity.
Defined.

Lemma v3_sell1_keeps_invariant_witness :
  exists q, get_amount_out (B:=debug) sample 20 (10 ^ 15) = Ret (Some q) /\
    let L := 10 ^ 18 in let s := Q96 in
    0 <= q * s <= L * Q96 /\
    L * L * s * Q96 <= (L * Q96 - q * s) * (L * s + eff sample (10 ^ 15) * Q96).
Proof.
  apply (v3_sell1_keeps_invariant (B:=debug) sample (10 ^ 15));
    [apply sample_range; lia|lia|simpl; lia].
Defined.

Lemma v3_sell0_keeps_invariant_witness :
  exists q, get_amount_out (B:=debug) sample 10 (10 ^ 15) = Ret (Some q) /\
    let L := 10 ^ 18 in let s := Q96 in
    0 <= q * Q96 <= L * s /\
    L * L * s * Q96 <= (L * Q96 + eff sample (10 ^ 15) * s) * (L * s - q * Q96).
Proof.
  apply (v3_sell0_keeps_invariant (B:=debug) sample (10 ^ 15));
    [apply sample_range; lia|lia|vm_compute; congruence].
Defined.

End UniswapV3Pool.
