(* ===== verification/PoolState.v ===== *)
(** * Cached pool states and the post-swap dispatcher

    [crates/pools/src/lib.rs]: the sum of the adapters the mempool simulator
    reads ([PoolState]), the unified post-swap state, and the two dispatchers
    that run the analytical predictor of a pool and escalate when its
    confidence flag is low. *)

From Stdlib Require Import ZArith Lia String.
From S2P Require Import Prelude.
From S2P Require Import Machine.
From S2P Require Import F64.
From S2P Require Import Types.
From S2P Require Import Pool.
From S2P Require Import UniswapV2.
From S2P Require Import UniswapV3.
From S2P Require Import Curve.
From S2P Require Import Balancer.
From S2P Require Import Bancor.
From stdpp Require Import base option numbers strings gmap list.

Local Open Scope Z_scope.
Local Open Scope string_scope.

Inductive PoolState : Type :=
| StUniswapV2 (p : UniswapV2Pool.t)
| StUniswapV3 (p : UniswapV3Pool.t)
| StSushiSwap (p : UniswapV2Pool.t)
| StCurve (p : CurvePool.t)
| StBalancer (p : BalancerPool.t)
| StBalancerV3 (p : BalancerV3Pool.t)
| StBancor (p : BancorPool.t).

Definition state_address (s : PoolState) : Address :=
  match s with
  | StUniswapV2 p | StSushiSwap p => UniswapV2Pool.address p
  | StUniswapV3 p => UniswapV3Pool.address p
  | StCurve p => CurvePool.address p
  | StBalancer p => BalancerPool.address p
  | StBalancerV3 p => BalancerPool.address (BalancerV3Pool.inner p)
  | StBancor p => BancorPool.address p
  end.

Definition state_protocol (s : PoolState) : ProtocolType :=
  match s with
  | StUniswapV2 _ => UniswapV2
  | StUniswapV3 _ => UniswapV3
  | StSushiSwap _ => SushiSwap
  | StCurve _ => Curve
  | StBalancer _ => BalancerV2
  | StBalancerV3 _ => BalancerV3
  | StBancor _ => BancorV3
  end.

(** The cache: one shared state per pool address. *)
Abbreviation PoolStateCache := (gmap Z PoolState) (only parsing).
Definition new_pool_state_cache : PoolStateCache := ∅.

Inductive UnifiedPostState : Type :=
| PostUniswapV3 (s : UniswapV3Pool.V3PostState)
| PostCurve (s : CurvePool.CurvePostState)
| PostBalancer (s : BalancerPool.BalancerPostState)
| PostBancor (s : BancorPool.BancorPostState).

Definition unified_amount_out (s : UnifiedPostState) : Z :=
  match s with
  | PostUniswapV3 p => UniswapV3Pool.amount_out p
  | PostCurve p => CurvePool.amount_out p
  | PostBalancer p => BalancerPool.amount_out p
  | PostBancor p => BancorPool.amount_out p
  end.

Inductive ReplayProtocol : Type := RpUniswapV3 | RpCurve | RpBalancer | RpBancor.

(** What a dispatcher did: the label it passed to [on_fallback], if it called
    it, and its answer. *)
Record dispatch : Type := mkDispatch {
  fallback : option string;
  answer : option UnifiedPostState;
}.

Definition reject : dispatch := mkDispatch None None.
Definition accept (s : UnifiedPostState) : dispatch := mkDispatch None (Some s).

Section Dispatch.
Context `{B : Build} `{M : Libm}.

Definition predict_post_state_with_fallback (s : PoolState) (token_in : Address) (amount_in : Z)
    : outcome dispatch :=
  match s with
  | StUniswapV3 pool =>
      r ← UniswapV3Pool.predict_post_state pool token_in amount_in;
      Ret match r with
          | None => reject
          | Some post =>
              if negb (UniswapV3Pool.single_tick post)
              then mkDispatch (Some "v3_tick_crossed") None
              else accept (PostUniswapV3 post)
          end
  | StCurve pool =>
      r ← CurvePool.predict_post_state pool token_in amount_in;
      Ret match r with None => reject | Some post => accept (PostCurve post) end
  | StBalancer pool =>
      r ← BalancerPool.predict_post_state pool token_in amount_in;
      Ret match r with
          | None => reject
          | Some post =>
              if negb (BalancerPool.analytical post)
              then mkDispatch (Some "balancer_unequal_weight") None
              else accept (PostBalancer post)
          end
  | StBalancerV3 pool =>
      r ← BalancerV3Pool.predict_post_state_v3 pool token_in amount_in;
      Ret match r with
          | None => reject
          | Some post =>
              if negb (BalancerPool.analytical post)
              then mkDispatch (Some "balancer_unequal_weight") None
              else accept (PostBalancer post)
          end
  | StBancor pool =>
      r ← BancorPool.predict_post_state pool token_in amount_in;
      Ret match r with None => reject | Some post => accept (PostBancor post) end
  | StUniswapV2 _ | StSushiSwap _ => Ret (mkDispatch (Some "unknown_protocol") None)
  end.

Definition predict_post_state_with_replay (s : PoolState) (token_in : Address) (amount_in : Z)
    (replay : ReplayProtocol -> option UnifiedPostState) : outcome dispatch :=
  match s with
  | StUniswapV3 pool =>
      r ← UniswapV3Pool.predict_post_state pool token_in amount_in;
      Ret match r with
          | None => reject
          | Some post =>
              if negb (UniswapV3Pool.single_tick post)
              then mkDispatch (Some "v3_tick_crossed") (replay RpUniswapV3)
              else accept (PostUniswapV3 post)
          end
  | StCurve pool =>
      r ← CurvePool.predict_post_state pool token_in amount_in;
      Ret match r with None => reject | Some post => accept (PostCurve post) end
  | StBalancer pool =>
      r ← BalancerPool.predict_post_state pool token_in amount_in;
      Ret match r with
          | None => reject
          | Some post =>
              if negb (BalancerPool.analytical post)
              then mkDispatch (Some "balancer_unequal_weight") (replay RpBalancer)
              else accept (PostBalancer post)
          end
  | StBalancerV3 pool =>
      r ← BalancerV3Pool.predict_post_state_v3 pool token_in amount_in;
      Ret match r with
          | None => reject
          | Some post =>
              if negb (BalancerPool.analytical post)
              then mkDispatch (Some "balancer_unequal_weight") (replay RpBalancer)
              else accept (PostBalancer post)
          end
  | StBancor pool =>
      r ← BancorPool.predict_post_state pool token_in amount_in;
      Ret match r with None => reject | Some post => accept (PostBancor post) end
  | StUniswapV2 _ | StSushiSwap _ => Ret (mkDispatch (Some "unknown_protocol") None)
  end.

(** The confidence flag of a post-state. *)
Definition trusted (s : UnifiedPostState) : bool :=
  match s with
  | PostUniswapV3 p => UniswapV3Pool.single_tick p
  | PostCurve p => CurvePool.analytical p
  | PostBalancer p => BalancerPool.analytical p
  | PostBancor p => BancorPool.analytical p
  end.

(** The family of the replay reader a pool is dispatched to. *)
Definition replay_family (s : PoolState) : option ReplayProtocol :=
  match s with
  | StUniswapV3 _ => Some RpUniswapV3
  | StBalancer _ | StBalancerV3 _ => Some RpBalancer
  | _ => None
  end.

Lemma curve_analytical p tk a st :
  CurvePool.predict_post_state p tk a = Ret (Some st) -> CurvePool.analytical st = true.
Proof.
  unfold CurvePool.predict_post_state. intros H.
  repeat first [progress simplify_eq/= | progress unbind H | case_match]; done.
Qed.

Lemma bancor_analytical p tk a st :
  BancorPool.predict_post_state p tk a = Ret (Some st) -> BancorPool.analytical st = true.
Proof.
  unfold BancorPool.predict_post_state. intros H.
  repeat first [progress simplify_eq/= | progress unbind H | case_match]; done.
Qed.

(** The fork-replay dispatcher extends the analytical one: whatever the
    pool, the two panic together and bump the same metric; a trusted
    analytical answer is returned by both, unlabelled and without a replay;
    only a labelled, low-confidence answer is replaced, by the result of the
    replay for that pool's own protocol family. *)
Theorem replay_extends_fallback s tk a replay :
  match predict_post_state_with_fallback s tk a with
  | Panic => predict_post_state_with_replay s tk a replay = Panic
  | Ret d => exists d', predict_post_state_with_replay s tk a replay = Ret d' /\
      fallback d' = fallback d /\
      (forall st, answer d = Some st -> fallback d = None /\ trusted st = true) /\
      answer d' = match fallback d, replay_family s with
                  | Some _, Some f => replay f
                  | _, _ => answer d
                  end
  end.
Proof.
  unfold predict_post_state_with_fallback, predict_post_state_with_replay.
  destruct s as [p|p|p|p|p|p|p]; simpl; try (eexists; split; [reflexivity|naive_solver]).
  - destruct (UniswapV3Pool.predict_post_state p tk a) as [[st|]|]; simpl; [|naive_solver|done].
    eexists. split; [reflexivity|]. destruct (UniswapV3Pool.single_tick st) eqn:E; naive_solver.
  - destruct (CurvePool.predict_post_state p tk a) as [[st|]|] eqn:E; simpl; [|naive_solver|done].
    apply curve_analytical in E. naive_solver.
  - destruct (BalancerPool.predict_post_state p tk a) as [[st|]|]; simpl; [|naive_solver|done].
    eexists. split; [reflexivity|]. destruct (BalancerPool.analytical st) eqn:E; naive_solver.
  - destruct (BalancerV3Pool.predict_post_state_v3 p tk a) as [[st|]|]; simpl; [|naive_solver|done].
    eexists. split; [reflexivity|]. destruct (BalancerPool.analytical st) eqn:E; naive_solver.
  - destruct (BancorPool.predict_post_state p tk a) as [[st|]|] eqn:E; simpl; [|naive_solver|done].
    apply bancor_analytical in E. naive_solver.
Qed.
End Dispatch.
