(* ===== verification/Registry.v ===== *)
(** * The pool registry

    [crates/pools/src/registry.rs]: the pools by id, the pair index and the
    tiers. The registry holds trait objects, so it is modelled over any type
    with a [Pool] instance; its theorems use only what [PoolLaws] promises. *)

From Stdlib Require Import ZArith Lia.
From S2P Require Import Prelude.
From S2P Require Import Machine.
From S2P Require Import F64.
From S2P Require Import Types.
From S2P Require Import Pool.
From S2P Require Import UniswapV2.
From stdpp Require Import base option numbers gmap list.

Local Open Scope Z_scope.

Record QualificationCriteria : Type := mkCriteria {
  min_liquidity_usd : f64;
  min_volume_24h_usd : f64;
  min_age_blocks : Z;
  max_rug_score : f64;
}.

Definition default_criteria : QualificationCriteria :=
  mkCriteria (f64_of_Z 10000) (f64_of_Z 1000) 100 (f64_of_ratio 3 10).

(** The pairs the index loops visit, in order: for [i < j], the pair
    [(tokens[i], tokens[j])] and its reverse. *)
Fixpoint token_pairs (ts : list Address) : list (Address * Address) :=
  match ts with
  | [] => []
  | t :: ts => (u ← ts; [(t, u); (u, t)]) ++ token_pairs ts
  end.

Abbreviation PairIndex := (gmap (Z * Z) (list PoolId)) (only parsing).

(** [entry(pair).or_default().push(id)]. *)
Definition push_pair (id : PoolId) (idx : PairIndex) (pair : Address * Address) : PairIndex :=
  <[pair := default [] (idx !! pair) ++ [id]]> idx.
(** [if let Some(ids) = get_mut(pair) { ids.retain(|pid| pid != id) }]. *)
Definition retain_pair (id : PoolId) (idx : PairIndex) (pair : Address * Address) : PairIndex :=
  alter (filter (fun pid => pid <> id)) pair idx.

Module Registry.

Section Registry.
Context {P : Type} `{HP : Pool P}.

Record PoolRegistry : Type := mkRegistry {
  pools : gmap PoolId P;
  pair_index : PairIndex;
  tiers : gmap PoolId PoolTier;
  criteria : QualificationCriteria;
}.

Definition new_registry (criteria : QualificationCriteria) : PoolRegistry :=
  mkRegistry ∅ ∅ ∅ criteria.
Definition with_defaults : PoolRegistry := new_registry default_criteria.

Definition pool_id (p : P) : PoolId := mkPoolId (address p) (protocol p).

Definition register (r : PoolRegistry) (pool : P) (tier : PoolTier) : PoolRegistry :=
  let id := pool_id pool in
  let idx := foldl (push_pair id) (pair_index r) (token_pairs (tokens pool)) in
  mkRegistry (<[id := pool]> (pools r)) idx (<[id := tier]> (tiers r)) (criteria r).

Definition get (r : PoolRegistry) (id : PoolId) : option P := pools r !! id.

(** A caller of [get_mut] that refreshes the reserves of the pool. *)
Definition get_mut_update (r : PoolRegistry) (id : PoolId) (r0 r1 : Z) : PoolRegistry :=
  mkRegistry (alter (fun p => update_state p r0 r1) id (pools r)) (pair_index r) (tiers r)
    (criteria r).

Definition pools_for_pair (r : PoolRegistry) (a b : Address) : list P :=
  match pair_index r !! (a, b) with
  | Some ids => omap (fun id => pools r !! id) ids
  | None => []
  end.

Definition all_pool_ids (r : PoolRegistry) : list PoolId := (map_to_list (pools r)).*1.
Definition pool_count (r : PoolRegistry) : nat := size (pools r).
Definition tier (r : PoolRegistry) (id : PoolId) : option PoolTier := tiers r !! id.
Definition hot_pools (r : PoolRegistry) : list PoolId :=
  (map_to_list (filter (fun kv : PoolId * PoolTier => kv.2 = Hot) (tiers r))).*1.

Definition qualifies (r : PoolRegistry) (liquidity_usd volume_24h_usd : f64) (age_blocks : Z)
    (rug_score : f64) : bool :=
  f64_ge liquidity_usd (min_liquidity_usd (criteria r))
  && f64_ge volume_24h_usd (min_volume_24h_usd (criteria r))
  && (min_age_blocks (criteria r) <=? age_blocks)
  && f64_le rug_score (max_rug_score (criteria r)).

Definition remove (r : PoolRegistry) (id : PoolId) : PoolRegistry * option P :=
  let tiers' := delete id (tiers r) in
  match pools r !! id with
  | Some pool =>
      (mkRegistry (delete id (pools r))
         (foldl (retain_pair id) (pair_index r) (token_pairs (tokens pool))) tiers' (criteria r),
       Some pool)
  | None => (mkRegistry (pools r) (pair_index r) tiers' (criteria r), None)
  end.

(** ** The pair index *)

Definition listed (idx : PairIndex) (pair : Address * Address) (id : PoolId) : Prop :=
  id ∈ default [] (idx !! pair).

Lemma listed_push id idx ps pair id' :
  listed (foldl (push_pair id) idx ps) pair id' <->
  listed idx pair id' \/ (pair ∈ ps /\ id' = id).
Proof.
  revert idx. induction ps as [|q ps IH]; intros idx; simpl; [set_solver|].
  rewrite IH. unfold listed, push_pair. destruct (decide (pair = q)) as [->|Hne].
  - rewrite lookup_insert_eq. simpl. set_solver.
  - rewrite lookup_insert_ne by done. set_solver.
Qed.

Lemma listed_retain id idx ps pair id' :
  listed (foldl (retain_pair id) idx ps) pair id' <->
  listed idx pair id' /\ (pair ∈ ps -> id' <> id).
Proof.
  revert idx. induction ps as [|q ps IH]; intros idx; simpl; [set_solver|].
  rewrite IH. unfold listed, retain_pair. destruct (decide (pair = q)) as [->|Hne].
  - rewrite lookup_alter_eq. destruct (idx !! q) as [ids|]; simpl; [|set_solver].
    rewrite list_elem_of_filter. set_solver.
  - rewrite lookup_alter_ne by done. set_solver.
Qed.

(** ** The invariant and the operations that keep it *)

Record inv (r : PoolRegistry) : Prop := {
  inv_key id p : pools r !! id = Some p -> pool_id p = id;
  inv_tiers id : is_Some (tiers r !! id) <-> is_Some (pools r !! id);
  inv_index pair id :
    listed (pair_index r) pair id <->
    exists p, pools r !! id = Some p /\ pair ∈ token_pairs (tokens p);
}.

(** A pool may be registered again, under the same id, with the same
    tokens. *)
Definition registrable (r : PoolRegistry) (pool : P) : Prop :=
  forall p, pools r !! pool_id pool = Some p -> tokens p = tokens pool.

Inductive step (r : PoolRegistry) : PoolRegistry -> Prop :=
| step_register pool t : registrable r pool -> step r (register r pool t)
| step_remove id : step r (remove r id).1
| step_update id r0 r1 : step r (get_mut_update r id r0 r1).

Lemma registry_inv_new c : inv (new_registry c).
Proof.
  split; simpl.
  - intros id p H. by rewrite lookup_empty in H.
  - intros id. rewrite !lookup_empty. by split; intros [].
  - intros pair id. unfold listed. rewrite lookup_empty. simpl. split; [set_solver|].
    intros (p & Hp & _). by rewrite lookup_empty in Hp.
Qed.

Lemma inv_register r pool t : registrable r pool -> inv r -> inv (register r pool t).
Proof.
  intros Hreg [Hk Ht Hi]. split; simpl.
  - intros id p. destruct (decide (id = pool_id pool)) as [->|Hne].
    + rewrite lookup_insert_eq. by intros [= ->].
    + rewrite lookup_insert_ne by done. apply Hk.
  - intros id. destruct (decide (id = pool_id pool)) as [->|Hne].
    + rewrite !lookup_insert_eq. split; eauto.
    + rewrite !lookup_insert_ne by done. apply Ht.
  - intros pair id. rewrite listed_push, Hi. destruct (decide (id = pool_id pool)) as [->|Hne].
    + rewrite lookup_insert_eq. split.
      * intros [(p & Hp & Hpair)|[Hpair _]]; exists pool; split; try done.
        by rewrite <- (Hreg p Hp).
      * intros (p & [= <-] & Hpair). auto.
    + rewrite lookup_insert_ne by done. naive_solver.
Qed.

Lemma registry_inv_remove r id : inv r -> inv (remove r id).1.
Proof.
  intros [Hk Ht Hi]. unfold remove. destruct (pools r !! id) as [pool|] eqn:E; split; simpl.
  - intros id' p. rewrite lookup_delete_Some. intros [_ H]. by apply Hk.
  - intros id'. destruct (decide (id' = id)) as [->|Hne].
    + rewrite !lookup_delete_eq. by split; intros [].
    + rewrite !lookup_delete_ne by done. apply Ht.
  - intros pair id'. rewrite listed_retain, Hi. destruct (decide (id' = id)) as [->|Hne].
    + rewrite lookup_delete_eq. split; [|naive_solver].
      intros [(p & Hp & Hpair) Hn]. simplify_eq. by destruct (Hn Hpair).
    + rewrite lookup_delete_ne by done. naive_solver.
  - done.
  - intros id'. destruct (decide (id' = id)) as [->|Hne].
    + rewrite lookup_delete_eq, E. by split; intros [].
    + rewrite lookup_delete_ne by done. apply Ht.
  - done.
Qed.

Context `{HL : !PoolLaws P}.

Lemma pool_id_update p r0 r1 : pool_id (update_state p r0 r1) = pool_id p.
Proof. unfold pool_id. by rewrite update_address, update_protocol. Qed.

Lemma inv_update r id r0 r1 : inv r -> inv (get_mut_update r id r0 r1).
Proof.
  intros [Hk Ht Hi]. split; simpl.
  - intros id' p. rewrite lookup_alter_Some.
    intros [(-> & q & Hq & ->)|[_ H]]; [rewrite pool_id_update|]; by apply Hk.
  - intros id'. rewrite Ht. destruct (decide (id' = id)) as [->|Hne].
    + rewrite lookup_alter_eq. by destruct (pools r !! id).
    + by rewrite lookup_alter_ne.
  - intros pair id'. rewrite Hi. destruct (decide (id' = id)) as [->|Hne].
    + rewrite lookup_alter_eq. destruct (pools r !! id) as [p|]; simpl; [|naive_solver].
      split; intros (q & [= <-] & Hq); eexists; (split; [done|]).
      * by rewrite update_tokens.
      * by rewrite update_tokens in Hq.
    + by rewrite lookup_alter_ne.
Qed.

Lemma registry_inv_reachable c r : rtc step (new_registry c) r -> inv r.
Proof.
  intros H. assert (Hinv : forall r', rtc step r' r -> inv r' -> inv r).
  { clear H. induction 1 as [|r1 r2 r3 Hs _ IH]; [done|]. intros Hi. apply IH.
    destruct Hs; auto using inv_register, registry_inv_remove, inv_update. }
  eapply Hinv, registry_inv_new. done.
Qed.

(** The pair index is exact: after any sequence of registrations,
    removals and reserve updates, [pools_for_pair] returns precisely the
    registered pools that hold both tokens (at two positions of their token
    list), and the tier table covers exactly the registered pools. *)
Theorem registry_pair_index_exact c r a b pool :
  rtc step (new_registry c) r ->
  (pool ∈ pools_for_pair r a b <->
   pools r !! pool_id pool = Some pool /\ (a, b) ∈ token_pairs (tokens pool)) /\
  (is_Some (tier r (pool_id pool)) <-> is_Some (get r (pool_id pool))).
Proof.
  intros H. apply registry_inv_reachable in H as [Hk Ht Hi]. split; [|apply Ht].
  assert (Hin : pool ∈ pools_for_pair r a b <->
    exists id, listed (pair_index r) (a, b) id /\ pools r !! id = Some pool).
  { unfold pools_for_pair, listed. destruct (pair_index r !! (a, b)) as [ids|]; simpl.
    - by rewrite list_elem_of_omap.
    - set_solver. }
  rewrite Hin. split.
  - intros (id & Hl & Hp). rewrite (Hk _ _ Hp).
    apply Hi in Hl as (p & Hp' & Hpair). by simplify_eq.
  - intros [Hp Hpair]. exists (pool_id pool). split; [|done]. apply Hi. eauto.
Qed.

(** Removal is complete: a removed pool is gone from the pool map, the
    tier table and every list of the pair index. *)
Theorem registry_remove_complete c r id :
  rtc step (new_registry c) r ->
  let r' := (remove r id).1 in
  get r' id = None /\ tier r' id = None /\
  (remove r id).2 = get r id /\
  forall a b, id ∉ default [] (pair_index r' !! (a, b)).
Proof.
  intros H. cbn zeta. assert (Hr : inv (remove r id).1) by eauto using registry_inv_reachable, registry_inv_remove.
  assert (Hg : get (remove r id).1 id = None).
  { unfold remove, get. destruct (pools r !! id) eqn:E; simpl; [apply lookup_delete_eq|done]. }
  repeat split; [done| | |].
  - unfold remove, tier. destruct (pools r !! id); apply lookup_delete_eq.
  - unfold remove, get. by destruct (pools r !! id).
  - intros a b Hl. apply (inv_index _ Hr) in Hl as (p & Hp & _). unfold get in Hg. congruence.
Qed.
End Registry.

(** ** Over the Uniswap V2 adapter *)

Definition codec : AbiCodec := {| abi_encode _ := []; abi_decode _ := None |}.
Definition v2_registry : PoolRegistry :=
  register (HP:=UniswapV2Pool.v2_pool (B:=release) (C:=codec)) with_defaults
    UniswapV2Pool.sample Hot.

Lemma registry_pair_index_exact_witness :
  (UniswapV2Pool.sample ∈ pools_for_pair v2_registry 20 10 <->
   pools v2_registry !! mkPoolId 1 UniswapV2 = Some UniswapV2Pool.sample /\
   (20, 10) ∈ token_pairs [10; 20]) /\
  (is_Some (tier v2_registry (mkPoolId 1 UniswapV2)) <->
   is_Some (get v2_registry (mkPoolId 1 UniswapV2))).
Proof.
  apply (registry_pair_index_exact (HP:=UniswapV2Pool.v2_pool (B:=release) (C:=codec))
           default_criteria v2_registry 20 10 UniswapV2Pool.sample).
  apply rtc_once. apply step_register. intros p H. vm_compute in H. done.
Defined.

Lemma registry_remove_complete_witness :
  let r' := (remove (HP:=UniswapV2Pool.v2_pool (B:=release) (C:=codec)) v2_registry
               (mkPoolId 1 UniswapV2)).1 in
  get r' (mkPoolId 1 UniswapV2) = None /\ tier r' (mkPoolId 1 UniswapV2) = None /\
  (remove (HP:=UniswapV2Pool.v2_pool (B:=release) (C:=codec)) v2_registry
     (mkPoolId 1 UniswapV2)).2 = get v2_registry (mkPoolId 1 UniswapV2) /\
  forall a b, mkPoolId 1 UniswapV2 ∉ default [] (pair_index r' !! (a, b)).
Proof.
  apply (registry_remove_complete (HP:=UniswapV2Pool.v2_pool (B:=release) (C:=codec))
           default_criteria v2_registry (mkPoolId 1 UniswapV2)).
  apply rtc_once. apply step_register. intros p H. vm_compute in H. done.
Defined.

(** Registering a pool twice, as a caller that refreshes a pool does, lists
    it twice in the pair index. *)
Example registry_reregister_duplicates :
  length (pools_for_pair (register (HP:=UniswapV2Pool.v2_pool (B:=release) (C:=codec))
            v2_registry UniswapV2Pool.sample Hot) 10 20) = 2%nat.
Proof. vm_compute. reflexivity. Qed.

End Registry.
