(* ===== verification/TokenIndex.v ===== *)
(** * Token indices

    [crates/state/src/token_index.rs]: the two-way map between token addresses
    and the vertices of the price graph. *)

From Stdlib Require Import ZArith Lia.
From S2P Require Import Prelude.
From S2P Require Import Types.
From stdpp Require Import base option numbers gmap list.

Local Open Scope Z_scope.

Module TokenIndex.

Record t : Type := mk {
  addr_to_idx : gmap Z nat;
  idx_to_addr : list Address;
}.

Definition new : t := mk ∅ [].

Definition get_or_insert (ti : t) (a : Address) : nat * t :=
  match addr_to_idx ti !! a with
  | Some idx => (idx, ti)
  | None =>
      let idx := length (idx_to_addr ti) in
      (idx, mk (<[a := idx]> (addr_to_idx ti)) (idx_to_addr ti ++ [a]))
  end.

Definition get_index (ti : t) (a : Address) : option nat := addr_to_idx ti !! a.
Definition get_address (ti : t) (i : nat) : option Address := idx_to_addr ti !! i.
Definition len (ti : t) : nat := length (idx_to_addr ti).
Definition is_empty (ti : t) : bool := (length (idx_to_addr ti) =? 0)%nat.
Definition all_addresses (ti : t) : list Address := idx_to_addr ti.
Definition contains (ti : t) (a : Address) : bool := bool_decide (is_Some (addr_to_idx ti !! a)).

(** A sequence of insertions, with the indices it returned. *)
Fixpoint insert_all (ti : t) (l : list Address) : list nat * t :=
  match l with
  | [] => ([], ti)
  | a :: l => let (i, ti') := get_or_insert ti a in
              let (ixs, ti'') := insert_all ti' l in (i :: ixs, ti'')
  end.

(** The maps are inverse to each other. *)
Definition inverse (ti : t) : Prop :=
  forall a i, get_index ti a = Some i <-> get_address ti i = Some a.

Lemma inverse_new : inverse new.
Proof. intros a i. unfold get_index, get_address. simpl. by rewrite lookup_empty, lookup_nil. Qed.

Lemma get_or_insert_inverse ti a : inverse ti -> inverse (get_or_insert ti a).2.
Proof.
  intros Hi. unfold get_or_insert. destruct (addr_to_idx ti !! a) as [idx|] eqn:E; [done|].
  intros b i. unfold get_index, get_address. simpl.
  assert (Hfresh : forall j, idx_to_addr ti !! j <> Some a).
  { intros j Hj. apply (Hi a j) in Hj. unfold get_index in Hj. congruence. }
  destruct (decide (b = a)) as [->|Hne].
  - rewrite lookup_insert_eq. split.
    + intros [= <-]. by rewrite lookup_app_r, Nat.sub_diag by lia.
    + rewrite lookup_snoc_Some. intros [[_ Hj]|[-> _]]; [by destruct (Hfresh i)|done].
  - rewrite lookup_insert_ne by done. rewrite (Hi b i). unfold get_address.
    rewrite lookup_snoc_Some. split.
    + intros H. left. split; [by eapply lookup_lt_Some|done].
    + intros [[_ H]|[_ H]]; congruence.
Qed.

Lemma get_or_insert_result ti a : inverse ti ->
  get_index (get_or_insert ti a).2 a = Some (get_or_insert ti a).1.
Proof.
  intros _. unfold get_or_insert, get_index.
  destruct (addr_to_idx ti !! a) eqn:E; simpl; [done|apply lookup_insert_eq].
Qed.

Lemma get_or_insert_prefix ti a : idx_to_addr ti `prefix_of` idx_to_addr (get_or_insert ti a).2.
Proof. unfold get_or_insert. destruct (addr_to_idx ti !! a); simpl; [done|by apply prefix_app_r]. Qed.

Lemma insert_all_spec l : forall ti, inverse ti ->
  let '(ixs, ti') := insert_all ti l in
  inverse ti' /\ idx_to_addr ti `prefix_of` idx_to_addr ti' /\
  Forall2 (fun a i => get_address ti' i = Some a) l ixs.
Proof.
  induction l as [|a l IH]; intros ti Hi; simpl; [done|].
  pose proof (get_or_insert_inverse ti a Hi) as Hi'.
  pose proof (get_or_insert_result ti a Hi) as Hr.
  pose proof (get_or_insert_prefix ti a) as Hp.
  destruct (get_or_insert ti a) as [i ti1]. simpl in *.
  specialize (IH ti1 Hi'). destruct (insert_all ti1 l) as [ixs ti2].
  destruct IH as (Hi2 & Hp2 & Hall). split; [done|]. split; [by etransitivity|].
  constructor; [|done]. apply Hi' in Hr. by eapply prefix_lookup_Some.
Qed.

(** The token index is a bijection with stable indices: from the empty
    index, after inserting any sequence of addresses, the two maps are inverse
    to each other, the index returned for each address still denotes it,
    and inserting more addresses changes no existing index. *)
Theorem token_index_bijection l l' :
  let '(ixs, ti) := insert_all new l in
  let '(ixs', ti') := insert_all ti l' in
  inverse ti' /\
  Forall2 (fun a i => get_index ti' a = Some i /\ get_address ti' i = Some a) l ixs /\
  (forall i a, get_address ti i = Some a -> get_address ti' i = Some a) /\
  NoDup (all_addresses ti') /\
  (forall a, contains ti' a = true <-> a ∈ all_addresses ti').
Proof.
  pose proof (insert_all_spec l new inverse_new) as H1.
  destruct (insert_all new l) as [ixs ti]. destruct H1 as (Hi & _ & Hall).
  pose proof (insert_all_spec l' ti Hi) as H2.
  destruct (insert_all ti l') as [ixs' ti']. destruct H2 as (Hi' & Hp & _).
  assert (Hst : forall i a, get_address ti i = Some a -> get_address ti' i = Some a)
    by (intros i a H; by eapply prefix_lookup_Some).
  split; [done|]. split.
  { eapply Forall2_impl; [exact Hall|]. intros a i H. split; [apply Hi'|]; auto. }
  split; [done|]. split.
  { apply NoDup_alt. intros i j a H1 H2. apply Hi' in H1, H2. congruence. }
  intros a. unfold contains. rewrite bool_decide_eq_true, list_elem_of_lookup.
  split; intros [i H]; exists i; by apply Hi'.
Qed.

End TokenIndex.
