(* ===== verification/PriceGraph.v ===== *)
(** * The price graph

    [crates/state/src/price_graph.rs]: adjacency lists, the flat edge list,
    the edge index and the dirty flags, kept in step by every operation. The
    representation invariant says the adjacency lists are the flat list
    bucketed by source vertex; the abstract state is a finite map from
    [(from, to, pool)] to an edge and its dirty flag. *)

From Stdlib Require Import ZArith Lia.
From S2P Require Import Prelude.
From S2P Require Import Machine.
From S2P Require Import F64.
From S2P Require Import Types.
From stdpp Require Import base option numbers gmap sets list.

Definition DEFAULT_TOKEN_DECIMALS : Z := 18.

Record PriceEdge : Type := mkEdge {
  from : nat;
  to : nat;
  weight : f64;
  pool_id : PoolId;
  pool_address : Address;
  edge_protocol : ProtocolType;
  liquidity : Z;
  reserve_in : f64;
  reserve_out : f64;
  filtered : bool;
}.

Abbreviation edge_key := (nat * nat * PoolId)%type (only parsing).
Definition key (e : PriceEdge) : edge_key := (from e, to e, pool_id e).

(** The field assignments the operations make. *)
Definition set_rate (w : f64) (l : Z) (e : PriceEdge) : PriceEdge :=
  mkEdge (from e) (to e) w (pool_id e) (pool_address e) (edge_protocol e) l
    (reserve_in e) (reserve_out e) (filtered e).
Definition set_reserves (w rin rout : f64) (fl : bool) (e : PriceEdge) : PriceEdge :=
  mkEdge (from e) (to e) w (pool_id e) (pool_address e) (edge_protocol e) (liquidity e)
    rin rout fl.
Definition set_filtered (fl : bool) (e : PriceEdge) : PriceEdge :=
  mkEdge (from e) (to e) (weight e) (pool_id e) (pool_address e) (edge_protocol e)
    (liquidity e) (reserve_in e) (reserve_out e) fl.

Module PriceGraph.

Record t : Type := mk {
  num_vertices : nat;
  edges : list (list PriceEdge);
  all_edges : list PriceEdge;
  edge_index : gmap edge_key nat;
  dirty : list bool;
  decimals_table : list Z;
  weth_vertex : option nat;
  min_liquidity_weth : f64;
}.

Definition new (num_vertices : nat) : t :=
  mk num_vertices (replicate num_vertices []) [] ∅ []
    (replicate num_vertices DEFAULT_TOKEN_DECIMALS) None f64_zero.

(** Replace the edge lists, keep the configuration. *)
Definition with_edges (g : t) (adj : list (list PriceEdge)) (flat : list PriceEdge)
    (idx : gmap edge_key nat) (d : list bool) : t :=
  mk (num_vertices g) adj flat idx d (decimals_table g) (weth_vertex g) (min_liquidity_weth g).

(** [|e| e.to == to && e.pool_id == pool_id]. *)
Definition matches (to_v : nat) (pid : PoolId) (e : PriceEdge) : bool :=
  (to e =? to_v)%nat && bool_decide (pool_id e = pid).

(** The in-place update the three edge writers share: find the edge in its
    adjacency list, assign it, mirror the assignment in the flat list through
    the index, and mark it dirty. [None]: no such edge. *)
Definition update_edge (g : t) (from_v to_v : nat) (pid : PoolId) (f : PriceEdge -> PriceEdge)
    : outcome (option t) :=
  adj ← index (edges g) from_v;
  match position (matches to_v pid) adj with
  | None => Ret None
  | Some k =>
      let adj' := alter f k adj in
      idx ← match edge_index g !! (from_v, to_v, pid) with Some i => Ret i | None => Panic end;
      e ← index (all_edges g) idx;
      flat' ← store (all_edges g) idx (f e);
      dirty' ← store (dirty g) idx true;
      Ret (Some (with_edges g (<[from_v := adj']> (edges g)) flat' (edge_index g) dirty'))
  end.

Section Libm.
Context `{M : Libm}.

Definition add_edge (g : t) (from_v to_v : nat) (exchange_rate : f64) (pid : PoolId)
    (pool_address : Address) (protocol : ProtocolType) (liquidity : Z) : outcome t :=
  let weight := f64_neg (f64_ln exchange_rate) in
  let edge := mkEdge from_v to_v weight pid pool_address protocol liquidity
                f64_zero f64_zero false in
  r ← update_edge g from_v to_v pid (set_rate weight liquidity);
  match r with
  | Some g' => Ret g'
  | None =>
      adj ← index (edges g) from_v;
      let idx := length (all_edges g) in
      Ret (with_edges g (<[from_v := adj ++ [edge]]> (edges g)) (all_edges g ++ [edge])
             (<[(from_v, to_v, pid) := idx]> (edge_index g)) (dirty g ++ [true]))
  end.

Definition token_decimals (g : t) (v : nat) : Z :=
  default DEFAULT_TOKEN_DECIMALS (decimals_table g !! v).

(** [10f64.powi(n)]. *)
Definition pow10 (n : Z) : f64 := f64_powi (f64_of_Z 10) n.

Definition below_floor (g : t) (from_v to_v : nat) (pid : PoolId) (rin rout : f64) : bool :=
  match weth_vertex g with
  | Some weth =>
      if f64_gt (min_liquidity_weth g) f64_zero
         && negb (bool_decide (pid_protocol pid = UniswapV3))
      then
        let weth_human :=
          if (from_v =? weth)%nat then Some (f64_div rin (pow10 (token_decimals g from_v)))
          else if (to_v =? weth)%nat then Some (f64_div rout (pow10 (token_decimals g to_v)))
          else None in
        match weth_human with
        | Some human => f64_lt human (min_liquidity_weth g)
        | None => false
        end
      else false
  | None => false
  end.

Definition reserve_rate (g : t) (from_v to_v : nat) (rin rout fee_factor : f64) : f64 :=
  f64_mul (f64_mul (f64_div rout rin) fee_factor)
    (pow10 (token_decimals g from_v - token_decimals g to_v)).

Definition update_edge_from_reserves (g : t) (from_v to_v : nat) (pid : PoolId)
    (rin rout fee_factor : f64) : outcome t :=
  if f64_le rin f64_zero || f64_le rout f64_zero then Ret g
  else
    let rate := reserve_rate g from_v to_v rin rout fee_factor in
    let fl := below_floor g from_v to_v pid rin rout in
    r ← update_edge g from_v to_v pid (set_reserves (f64_neg (f64_ln rate)) rin rout fl);
    Ret (default g r).
End Libm.

Definition set_edge_filtered (g : t) (from_v to_v : nat) (pid : PoolId) (fl : bool) : outcome t :=
  r ← update_edge g from_v to_v pid (set_filtered fl);
  Ret (default g r).

Definition edges_from (g : t) (v : nat) : list PriceEdge := default [] (edges g !! v).
Definition num_edges (g : t) : nat := length (all_edges g).
Definition has_dirty_edges (g : t) : bool := existsb id (dirty g).
Definition dirty_edge_indices (g : t) : list nat :=
  (filter (fun p : nat * bool => p.2 = true) (imap pair (dirty g))).*1.
Definition clear_dirty (g : t) : t :=
  with_edges g (edges g) (all_edges g) (edge_index g) ((fun _ => false) <$> dirty g).

(** The set is collected first, then sorted. *)
Definition affected_vertices (g : t) : list nat :=
  let affected : gset nat :=
    foldl (fun acc (p : nat * bool) =>
             if p.2 then
               match all_edges g !! p.1 with
               | Some e => {[from e; to e]} ∪ acc
               | None => acc
               end
             else acc) ∅ (imap pair (dirty g)) in
  sort_by Nat.compare (elements affected).

(** The edges that survive, with their flags, and the index rebuilt over
    them. *)
Definition reindex (l : list PriceEdge) : gmap edge_key nat :=
  foldl (fun m (p : nat * PriceEdge) => <[key p.2 := p.1]> m) ∅ (imap pair l).

Definition remove_pool_edges (g : t) (pid : PoolId) : t :=
  let adj := (fun l => filter (fun e => pool_id e <> pid) l) <$> edges g in
  let surviving :=
    filter (fun p : PriceEdge * bool => pool_id p.1 <> pid) (zip (all_edges g) (dirty g)) in
  with_edges g adj surviving.*1 (reindex surviving.*1) surviving.*2.

(** The removal loop visits the ids in the order of a hash set, which is
    unspecified; [order] is that order. *)
Definition clone_retaining_pools (order : gset PoolId -> list PoolId) (g : t) (allowed : gset Z)
    : t :=
  if decide (allowed = ∅) then g
  else
    let to_remove : gset PoolId :=
      list_to_set (pool_id <$> filter (fun e => pool_address e ∉ allowed) (all_edges g)) in
    foldl remove_pool_edges g (order to_remove).

Definition resize (g : t) (new_size : nat) : t :=
  if (num_vertices g <? new_size)%nat then
    mk new_size (list.resize new_size [] (edges g)) (all_edges g) (edge_index g) (dirty g)
      (list.resize new_size DEFAULT_TOKEN_DECIMALS (decimals_table g))
      (weth_vertex g) (min_liquidity_weth g)
  else g.

Definition set_config (g : t) (dec : list Z) (weth : option nat) (floor : f64) : t :=
  mk (num_vertices g) (edges g) (all_edges g) (edge_index g) (dirty g) dec weth floor.
Definition set_token_decimals (g : t) (v : nat) (d : Z) : t :=
  let table := if (length (decimals_table g) <=? v)%nat
               then list.resize (v + 1) DEFAULT_TOKEN_DECIMALS (decimals_table g)
               else decimals_table g in
  set_config g (<[v := d]> table) (weth_vertex g) (min_liquidity_weth g).
Definition set_weth_vertex (g : t) (v : nat) : t :=
  set_config g (decimals_table g) (Some v) (min_liquidity_weth g).
Definition set_min_liquidity_weth (g : t) (floor : f64) : t :=
  set_config g (decimals_table g) (weth_vertex g) floor.

(** ** Updating the edge with a given key *)

Definition upd (k : edge_key) (f : PriceEdge -> PriceEdge) (e : PriceEdge) : PriceEdge :=
  if decide (key e = k) then f e else e.

Section Upd.
Context (k : edge_key) (f : PriceEdge -> PriceEdge) (Hf : forall e, key (f e) = key e).

Lemma upd_key e : key (upd k f e) = key e.
Proof. unfold upd. by case_decide. Qed.

Lemma upd_from e : from (upd k f e) = from e.
Proof. pose proof (upd_key e) as H. unfold key in H. congruence. Qed.

Lemma fmap_key_upd (l : list PriceEdge) : key <$> (upd k f <$> l) = key <$> l.
Proof. rewrite <- list_fmap_compose. apply list_fmap_ext. intros i e _. apply upd_key. Qed.

(** With distinct keys, an update at the position of the key is a map. *)
Lemma insert_upd (l : list PriceEdge) i e :
  NoDup (key <$> l) -> l !! i = Some e -> key e = k -> <[i := f e]> l = upd k f <$> l.
Proof.
  intros Hnd Hi Hk. apply list_eq. intros j. rewrite list_lookup_fmap.
  destruct (decide (i = j)) as [<-|Hne].
  - rewrite list_lookup_insert_eq by (by eapply lookup_lt_Some). rewrite Hi. simpl.
    unfold upd. by rewrite decide_True.
  - rewrite list_lookup_insert_ne by done. destruct (l !! j) as [e'|] eqn:Hj; [|done]. simpl.
    unfold upd. rewrite decide_False; [done|]. intros Hk'. apply Hne.
    apply (NoDup_lookup _ i j k Hnd); rewrite list_lookup_fmap, ?Hi, ?Hj; simpl; congruence.
Qed.

Lemma alter_insert (l : list PriceEdge) i e : l !! i = Some e -> alter f i l = <[i := f e]> l.
Proof.
  intros Hi. apply list_eq. intros j. destruct (decide (i = j)) as [<-|Hne].
  - rewrite list_lookup_alter_eq, Hi, list_lookup_insert_eq; [done|by eapply lookup_lt_Some].
  - by rewrite list_lookup_alter_ne, list_lookup_insert_ne.
Qed.

Lemma filter_from_upd v (l : list PriceEdge) :
  filter (fun e => from e = v) (upd k f <$> l) = upd k f <$> filter (fun e => from e = v) l.
Proof.
  induction l as [|e l IH]; [done|]. rewrite fmap_cons, !filter_cons, upd_from.
  case_decide; [rewrite fmap_cons|]; by rewrite IH.
Qed.

Lemma upd_absent (l : list PriceEdge) : k ∉ key <$> l -> upd k f <$> l = l.
Proof.
  intros Hn. rewrite <- (list_fmap_id l) at 2. apply list_fmap_ext. intros i e Hi.
  unfold upd. rewrite decide_False; [done|]. intros <-. apply Hn.
  apply list_elem_of_fmap_2. by eapply list_elem_of_lookup_2.
Qed.
End Upd.

(** ** The representation invariant *)

Record inv (g : t) : Prop := {
  inv_len : length (edges g) = num_vertices g;
  inv_adj v adj : edges g !! v = Some adj -> adj = filter (fun e => from e = v) (all_edges g);
  inv_idx k i : edge_index g !! k = Some i <-> exists e, all_edges g !! i = Some e /\ key e = k;
  inv_dirty : length (dirty g) = length (all_edges g);
  inv_from : Forall (fun e => (from e < num_vertices g)%nat) (all_edges g);
}.

Lemma inv_nodup g : inv g -> NoDup (key <$> all_edges g).
Proof.
  intros Hi. apply NoDup_alt. intros i j k H1 H2.
  rewrite list_lookup_fmap in H1, H2.
  destruct (all_edges g !! i) as [e1|] eqn:E1; [|done].
  destruct (all_edges g !! j) as [e2|] eqn:E2; [|done].
  injection H1 as H1. injection H2 as H2.
  assert (edge_index g !! k = Some i) by (apply (inv_idx g Hi); eauto).
  assert (edge_index g !! k = Some j) by (apply (inv_idx g Hi); eauto).
  congruence.
Qed.

Lemma inv_adj_at g v : inv g -> (v < num_vertices g)%nat ->
  edges g !! v = Some (filter (fun e => from e = v) (all_edges g)).
Proof.
  intros Hi Hv. destruct (lookup_lt_is_Some_2 (edges g) v) as [adj Hadj].
  { by rewrite (inv_len g Hi). }
  rewrite Hadj. f_equal. by eapply inv_adj.
Qed.

Lemma nodup_filter g (Q : PriceEdge -> Prop) `{!forall e, Decision (Q e)} :
  inv g -> NoDup (key <$> filter Q (all_edges g)).
Proof.
  intros Hi. eapply sublist_NoDup; [by apply inv_nodup|].
  apply fmap_sublist, sublist_filter.
Qed.

Lemma graph_inv_new n : inv (new n).
Proof.
  split; simpl.
  - by rewrite length_replicate.
  - intros v adj [-> _]%lookup_replicate. done.
  - intros k i. rewrite lookup_empty. split; [done|]. intros (e & H & _). by rewrite lookup_nil in H.
  - done.
  - constructor.
Qed.

Lemma matches_key v to_v pid e (l : list PriceEdge) :
  e ∈ filter (fun e => from e = v) l -> matches to_v pid e = true <-> key e = (v, to_v, pid).
Proof.
  intros [Hv _]%list_elem_of_filter. unfold matches, key.
  rewrite andb_true_iff, Nat.eqb_eq, bool_decide_eq_true. rewrite Hv. naive_solver.
Qed.

(** ** In-place updates *)

(** The graph after updating the edge with key [k], at flat position [i]. *)
Definition updated (g : t) (k : edge_key) (f : PriceEdge -> PriceEdge) (i : nat) : t :=
  with_edges g (fmap (M:=list) (fmap (M:=list) (upd k f)) (edges g))
    (fmap (M:=list) (upd k f) (all_edges g)) (edge_index g)
    (<[i := true]> (dirty g)).

Section UpdateEdge.
Context (g : t) (Hinv : inv g) (f : PriceEdge -> PriceEdge) (Hf : forall e, key (f e) = key e).
Context (v to_v : nat) (pid : PoolId) (Hv : (v < num_vertices g)%nat).
Let k : edge_key := (v, to_v, pid).

Lemma position_adj_None :
  edge_index g !! k = None ->
  position (matches to_v pid) (filter (fun e => from e = v) (all_edges g)) = None.
Proof.
  intros Hn. apply position_None. intros e He.
  destruct (matches to_v pid e) eqn:E; [|done].
  rewrite matches_key in E by done. apply list_elem_of_filter in He as [_ [i Hi]%list_elem_of_lookup].
  assert (edge_index g !! k = Some i) by (apply (inv_idx g Hinv); eauto). congruence.
Qed.

Lemma position_adj_Some e :
  e ∈ all_edges g -> key e = k -> exists pos e',
  position (matches to_v pid) (filter (fun e => from e = v) (all_edges g)) = Some pos /\
  filter (fun e => from e = v) (all_edges g) !! pos = Some e' /\ key e' = k.
Proof.
  intros He Hk. set (adj := filter (fun e => from e = v) (all_edges g)).
  assert (Hadj : e ∈ adj) by (apply list_elem_of_filter; unfold key, k in Hk; by simplify_eq).
  destruct (position (matches to_v pid) adj) as [pos|] eqn:E.
  - destruct (position_Some _ _ _ E) as (e' & He' & Hm). exists pos, e'. repeat split; [done|].
    eapply matches_key; [|done]. by eapply list_elem_of_lookup_2.
  - rewrite position_None in E. specialize (E e Hadj).
    rewrite (proj2 (matches_key v to_v pid e (all_edges g) Hadj) Hk) in E. done.
Qed.

Lemma edges_upd pos e' :
  filter (fun e => from e = v) (all_edges g) !! pos = Some e' -> key e' = k ->
  <[v := alter f pos (filter (fun e => from e = v) (all_edges g))]> (edges g)
  = fmap (M:=list) (fmap (M:=list) (upd k f)) (edges g).
Proof.
  intros Hpos Hk. apply list_eq. intros v'. rewrite list_lookup_fmap.
  destruct (decide (v = v')) as [<-|Hne].
  - rewrite list_lookup_insert_eq by (by rewrite (inv_len g Hinv)).
    rewrite (inv_adj_at g v Hinv Hv). simpl. f_equal.
    rewrite (alter_insert f _ pos e' Hpos). apply (insert_upd k f); [|done|done].
    by apply nodup_filter.
  - rewrite list_lookup_insert_ne by done. destruct (edges g !! v') as [adj|] eqn:E; [|done].
    simpl. f_equal. symmetry. apply upd_absent. rewrite (inv_adj g Hinv v' adj E).
    rewrite list_elem_of_fmap. intros (e & He & [Hfrom _]%list_elem_of_filter).
    unfold k, key in He. congruence.
Qed.

Lemma update_edge_absent : edge_index g !! k = None -> update_edge g v to_v pid f = Ret None.
Proof.
  intros Hn. unfold update_edge. rewrite (index_Some _ _ _ (inv_adj_at g v Hinv Hv)).
  cbn [mbind outcome_bind]. by rewrite position_adj_None.
Qed.

Lemma update_edge_present i :
  edge_index g !! k = Some i -> update_edge g v to_v pid f = Ret (Some (updated g k f i)).
Proof.
  intros Hi. pose proof Hi as (e & He & Hk)%(inv_idx g Hinv).
  destruct (position_adj_Some e) as (pos & e' & Hpos & He' & Hk');
    [by eapply list_elem_of_lookup_2|done|].
  pose proof (lookup_lt_Some _ _ _ He) as Hlt.
  unfold update_edge. rewrite (index_Some _ _ _ (inv_adj_at g v Hinv Hv)).
  cbn [mbind outcome_bind]. rewrite Hpos. fold k. rewrite Hi. cbn [mbind outcome_bind].
  rewrite (index_Some _ _ _ He). cbn [mbind outcome_bind].
  rewrite (store_lt (all_edges g)) by exact Hlt. cbn [mbind outcome_bind].
  rewrite (store_lt (dirty g)) by (rewrite (inv_dirty g Hinv); exact Hlt). cbn [mbind outcome_bind].
  unfold updated. rewrite (edges_upd pos e' He' Hk').
  rewrite (insert_upd k f (all_edges g) i e); [done|by apply inv_nodup|done|done].
Qed.

Lemma inv_updated i : inv (updated g k f i).
Proof.
  pose proof Hinv as [Hl Ha Hx Hd Hfr]. split; simpl.
  - by rewrite length_fmap.
  - intros v' adj. rewrite list_lookup_fmap. destruct (edges g !! v') as [adj0|] eqn:E; [|done].
    simpl. intros [= <-]. rewrite (Ha v' adj0 E). symmetry. by apply filter_from_upd.
  - intros k' j. rewrite Hx, list_lookup_fmap. split.
    + intros (e & He & Hk). rewrite He. simpl. exists (upd k f e). by rewrite upd_key.
    + intros (e & He & Hk). destruct (all_edges g !! j) as [e0|]; [|done]. simpl in He.
      injection He as <-. rewrite upd_key in Hk by done. eauto.
  - by rewrite length_insert, length_fmap.
  - apply Forall_fmap. eapply Forall_impl; [exact Hfr|]. intros e He. simpl.
    by rewrite upd_from.
Qed.
End UpdateEdge.

(** ** The abstract graph *)

(** A finite map from [(from, to, pool)] to the edge and its dirty flag, with
    the configuration. *)
Record spec : Type := mkSpec {
  s_vertices : nat;
  s_edges : gmap edge_key (PriceEdge * bool);
  s_decimals : list Z;
  s_weth : option nat;
  s_floor : f64;
}.

Definition edge_at (g : t) (i : nat) : option (PriceEdge * bool) :=
  e ← all_edges g !! i; d ← dirty g !! i; Some (e, d).
Definition abs (g : t) : spec :=
  mkSpec (num_vertices g) (omap (edge_at g) (edge_index g)) (decimals_table g) (weth_vertex g)
    (min_liquidity_weth g).

(** The configuration of an abstract graph, as a graph without edges. *)
Definition config (s : spec) : t :=
  set_config (new (s_vertices s)) (s_decimals s) (s_weth s) (s_floor s).
Definition with_map (s : spec) (m : gmap edge_key (PriceEdge * bool)) : spec :=
  mkSpec (s_vertices s) m (s_decimals s) (s_weth s) (s_floor s).

(** The operations that change a graph. *)
Inductive op : Type :=
| AddEdge (v w : nat) (rate : f64) (pid : PoolId) (a : Address) (p : ProtocolType) (liq : Z)
| UpdateReserves (v w : nat) (pid : PoolId) (rin rout fee : f64)
| SetFiltered (v w : nat) (pid : PoolId) (fl : bool)
| RemovePool (pid : PoolId)
| ClearDirty
| Resize (n : nat)
| SetTokenDecimals (v : nat) (d : Z)
| SetWethVertex (v : nat)
| SetMinLiquidity (floor : f64).

Section Refinement.
Context `{M : Libm}.

Definition exec (g : t) (o : op) : outcome t :=
  match o with
  | AddEdge v w rate pid a p liq => add_edge g v w rate pid a p liq
  | UpdateReserves v w pid rin rout fee => update_edge_from_reserves g v w pid rin rout fee
  | SetFiltered v w pid fl => set_edge_filtered g v w pid fl
  | RemovePool pid => Ret (remove_pool_edges g pid)
  | ClearDirty => Ret (clear_dirty g)
  | Resize n => Ret (resize g n)
  | SetTokenDecimals v d => Ret (set_token_decimals g v d)
  | SetWethVertex v => Ret (set_weth_vertex g v)
  | SetMinLiquidity fl => Ret (set_min_liquidity_weth g fl)
  end.

Fixpoint run (g : t) (os : list op) : outcome t :=
  match os with
  | [] => Ret g
  | o :: os => g' ← exec g o; run g' os
  end.

(** What each operation means on the map. *)
Definition touch (f : PriceEdge -> PriceEdge) (p : PriceEdge * bool) : PriceEdge * bool :=
  (f p.1, true).

Definition spec_exec (s : spec) (o : op) : spec :=
  match o with
  | AddEdge v w rate pid a p liq =>
      let wt := f64_neg (f64_ln rate) in
      let e := match s_edges s !! (v, w, pid) with
               | Some (e, _) => set_rate wt liq e
               | None => mkEdge v w wt pid a p liq f64_zero f64_zero false
               end in
      with_map s (<[(v, w, pid) := (e, true)]> (s_edges s))
  | UpdateReserves v w pid rin rout fee =>
      if f64_le rin f64_zero || f64_le rout f64_zero then s
      else
        let rate := reserve_rate (config s) v w rin rout fee in
        let fl := below_floor (config s) v w pid rin rout in
        with_map s (alter (touch (set_reserves (f64_neg (f64_ln rate)) rin rout fl))
                      (v, w, pid) (s_edges s))
  | SetFiltered v w pid fl =>
      with_map s (alter (touch (set_filtered fl)) (v, w, pid) (s_edges s))
  | RemovePool pid => with_map s (filter (fun kv => kv.1.2 <> pid) (s_edges s))
  | ClearDirty => with_map s ((fun p => (p.1, false)) <$> s_edges s)
  | Resize n =>
      if (s_vertices s <? n)%nat
      then mkSpec n (s_edges s) (list.resize n DEFAULT_TOKEN_DECIMALS (s_decimals s)) (s_weth s)
             (s_floor s)
      else s
  | SetTokenDecimals v d =>
      mkSpec (s_vertices s) (s_edges s)
        (<[v := d]> (if (length (s_decimals s) <=? v)%nat
                     then list.resize (v + 1) DEFAULT_TOKEN_DECIMALS (s_decimals s)
                     else s_decimals s)) (s_weth s) (s_floor s)
  | SetWethVertex v => mkSpec (s_vertices s) (s_edges s) (s_decimals s) (Some v) (s_floor s)
  | SetMinLiquidity fl => mkSpec (s_vertices s) (s_edges s) (s_decimals s) (s_weth s) fl
  end.

(** An operation is valid when the source vertex it names exists. *)
Definition valid (s : spec) (o : op) : Prop :=
  match o with
  | AddEdge v _ _ _ _ _ _ | UpdateReserves v _ _ _ _ _ | SetFiltered v _ _ _ =>
      (v < s_vertices s)%nat
  | _ => True
  end.

Fixpoint valid_all (s : spec) (os : list op) : Prop :=
  match os with
  | [] => True
  | o :: os => valid s o /\ valid_all (spec_exec s o) os
  end.

Lemma abs_lookup g k e d : inv g ->
  s_edges (abs g) !! k = Some (e, d) <->
  exists i, edge_index g !! k = Some i /\ all_edges g !! i = Some e /\ dirty g !! i = Some d.
Proof.
  intros Hi. simpl. rewrite lookup_omap, bind_Some. unfold edge_at.
  split.
  - intros (i & Hk & H). apply bind_Some in H as (e' & He & H).
    apply bind_Some in H as (d' & Hd & H). naive_solver.
  - intros (i & Hk & He & Hd). exists i. split; [done|]. by rewrite He; simpl; rewrite Hd.
Qed.

Lemma abs_None g k : inv g -> s_edges (abs g) !! k = None <-> edge_index g !! k = None.
Proof.
  intros Hi. simpl. rewrite lookup_omap. split; [|by intros ->].
  intros H. destruct (edge_index g !! k) as [i|] eqn:E; [|done]. simpl in H. exfalso.
  pose proof E as (e & He & _)%(inv_idx g Hi).
  destruct (lookup_lt_is_Some_2 (dirty g) i) as [d Hd].
  { rewrite (inv_dirty g Hi). by eapply lookup_lt_Some. }
  unfold edge_at in H. rewrite He in H. simpl in H. by rewrite Hd in H.
Qed.

Lemma abs_updated g k f i : inv g -> edge_index g !! k = Some i ->
  abs (updated g k f i) = with_map (abs g) (alter (touch f) k (s_edges (abs g))).
Proof.
  intros Hi Hk. unfold abs, with_map, updated. simpl. f_equal. apply map_eq. intros k'.
  pose proof Hk as (e & He & Hke)%(inv_idx g Hi).
  destruct (decide (k' = k)) as [->|Hne].
  - rewrite lookup_alter_eq, !lookup_omap, Hk. simpl. unfold edge_at. simpl.
    rewrite list_lookup_fmap, He. simpl.
    rewrite list_lookup_insert_eq by (rewrite (inv_dirty g Hi); by eapply lookup_lt_Some).
    destruct (lookup_lt_is_Some_2 (dirty g) i) as [d ->].
    { rewrite (inv_dirty g Hi). by eapply lookup_lt_Some. }
    simpl. unfold upd, touch. by rewrite decide_True.
  - rewrite lookup_alter_ne, !lookup_omap by done.
    destruct (edge_index g !! k') as [j|] eqn:Ej; [|done]. simpl.
    pose proof Ej as (e' & He' & Hke')%(inv_idx g Hi).
    unfold edge_at. simpl. rewrite list_lookup_fmap, He'. simpl.
    rewrite list_lookup_insert_ne by congruence.
    unfold upd. by rewrite decide_False by congruence.
Qed.

(** *** Edge writers *)

Lemma alter_absent {A} (f : A -> A) (k : edge_key) (m : gmap edge_key A) :
  m !! k = None -> alter f k m = m.
Proof.
  intros H. apply map_eq. intros k'. destruct (decide (k' = k)) as [->|Hne].
  - by rewrite lookup_alter_eq, H.
  - by rewrite lookup_alter_ne.
Qed.

Lemma with_map_id g : with_map (abs g) (s_edges (abs g)) = abs g.
Proof. done. Qed.

Lemma update_refines g f v w pid : inv g -> (forall e, key (f e) = key e) ->
  (v < num_vertices g)%nat ->
  exists r, update_edge g v w pid f = Ret r /\ inv (default g r) /\
    abs (default g r) = with_map (abs g) (alter (touch f) (v, w, pid) (s_edges (abs g))) /\
    (r = None <-> s_edges (abs g) !! (v, w, pid) = None).
Proof.
  intros Hi Hf Hv. destruct (edge_index g !! (v, w, pid)) as [i|] eqn:E.
  - exists (Some (updated g (v, w, pid) f i)). simpl default.
    split; [by apply update_edge_present|]. split; [by apply inv_updated|].
    split; [by apply abs_updated|]. rewrite (abs_None g _ Hi), E. by split.
  - exists None. pose proof E as E'. apply (abs_None g _ Hi) in E'. simpl default.
    rewrite alter_absent, with_map_id by done.
    split; [by apply update_edge_absent|]. by rewrite E'.
Qed.

(** The graph with a new edge appended. *)
Definition appended (g : t) (e : PriceEdge) : t :=
  with_edges g (<[from e := filter (fun x => from x = from e) (all_edges g) ++ [e]]> (edges g))
    (all_edges g ++ [e]) (<[key e := length (all_edges g)]> (edge_index g)) (dirty g ++ [true]).

Lemma inv_appended g e : inv g -> (from e < num_vertices g)%nat ->
  edge_index g !! key e = None -> inv (appended g e).
Proof.
  intros Hi Hv Hn. pose proof Hi as [Hl Ha Hx Hd Hfr]. split; simpl.
  - by rewrite length_insert.
  - intros v' adj. destruct (decide (from e = v')) as [<-|Hne].
    + rewrite list_lookup_insert_eq by lia. intros [= <-].
      rewrite filter_app. f_equal. rewrite filter_cons, decide_True by done. done.
    + rewrite list_lookup_insert_ne by done. intros H. rewrite (Ha _ _ H), filter_app.
      rewrite filter_cons, decide_False by done. simpl. by rewrite app_nil_r.
  - intros k i. destruct (decide (k = key e)) as [->|Hne].
    + rewrite lookup_insert_eq. split.
      * intros [= <-]. exists e. split; [|done]. by rewrite lookup_app_r, Nat.sub_diag by lia.
      * intros (e' & He' & Hk). apply lookup_snoc_Some in He' as [[_ He']|[-> _]]; [|done].
        assert (edge_index g !! key e = Some i) by (apply Hx; eauto). congruence.
    + rewrite lookup_insert_ne by done. rewrite Hx. split.
      * intros (e' & He' & Hk). exists e'. split; [|done]. rewrite lookup_app_l; [done|].
        by eapply lookup_lt_Some.
      * intros (e' & He' & Hk). apply lookup_snoc_Some in He' as [[_ He']|[_ ->]]; [eauto|].
        congruence.
  - rewrite !length_app. simpl. lia.
  - apply Forall_app. split; [done|by constructor].
Qed.

Lemma abs_appended g e : inv g -> edge_index g !! key e = None ->
  abs (appended g e) = with_map (abs g) (<[key e := (e, true)]> (s_edges (abs g))).
Proof.
  intros Hi Hn. unfold abs, with_map, appended. simpl. f_equal. apply map_eq. intros k.
  rewrite lookup_omap. destruct (decide (k = key e)) as [->|Hne].
  - rewrite !lookup_insert_eq. simpl. unfold edge_at. simpl.
    rewrite !lookup_app_r, (inv_dirty g Hi), !Nat.sub_diag by (rewrite ?(inv_dirty g Hi); lia).
    done.
  - rewrite !lookup_insert_ne, lookup_omap by done.
    destruct (edge_index g !! k) as [i|] eqn:E; [|done]. simpl.
    apply (inv_idx g Hi) in E as (e' & He' & _). unfold edge_at. simpl.
    pose proof (lookup_lt_Some _ _ _ He').
    by rewrite !lookup_app_l by (rewrite ?(inv_dirty g Hi); lia).
Qed.

Lemma add_edge_refines g v w rate pid a p liq : inv g -> (v < num_vertices g)%nat ->
  exists g', add_edge g v w rate pid a p liq = Ret g' /\ inv g' /\
    abs g' = spec_exec (abs g) (AddEdge v w rate pid a p liq).
Proof.
  intros Hi Hv. unfold add_edge.
  destruct (update_refines g (set_rate (f64_neg (f64_ln rate)) liq) v w pid) as
    (r & -> & Hi' & Ha & Hr); try done.
  cbn [mbind outcome_bind]. cbn [spec_exec]. destruct r as [g'|].
  - exists g'. split; [done|]. split; [done|]. simpl default in Ha. rewrite Ha.
    destruct (s_edges (abs g) !! (v, w, pid)) as [[e d]|] eqn:E; [|discriminate (proj2 Hr eq_refl)].
    f_equal. apply map_eq. intros k. destruct (decide (k = (v, w, pid))) as [->|Hne].
    + by rewrite lookup_alter_eq, lookup_insert_eq, E.
    + by rewrite lookup_alter_ne, lookup_insert_ne.
  - rewrite (proj1 Hr eq_refl). rewrite (index_Some _ _ _ (inv_adj_at g v Hi Hv)).
    cbn [mbind outcome_bind].
    set (e := mkEdge v w (f64_neg (f64_ln rate)) pid a p liq f64_zero f64_zero false).
    assert (Hn : edge_index g !! key e = None) by (by apply (abs_None g _ Hi), Hr).
    exists (appended g e). split; [done|]. split; [by apply inv_appended|].
    by apply (abs_appended g e).
Qed.

Lemma update_reserves_refines g v w pid rin rout fee : inv g -> (v < num_vertices g)%nat ->
  exists g', update_edge_from_reserves g v w pid rin rout fee = Ret g' /\ inv g' /\
    abs g' = spec_exec (abs g) (UpdateReserves v w pid rin rout fee).
Proof.
  intros Hi Hv. unfold update_edge_from_reserves. cbn [spec_exec].
  destruct (f64_le rin f64_zero || f64_le rout f64_zero); [eauto|].
  set (f := set_reserves (f64_neg (f64_ln (reserve_rate g v w rin rout fee))) rin rout
              (below_floor g v w pid rin rout)).
  destruct (update_refines g f v w pid) as (r & -> & Hi' & Ha & Hr); try done.
  exists (default g r). by split.
Qed.

(** New reserves change no end point, pool or vertex. *)
Lemma update_reserves_shape g v w pid rin rout fee : inv g -> (v < num_vertices g)%nat ->
  exists g', update_edge_from_reserves g v w pid rin rout fee = Ret g' /\ inv g' /\
    num_vertices g' = num_vertices g /\ key <$> all_edges g' = key <$> all_edges g.
Proof.
  intros Hi Hv. unfold update_edge_from_reserves.
  destruct (f64_le rin f64_zero || f64_le rout f64_zero); [eauto|].
  set (f := set_reserves (f64_neg (f64_ln (reserve_rate g v w rin rout fee))) rin rout
              (below_floor g v w pid rin rout)).
  assert (Hf : forall e, key (f e) = key e) by done.
  destruct (edge_index g !! (v, w, pid)) as [i|] eqn:Ei.
  - rewrite (update_edge_present g Hi f v w pid Hv i Ei). cbn [mbind outcome_bind].
    eexists. split; [done|]. split; [by apply inv_updated|]. split; [done|].
    by apply (fmap_key_upd (v, w, pid) f).
  - rewrite (update_edge_absent g Hi f v w pid Hv Ei). cbn [mbind outcome_bind]. eauto.
Qed.

Lemma set_filtered_refines g v w pid fl : inv g -> (v < num_vertices g)%nat ->
  exists g', set_edge_filtered g v w pid fl = Ret g' /\ inv g' /\
    abs g' = spec_exec (abs g) (SetFiltered v w pid fl).
Proof.
  intros Hi Hv. unfold set_edge_filtered. cbn [spec_exec].
  destruct (update_refines g (set_filtered fl) v w pid) as (r & -> & Hi' & Ha & Hr); try done.
  exists (default g r). by split.
Qed.

(** *** Removal *)

Lemma reindex_snoc l e : reindex (l ++ [e]) = <[key e := length l]> (reindex l).
Proof.
  unfold reindex. rewrite imap_app, foldl_app. simpl. by rewrite Nat.add_0_r.
Qed.

Lemma reindex_spec l : NoDup (key <$> l) -> forall k i,
  reindex l !! k = Some i <-> exists e, l !! i = Some e /\ key e = k.
Proof.
  induction l as [|e l IH] using rev_ind; intros Hnd k i.
  { split; [done|]. intros (e & H & _). by rewrite lookup_nil in H. }
  rewrite fmap_app, NoDup_app in Hnd. destruct Hnd as (Hnd & Hdisj & _).
  rewrite reindex_snoc. destruct (decide (k = key e)) as [->|Hne].
  - rewrite lookup_insert_eq. split.
    + intros [= <-]. exists e. by rewrite lookup_app_r, Nat.sub_diag by lia.
    + intros (e' & He' & Hk). apply lookup_snoc_Some in He' as [[_ He']|[-> _]]; [|done].
      destruct (Hdisj (key e)); [|by left]. rewrite <- Hk.
      apply list_elem_of_fmap_2. by eapply list_elem_of_lookup_2.
  - rewrite lookup_insert_ne, (IH Hnd) by done. split.
    + intros (e' & He' & Hk). exists e'. split; [|done]. rewrite lookup_app_l; [done|].
      by eapply lookup_lt_Some.
    + intros (e' & He' & Hk). apply lookup_snoc_Some in He' as [[_ He']|[_ ->]]; [eauto|congruence].
Qed.

(** The surviving edges, with their flags. *)
Definition surviving (g : t) (pid : PoolId) : list (PriceEdge * bool) :=
  filter (fun p => pool_id p.1 <> pid) (zip (all_edges g) (dirty g)).

Lemma surviving_fst g pid : inv g ->
  (surviving g pid).*1 = filter (fun e => pool_id e <> pid) (all_edges g).
Proof.
  intros Hi. unfold surviving. pose proof (inv_dirty g Hi) as Hd. revert Hd.
  generalize (all_edges g), (dirty g). intros l. induction l as [|e l IH]; intros d Hd; [done|].
  destruct d as [|b d]; [done|]. simpl zip. rewrite !filter_cons.
  simpl. case_decide; simpl; rewrite IH by (simpl in Hd; lia); done.
Qed.

Lemma elem_of_surviving g pid e d : inv g ->
  (e, d) ∈ surviving g pid <->
  pool_id e <> pid /\ exists i, all_edges g !! i = Some e /\ dirty g !! i = Some d.
Proof.
  intros Hi. unfold surviving. rewrite list_elem_of_filter, list_elem_of_lookup. simpl.
  split; intros [Hn [i H]]; (split; [done|]); exists i.
  - by apply lookup_zip_Some in H.
  - by apply lookup_zip_Some.
Qed.

Lemma surviving_nodup g pid : inv g -> NoDup (key <$> (surviving g pid).*1).
Proof. intros Hi. rewrite surviving_fst by done. by apply nodup_filter. Qed.

Lemma graph_inv_remove g pid : inv g -> inv (remove_pool_edges g pid).
Proof.
  intros Hi. pose proof Hi as [Hl Ha Hx Hd Hfr].
  unfold remove_pool_edges. fold (surviving g pid). split; simpl.
  - by rewrite length_fmap.
  - intros v adj. rewrite list_lookup_fmap. destruct (edges g !! v) as [adj0|] eqn:E; [|done].
    simpl. intros [= <-]. rewrite (Ha v adj0 E), surviving_fst by done.
    rewrite !list_filter_filter. apply list_filter_iff. tauto.
  - apply reindex_spec. by apply surviving_nodup.
  - by rewrite !length_fmap.
  - rewrite surviving_fst by done. apply Forall_forall.
    intros e [_ He]%list_elem_of_filter. rewrite Forall_forall in Hfr. by apply Hfr.
Qed.

Lemma abs_remove g pid : inv g ->
  abs (remove_pool_edges g pid)
  = with_map (abs g) (filter (fun kv => kv.1.2 <> pid) (s_edges (abs g))).
Proof.
  intros Hi. pose proof (graph_inv_remove g pid Hi) as Hi'. unfold with_map.
  transitivity (with_map (abs g) (s_edges (abs (remove_pool_edges g pid)))); [done|].
  unfold with_map. f_equal. apply map_eq. intros k. apply option_eq. intros [e d].
  rewrite (abs_lookup _ k e d Hi'), map_lookup_filter_Some, (abs_lookup g k e d Hi).
  cbn [remove_pool_edges with_edges edge_index all_edges dirty]. fold (surviving g pid).
  setoid_rewrite (reindex_spec _ (surviving_nodup g pid Hi) k).
  split.
  - intros (i & (e' & He' & Hk) & He & Hd). assert (e' = e) as -> by congruence.
    assert (Hn' : k.2 = pool_id e) by (by rewrite <- Hk).
    assert (Hin : (e, d) ∈ surviving g pid).
    { apply list_elem_of_lookup. exists i. rewrite list_lookup_fmap in He. rewrite list_lookup_fmap in Hd.
      destruct (surviving g pid !! i) as [[]|]; by simplify_eq/=. }
    apply (elem_of_surviving g pid e d Hi) in Hin as (Hn & j & Hj & Hdj). split; [|simpl; congruence].
    exists j. split; [|done]. apply (inv_idx g Hi). eauto.
  - intros [(i & Hk & He & Hd) Hn]. pose proof Hk as (e' & He' & Hke)%(inv_idx g Hi).
    assert (e' = e) as -> by congruence. subst k.
    assert (Hin : (e, d) ∈ surviving g pid) by (apply elem_of_surviving; eauto).
    apply list_elem_of_lookup in Hin as [j Hj]. exists j.
    rewrite !list_lookup_fmap, Hj. simpl. eauto.
Qed.

(** *** The remaining operations *)

Lemma inv_clear_dirty g : inv g -> inv (clear_dirty g).
Proof. intros [Hl Ha Hx Hd Hfr]. split; simpl; try done. by rewrite length_fmap. Qed.

Lemma abs_clear_dirty g : inv g ->
  abs (clear_dirty g) = spec_exec (abs g) ClearDirty.
Proof.
  intros Hi. unfold abs, clear_dirty, with_map, spec_exec. simpl. unfold with_map. simpl. f_equal.
  apply map_eq. intros k. rewrite lookup_fmap, !lookup_omap.
  destruct (edge_index g !! k) as [i|]; [|done]. simpl. unfold edge_at. simpl.
  rewrite list_lookup_fmap. destruct (all_edges g !! i); [|done]. simpl.
  by destruct (dirty g !! i).
Qed.

Lemma inv_resize g n : inv g -> inv (resize g n).
Proof.
  intros Hi. pose proof Hi as [Hl Ha Hx Hd Hfr]. unfold resize.
  destruct (Nat.ltb_spec (num_vertices g) n) as [Hlt|]; [|done]. split; simpl; try done.
  - by rewrite length_resize.
  - intros v adj H. assert (Hv : (v < n)%nat).
    { apply lookup_lt_Some in H. by rewrite length_resize in H. }
    destruct (decide (v < num_vertices g)%nat) as [Hv'|Hv'].
    + rewrite lookup_resize in H by (rewrite ?Hl; lia). by apply Ha.
    + rewrite lookup_resize_new in H by (rewrite ?Hl; lia). injection H as <-.
      symmetry. destruct (filter _ _) as [|e l] eqn:E; [done|]. exfalso.
      assert (He : e ∈ filter (fun e => from e = v) (all_edges g)) by (rewrite E; by left).
      apply list_elem_of_filter in He as [Hf He].
      rewrite Forall_forall in Hfr. specialize (Hfr e He). simpl in Hfr. lia.
  - eapply Forall_impl; [exact Hfr|]. simpl. lia.
Qed.

Lemma inv_set_config g dec w fl : inv g -> inv (set_config g dec w fl).
Proof. by intros []. Qed.

Lemma exec_refines g o : inv g -> valid (abs g) o ->
  exists g', exec g o = Ret g' /\ inv g' /\ abs g' = spec_exec (abs g) o.
Proof.
  intros Hi Hv. destruct o; simpl exec.
  - by apply add_edge_refines.
  - by apply update_reserves_refines.
  - by apply set_filtered_refines.
  - eexists. split; [done|]. split; [by apply graph_inv_remove|by apply abs_remove].
  - eexists. split; [done|]. split; [by apply inv_clear_dirty|by apply abs_clear_dirty].
  - eexists. split; [done|]. split; [by apply inv_resize|].
    unfold resize, spec_exec. simpl. by destruct (num_vertices g <? n)%nat.
  - eexists. split; [done|]. split; [by apply inv_set_config|done].
  - eexists. split; [done|]. split; [by apply inv_set_config|done].
  - eexists. split; [done|]. split; [by apply inv_set_config|done].
Qed.

Lemma run_refines os : forall g, inv g -> valid_all (abs g) os ->
  exists g', run g os = Ret g' /\ inv g' /\ abs g' = foldl spec_exec (abs g) os.
Proof.
  induction os as [|o os IH]; intros g Hi Hv; simpl; [eauto|].
  destruct Hv as [Hv Hvs]. destruct (exec_refines g o Hi Hv) as (g' & -> & Hi' & Ha).
  cbn [mbind outcome_bind]. rewrite <- Ha in *. by apply IH.
Qed.

(** *** What readers see *)

Lemma all_edges_abs g e : inv g ->
  e ∈ all_edges g <-> exists d, s_edges (abs g) !! key e = Some (e, d).
Proof.
  intros Hi. setoid_rewrite (abs_lookup g (key e) e _ Hi). rewrite list_elem_of_lookup. split.
  - intros [i He]. destruct (lookup_lt_is_Some_2 (dirty g) i) as [d Hd].
    { rewrite (inv_dirty g Hi). by eapply lookup_lt_Some. }
    exists d, i. split; [|done]. apply (inv_idx g Hi). eauto.
  - intros (d & i & _ & He & _). eauto.
Qed.

Lemma edges_from_abs g v : inv g ->
  edges_from g v = filter (fun e => from e = v) (all_edges g).
Proof.
  intros Hi. unfold edges_from. destruct (edges g !! v) as [adj|] eqn:E; simpl.
  - by apply (inv_adj g Hi).
  - symmetry. destruct (filter _ _) as [|e l] eqn:El; [done|]. exfalso.
    assert (He : e ∈ filter (fun e => from e = v) (all_edges g)) by (rewrite El; by left).
    apply list_elem_of_filter in He as [Hf He].
    pose proof (proj1 (Forall_forall _ _) (inv_from g Hi) e He) as Hlt. simpl in Hlt.
    apply lookup_ge_None in E. rewrite (inv_len g Hi) in E. lia.
Qed.

(** The set built by [affected_vertices]. *)
Definition affected_step (g : t) (acc : gset nat) (p : nat * bool) : gset nat :=
  if p.2 then match all_edges g !! p.1 with Some e => {[from e; to e]} ∪ acc | None => acc end
  else acc.

Lemma elem_of_affected_fold g l acc v :
  v ∈ foldl (affected_step g) acc l <->
  v ∈ acc \/ exists i e, (i, true) ∈ l /\ all_edges g !! i = Some e /\ (v = from e \/ v = to e).
Proof.
  revert acc. induction l as [|[i b] l IH]; intros acc; simpl; [set_solver|].
  rewrite IH. unfold affected_step. simpl. destruct b.
  - destruct (all_edges g !! i) as [e|] eqn:E; [|set_solver]. split; set_solver.
  - set_solver.
Qed.

Lemma elem_of_affected g v : inv g ->
  v ∈ affected_vertices g <->
  exists k e, s_edges (abs g) !! k = Some (e, true) /\ (v = from e \/ v = to e).
Proof.
  intros Hi. unfold affected_vertices.
  change (foldl _ ∅ (imap pair (dirty g))) with (foldl (affected_step g) ∅ (imap pair (dirty g))).
  rewrite elem_of_sort_by, elem_of_elements, elem_of_affected_fold.
  setoid_rewrite (abs_lookup g _ _ _ Hi). split.
  - intros [H|(i & e & Hi' & He & Hv)]; [set_solver|].
    apply elem_of_lookup_imap_1 in Hi' as (j & b & E & Hj). simplify_eq.
    exists (key e), e. split; [|done]. exists j. split; [|done]. apply (inv_idx g Hi). eauto.
  - intros (k & e & (i & _ & He & Hd) & Hv). right. exists i, e. split; [|done].
    by apply (elem_of_lookup_imap_2 pair (dirty g) true i).
Qed.


(** Its readers agree with one another: after any valid sequence of
    operations, the flat list has one edge per key of the map, the adjacency
    list of a vertex is the flat list restricted to that source, in the same
    order, and the affected vertices are exactly the endpoints of the edges
    marked dirty. *)
Theorem price_graph_readers_agree n os g :
  valid_all (abs (new n)) os -> run (new n) os = Ret g ->
  NoDup (key <$> all_edges g) /\
  (forall e, e ∈ all_edges g <-> exists d, s_edges (abs g) !! key e = Some (e, d)) /\
  (forall v, edges_from g v = filter (fun e => from e = v) (all_edges g)) /\
  (forall v, v ∈ affected_vertices g <->
     exists k e, s_edges (abs g) !! k = Some (e, true) /\ (v = from e \/ v = to e)).
Proof.
  intros Hv Hr. destruct (run_refines os (new n) (graph_inv_new n) Hv) as (g' & Hr' & Hi & _).
  rewrite Hr in Hr'. injection Hr' as <-.
  split; [by apply inv_nodup|]. split; [intros; by apply all_edges_abs|].
  split; [intros; by apply edges_from_abs|]. intros. by apply elem_of_affected.
Qed.

Lemma remove_all_refines ids : forall g, inv g ->
  inv (foldl remove_pool_edges g ids) /\
  abs (foldl remove_pool_edges g ids)
  = with_map (abs g) (filter (fun kv => kv.1.2 ∉ ids) (s_edges (abs g))).
Proof.
  induction ids as [|pid ids IH]; intros g Hi; simpl.
  - split; [done|]. rewrite map_filter_id; [done|]. intros; simpl; set_solver.
  - destruct (IH _ (graph_inv_remove g pid Hi)) as [Hi' Ha]. split; [done|].
    rewrite Ha, (abs_remove g pid Hi). unfold with_map. simpl. f_equal.
    rewrite map_filter_filter. apply map_filter_ext. intros; simpl; set_solver.
Qed.

(** The retained clone, edge by edge. *)
Lemma clone_retaining_abs g order allowed : inv g ->
  (forall s, list_to_set (C:=gset PoolId) (order s) = s) ->
  Forall (fun e => pool_address e = pid_address (pool_id e)) (all_edges g) ->
  inv (clone_retaining_pools order g allowed) /\
  abs (clone_retaining_pools order g allowed)
  = if decide (allowed = ∅) then abs g
    else with_map (abs g) (filter (fun kv => pid_address kv.1.2 ∈ allowed) (s_edges (abs g))).
Proof.
  intros Hi Hord Haddr. unfold clone_retaining_pools.
  destruct (decide (allowed = ∅)) as [->|Hne]; [done|].
  set (rm := list_to_set _). destruct (remove_all_refines (order rm) g Hi) as [Hi' ->].
  split; [done|]. f_equal.
  apply map_filter_ext. intros k [e d] Hk. simpl.
  assert (Hin : forall pid, pid ∈ order rm <-> pid ∈ rm).
  { intros pid. rewrite <- (Hord rm) at 2. by rewrite elem_of_list_to_set. }
  rewrite Hin. unfold rm. rewrite elem_of_list_to_set, list_elem_of_fmap.
  rewrite Forall_forall in Haddr.
  pose proof Hk as (i & Hk' & He & _)%(abs_lookup g k e d Hi).
  apply (inv_idx g Hi) in Hk' as (e' & He' & Hke). simplify_eq. simpl.
  assert (Hel : e' ∈ all_edges g) by (by eapply list_elem_of_lookup_2).
  split.
  - intros Hno. destruct (decide (pid_address (pool_id e') ∈ allowed)) as [|Hout]; [done|].
    destruct Hno. exists e'. split; [done|]. apply list_elem_of_filter. by rewrite Haddr.
  - intros Hall (e2 & He2 & [Hout Hel2]%list_elem_of_filter). rewrite Haddr in Hout by done.
    congruence.
Qed.

(** The hot-cache view keeps exactly the allowed pools: when every edge
    carries the address of its pool id and the set of allowed addresses is not
    empty, the retained clone holds the edges of the allowed pools with their
    dirty flags and no others, in whatever order the hash set of removed pools
    is visited. An empty set keeps the whole graph. *)
Theorem clone_retaining_exact n os g order allowed :
  valid_all (abs (new n)) os -> run (new n) os = Ret g ->
  (forall s, list_to_set (C:=gset PoolId) (order s) = s) ->
  Forall (fun e => pool_address e = pid_address (pool_id e)) (all_edges g) ->
  abs (clone_retaining_pools order g allowed)
  = if decide (allowed = ∅) then abs g
    else with_map (abs g) (filter (fun kv => pid_address kv.1.2 ∈ allowed) (s_edges (abs g))).
Proof.
  intros Hv Hr Hord Haddr. destruct (run_refines os (new n) (graph_inv_new n) Hv) as (g' & Hr' & Hi & _).
  rewrite Hr in Hr'. injection Hr' as <-. by apply clone_retaining_abs.
Qed.
End Refinement.

(** ** A concrete run *)

(** Two pools between two tokens and one from the third. The logarithm and
    the powers are placeholders: the edge lists do not depend on them. *)
Definition sample_libm : Libm :=
  {| f64_ln x := x; f64_exp x := x; f64_powi x _ := x; f64_powf x _ := x |}.
Definition pool_v2 : PoolId := mkPoolId 7 UniswapV2.
Definition pool_sushi : PoolId := mkPoolId 8 SushiSwap.
Definition sample_ops : list op :=
  [AddEdge 0 1 f64_one pool_v2 7 UniswapV2 1000;
   AddEdge 1 0 f64_one pool_v2 7 UniswapV2 1000;
   AddEdge 0 1 f64_one pool_sushi 8 SushiSwap 500;
   ClearDirty;
   SetWethVertex 0;
   SetMinLiquidity (f64_of_Z 5);
   UpdateReserves 0 1 pool_v2 (f64_of_Z 100) (f64_of_Z 200) f64_one;
   SetFiltered 0 1 pool_sushi true;
   Resize 3;
   AddEdge 2 0 f64_one pool_sushi 8 SushiSwap 10;
   AddEdge 0 1 f64_one pool_v2 7 UniswapV2 2000;
   RemovePool pool_sushi].
Definition sample_graph : t :=
  match run (M:=sample_libm) (new 2) sample_ops with Ret g => g | Panic => new 0 end.

Lemma sample_valid : valid_all (M:=sample_libm) (abs (new 2)) sample_ops.
Proof. repeat split; vm_compute; lia. Qed.

Lemma sample_run : run (M:=sample_libm) (new 2) sample_ops = Ret sample_graph.
Proof. vm_compute. reflexivity. Qed.


Lemma price_graph_readers_agree_witness :
  length (all_edges sample_graph) = 2%nat /\ affected_vertices sample_graph = [0; 1]%nat /\
  NoDup (key <$> all_edges sample_graph) /\
  (forall e, e ∈ all_edges sample_graph <->
     exists d, s_edges (abs sample_graph) !! key e = Some (e, d)) /\
  (forall v, edges_from sample_graph v = filter (fun e => from e = v) (all_edges sample_graph)) /\
  (forall v, v ∈ affected_vertices sample_graph <->
     exists k e, s_edges (abs sample_graph) !! k = Some (e, true) /\ (v = from e \/ v = to e)).
Proof.
  split; [vm_compute; reflexivity|]. split; [vm_compute; reflexivity|].
  apply (price_graph_readers_agree (M:=sample_libm) 2 sample_ops sample_graph sample_valid).
  apply sample_run.
Defined.

Lemma clone_retaining_exact_witness :
  abs (clone_retaining_pools elements sample_graph {[7%Z]})
  = if decide (({[7%Z]} : gset Z) = ∅) then abs sample_graph
    else with_map (abs sample_graph)
           (filter (fun kv => pid_address kv.1.2 ∈ ({[7%Z]} : gset Z)) (s_edges (abs sample_graph))).
Proof.
  apply (clone_retaining_exact (M:=sample_libm) 2 sample_ops sample_graph elements {[7%Z]}
           sample_valid sample_run).
  - intros s. apply list_to_set_elements_L.
  - vm_compute. repeat constructor.
Defined.

End PriceGraph.
