(* ===== verification/Snapshot.v ===== *)
(** * Versioned snapshots

    [crates/state/src/snapshot.rs]: the current snapshot behind an atomic
    pointer and the atomic version counter. A publication is two atomic steps,
    the increment and the store; other threads may run between them, so the
    manager is a transition system over the threads' steps. The graph is a
    parameter: nothing here depends on what is published. *)

From Stdlib Require Import ZArith Lia.
From S2P Require Import Prelude.
From S2P Require Import Machine.
From stdpp Require Import base option numbers gmap list.

Local Open Scope Z_scope.

Section Snapshot.
Context {G : Type} `{B : Build}.

Record GraphSnapshot : Type := mkSnapshot {
  graph : G;
  block_number : Z;
  timestamp_ns : Z;
  version : Z;
}.

Record SnapshotManager : Type := mkManager {
  current : GraphSnapshot;
  version_counter : Z;
}.

Definition manager_new (initial : G) : SnapshotManager :=
  mkManager (mkSnapshot initial 0 0 0) 0.

Definition load (m : SnapshotManager) : GraphSnapshot := current m.

(** The first half of [publish]: [fetch_add] wraps, the addition of one to
    the value it returned is an ordinary [u64] addition. *)
Definition publish_begin (m : SnapshotManager) (g : G) (block ts : Z)
    : outcome (GraphSnapshot * SnapshotManager) :=
  let old := version_counter m in
  v ← u64_add old 1;
  Ret (mkSnapshot g block ts v, mkManager (current m) ((old + 1) mod 2 ^ 64)).

(** The second half: the atomic store. *)
Definition publish_store (m : SnapshotManager) (s : GraphSnapshot) : SnapshotManager :=
  mkManager s (version_counter m).

(** A publication no other thread interrupts. *)
Definition publish (m : SnapshotManager) (g : G) (block ts : Z) : outcome SnapshotManager :=
  ' (s, m') ← publish_begin m g block ts;
  Ret (publish_store m' s).

Definition current_version (m : SnapshotManager) : Z := version_counter m.

(** ** Threads *)

(** The manager, the snapshot each thread has built and not yet stored, and
    the history of all snapshots built. *)
Record system : Type := mkSystem {
  manager : SnapshotManager;
  pending : gmap nat GraphSnapshot;
  history : list GraphSnapshot;
}.

Definition system_new (initial : G) : system :=
  mkSystem (manager_new initial) ∅ [mkSnapshot initial 0 0 0].

Inductive step (s : system) : system -> Prop :=
| step_begin tid g block ts snap m' :
    pending s !! tid = None ->
    publish_begin (manager s) g block ts = Ret (snap, m') ->
    step s (mkSystem m' (<[tid := snap]> (pending s)) (history s ++ [snap]))
| step_store tid snap :
    pending s !! tid = Some snap ->
    step s (mkSystem (publish_store (manager s) snap) (delete tid (pending s)) (history s)).

(** Versions count the publications begun, and every snapshot in flight or
    published is in the history. *)
Record inv (n : nat) (s : system) : Prop := {
  inv_counter : version_counter (manager s) = Z.of_nat (length (history s)) - 1;
  inv_bound : (length (history s) <= S n)%nat;
  inv_versions i snap : history s !! i = Some snap -> version snap = Z.of_nat i;
  inv_current : current (manager s) ∈ history s;
  inv_pending tid snap : pending s !! tid = Some snap -> snap ∈ history s;
}.

Lemma snapshot_inv_new g : inv 0 (system_new g).
Proof.
  split; simpl; [done|lia| |set_solver|].
  - intros [|i] snap H; simpl in H; [by injection H as <-|done].
  - intros tid snap H. by rewrite lookup_empty in H.
Qed.

Lemma inv_step n s s' : Z.of_nat n < 2 ^ 64 - 1 -> inv n s -> step s s' -> inv (S n) s'.
Proof.
  intros Hn [Hc Hb Hv Hcur Hpend] Hs.
  destruct Hs as [tid g block ts snap m' Hnone Hpub|tid snap Hsome].
  - unfold publish_begin in Hpub. rewrite u64_add_exact in Hpub by (range; lia).
    simpl in Hpub. injection Hpub as <- <-. split; simpl.
    + rewrite length_app, Z.mod_small by (range; lia). simpl. lia.
    + rewrite length_app. simpl. lia.
    + intros i snap H. apply lookup_snoc_Some in H as [[_ H]|[-> <-]]; [by apply Hv|simpl; lia].
    + set_solver.
    + intros t snap. destruct (decide (t = tid)) as [->|Hne].
      * rewrite lookup_insert_eq. intros [= <-]. set_solver.
      * rewrite lookup_insert_ne by done. intros H. apply elem_of_app. left. by eapply Hpend.
  - split; simpl; [done|lia|done|by eapply Hpend|].
    intros t sn. rewrite lookup_delete_Some. intros [_ H]. by eapply Hpend.
Qed.

Lemma snapshot_inv_reachable g n s : Z.of_nat n < 2 ^ 64 -> nsteps step n (system_new g) s -> inv n s.
Proof.
  intros Hn H. assert (Hgen : forall k s0, inv k s0 -> Z.of_nat (k + n) < 2 ^ 64 ->
    nsteps step n s0 s -> inv (k + n) s).
  { clear H Hn. intros k s0 Hi Hk H. revert k Hi Hk.
    induction H as [s0|n s0 s1 s2 Hs _ IH]; intros k Hi Hk; [by rewrite Nat.add_0_r|].
    replace (k + S n)%nat with (S k + n)%nat by lia. apply IH; [|lia].
    eapply inv_step; [|done|done]. lia. }
  by apply (Hgen 0%nat (system_new g)); [apply snapshot_inv_new|lia|].
Qed.

Lemma history_prefix n s s' : nsteps step n s s' -> history s `prefix_of` history s'.
Proof.
  induction 1 as [|n s s1 s2 Hs _ IH]; [done|]. etransitivity; [|exact IH].
  destruct Hs; simpl; [by apply prefix_app_r|done].
Qed.

(** C38. Readers never see a torn or ambiguous snapshot. Whatever the
    interleaving of publishing threads, the snapshot a reader loads was built
    whole by one publication (or is the initial one), and two loads, at any
    two moments of a run, that report the same version return the same graph,
    block and timestamp. *)
Theorem snapshot_loads_consistent g n m s1 s2 :
  Z.of_nat (n + m) < 2 ^ 64 ->
  nsteps step n (system_new g) s1 -> nsteps step m s1 s2 ->
  load (manager s1) ∈ history s1 /\ load (manager s2) ∈ history s2 /\
  (version (load (manager s1)) = version (load (manager s2)) ->
   load (manager s1) = load (manager s2)).
Proof.
  intros Hn H1 H2. pose proof (snapshot_inv_reachable g n s1 ltac:(lia) H1) as Hi1.
  pose proof (snapshot_inv_reachable g (n + m) s2 Hn (nsteps_trans n m _ _ _ H1 H2)) as Hi2.
  split; [apply Hi1|]. split; [apply Hi2|]. intros Ev.
  pose proof (inv_current _ _ Hi1) as [i Hi]%list_elem_of_lookup.
  pose proof (inv_current _ _ Hi2) as [j Hj]%list_elem_of_lookup.
  pose proof (prefix_lookup_Some _ _ _ _ Hi (history_prefix _ _ _ H2)) as Hi'.
  pose proof (inv_versions _ _ Hi2 i _ Hi') as Vi. pose proof (inv_versions _ _ Hi2 j _ Hj) as Vj.
  unfold load in *. assert (i = j) by lia. subst. congruence.
Qed.

(** Publish a sequence of blocks from one thread. *)
Fixpoint publish_all (m : SnapshotManager) (l : list (G * Z * Z)) : outcome SnapshotManager :=
  match l with
  | [] => Ret m
  | (g, b, ts) :: l => m' ← publish m g b ts; publish_all m' l
  end.

Lemma publish_all_spec l : forall m,
  0 <= version_counter m -> version_counter m + Z.of_nat (length l) < 2 ^ 64 ->
  version (current m) = version_counter m ->
  exists m', publish_all m l = Ret m' /\
    version_counter m' = version_counter m + Z.of_nat (length l) /\
    version (current m') = version_counter m' /\
    match last l with
    | Some (g, b, ts) => current m' = mkSnapshot g b ts (version_counter m')
    | None => current m' = current m
    end.
Proof.
  induction l as [|[[g b] ts] l IH]; intros m H0 Hb Hv; simpl.
  { exists m. split; [done|]. split; [lia|auto]. }
  unfold publish, publish_begin. simpl length in Hb.
  rewrite u64_add_exact by (range; lia). cbn [mbind outcome_bind].
  rewrite Z.mod_small by (range; lia).
  set (m1 := publish_store _ _).
  destruct (IH m1) as (m' & -> & Hc & Hv' & Hl); [simpl; lia|simpl; lia|done|].
  exists m'. split; [done|]. split; [simpl in Hc; lia|]. split; [done|].
  destruct l as [|x l].
  - simpl in *. rewrite Hl. unfold m1, publish_store. simpl. f_equal. lia.
  - rewrite last_cons_cons. destruct (last (x :: l)) as [[[]]|] eqn:El; [done|].
    by apply last_None in El.
Qed.

(** With a single writer, versions are consecutive and the newest wins:
    after publishing [k] blocks the counter is [k] and the current snapshot is
    the last block published, under version [k]. *)
Theorem snapshot_single_writer initial l g b ts :
  Z.of_nat (length l) < 2 ^ 64 - 1 ->
  exists m, publish_all (manager_new initial) (l ++ [(g, b, ts)]) = Ret m /\
    current_version m = Z.of_nat (length l) + 1 /\
    load m = mkSnapshot g b ts (Z.of_nat (length l) + 1).
Proof.
  intros Hl.
  destruct (publish_all_spec (l ++ [(g, b, ts)]) (manager_new initial)) as (m & -> & Hc & _ & Hm);
    simpl; rewrite ?length_app; simpl; [lia|lia|done|].
  rewrite last_snoc in Hm. rewrite length_app in Hc. simpl in Hc.
  exists m. split; [done|]. unfold current_version, load. rewrite Hm. split; [lia|].
  f_equal. lia.
Qed.
End Snapshot.

Lemma snapshot_single_writer_witness :
  exists m, publish_all (B:=release) (manager_new 0%nat) ([(1%nat, 100, 5)] ++ [(2%nat, 101, 6)])
      = Ret m /\
    current_version m = Z.of_nat (length [(1%nat, 100, 5)]) + 1 /\
    load m = mkSnapshot 2%nat 101 6 (Z.of_nat (length [(1%nat, 100, 5)]) + 1).
Proof.
  apply (snapshot_single_writer (B:=release) 0%nat [(1%nat, 100, 5)] 2%nat 101 6). simpl. lia.
Defined.

(** ** Two writers *)

Definition snap_0 : GraphSnapshot (G:=nat) := mkSnapshot 0%nat 0 0 0.
Definition snap_a : GraphSnapshot (G:=nat) := mkSnapshot 1%nat 100 5 1.
Definition snap_b : GraphSnapshot (G:=nat) := mkSnapshot 2%nat 101 6 2.
(** Both threads hold a version; then the newer one is stored, then the
    older one. *)
Definition race_both : system (G:=nat) :=
  mkSystem (mkManager snap_0 2) (<[2%nat := snap_b]> {[1%nat := snap_a]}) [snap_0; snap_a; snap_b].
Definition race_newer : system (G:=nat) :=
  mkSystem (mkManager snap_b 2) {[1%nat := snap_a]} [snap_0; snap_a; snap_b].
Definition race_end : system (G:=nat) :=
  mkSystem (mkManager snap_a 2) ∅ [snap_0; snap_a; snap_b].

Lemma race_both_run : nsteps (step (B:=release)) 2 (system_new 0%nat) race_both.
Proof.
  eapply nsteps_l; [apply (step_begin _ 1%nat 1%nat 100 5); [done|vm_compute; reflexivity]|].
  eapply nsteps_l; [apply (step_begin _ 2%nat 2%nat 101 6); [done|vm_compute; reflexivity]|].
  apply nsteps_O.
Qed.

Lemma race_newer_step : step (B:=release) race_both race_newer.
Proof.
  replace race_newer with (mkSystem (publish_store (manager race_both) snap_b)
    (delete 2%nat (pending race_both)) (history race_both)) by (vm_compute; reflexivity).
  by apply step_store.
Qed.

Lemma race_end_step : step (B:=release) race_newer race_end.
Proof.
  replace race_end with (mkSystem (publish_store (manager race_newer) snap_a)
    (delete 1%nat (pending race_newer)) (history race_newer)) by (vm_compute; reflexivity).
  by apply step_store.
Qed.

(** With two writers the older snapshot can win: both threads take their
    version, the newer one stores first, and the manager ends with version 1 as
    its current snapshot although [version()] reports 2. *)
Theorem snapshot_writers_race :
  nsteps (step (B:=release)) 4 (system_new 0%nat) race_end /\
  version (load (manager race_end)) = 1 /\ current_version (manager race_end) = 2.
Proof.
  split; [|done]. apply (nsteps_trans 2 2 _ _ _ race_both_run).
  eapply nsteps_l; [apply race_newer_step|]. eapply nsteps_l; [apply race_end_step|].
  apply nsteps_O.
Qed.

Lemma snapshot_loads_consistent_witness :
  load (manager race_both) ∈ history race_both /\ load (manager race_newer) ∈ history race_newer /\
  (version (load (manager race_both)) = version (load (manager race_newer)) ->
   load (manager race_both) = load (manager race_newer)).
Proof.
  apply (snapshot_loads_consistent (B:=release) 0%nat 2 1 race_both race_newer);
    [lia|apply race_both_run|apply nsteps_once, race_newer_step].
Defined.
