(* ===== verification/Opportunity.v ===== *)
(** * Detected cycles and ranked opportunities

    [crates/detector/src/opportunity.rs]: the cycle record of the detector and
    the bounded best-first collector of ranked opportunities. *)

From Stdlib Require Import ZArith Lia Sorting.Sorted String.
From S2P Require Import Prelude.
From S2P Require Import Machine.
From S2P Require Import F64.
From S2P Require Import Types.
From stdpp Require Import base option numbers gmap list.

Local Open Scope Z_scope.

Record DetectedCycle : Type := mkCycle {
  path : list nat;
  total_weight : f64;
}.

Definition is_profitable (c : DetectedCycle) : bool := f64_lt (total_weight c) f64_zero.
Definition profit_factor `{M : Libm} (c : DetectedCycle) : f64 :=
  f64_sub (f64_exp (f64_neg (total_weight c))) f64_one.
Definition num_hops (c : DetectedCycle) : nat :=
  if (length (path c) <=? 1)%nat then 0%nat else (length (path c) - 1)%nat.

Record RankedOpportunity : Type := mkRanked {
  opportunity : ArbOpportunity;
  score : f64;
}.

(** Both amounts are narrowed with [to::<u128>()], which panics when they do
    not fit. *)
Definition ranked_new (o : ArbOpportunity) : outcome RankedOpportunity :=
  g ← u256_to_u128 (opp_gas_cost_wei o);
  p ← u256_to_u128 (opp_net_profit_wei o);
  let gas_cost := f64_of_Z g in
  let net_profit := f64_of_Z p in
  let sc := if f64_gt gas_cost f64_zero then f64_div net_profit gas_cost else f64_zero in
  Ret (mkRanked o sc).

Module TopK.

Record TopKCollector : Type := mkTopK {
  opportunities : list RankedOpportunity;
  k : nat;
}.

Definition topk_new (k : nat) : TopKCollector := mkTopK [] k.

(** Best first: the comparison of [b] with [a]. *)
Definition by_score (a b : RankedOpportunity) : comparison := f64_cmp (score b) (score a).

Definition insert (c : TopKCollector) (o : RankedOpportunity) : TopKCollector :=
  if (length (opportunities c) <? k c)%nat
  then mkTopK (sort_by by_score (opportunities c ++ [o])) (k c)
  else
    match last (opportunities c) with
    | Some worst =>
        if f64_gt (score o) (score worst)
        then mkTopK (sort_by by_score (removelast (opportunities c) ++ [o])) (k c)
        else c
    | None => c
    end.

Definition results (c : TopKCollector) : list RankedOpportunity := opportunities c.

(** ** The collector keeps the best [k] *)

Definition scored (o : RankedOpportunity) : Prop := is_nan (score o) = false.

(** [a] is at least as good as [b]. *)
Definition better (a b : RankedOpportunity) : Prop := f64_le (score b) (score a) = true.

(** What has been collected from the opportunities offered so far: a
    permutation of them splits into the held ones, best first, and the dropped
    ones, each no better than every held one. *)
Record holds_best (c : TopKCollector) (offered : list RankedOpportunity) : Prop := {
  hb_scored : Forall scored offered;
  hb_sorted : StronglySorted better (opportunities c);
  hb_size : length (opportunities c) = Nat.min (k c) (length offered);
  hb_split : exists dropped, opportunities c ++ dropped ≡ₚ offered /\
    Forall (fun d => Forall (fun h => better h d) (opportunities c)) dropped;
}.

Lemma sorted_better l : Forall scored l -> StronglySorted better (sort_by by_score l).
Proof. apply (sort_desc_sorted score). Qed.

Lemma better_trans a b d : better a b -> better b d -> better a d.
Proof. unfold better. intros H1 H2. by eapply f64_le_trans. Qed.

(** The last element of a best-first list is its worst. *)
Lemma sorted_last_worst l w : Forall scored l -> StronglySorted better l -> last l = Some w ->
  Forall (fun h => better h w) l.
Proof.
  intros Hs H Hl. induction H as [|a l' H IH Ha]; [done|].
  apply Forall_cons in Hs as [Hsa Hs]. destruct l' as [|b l'].
  - injection Hl as <-. constructor; [|done]. by apply f64_le_refl.
  - rewrite last_cons_cons in Hl. specialize (IH Hs Hl). constructor; [|done].
    apply last_Some in Hl as [l0 Hl]. rewrite Forall_forall in Ha. apply Ha. rewrite Hl.
    set_solver.
Qed.

Lemma replace_worst c offered o w l0 dropped :
  opportunities c = l0 ++ [w] -> scored o -> Forall scored (opportunities c) ->
  Forall scored (offered ++ [o]) ->
  (k c <= length (opportunities c))%nat ->
  length (opportunities c) = Nat.min (k c) (length offered) ->
  opportunities c ++ dropped ≡ₚ offered ->
  Forall (fun h => better h w) (opportunities c) ->
  Forall (fun d => Forall (fun h => better h d) (opportunities c)) dropped ->
  f64_gt (score o) (score w) = true ->
  holds_best (mkTopK (sort_by by_score (removelast (opportunities c) ++ [o])) (k c))
    (offered ++ [o]).
Proof.
  intros Hl Ho Hsh Hall Hk Hsz Hp Hworst Hd Hgt.
  assert (Hrl : removelast (opportunities c) = l0) by (rewrite Hl; apply removelast_last).
  rewrite Hrl, Hl in *. apply Forall_app in Hsh as [Hs0 _].
  rewrite length_app in *. simpl in *.
  assert (Hcand : Forall scored (l0 ++ [o])) by (apply Forall_app; split; [done|by constructor]).
  assert (How : better o w) by (by apply f64_lt_le).
  split; simpl; [done|by apply sorted_better| |].
  { rewrite sort_by_length, !length_app. simpl. lia. }
  exists (w :: dropped). rewrite sort_by_perm. split.
  { rewrite <- Hp. solve_Permutation. }
  constructor.
  - rewrite sort_by_perm. apply Forall_app in Hworst as [Hw0 _].
    apply Forall_app; split; [done|by constructor].
  - eapply Forall_impl; [exact Hd|]. intros d Hdd. rewrite sort_by_perm.
    apply Forall_app in Hdd as [Hd0 Hdw]. apply Forall_cons in Hdw as [Hdw _].
    apply Forall_app; split; [done|]. constructor; [|done]. by apply (better_trans o w d).
Qed.

Lemma insert_holds_best c offered o :
  scored o -> holds_best c offered -> holds_best (insert c o) (offered ++ [o]).
Proof.
  intros Ho [Hsc Hso Hsz (dropped & Hp & Hd)].
  assert (Hsc' : Forall scored (opportunities c ++ dropped)) by (by rewrite Hp).
  apply Forall_app in Hsc' as [Hsh Hsd].
  assert (Hall : Forall scored (offered ++ [o])) by (apply Forall_app; split; [done|by constructor]).
  unfold insert. destruct (Nat.ltb_spec (length (opportunities c)) (k c)) as [Hlt|Hge].
  - assert (dropped = []) as ->.
    { apply length_zero_iff_nil. apply Permutation_length in Hp. rewrite length_app in Hp. lia. }
    rewrite app_nil_r in Hp. split; simpl.
    + done.
    + apply sorted_better. by rewrite Hp.
    + rewrite sort_by_length, !length_app, Hsz. simpl. lia.
    + exists []. rewrite app_nil_r, sort_by_perm, Hp. done.
  - destruct (last (opportunities c)) as [w|] eqn:Hw.
    2: { apply last_None in Hw. rewrite Hw in *. simpl in *. split; try done.
         - by rewrite Hw.
         - rewrite Hw, length_app. simpl. lia.
         - exists (offered ++ [o]). rewrite Hw. split; [done|]. apply Forall_forall.
           intros; constructor. }
    pose proof (sorted_last_worst _ _ Hsh Hso Hw) as Hworst.
    pose proof Hw as [l0 Hl0]%last_Some.
    assert (Hsw : scored w).
    { rewrite Hl0 in Hsh. apply Forall_app in Hsh as [_ Hsh]. by apply Forall_cons in Hsh as [? _]. }
    destruct (f64_gt (score o) (score w)) eqn:Hgt.
    + by apply (replace_worst c offered o w l0 dropped).
    + split; [done|done|rewrite length_app; simpl; lia|]. exists (o :: dropped). split.
      * rewrite <- Hp. solve_Permutation.
      * constructor; [|done]. eapply Forall_impl; [exact Hworst|]. intros h Hh.
        apply (better_trans h w o); [done|]. by apply f64_not_lt_le.
Qed.

(** Offer a sequence of opportunities to an empty collector. *)
Definition collect (k : nat) (os : list RankedOpportunity) : TopKCollector :=
  foldl insert (topk_new k) os.

(** The collector holds the best [k]: after any sequence of insertions
    with scores that are numbers, it holds [min k n] of the [n] offered
    opportunities, best first, and every opportunity it dropped scores no
    higher than every one it holds. *)
Theorem topk_holds_best k os :
  Forall scored os -> holds_best (collect k os) os.
Proof.
  intros H. unfold collect. induction os as [|o os IH] using rev_ind.
  - split; simpl; [done|constructor|lia|]. by exists [].
  - apply Forall_app in H as [H Ho]. apply Forall_cons in Ho as [Ho _].
    rewrite foldl_app. simpl. by apply insert_holds_best; [|apply IH].
Qed.

Definition sample_opp (n : Z) : RankedOpportunity :=
  mkRanked (mkArbOpportunity EmptyString [] 0 0 0 0 0 0) (f64_of_Z n).

Lemma topk_holds_best_witness :
  holds_best (collect 2 (sample_opp <$> [3; 1; 4; 1; 5])) (sample_opp <$> [3; 1; 4; 1; 5]) /\
  score <$> results (collect 2 (sample_opp <$> [3; 1; 4; 1; 5])) = [f64_of_Z 5; f64_of_Z 4].
Proof.
  split; [|vm_compute; reflexivity].
  apply (topk_holds_best 2 (sample_opp <$> [3; 1; 4; 1; 5])). repeat constructor.
Defined.

End TopK.
