(* ===== verification/Optimizer.v ===== *)
(** * The input optimisers

    [crates/detector/src/optimizer.rs]: ternary search for the input amount
    that maximises a unimodal profit function, and the grid search that is its
    fallback. The profit closure is a parameter. *)

From Stdlib Require Import ZArith Lia.
From S2P Require Import Prelude.
From S2P Require Import Machine.
From stdpp Require Import base option numbers list.

Local Open Scope Z_scope.

Section Ternary.
Context `{B : Build} (profit_fn : Z -> outcome Z).

Fixpoint ternary_loop (iterations : nat) (lo hi : Z) : outcome (Z * Z) :=
  match iterations with
  | O => Ret (lo, hi)
  | S iterations =>
      lo2 ← u256_add lo 2;
      if hi <=? lo2 then Ret (lo, hi)
      else
        range ← u256_sub hi lo;
        third ← u256_div range 3;
        m1 ← u256_add lo third;
        m2 ← u256_sub hi third;
        p1 ← profit_fn m1;
        p2 ← profit_fn m2;
        if p1 <? p2 then ternary_loop iterations m1 hi else ternary_loop iterations lo m2
  end.

Definition ternary_search_optimal_input (min_input max_input : Z) (iterations : nat)
    : outcome (Z * Z) :=
  ' (lo, hi) ← ternary_loop iterations min_input max_input;
  width ← u256_sub hi lo;
  half ← u256_div width 2;
  optimal ← u256_add lo half;
  profit ← profit_fn optimal;
  Ret (optimal, profit).
End Ternary.

Section Optimizer.
Context `{B : Build} (profit_fn : Z -> Z).

Definition i128_min : Z := - 2 ^ 127.

Fixpoint grid_loop (rounds : nat) (max_input step_size current best_amount best_profit : Z)
    : Z * Z :=
  match rounds with
  | O => (best_amount, best_profit)
  | S rounds =>
      let profit := profit_fn current in
      let '(best_amount, best_profit) :=
        if best_profit <? profit then (current, profit) else (best_amount, best_profit) in
      let current := u256_saturating_add current step_size in
      if max_input <? current then (best_amount, best_profit)
      else grid_loop rounds max_input step_size current best_amount best_profit
  end.

(** The loop runs [0..=steps]. *)
Definition grid_search_optimal_input (min_input max_input : Z) (steps : nat) : outcome (Z * Z) :=
  if (max_input <=? min_input) || (steps =? 0)%nat then Ret (min_input, profit_fn min_input)
  else
    range ← u256_sub max_input min_input;
    step_size ← u256_div range (Z.of_nat steps);
    if step_size =? 0 then Ret (min_input, profit_fn min_input)
    else Ret (grid_loop (S steps) max_input step_size min_input min_input i128_min).

(** ** Ternary search finds the peak *)

(** A closure that does not panic on a range and computes [profit_fn] there. *)
Definition computes (closure : Z -> outcome Z) (lo hi : Z) : Prop :=
  forall x, lo <= x <= hi -> closure x = Ret (profit_fn x).

(** Strictly increasing up to [m], strictly decreasing from there. *)
Record unimodal (m lo hi : Z) : Prop := {
  um_peak : lo <= m <= hi;
  um_up x y : lo <= x < y -> y <= m -> profit_fn x < profit_fn y;
  um_down x y : m <= x < y -> y <= hi -> profit_fn y < profit_fn x;
}.

Lemma unimodal_left m lo hi m1 m2 : unimodal m lo hi -> lo <= m1 < m2 -> m2 <= hi ->
  profit_fn m1 < profit_fn m2 -> unimodal m m1 hi.
Proof.
  intros [Hp Hu Hd] H1 H2 Hlt. assert (m1 <= m).
  { destruct (Z.le_gt_cases m m1) as [Hm|]; [|lia]. pose proof (Hd m1 m2 ltac:(lia) ltac:(lia)). lia. }
  split; [lia|intros; apply Hu; lia|intros; apply Hd; lia].
Qed.

Lemma unimodal_right m lo hi m1 m2 : unimodal m lo hi -> lo <= m1 < m2 -> m2 <= hi ->
  profit_fn m2 <= profit_fn m1 -> unimodal m lo m2.
Proof.
  intros [Hp Hu Hd] H1 H2 Hle. assert (m <= m2).
  { destruct (Z.le_gt_cases m2 m) as [Hm|]; [|lia]. pose proof (Hu m1 m2 ltac:(lia) ltac:(lia)). lia. }
  split; [lia|intros; apply Hu; lia|intros; apply Hd; lia].
Qed.

Lemma third_bounds r : 3 <= r -> 1 <= r / 3 /\ 3 * (r / 3) <= r /\ r < 3 * (r / 3) + 3.
Proof.
  intros H. pose proof (Z.div_mod r 3 ltac:(lia)). pose proof (Z.mod_pos_bound r 3 ltac:(lia)). lia.
Qed.

(** A round keeps two thirds of the interval, up to a constant. *)
Lemma ternary_loop_spec closure m iterations : forall lo hi,
  0 <= lo <= hi -> hi + 2 < 2 ^ 256 -> computes closure lo hi -> unimodal m lo hi ->
  exists lo' hi', ternary_loop closure iterations lo hi = Ret (lo', hi') /\
    lo <= lo' <= hi' /\ hi' <= hi /\ unimodal m lo' hi' /\
    (hi' - lo' <= 2 \/
     (hi' - lo' - 2) * 3 ^ Z.of_nat iterations <= (hi - lo - 2) * 2 ^ Z.of_nat iterations).
Proof.
  induction iterations as [|iterations IH]; intros lo hi Hlo Hhi Hc Hu; cbn [ternary_loop].
  { exists lo, hi. split; [done|]. split; [lia|]. split; [lia|]. split; [done|]. right. simpl. lia. }
  rewrite u256_add_exact by (range; lia). cbn [mbind outcome_bind].
  destruct (Z.leb_spec hi (lo + 2)).
  { exists lo, hi. repeat split; try done; try lia; apply Hu. }
  rewrite u256_sub_exact by (range; lia). cbn [mbind outcome_bind].
  rewrite u256_div_exact by lia. cbn [mbind outcome_bind].
  destruct (third_bounds (hi - lo) ltac:(lia)) as (Ht1 & Ht2 & Ht3).
  set (th := (hi - lo) / 3) in *. clearbody th.
  rewrite u256_add_exact by (range; lia). cbn [mbind outcome_bind].
  rewrite u256_sub_exact by (range; lia). cbn [mbind outcome_bind].
  rewrite !Hc by lia. cbn [mbind outcome_bind].
  rewrite Nat2Z.inj_succ, !Z.pow_succ_r by lia.
  assert (Hpow : 0 < 2 ^ Z.of_nat iterations) by (apply Z.pow_pos_nonneg; lia).
  assert (Hshrink : forall d, d = hi - lo - th -> (d - 2) * 3 <= (hi - lo - 2) * 2) by (intros; lia).
  destruct (Z.ltb_spec (profit_fn (lo + th)) (profit_fn (hi - th))) as [Hp|Hp].
  - destruct (IH (lo + th) hi) as (lo' & hi' & -> & Hb & Hh & Hu' & Hw);
      [lia|lia|intros x Hx; apply Hc; lia| |].
    { eapply (unimodal_left m lo hi (lo + th) (hi - th)); (done || lia). }
    exists lo', hi'. split; [done|]. split; [lia|]. split; [lia|]. split; [done|].
    destruct Hw as [|Hw]; [by left|right].
    specialize (Hshrink (hi - (lo + th)) ltac:(lia)). nia.
  - destruct (IH lo (hi - th)) as (lo' & hi' & -> & Hb & Hh & Hu' & Hw);
      [lia|lia|intros x Hx; apply Hc; lia| |].
    { eapply (unimodal_right m lo hi (lo + th) (hi - th)); (done || lia). }
    exists lo', hi'. split; [done|]. split; [lia|]. split; [lia|]. split; [done|].
    destruct Hw as [|Hw]; [by left|right].
    specialize (Hshrink (hi - th - lo) ltac:(lia)). nia.
Qed.

(** C37. Ternary search is correct for unimodal profit: with a closure that
    computes it the search never panics, and once the iterations cover the range ([(max - min - 2) * 2^k < 3^k]) the
    returned input is within one unit of the peak, with its own profit. *)
Theorem ternary_search_finds_peak closure m min_input max_input iterations :
  0 <= min_input <= max_input -> max_input + 2 < 2 ^ 256 ->
  computes closure min_input max_input -> unimodal m min_input max_input ->
  (max_input - min_input - 2) * 2 ^ Z.of_nat iterations < 3 ^ Z.of_nat iterations ->
  exists opt, ternary_search_optimal_input closure min_input max_input iterations
      = Ret (opt, profit_fn opt) /\
    min_input <= opt <= max_input /\ m - 1 <= opt <= m + 1.
Proof.
  intros Hmin Hmax Hc Hu Hk. unfold ternary_search_optimal_input.
  destruct (ternary_loop_spec closure m iterations min_input max_input Hmin Hmax Hc Hu)
    as (lo & hi & -> & Hb & Hh & [Hp _ _] & Hw). cbn [mbind outcome_bind].
  assert (Hpow : 0 < 3 ^ Z.of_nat iterations) by (apply Z.pow_pos_nonneg; lia).
  assert (Hw2 : hi - lo <= 2) by (destruct Hw as [|Hw]; [lia|nia]).
  assert (Hhalf : 0 <= (hi - lo) / 2 <= 1 /\ 2 * ((hi - lo) / 2) <= hi - lo <= 2 * ((hi - lo) / 2) + 1)
    by (pose proof (Z.div_mod (hi - lo) 2 ltac:(lia)); pose proof (Z.mod_pos_bound (hi - lo) 2); lia).
  rewrite u256_sub_exact by (range; lia). cbn [mbind outcome_bind].
  rewrite u256_div_exact by lia. cbn [mbind outcome_bind].
  set (h := (hi - lo) / 2) in *. clearbody h.
  rewrite u256_add_exact by (range; lia). cbn [mbind outcome_bind].
  rewrite Hc by lia. exists (lo + h). split; [done|]. lia.
Qed.

(** Whatever the profit function, the search returns an input of the range with
    its own profit. *)
Lemma ternary_loop_range closure iterations : forall lo hi, 0 <= lo <= hi -> hi + 2 < 2 ^ 256 ->
  computes closure lo hi ->
  exists lo' hi', ternary_loop closure iterations lo hi = Ret (lo', hi') /\ lo <= lo' <= hi' /\ hi' <= hi.
Proof.
  induction iterations as [|iterations IH]; intros lo hi Hlo Hhi Hc; cbn [ternary_loop].
  { exists lo, hi. split; [done|lia]. }
  rewrite u256_add_exact by (range; lia). cbn [mbind outcome_bind].
  destruct (Z.leb_spec hi (lo + 2)); [exists lo, hi; split; [done|lia]|].
  rewrite u256_sub_exact by (range; lia). cbn [mbind outcome_bind].
  rewrite u256_div_exact by lia. cbn [mbind outcome_bind].
  destruct (third_bounds (hi - lo) ltac:(lia)) as (Ht1 & Ht2 & Ht3).
  set (th := (hi - lo) / 3) in *. clearbody th.
  rewrite u256_add_exact by (range; lia). cbn [mbind outcome_bind].
  rewrite u256_sub_exact by (range; lia). cbn [mbind outcome_bind].
  rewrite !Hc by lia. cbn [mbind outcome_bind].
  destruct (Z.ltb_spec (profit_fn (lo + th)) (profit_fn (hi - th)));
    [destruct (IH (lo + th) hi) as (lo' & hi' & -> & Hb)|destruct (IH lo (hi - th)) as (lo' & hi' & -> & Hb)];
    try lia; try (intros x Hx; apply Hc; lia); exists lo', hi'; split; try done; lia.
Qed.

Lemma ternary_search_returns closure min_input max_input iterations :
  0 <= min_input <= max_input -> max_input + 2 < 2 ^ 256 -> computes closure min_input max_input ->
  exists opt, ternary_search_optimal_input closure min_input max_input iterations = Ret (opt, profit_fn opt) /\
    min_input <= opt <= max_input.
Proof.
  intros Hmin Hmax Hc. unfold ternary_search_optimal_input.
  destruct (ternary_loop_range closure iterations min_input max_input Hmin Hmax Hc) as (lo & hi & -> & Hb & Hh).
  cbn [mbind outcome_bind].
  assert (0 <= (hi - lo) / 2 <= hi - lo) by (apply div_le_self; lia).
  rewrite u256_sub_exact by (range; lia). cbn [mbind outcome_bind].
  rewrite u256_div_exact by lia. cbn [mbind outcome_bind].
  rewrite u256_add_exact by (range; lia). cbn [mbind outcome_bind].
  rewrite Hc by lia. exists (lo + (hi - lo) / 2). split; [done|]. lia.
Qed.

(** ** Grid search finds the best sample *)

Lemma grid_loop_spec max_input step : 0 < step -> max_input + step < 2 ^ 256 ->
  forall rounds cur ba bp a p, 0 <= cur <= max_input ->
  grid_loop rounds max_input step cur ba bp = (a, p) ->
  bp <= p /\
  ((a = ba /\ p = bp) \/
   (exists i, 0 <= i < Z.of_nat rounds /\ a = cur + i * step /\ a <= max_input /\ p = profit_fn a)) /\
  forall i, 0 <= i < Z.of_nat rounds -> cur + i * step <= max_input -> profit_fn (cur + i * step) <= p.
Proof.
  intros Hstep Hmax. induction rounds as [|rounds IH]; intros cur ba bp a p Hcur H; simpl in H.
  { injection H as <- <-. split; [lia|]. split; [by left|lia]. }
  unfold u256_saturating_add in H. rewrite saturate_exact in H by (range; lia).
  set (best := if bp <? profit_fn cur then (cur, profit_fn cur) else (ba, bp)) in H.
  assert (Hbest : bp <= best.2 /\ profit_fn cur <= best.2 /\
    ((best = (ba, bp)) \/ (best = (cur, profit_fn cur)))).
  { unfold best. destruct (Z.ltb_spec bp (profit_fn cur)); simpl; repeat split; (lia || auto). }
  destruct best as [ba' bp']. simpl in Hbest. destruct Hbest as (Hb1 & Hb2 & Hb3).
  destruct (Z.ltb_spec max_input (cur + step)) as [Hend|Hmore].
  - injection H as <- <-. split; [lia|]. split.
    + destruct Hb3 as [[= -> ->]|[= -> ->]]; [by left|right; exists 0; lia].
    + intros i Hi Hle. assert (i = 0) as -> by nia. by rewrite Z.mul_0_l, Z.add_0_r.
  - destruct (IH (cur + step) ba' bp' a p ltac:(lia) H) as (H1 & H2 & H3).
    split; [lia|]. split.
    + destruct H2 as [[-> ->]|(i & Hi & -> & Hle & ->)].
      * destruct Hb3 as [[= -> ->]|[= -> ->]]; [by left|right; exists 0; lia].
      * right. exists (i + 1). split; [lia|]. split; [lia|]. split; [lia|done].
    + intros i Hi Hle. destruct (Z.eq_dec i 0) as [->|Hi0].
      * rewrite Z.mul_0_l, Z.add_0_r. lia.
      * replace (cur + i * step) with (cur + step + (i - 1) * step) by lia. apply H3; lia.
Qed.

(** Grid search returns the best of its samples: the answer is one of the
    points [min + i * step] up to [max], it carries its own profit, and no
    other sampled point does better. *)
Theorem grid_search_best_sample min_input max_input steps :
  0 <= min_input < max_input -> max_input < 2 ^ 255 -> (0 < steps)%nat ->
  (forall x, i128_min <= profit_fn x) ->
  let step := (max_input - min_input) / Z.of_nat steps in
  exists i, grid_search_optimal_input min_input max_input steps
      = Ret (min_input + i * step, profit_fn (min_input + i * step)) /\
    0 <= i <= Z.of_nat steps /\ min_input + i * step <= max_input /\
    forall j, 0 <= j <= Z.of_nat steps -> min_input + j * step <= max_input ->
      profit_fn (min_input + j * step) <= profit_fn (min_input + i * step).
Proof.
  intros Hmin Hmax Hsteps Hf step. unfold grid_search_optimal_input.
  rewrite (proj2 (Z.leb_gt max_input min_input)), (proj2 (Nat.eqb_neq steps 0)) by lia.
  cbn [orb].
  rewrite u256_sub_exact by (range; lia). cbn [mbind outcome_bind].
  rewrite u256_div_exact by lia. cbn [mbind outcome_bind]. fold step.
  assert (Hs : 0 <= step <= max_input - min_input) by (apply div_le_self; lia).
  destruct (Z.eqb_spec step 0) as [E|Hne].
  { exists 0. rewrite E, !Z.mul_0_r, !Z.add_0_r. split; [done|]. split; [lia|]. split; [lia|].
    intros j _ _. rewrite Z.mul_0_r, Z.add_0_r. lia. }
  destruct (grid_loop (S steps) max_input step min_input min_input i128_min) as [a p] eqn:El.
  destruct (grid_loop_spec max_input step ltac:(lia) ltac:(lia) (S steps) min_input min_input
              i128_min a p ltac:(lia) El)
    as (Hp & Ha & Hall).
  assert (Hmem : exists i, 0 <= i <= Z.of_nat steps /\ a = min_input + i * step /\
    a <= max_input /\ p = profit_fn a).
  { destruct Ha as [[-> ->]|(i & Hi & ? & ? & ?)]; [|exists i; lia].
    exists 0. split; [lia|]. split; [lia|]. split; [lia|].
    pose proof (Hall 0 ltac:(lia) ltac:(lia)) as H0. rewrite Z.mul_0_l, Z.add_0_r in H0.
    specialize (Hf min_input). lia. }
  destruct Hmem as (i & Hi & -> & Hle & ->). exists i. split; [done|]. split; [lia|]. split; [done|].
  intros j Hj Hlj. apply Hall; lia.
Qed.
End Optimizer.

(** A parabola with its peak at 700. *)
Definition parabola (x : Z) : Z := 1000000 - (x - 700) * (x - 700).

Lemma ternary_search_finds_peak_witness :
  exists opt, ternary_search_optimal_input (B:=debug) (fun x => Ret (parabola x)) 1 1000 60
      = Ret (opt, parabola opt) /\
    1 <= opt <= 1000 /\ 700 - 1 <= opt <= 700 + 1.
Proof.
  apply (ternary_search_finds_peak (B:=debug) parabola (fun x => Ret (parabola x)) 700 1 1000 60);
    [lia|lia|done|split; unfold parabola; nia|vm_compute; reflexivity].
Defined.

(** A profit that saturates at the lower end of its type. *)
Definition clipped (x : Z) : Z := Z.max i128_min (parabola x).

Lemma grid_search_best_sample_witness :
  let step := (1000 - 1) / Z.of_nat 9 in
  exists i, grid_search_optimal_input (B:=release) clipped 1 1000 9
      = Ret (1 + i * step, clipped (1 + i * step)) /\
    0 <= i <= Z.of_nat 9 /\ 1 + i * step <= 1000 /\
    forall j, 0 <= j <= Z.of_nat 9 -> 1 + j * step <= 1000 ->
      clipped (1 + j * step) <= clipped (1 + i * step).
Proof.
  apply (grid_search_best_sample (B:=release) clipped 1 1000 9);
    [lia|lia|lia|unfold clipped; lia].
Defined.
