(* ===== verification/BellmanFord.v ===== *)
(** * The negative-cycle detector

    [crates/detector/src/bellman_ford.rs]: the queue-driven Bellman-Ford
    relaxation with small-label-first insertion, the extraction of a cycle
    from the predecessor table, and the full and partial scans. The clock is a
    parameter: [elapsed i] is the reading, in microseconds, at the [i]-th
    iteration of the queue loop. *)

From Stdlib Require Import ZArith Lia Sorting.Sorted.
From S2P Require Import Prelude.
From S2P Require Import Machine.
From S2P Require Import F64.
From S2P Require Import Types.
From S2P Require Import PriceGraph.
From S2P Require Import Opportunity.
From stdpp Require Import base option numbers gmap list.

Module BellmanFord.

Record t : Type := mk {
  max_hops : nat;
  max_time_us : Z;
}.

Definition new (max_hops : nat) (max_time_us : Z) : t := mk max_hops max_time_us.

(** The relaxation tolerance [1e-10]. *)
Definition EPSILON : f64 := f64_of_ratio 1 (10 ^ 10).

(** ** Cycle extraction *)

(** [for _ in 0..n { v = predecessor[v]?; }]. *)
Fixpoint walk_back (predecessor : list (option nat)) (steps v : nat) : outcome (option nat) :=
  match steps with
  | O => Ret (Some v)
  | S steps =>
      p ← index predecessor v;
      v' <-? p;
      walk_back predecessor steps v'
  end.

(** The tracing loop; [safety] counts down the rounds left. *)
Fixpoint trace (predecessor : list (option nat)) (safety start : nat) (acc : list nat)
    (current : nat) : outcome (option (list nat * nat)) :=
  match safety with
  | O => Ret (Some (acc, current))
  | S safety =>
      if (current =? start)%nat then Ret (Some (acc, current))
      else
        p ← index predecessor current;
        next <-? p;
        trace predecessor safety start (acc ++ [current]) next
  end.

(** The lowest-weight unfiltered edge between two vertices. *)
Definition by_weight (a b : PriceEdge) : comparison := f64_cmp (weight a) (weight b).
Definition candidates (g : PriceGraph.t) (a b : nat) : list PriceEdge :=
  filter (fun e => to e = b /\ filtered e = false) (PriceGraph.edges_from g a).
Definition best_edge (g : PriceGraph.t) (a b : nat) : option PriceEdge :=
  min_by by_weight (candidates g a b).

(** The weight of a path, accumulated from the left. *)
Fixpoint path_weight (g : PriceGraph.t) (total : f64) (p : list nat) : option f64 :=
  match p with
  | a :: (b :: _) as rest =>
      match best_edge g a b with
      | Some e => path_weight g (f64_add total (weight e)) rest
      | None => None
      end
  | _ => Some total
  end.

Definition extract_cycle (bf : t) (start : nat) (predecessor : list (option nat))
    (g : PriceGraph.t) (n : nat) : outcome (option DetectedCycle) :=
  ov ← walk_back predecessor n start;
  cycle_start <-? ov;
  p ← index predecessor cycle_start;
  current <-? p;
  tr ← trace predecessor n cycle_start [cycle_start] current;
  match tr with
  | None => Ret None
  | Some (acc, current) =>
      if negb (current =? cycle_start)%nat then Ret None
      else
        let p := reverse acc in
        cycle_close ← index p 0;
        let p := p ++ [cycle_close] in
        if (max_hops bf <? length p - 1)%nat then Ret None
        else
          Ret match path_weight g f64_zero p with
              | Some w => Some (mkCycle p w)
              | None => None
              end
  end.

(** ** Relaxation *)

Record state : Type := mkState {
  dist : list f64;
  predecessor : list (option nat);
  in_queue : list bool;
  relaxation_count : list Z;
  queue : list nat;
  cycles : list DetectedCycle;
  visited_cycle_nodes : list bool;
}.

Fixpoint mark_all (l : list bool) (nodes : list nat) : outcome (list bool) :=
  match nodes with
  | [] => Ret l
  | v :: nodes => l' ← store l v true; mark_all l' nodes
  end.

Section Scan.
Context `{B : Build} (bf : t) (g : PriceGraph.t) (n : nat).

(** A vertex has been relaxed [n] times: extract its cycle unless one of its
    vertices was already reported. *)
Definition report (s : state) (v : nat) : outcome state :=
  seen ← index (visited_cycle_nodes s) v;
  if (seen : bool) then Ret s
  else
    oc ← extract_cycle bf v (predecessor s) g n;
    match oc with
    | Some c =>
        visited ← mark_all (visited_cycle_nodes s) (path c);
        Ret (mkState (dist s) (predecessor s) (in_queue s) (relaxation_count s) (queue s)
               (cycles s ++ [c]) visited)
    | None => Ret s
    end.

(** Small label first: in front of the queue when nearer than its head. *)
Definition enqueue (s : state) (v : nat) : outcome state :=
  queued ← index (in_queue s) v;
  if (queued : bool) then Ret s
  else
    q ← match queue s with
        | front :: _ =>
            dv ← index (dist s) v;
            df ← index (dist s) front;
            Ret (if f64_lt dv df then v :: queue s else queue s ++ [v])
        | [] => Ret (queue s ++ [v])
        end;
    iq ← store (in_queue s) v true;
    Ret (mkState (dist s) (predecessor s) iq (relaxation_count s) q (cycles s)
           (visited_cycle_nodes s)).

Definition relax_edge (u : nat) (s : state) (e : PriceEdge) : outcome state :=
  if filtered e then Ret s
  else
    let v := to e in
    du ← index (dist s) u;
    let new_dist := f64_add du (weight e) in
    dv ← index (dist s) v;
    if f64_lt new_dist (f64_sub dv EPSILON) then
      dist' ← store (dist s) v new_dist;
      pred' ← store (predecessor s) v (Some u);
      c ← index (relaxation_count s) v;
      c' ← u32_add c 1;
      count' ← store (relaxation_count s) v c';
      let s' := mkState dist' pred' (in_queue s) count' (queue s) (cycles s)
                  (visited_cycle_nodes s) in
      if (as_u32 (Z.of_nat n) <=? c')%Z then report s' v else enqueue s' v
    else Ret s.

Fixpoint relax_edges (u : nat) (s : state) (es : list PriceEdge) : outcome state :=
  match es with
  | [] => Ret s
  | e :: es => s' ← relax_edge u s e; relax_edges u s' es
  end.

(** The queue loop, from its [i]-th iteration; [None]: the fuel ran out. *)
Fixpoint spfa (elapsed : nat -> Z) (fuel i : nat) (s : state) : outcome (option state) :=
  match queue s with
  | [] => Ret (Some s)
  | u :: q =>
      match fuel with
      | O => Ret None
      | S fuel =>
          iq ← store (in_queue s) u false;
          let s' := mkState (dist s) (predecessor s) iq (relaxation_count s) q (cycles s)
                      (visited_cycle_nodes s) in
          if (max_time_us bf <? elapsed i)%Z then Ret (Some s')
          else
            s'' ← relax_edges u s' (PriceGraph.edges_from g u);
            spfa elapsed fuel (S i) s''
      end
  end.
End Scan.

Definition by_total_weight (a b : DetectedCycle) : comparison :=
  f64_cmp (total_weight a) (total_weight b).

(** The final sort: most negative first. *)
Definition sorted_cycles (s : state) : list DetectedCycle := sort_by by_total_weight (cycles s).

Section Detect.
Context `{B : Build} (bf : t) (elapsed : nat -> Z) (g : PriceGraph.t).

Definition detect_negative_cycles : outcome (option (list DetectedCycle)) :=
  let n := PriceGraph.num_vertices g in
  if (n =? 0)%nat then Ret (Some [])
  else
    let s := mkState (replicate n f64_zero) (replicate n None) (replicate n true)
               (replicate n 0%Z) (seq 0 n) [] (replicate n false) in
    r ← spfa bf g n elapsed (n * n) 0 s;
    Ret (option_map sorted_cycles r).

(** The seeding loop of the partial scan. *)
Fixpoint seed (n : nat) (s : state) (affected : list nat) : outcome state :=
  match affected with
  | [] => Ret s
  | v :: affected =>
      if (v <? n)%nat then
        d ← store (dist s) v f64_zero;
        iq ← store (in_queue s) v true;
        seed n (mkState d (predecessor s) iq (relaxation_count s) (queue s ++ [v]) (cycles s)
                  (visited_cycle_nodes s)) affected
      else seed n s affected
  end.

Definition detect_from_affected (affected : list nat) : outcome (option (list DetectedCycle)) :=
  if (length affected =? 0)%nat then Ret (Some [])
  else
    let n := PriceGraph.num_vertices g in
    if (n =? 0)%nat then Ret (Some [])
    else
      let s0 := mkState (replicate n f64_infinity) (replicate n None) (replicate n false)
                  (replicate n 0%Z) [] [] (replicate n false) in
      s ← seed n s0 affected;
      r ← spfa bf g n elapsed (length affected + n * n) 0 s;
      Ret (option_map sorted_cycles r).
End Detect.

(** ** What a reported cycle is *)

(** The edges a path is priced with: between each two consecutive vertices, an
    unfiltered edge of the graph, the cheapest one unless a candidate weight
    is not a number. *)
Definition cheapest (g : PriceGraph.t) (a b : nat) (e : PriceEdge) : Prop :=
  e ∈ candidates g a b /\
  (Forall (fun e' => is_nan (weight e') = false) (candidates g a b) ->
   Forall (fun e' => f64_le (weight e) (weight e') = true) (candidates g a b)).

Inductive follows (g : PriceGraph.t) : list nat -> list PriceEdge -> Prop :=
| follows_end v : follows g [v] []
| follows_step a b p e es :
    cheapest g a b e -> follows g (b :: p) es -> follows g (a :: b :: p) (e :: es).

Record valid_cycle (bf : t) (g : PriceGraph.t) (c : DetectedCycle) : Prop := {
  vc_closed : exists v, head (path c) = Some v /\ last (path c) = Some v;
  vc_hops : (2 <= length (path c) <= S (max_hops bf))%nat;
  vc_simple : NoDup (tail (path c));
  vc_priced : exists es, follows g (path c) es /\
    total_weight c = foldl f64_add f64_zero (weight <$> es);
  vc_weight : path_weight g f64_zero (path c) = Some (total_weight c);
}.

Definition weighted (e : PriceEdge) : Prop := is_nan (weight e) = false.

Lemma by_weight_sym x y : weighted x -> weighted y -> by_weight x y = CompOpp (by_weight y x).
Proof. apply f64_cmp_sym. Qed.

Lemma by_weight_trans x y z : weighted x -> weighted y -> weighted z ->
  Prelude.not_gt by_weight x y -> Prelude.not_gt by_weight y z -> Prelude.not_gt by_weight x z.
Proof. apply f64_cmp_trans. Qed.

Lemma best_edge_cheapest g a b e : best_edge g a b = Some e -> cheapest g a b e.
Proof.
  intros H. pose proof (min_by_elem _ _ _ H) as He. split; [done|]. intros Hw.
  pose proof (min_by_le by_weight weighted by_weight_sym by_weight_trans _ _ Hw H) as Hle.
  rewrite Forall_forall in Hw, Hle. apply Forall_forall. intros e' He'.
  apply f64_cmp_not_gt; [by apply Hw|by apply Hw|]. by apply Hle.
Qed.

Lemma path_weight_follows g p : forall w w', p <> [] -> path_weight g w p = Some w' ->
  exists es, follows g p es /\ w' = foldl f64_add w (weight <$> es).
Proof.
  induction p as [|a p IH]; intros w w' Hne H; [done|]. destruct p as [|b p].
  { injection H as <-. exists []. split; [constructor|done]. }
  simpl in H. destruct (best_edge g a b) as [e|] eqn:E; [|done].
  destruct (IH (f64_add w (weight e)) w') as (es & Hf & Hw); [done|done|].
  exists (e :: es). split; [|done]. constructor; [by apply best_edge_cheapest|done].
Qed.

(** *** Tracing predecessors *)

(** Each element of the list is followed by its predecessor. *)
Definition chain (pred : list (option nat)) (l : list nat) : Prop :=
  forall i a b, l !! i = Some a -> l !! S i = Some b -> pred !! a = Some (Some b).

Lemma chain_snoc pred l a b :
  chain pred (l ++ [a]) -> pred !! a = Some (Some b) -> chain pred ((l ++ [a]) ++ [b]).
Proof.
  intros Hc Hp i x y Hx Hy. apply lookup_snoc_Some in Hy as [[Hlt Hy]|[Hlt <-]].
  - apply (Hc i); [|done]. rewrite lookup_app_l in Hx; [done|lia].
  - rewrite lookup_app_l in Hx by lia. rewrite length_app in Hlt. simpl in Hlt.
    rewrite lookup_app_r in Hx by lia. replace (i - length l)%nat with 0%nat in Hx by lia.
    by injection Hx as <-.
Qed.

Lemma trace_chain pred start safety : forall x0 xs current acc' current',
  chain pred ((x0 :: xs) ++ [current]) -> start ∉ xs ->
  trace pred safety start (x0 :: xs) current = Ret (Some (acc', current')) ->
  exists xs', acc' = x0 :: xs' /\ (start ∉ xs') /\ chain pred (acc' ++ [current']).
Proof.
  induction safety as [|safety IH]; intros x0 xs current acc' current' Hc Hn H; simpl in H.
  { injection H as <- <-. eauto. }
  destruct (Nat.eqb_spec current start) as [->|Hne].
  { injection H as <- <-. eauto. }
  apply bind_Ret in H as (p & Hp & H). apply index_Ret in Hp. destruct p as [next|]; [|done].
  apply (IH x0 (xs ++ [current]) next); [|set_solver|done].
  by apply (chain_snoc pred (x0 :: xs)).
Qed.

(** A chain that leaves a vertex and returns to it for the first time repeats
    no vertex: two equal vertices would return to it equally early. *)
Lemma chain_NoDup pred x0 xs :
  chain pred ((x0 :: xs) ++ [x0]) -> x0 ∉ xs -> NoDup (x0 :: xs).
Proof.
  intros Hc Hn. set (l := (x0 :: xs) ++ [x0]) in *.
  assert (Hlen : length l = S (S (length xs))) by (unfold l; rewrite length_app; simpl; lia).
  assert (Hend : l !! S (length xs) = Some x0)
    by (unfold l; rewrite lookup_app_r by (simpl; lia); simpl; by rewrite Nat.sub_diag).
  assert (Hshift : forall d i j, (i + d < length l)%nat -> (j + d < length l)%nat ->
    l !! i = l !! j -> l !! (i + d)%nat = l !! (j + d)%nat).
  { induction d as [|d IH]; intros i j Hi Hj E; [by rewrite !Nat.add_0_r|].
    assert (E' : l !! (i + d)%nat = l !! (j + d)%nat) by (apply IH; (lia || done)).
    destruct (lookup_lt_is_Some_2 l (i + d)) as [a Ha]; [lia|].
    destruct (lookup_lt_is_Some_2 l (i + S d)) as [b Hb]; [lia|].
    destruct (lookup_lt_is_Some_2 l (j + S d)) as [b' Hb']; [lia|].
    rewrite Hb, Hb'.
    pose proof (Hc (i + d)%nat a b Ha ltac:(by rewrite <- Nat.add_succ_r)) as H1.
    pose proof (Hc (j + d)%nat a b' ltac:(by rewrite <- E') ltac:(by rewrite <- Nat.add_succ_r)) as H2.
    congruence. }
  assert (Hlt : forall i j a, (i < j)%nat -> (x0 :: xs) !! i = Some a ->
    (x0 :: xs) !! j = Some a -> False).
  { intros i j a Hij Hi Hj. pose proof (lookup_lt_Some _ _ _ Hj) as Hjl. simpl in Hjl.
    assert (Hil : l !! i = Some a) by (unfold l; by rewrite lookup_app_l by (simpl; lia)).
    assert (Hjl' : l !! j = Some a) by (unfold l; by rewrite lookup_app_l by (simpl; lia)).
    pose proof (Hshift (S (length xs) - j)%nat i j ltac:(lia) ltac:(lia) ltac:(congruence)) as E.
    replace (j + (S (length xs) - j))%nat with (S (length xs)) in E by lia.
    rewrite Hend in E. unfold l in E. rewrite lookup_app_l in E by (simpl; lia).
    destruct (i + (S (length xs) - j))%nat as [|m] eqn:Em; [lia|].
    apply Hn. by eapply list_elem_of_lookup_2. }
  apply NoDup_alt. intros i j a Hi Hj.
  destruct (lt_eq_lt_dec i j) as [[H|H]|H]; [|done|]; exfalso; eauto.
Qed.

Lemma extract_cycle_valid bf start pred g n c :
  extract_cycle bf start pred g n = Ret (Some c) -> valid_cycle bf g c.
Proof.
  unfold extract_cycle. intros H.
  apply bind_Ret in H as (ov & _ & H). destruct ov as [x0|]; [|done].
  apply bind_Ret in H as (p & Hp & H). destruct p as [current|]; [|done].
  apply bind_Ret in H as (tr & Htr & H). destruct tr as [[acc cur]|]; [|done].
  destruct (Nat.eqb_spec cur x0) as [->|]; [|done]. cbn [negb] in H.
  apply index_Ret in Hp.
  destruct (trace_chain pred x0 n x0 [] current acc x0) as (xs & -> & Hn & Hc);
    [|set_solver|done|].
  { intros i a b Ha Hb. destruct i as [|[|]]; simpl in Ha, Hb; by simplify_eq. }
  pose proof (chain_NoDup pred x0 xs Hc Hn) as Hnd.
  apply bind_Ret in H as (y & Hy & H). apply index_Ret in Hy.
  destruct (reverse (x0 :: xs)) as [|y' ys] eqn:Erev; [done|]. injection Hy as ->.
  destruct (Nat.ltb_spec (max_hops bf) (length ((y :: ys) ++ [y]) - 1)) as [|Hh]; [done|].
  destruct (path_weight g f64_zero ((y :: ys) ++ [y])) as [w|] eqn:Ew; [|done].
  injection H as <-. rewrite length_app in Hh. simpl in Hh. split; simpl.
  - exists y. split; [done|]. exact (last_snoc y (y :: ys)).
  - rewrite length_app. simpl. lia.
  - assert (Hp2 : ys ++ [y] ≡ₚ x0 :: xs).
    { rewrite <- (reverse_Permutation (x0 :: xs)), Erev. by rewrite Permutation_app_comm. }
    by rewrite Hp2.
  - by apply path_weight_follows.
  - done.
Qed.

(** ** The scan returns, and reports valid cycles *)

Section Termination.
Context `{B : Build} (bf : t) (g : PriceGraph.t) (n : nat).
Context (Hto : forall u e, e ∈ PriceGraph.edges_from g u -> (to e < n)%nat).
Context (Hn32 : (Z.of_nat n < 2 ^ 32)%Z).

(** The tables have [n] entries, the queue and the predecessors name
    vertices, no counter exceeds [K], and every reported cycle is valid. *)
Record sane (K : Z) (s : state) : Prop := {
  sn_dist : length (dist s) = n;
  sn_pred : length (predecessor s) = n;
  sn_inq : length (in_queue s) = n;
  sn_count : length (relaxation_count s) = n;
  sn_visited : length (visited_cycle_nodes s) = n;
  sn_queue : Forall (fun v => v < n)%nat (queue s);
  sn_pred_lt : Forall (fun o => forall u, o = Some u -> (u < n)%nat) (predecessor s);
  sn_counts : Forall (fun c => 0 <= c <= K)%Z (relaxation_count s);
  sn_cycles : Forall (valid_cycle bf g) (cycles s);
}.

(** The enqueues left: a vertex is enqueued only while its counter is below
    [n]. *)
Definition room (c : Z) : nat := n - 1 - Z.to_nat c.
Definition potential (s : state) : nat :=
  length (queue s) + sum_list (room <$> relaxation_count s).

Lemma sane_le K K' s : (K <= K')%Z -> sane K s -> sane K' s.
Proof.
  intros HK []. split; try done. eapply Forall_impl; [done|]. simpl. lia.
Qed.

Lemma walk_back_returns pred steps : forall v,
  length pred = n -> Forall (fun o => forall u, o = Some u -> (u < n)%nat) pred -> (v < n)%nat ->
  exists r, walk_back pred steps v = Ret r /\ forall v', r = Some v' -> (v' < n)%nat.
Proof.
  induction steps as [|steps IH]; intros v Hl Hp Hv; simpl; [naive_solver|].
  destruct (index_lt pred v) as (o & -> & Ho); [lia|]. cbn [mbind outcome_bind].
  destruct o as [v'|]; [|naive_solver]. apply IH; [done|done|].
  by apply (Forall_lookup_1 _ _ _ _ Hp Ho).
Qed.

Lemma trace_returns pred start safety : forall acc current,
  length pred = n -> Forall (fun o => forall u, o = Some u -> (u < n)%nat) pred ->
  Forall (fun v => v < n)%nat acc -> (current < n)%nat ->
  exists r, trace pred safety start acc current = Ret r /\
    forall acc' cur', r = Some (acc', cur') ->
      Forall (fun v => v < n)%nat acc' /\ (length acc <= length acc')%nat.
Proof.
  induction safety as [|safety IH]; intros acc current Hl Hp Ha Hc; simpl; [naive_solver|].
  destruct (current =? start)%nat; [naive_solver|].
  destruct (index_lt pred current) as (o & -> & Ho); [lia|]. cbn [mbind outcome_bind].
  destruct o as [next|]; [|naive_solver].
  destruct (IH (acc ++ [current]) next) as (r & Hr & Hs); try done.
  { apply Forall_app; split; [done|by constructor]. }
  { by apply (Forall_lookup_1 _ _ _ _ Hp Ho). }
  exists r. split; [done|]. intros acc' cur' E. destruct (Hs acc' cur' E) as [H1 H2].
  split; [done|]. rewrite length_app in H2. simpl in H2. lia.
Qed.

Lemma extract_returns pred start :
  length pred = n -> Forall (fun o => forall u, o = Some u -> (u < n)%nat) pred ->
  (start < n)%nat ->
  exists r, extract_cycle bf start pred g n = Ret r /\
    forall c, r = Some c -> Forall (fun v => v < n)%nat (path c).
Proof.
  intros Hl Hp Hs. unfold extract_cycle.
  destruct (walk_back_returns pred n start Hl Hp Hs) as (ov & -> & Hov).
  cbn [mbind outcome_bind]. destruct ov as [x0|]; [|naive_solver]. specialize (Hov x0 eq_refl).
  destruct (index_lt pred x0) as (o & -> & Ho); [lia|]. cbn [mbind outcome_bind].
  destruct o as [current|]; [|naive_solver].
  destruct (trace_returns pred x0 n [x0] current) as (tr & -> & Htr); try done.
  { by constructor. }
  { by apply (Forall_lookup_1 _ _ _ _ Hp Ho). }
  cbn [mbind outcome_bind]. destruct tr as [[acc cur]|]; [|naive_solver].
  destruct (Htr acc cur eq_refl) as [Ha Hlen]. simpl in Hlen.
  destruct (negb (cur =? x0)%nat); [naive_solver|].
  destruct (reverse acc) as [|y ys] eqn:Er.
  { apply (f_equal length) in Er. rewrite length_reverse in Er. simpl in Er. lia. }
  cbn [index lookup list_lookup mbind outcome_bind].
  assert (Hy : Forall (fun v => v < n)%nat (y :: ys)) by (rewrite <- Er; by apply Forall_reverse).
  destruct (max_hops bf <? _)%nat; [naive_solver|]. eexists. split; [done|].
  intros c. destruct (path_weight _ _ _); [|done]. intros [= <-]. simpl.
  apply Forall_cons in Hy as [Hy Hys]. constructor; [done|]. apply Forall_app.
  split; [done|by constructor].
Qed.

Lemma mark_all_returns nodes : forall l,
  Forall (fun v => v < length l)%nat nodes ->
  exists l', mark_all l nodes = Ret l' /\ length l' = length l.
Proof.
  induction nodes as [|v nodes IH]; intros l H; simpl; [eauto|].
  apply Forall_cons in H as [Hv H]. rewrite store_lt by done. cbn [mbind outcome_bind].
  destruct (IH (<[v:=true]> l)) as (l' & -> & Hl'); [by rewrite length_insert|].
  rewrite length_insert in Hl'. eauto.
Qed.

Lemma report_returns K s v : sane K s -> (v < n)%nat ->
  exists s', report bf g n s v = Ret s' /\ sane K s' /\ potential s' = potential s.
Proof.
  intros Hs Hv. pose proof Hs as []. unfold report.
  destruct (index_lt (visited_cycle_nodes s) v) as (seen & -> & _); [lia|].
  cbn [mbind outcome_bind]. destruct seen; [eauto|].
  destruct (extract_returns (predecessor s) v) as (oc & E & Hpath); try done.
  rewrite E. cbn [mbind outcome_bind]. destruct oc as [c|]; [|eauto].
  destruct (mark_all_returns (path c) (visited_cycle_nodes s)) as (l' & -> & Hl').
  { rewrite sn_visited0. by apply Hpath. }
  cbn [mbind outcome_bind]. eexists. split; [done|]. split; [|done].
  split; simpl; try done; [congruence|]. apply Forall_app. split; [done|].
  constructor; [|done]. by eapply extract_cycle_valid.
Qed.

Lemma enqueue_returns K s v : sane K s -> (v < n)%nat ->
  exists s', enqueue s v = Ret s' /\ sane K s' /\ (potential s' <= S (potential s))%nat.
Proof.
  intros Hs Hv. pose proof Hs as []. unfold enqueue.
  destruct (index_lt (in_queue s) v) as (queued & -> & _); [lia|].
  cbn [mbind outcome_bind]. destruct queued; [eauto|].
  assert (Hq : exists q, match queue s with
    | front :: _ => dv ← index (dist s) v; df ← index (dist s) front;
                    Ret (if f64_lt dv df then v :: queue s else queue s ++ [v])
    | [] => Ret (queue s ++ [v]) end = Ret q /\
    Forall (fun v => v < n)%nat q /\ length q = S (length (queue s))).
  { destruct (queue s) as [|front q0] eqn:Eq.
    { exists [v]. split; [done|]. split; [by constructor|done]. }
    destruct (index_lt (dist s) v) as (dv & -> & _); [lia|].
    apply Forall_cons in sn_queue0 as [Hf Hq0].
    destruct (index_lt (dist s) front) as (df & -> & _); [lia|]. cbn [mbind outcome_bind].
    destruct (f64_lt dv df); eexists; (split; [done|]).
    - split; [by repeat constructor|done].
    - split; [|rewrite length_app; simpl; lia]. apply Forall_app; split; by repeat constructor. }
  destruct Hq as (q & -> & Hqn & Hql). cbn [mbind outcome_bind].
  rewrite store_lt by lia. cbn [mbind outcome_bind]. eexists. split; [done|].
  split; [split; simpl; try done; by rewrite length_insert|].
  unfold potential. simpl. lia.
Qed.

Lemma sum_room_insert l v c c' : l !! v = Some c ->
  (sum_list (room <$> <[v := c']> l) + room c = sum_list (room <$> l) + room c')%nat.
Proof.
  revert v. induction l as [|x l IH]; intros [|v] H; simplify_eq/=; [lia|].
  specialize (IH v H). lia.
Qed.

Lemma relax_edge_returns K u s e : sane K s -> (u < n)%nat -> (to e < n)%nat ->
  (K + 1 < 2 ^ 32)%Z ->
  exists s', relax_edge bf g n u s e = Ret s' /\ sane (K + 1) s' /\
    (potential s' <= potential s)%nat.
Proof.
  intros Hs Hu Hv HK. pose proof Hs as []. unfold relax_edge.
  assert (Hkeep : exists s', Ret s = Ret s' /\ sane (K + 1) s' /\ (potential s' <= potential s)%nat).
  { exists s. split; [done|]. split; [eapply sane_le; [|done]; lia|done]. }
  destruct (filtered e); [done|].
  destruct (index_lt (dist s) u) as (du & -> & _); [lia|].
  destruct (index_lt (dist s) (to e)) as (dv & -> & _); [lia|]. cbn [mbind outcome_bind].
  destruct (f64_lt _ _); [|done].
  rewrite (store_lt (dist s)) by lia. cbn [mbind outcome_bind].
  rewrite (store_lt (predecessor s)) by lia. cbn [mbind outcome_bind].
  destruct (index_lt (relaxation_count s) (to e)) as (c & -> & Hc); [lia|].
  cbn [mbind outcome_bind]. pose proof (Forall_lookup_1 _ _ _ _ sn_counts0 Hc) as Hcb. simpl in Hcb.
  unfold u32_add. rewrite arith_exact by (unfold in_u; lia). cbn [mbind outcome_bind].
  rewrite (store_lt (relaxation_count s)) by lia. cbn [mbind outcome_bind].
  set (s' := mkState _ _ _ _ _ _ _).
  assert (Hs' : sane (K + 1) s').
  { split; simpl; rewrite ?length_insert; try done.
    - apply Forall_insert; [done|]. by intros ? [= <-].
    - apply Forall_insert; [|lia]. eapply Forall_impl; [done|]. simpl. lia. }
  pose proof (sum_room_insert (relaxation_count s) (to e) c (c + 1) Hc) as Hsum.
  assert (Hpot : (potential s' + room c = potential s + room (c + 1))%nat).
  { unfold potential, s'. simpl. lia. }
  unfold as_u32. rewrite Z.mod_small by lia.
  destruct (Z.leb_spec (Z.of_nat n) (c + 1)).
  - destruct (report_returns (K + 1) s' (to e) Hs' Hv) as (s2 & -> & Hs2 & Hp2).
    exists s2. split; [done|]. split; [done|]. rewrite Hp2. unfold room in Hpot. lia.
  - destruct (enqueue_returns (K + 1) s' (to e) Hs' Hv) as (s2 & -> & Hs2 & Hp2).
    exists s2. split; [done|]. split; [done|]. unfold room in Hpot. lia.
Qed.

Lemma relax_edges_returns u es : forall K s, sane K s -> (u < n)%nat ->
  Forall (fun e => to e < n)%nat es -> (K + Z.of_nat (length es) < 2 ^ 32)%Z ->
  exists s', relax_edges bf g n u s es = Ret s' /\ sane (K + Z.of_nat (length es)) s' /\
    (potential s' <= potential s)%nat.
Proof.
  induction es as [|e es IH]; intros K s Hs Hu Hes HK; simpl.
  { exists s. split; [done|]. split; [eapply sane_le; [|done]; lia|done]. }
  apply Forall_cons in Hes as [He Hes]. simpl length in HK.
  destruct (relax_edge_returns K u s e Hs Hu He) as (s1 & -> & Hs1 & Hp1); [lia|].
  cbn [mbind outcome_bind].
  destruct (IH (K + 1)%Z s1 Hs1 Hu Hes) as (s2 & -> & Hs2 & Hp2); [lia|].
  exists s2. split; [done|]. split; [eapply sane_le; [|done]; lia|lia].
Qed.

(** Fuel for the potential is enough, and the counters never reach [2 ^ 32]
    when potential times degree does not. *)
Lemma spfa_returns elapsed deg : (forall u, length (PriceGraph.edges_from g u) <= deg)%nat ->
  forall fuel i K s, sane K s -> (potential s <= fuel)%nat -> (0 <= K)%Z ->
  (K + Z.of_nat fuel * Z.of_nat deg < 2 ^ 32)%Z ->
  exists s', spfa bf g n elapsed fuel i s = Ret (Some s') /\ Forall (valid_cycle bf g) (cycles s').
Proof.
  intros Hdeg. induction fuel as [|fuel IH]; intros i K s Hs Hp HK0 HK; simpl.
  { destruct (queue s) eqn:Eq; [|unfold potential in Hp; rewrite Eq in Hp; simpl in Hp; lia].
    exists s. split; [done|apply Hs]. }
  destruct (queue s) as [|u q] eqn:Eq; [exists s; split; [done|apply Hs]|].
  pose proof Hs as []. rewrite Eq in sn_queue0. apply Forall_cons in sn_queue0 as [Hu Hq].
  rewrite (store_lt (in_queue s)) by lia. cbn [mbind outcome_bind].
  set (s1 := mkState _ _ _ _ _ _ _).
  assert (Hs1 : sane K s1) by (split; simpl; rewrite ?length_insert; done).
  assert (Hp1 : (potential s1 <= fuel)%nat).
  { unfold potential, s1 in *. rewrite Eq in Hp. simpl in *. lia. }
  destruct (max_time_us bf <? elapsed i)%Z; [eauto using sn_cycles|].
  pose proof (Hdeg u) as Hd.
  destruct (relax_edges_returns u (PriceGraph.edges_from g u) K s1 Hs1 Hu) as (s2 & -> & Hs2 & Hp2).
  { apply Forall_forall. intros e He. by eapply Hto. }
  { nia. }
  cbn [mbind outcome_bind].
  apply (IH (S i) (K + Z.of_nat deg)%Z); [|lia|lia|lia].
  eapply sane_le; [|done]. lia.
Qed.
End Termination.

Section Theorems.
Context `{B : Build} (bf : t) (elapsed : nat -> Z) (g : PriceGraph.t).

(** A graph in its representation invariant, whose edges end at vertices, and
    small enough for the 32-bit relaxation counters. *)
Record scannable (rounds : nat) : Prop := {
  sc_inv : PriceGraph.inv g;
  sc_to : Forall (fun e => to e < PriceGraph.num_vertices g)%nat (PriceGraph.all_edges g);
  sc_vertices : (Z.of_nat (PriceGraph.num_vertices g) < 2 ^ 32)%Z;
  sc_counters : (Z.of_nat rounds * Z.of_nat (PriceGraph.num_edges g) < 2 ^ 32)%Z;
}.

Lemma edges_from_in_all rounds u e : scannable rounds ->
  e ∈ PriceGraph.edges_from g u -> e ∈ PriceGraph.all_edges g.
Proof.
  intros H. rewrite PriceGraph.edges_from_abs by apply H. by intros [_ He]%list_elem_of_filter.
Qed.

Lemma edges_from_length rounds u : scannable rounds ->
  (length (PriceGraph.edges_from g u) <= PriceGraph.num_edges g)%nat.
Proof.
  intros H. rewrite PriceGraph.edges_from_abs by apply H. apply length_filter.
Qed.

Lemma sum_room_fresh n m : sum_list (room n <$> replicate m 0%Z) = (m * (n - 1))%nat.
Proof.
  induction m as [|m IH]; [done|].
  change (room n 0 + sum_list (room n <$> replicate m 0%Z) = S m * (n - 1))%nat.
  rewrite IH. unfold room. lia.
Qed.

(** The reported list: valid cycles, most negative first. *)
Definition reported (cs : list DetectedCycle) : Prop :=
  Forall (valid_cycle bf g) cs /\
  (Forall (fun c => is_nan (total_weight c) = false) cs ->
   StronglySorted (fun a b => f64_le (total_weight a) (total_weight b) = true) cs).

Lemma sorted_reported s : Forall (valid_cycle bf g) (cycles s) -> reported (sorted_cycles s).
Proof.
  intros Hv. unfold sorted_cycles. split; [by rewrite sort_by_perm|].
  intros Hw. apply (sort_asc_sorted total_weight). by rewrite sort_by_perm in Hw.
Qed.

Lemma spfa_reported rounds s : scannable rounds ->
  sane bf g (PriceGraph.num_vertices g) 0 s ->
  (potential (PriceGraph.num_vertices g) s <= rounds)%nat ->
  exists cs, (r ← spfa bf g (PriceGraph.num_vertices g) elapsed rounds 0 s;
              Ret (option_map sorted_cycles r)) = Ret (Some cs) /\ reported cs.
Proof.
  intros Hsc Hs Hp.
  destruct (spfa_returns bf g (PriceGraph.num_vertices g)) with (elapsed := elapsed)
    (deg := PriceGraph.num_edges g) (fuel := rounds) (i := 0%nat) (K := 0%Z) (s := s)
    as (s' & -> & Hv); try done; [|by apply Hsc|intros; by eapply edges_from_length|apply Hsc|].
  { intros u e He. apply (edges_from_in_all rounds) in He; [|done].
    pose proof (sc_to _ Hsc) as Ht. rewrite Forall_forall in Ht. by apply Ht. }
  eexists. split; [done|]. by apply sorted_reported.
Qed.

Lemma full_scan_reports :
  scannable (PriceGraph.num_vertices g * PriceGraph.num_vertices g) ->
  exists cs, detect_negative_cycles bf elapsed g = Ret (Some cs) /\ reported cs.
Proof.
  intros Hsc. unfold detect_negative_cycles.
  destruct (Nat.eqb_spec (PriceGraph.num_vertices g) 0) as [|Hn].
  { exists []. split; [done|]. split; constructor. }
  apply spfa_reported; [done| |].
  - split; simpl; rewrite ?length_replicate; try done.
    + apply Forall_forall. intros v Hv. apply elem_of_seq in Hv. lia.
    + apply Forall_replicate. done.
    + apply Forall_replicate. lia.
  - unfold potential. simpl. rewrite length_seq, sum_room_fresh. nia.
Qed.

Lemma seed_returns n affected : forall s, (0 < n)%nat -> sane bf g n 0 s ->
  exists s', seed n s affected = Ret s' /\ sane bf g n 0 s' /\
    (potential n s' <= length affected + potential n s)%nat.
Proof.
  induction affected as [|v affected IH]; intros s Hn Hs; simpl; [eauto|].
  destruct (Nat.ltb_spec v n).
  - pose proof Hs as []. rewrite (store_lt (dist s)) by lia. cbn [mbind outcome_bind].
    rewrite (store_lt (in_queue s)) by lia. cbn [mbind outcome_bind].
    set (s1 := mkState _ _ _ _ _ _ _). destruct (IH s1) as (s' & -> & Hs' & Hp); [done| |].
    { split; simpl; rewrite ?length_insert; try done. apply Forall_app; split; by repeat constructor. }
    exists s'. split; [done|]. split; [done|]. unfold potential, s1 in *. simpl in Hp.
    rewrite length_app in Hp. simpl in Hp. lia.
  - destruct (IH s Hn Hs) as (s' & -> & Hs' & Hp). exists s'. split; [done|]. split; [done|lia].
Qed.

Lemma partial_scan_reports affected :
  scannable (length affected + PriceGraph.num_vertices g * PriceGraph.num_vertices g) ->
  exists cs, detect_from_affected bf elapsed g affected = Ret (Some cs) /\ reported cs.
Proof.
  intros Hsc. unfold detect_from_affected.
  assert (Hnil : exists cs, Ret (Some []) = Ret (Some cs) /\ reported cs)
    by (exists []; split; [done|]; split; constructor).
  destruct (length affected =? 0)%nat; [done|].
  destruct (Nat.eqb_spec (PriceGraph.num_vertices g) 0) as [|Hn]; [done|].
  set (s0 := mkState _ _ _ _ _ _ _).
  destruct (seed_returns (PriceGraph.num_vertices g) affected s0) as (s & -> & Hs & Hp); [lia| |].
  { split; simpl; rewrite ?length_replicate; try done; apply Forall_replicate; [done|lia]. }
  cbn [mbind outcome_bind]. apply spfa_reported; [done|done|].
  unfold potential at 2 in Hp. simpl in Hp. rewrite sum_room_fresh in Hp. nia.
Qed.

Lemma scannable_le r r' : (r <= r')%nat -> scannable r' -> scannable r.
Proof. intros Hr []. split; [done|done|done|]. nia. Qed.

End Theorems.

(** ** A concrete scan *)

(** Three tokens, a profitable triangle and a second, cheaper pool on its last
    hop; the logarithm is the identity, so the rates are the weights negated. *)
Definition triangle_ops : list PriceGraph.op :=
  [PriceGraph.AddEdge 0 1 (f64_of_ratio 1 10) (mkPoolId 7 UniswapV2) 7 UniswapV2 1;
   PriceGraph.AddEdge 1 2 (f64_of_ratio 2 10) (mkPoolId 8 UniswapV2) 8 UniswapV2 1;
   PriceGraph.AddEdge 2 0 (f64_of_ratio (-5) 10) (mkPoolId 9 UniswapV2) 9 UniswapV2 1;
   PriceGraph.AddEdge 2 0 (f64_of_ratio (-1) 10) (mkPoolId 10 UniswapV2) 10 UniswapV2 1].
Definition triangle : PriceGraph.t :=
  match PriceGraph.run (M:=PriceGraph.sample_libm) (PriceGraph.new 3) triangle_ops with
  | Ret g => g
  | Panic => PriceGraph.new 0
  end.

Lemma triangle_inv : PriceGraph.inv triangle.
Proof.
  destruct (PriceGraph.run_refines (M:=PriceGraph.sample_libm) triangle_ops (PriceGraph.new 3)
              (PriceGraph.graph_inv_new 3)) as (g & Hr & Hi & _).
  { repeat split; vm_compute; lia. }
  assert (Ret triangle = Ret g) as [= ->]; [|done]. rewrite <- Hr. vm_compute. reflexivity.
Qed.

Lemma triangle_scannable : scannable triangle 10.
Proof. split; [apply triangle_inv|vm_compute; repeat constructor; lia|reflexivity|reflexivity]. Qed.


End BellmanFord.
