(* ===== verification/EventDecoder.v ===== *)
(** * Log decoding

    [crates/ingestion/src/event_decoder.rs]: from the topics and the data of a
    log to a pool event. A 32-byte topic is its big-endian value. The signature
    hashes are computed by the [sol!] macro of the alloy crate and the dynamic
    events are decoded by its generated code; both are parameters. *)

From Stdlib Require Import ZArith Lia String.
From S2P Require Import Prelude.
From S2P Require Import Machine.
From S2P Require Import Types.
From S2P Require Import Bytes.
From stdpp Require Import base option numbers strings sets list.

Local Open Scope Z_scope.

(** ** Events and reasons *)

Inductive PoolEvent : Type :=
| ReserveUpdate (pool : Address) (protocol : ProtocolType) (reserve0 reserve1 : Z)
| V2Swap (pool sender to : Address) (amount0_in amount1_in amount0_out amount1_out : Z)
| V3Update (pool : Address) (sqrt_price_x96 liquidity tick : Z)
| PoolCreated (token0 token1 pool : Address).

Inductive DecodeReason : Type := UnknownTopic | MalformedPayload | InsufficientTopics.

Definition reason_str (r : DecodeReason) : string :=
  match r with
  | UnknownTopic => "unknown_topic"
  | MalformedPayload => "malformed_payload"
  | InsufficientTopics => "insufficient_topics"
  end.

Class EventSignatures : Type := {
  sync_topic : Z;
  swap_v2_topic : Z;
  swap_v3_topic : Z;
  token_exchange_topic : Z;
  pair_created_topic : Z;
  pool_created_v3_topic : Z;
  plain_pool_deployed_topic : Z;
  pool_registered_v3_topic : Z;
}.

(** Different event signatures have different hashes. *)
Class DistinctSignatures `{EventSignatures} : Prop := {
  distinct_topics : NoDup [sync_topic; swap_v2_topic; swap_v3_topic; token_exchange_topic;
                           pair_created_topic; pool_created_v3_topic];
}.

Abbreviation decoded := (outcome (PoolEvent + DecodeReason)) (only parsing).
Definition Ok (e : PoolEvent) : decoded := Ret (inl e).
Definition Err (r : DecodeReason) : decoded := Ret (inr r).

Definition decode_swap_v2 (topics data : list Z) (pool : Address) : decoded :=
  if (length topics <? 3)%nat then Err InsufficientTopics
  else if (length data <? 128)%nat then Err MalformedPayload
  else
    t1 ← index topics 1;
    t2 ← index topics 2;
    w0 ← slice data 0 32;
    w1 ← slice data 32 64;
    w2 ← slice data 64 96;
    w3 ← slice data 96 128;
    Ok (V2Swap pool (topic_address t1) (topic_address t2) (be w0) (be w1) (be w2) (be w3)).

Definition decode_sync (data : list Z) (pool : Address) (hint : option ProtocolType) : decoded :=
  if (length data <? 64)%nat then Err MalformedPayload
  else
    w0 ← slice data 0 32;
    w1 ← slice data 32 64;
    Ok (ReserveUpdate pool (default UniswapV2 hint) (be w0) (be w1)).

(** The low 32 bits of the word as an [i32], then sign-extended from 24
    bits. *)
Definition tick_of_word (w : list Z) : outcome Z :=
  low ← slice w 28 32;
  let tick_i256 := to_signed 32 (be low) in
  Ret (if negb (Z.land tick_i256 0x800000 =? 0) then Z.lor tick_i256 (Z.lnot 0xFFFFFF)
       else Z.land tick_i256 0xFFFFFF).

Definition decode_swap_v3 (topics data : list Z) (pool : Address) : decoded :=
  if (length data <? 160)%nat then Err MalformedPayload
  else
    w2 ← slice data 64 96;
    w3 ← slice data 96 128;
    liquidity ← u256_to_u128 (be w3);
    w4 ← slice data 128 160;
    tick ← tick_of_word w4;
    Ok (V3Update pool (be w2) liquidity tick).

Definition decode_token_exchange (topics data : list Z) (pool : Address) : decoded :=
  Ok (ReserveUpdate pool Curve 0 0).

Definition decode_pair_created (topics data : list Z) : decoded :=
  if (length topics <? 3)%nat then Err InsufficientTopics
  else if (length data <? 64)%nat then Err MalformedPayload
  else
    t1 ← index topics 1;
    t2 ← index topics 2;
    p ← slice data 12 32;
    Ok (PoolCreated (topic_address t1) (topic_address t2) (be p)).

Definition decode_pool_created_v3 (topics data : list Z) : decoded :=
  if (length topics <? 4)%nat then Err InsufficientTopics
  else if (length data <? 64)%nat then Err MalformedPayload
  else
    t1 ← index topics 1;
    t2 ← index topics 2;
    p ← slice data 32 52;
    Ok (PoolCreated (topic_address t1) (topic_address t2) (be p)).

Definition decode_log `{S : EventSignatures} (topics data : list Z) (source_address : Address)
    (protocol_hint : option ProtocolType) : decoded :=
  match topics with
  | [] => Err UnknownTopic
  | topic0 :: _ =>
      if topic0 =? sync_topic then decode_sync data source_address protocol_hint
      else if topic0 =? swap_v2_topic then decode_swap_v2 topics data source_address
      else if topic0 =? swap_v3_topic then decode_swap_v3 topics data source_address
      else if topic0 =? token_exchange_topic then decode_token_exchange topics data source_address
      else if topic0 =? pair_created_topic then decode_pair_created topics data
      else if topic0 =? pool_created_v3_topic then decode_pool_created_v3 topics data
      else Err UnknownTopic
  end.

(** ** Fees *)

(** The quotient's lowest limb, narrowed with [as u32]. *)
Definition v3_fee_bps_from_topic (fee_topic : Z) : Z := as_u32 (limb (fee_topic / 100) 0).
(** The lowest limb clamped to [u32]. *)
Definition clamp_u32 (bps : Z) : Z := Z.min (limb bps 0) u32_max.
Definition curve_fee_to_bps (fee : Z) : Z :=
  clamp_u32 (u256_saturating_mul fee 10000 / 10 ^ 10).
Definition balancer_v3_fee_to_bps (swap_fee : Z) : Z :=
  clamp_u32 (u256_saturating_mul swap_fee 10000 / 10 ^ 18).

(** ** Dynamic events *)

(** The generated decoders of the events with array arguments. *)
Class DynamicDecoders : Type := {
  decode_PlainPoolDeployed : list Z -> list Z -> option (Address * list Address * Z);
  decode_PoolRegistered : list Z -> list Z -> option (Address * list Address * Z);
}.

Section Dynamic.
Context `{S : EventSignatures} `{D : DynamicDecoders}.

Definition decode_plain_pool_deployed (topics data : list Z)
    : option (Address * Address * Address * Z) :=
  match topics with
  | [] => None
  | topic0 :: _ =>
      if negb (topic0 =? plain_pool_deployed_topic) then None
      else
        match decode_PlainPoolDeployed topics data with
        | Some (pool, c0 :: c1 :: _, fee) => Some (pool, c0, c1, curve_fee_to_bps fee)
        | _ => None
        end
  end.

Definition decode_pool_registered_v3 (topics data : list Z)
    : option (Address * Address * Address * Z) :=
  match topics with
  | topic0 :: _ :: _ :: _ =>
      if negb (topic0 =? pool_registered_v3_topic) then None
      else
        match decode_PoolRegistered topics data with
        | Some (pool, t0 :: t1 :: _, fee) => Some (pool, t0, t1, balancer_v3_fee_to_bps fee)
        | _ => None
        end
  | _ => None
  end.
End Dynamic.

(** ** What contracts emit *)

(** *** Signed 24-bit ticks *)

Lemma neg_testbit_high t k : - 2 ^ 23 <= t < 0 -> 23 <= k -> Z.testbit t k = true.
Proof.
  intros Ht Hk. apply Z.bits_above_log2_neg; [lia|].
  destruct (Z.eq_dec (Z.pred (- t)) 0) as [->|]; [simpl; lia|].
  apply Z.log2_lt_pow2; [lia|]. apply Z.lt_le_trans with (2 ^ 23); [lia|].
  apply Z.pow_le_mono_r; lia.
Qed.

Lemma sign_extend_24 t : - 2 ^ 23 <= t < 2 ^ 23 ->
  (if negb (Z.land t 0x800000 =? 0) then Z.lor t (Z.lnot 0xFFFFFF) else Z.land t 0xFFFFFF) = t.
Proof.
  intros Ht. change 0x800000 with (2 ^ 23). change 0xFFFFFF with (Z.ones 24).
  destruct (Z.neg_nonneg_cases t) as [Hneg|Hpos].
  - assert (Hb : Z.land t (2 ^ 23) <> 0).
    { intros E. apply (f_equal (fun z => Z.testbit z 23)) in E.
      rewrite Z.land_spec, neg_testbit_high, Z.pow2_bits_true, Z.bits_0 in E by lia. done. }
    rewrite (proj2 (Z.eqb_neq _ _) Hb). cbn [negb]. apply Z.bits_inj'. intros k Hk.
    rewrite Z.lor_spec, Z.lnot_spec by done. destruct (Z.le_gt_cases 24 k) as [H24|H24].
    + rewrite neg_testbit_high by lia. done.
    + rewrite Z.ones_spec_low by lia. simpl. by rewrite orb_false_r.
  - assert (Hb : Z.land t (2 ^ 23) = 0).
    { apply Z.bits_inj'. intros k Hk. rewrite Z.land_spec, Z.bits_0.
      destruct (Z.eq_dec k 23) as [->|].
      - rewrite Z.bits_above_log2; [done|lia|].
        destruct (Z.eq_dec t 0) as [->|]; [simpl; lia|]. apply Z.log2_lt_pow2; lia.
      - rewrite Z.pow2_bits_false by lia. apply andb_false_r. }
    rewrite Hb. cbn [Z.eqb negb]. rewrite Z.land_ones by lia. apply Z.mod_small. lia.
Qed.

Lemma to_signed_mod w t : 0 < w -> - 2 ^ (w - 1) <= t < 2 ^ (w - 1) ->
  to_signed w (t mod 2 ^ w) = t.
Proof.
  intros Hw Ht. unfold to_signed. rewrite Z.mod_mod by (apply Z.pow_nonzero; lia).
  assert (E : 2 ^ w = 2 * 2 ^ (w - 1)) by (rewrite <- Z.pow_succ_r by lia; f_equal; lia).
  destruct (Z.neg_nonneg_cases t).
  - replace (t mod 2 ^ w) with (t + 2 ^ w) by (apply (Z.mod_unique_pos _ _ (-1)); lia).
    rewrite (proj2 (Z.ltb_ge _ _)) by lia. lia.
  - rewrite Z.mod_small by lia. by rewrite (proj2 (Z.ltb_lt _ _)) by lia.
Qed.

Lemma tick_round_trip t : - 2 ^ 23 <= t < 2 ^ 23 -> tick_of_word (word t) = Ret t.
Proof.
  intros Ht. unfold tick_of_word, slice. rewrite length_word. cbn [Nat.leb mbind outcome_bind].
  unfold word. rewrite (drop_to_be 4 28), take_ge by (by rewrite length_to_be).
  rewrite be_to_be. change (256 ^ Z.of_nat 4) with (2 ^ 32).
  replace ((t mod 2 ^ 256) mod 2 ^ 32) with (t mod 2 ^ 32)
    by (change (2 ^ 256) with (2 ^ 32 * 2 ^ 224); rewrite Z.rem_mul_r by lia;
        rewrite (Z.mul_comm (2 ^ 32) (_ mod _)), Z.mod_add, Z.mod_mod by lia; done).
  rewrite to_signed_mod by lia. by rewrite sign_extend_24.
Qed.

Section Decode.
Context `{S : EventSignatures} `{HD : !DistinctSignatures}.

(** The logs the documented events produce: [emitted pool hint topics data
    event]. Indexed arguments are topics, the others are words of the data. *)
Inductive emitted (pool : Address) (hint : option ProtocolType)
    : list Z -> list Z -> PoolEvent -> Prop :=
| em_sync r0 r1 :
    in_u 112 r0 -> in_u 112 r1 ->
    emitted pool hint [sync_topic] (words [r0; r1])
      (ReserveUpdate pool (default UniswapV2 hint) r0 r1)
| em_swap_v2 sender to a0_in a1_in a0_out a1_out :
    in_u 160 sender -> in_u 160 to -> Forall (in_u 256) [a0_in; a1_in; a0_out; a1_out] ->
    emitted pool hint [swap_v2_topic; sender; to] (words [a0_in; a1_in; a0_out; a1_out])
      (V2Swap pool sender to a0_in a1_in a0_out a1_out)
| em_swap_v3 sender recipient amount0 amount1 sqrt_price liquidity tick :
    in_u 160 sqrt_price -> in_u 128 liquidity -> in_s 24 tick ->
    emitted pool hint [swap_v3_topic; sender; recipient]
      (words [amount0; amount1; sqrt_price; liquidity; tick])
      (V3Update pool sqrt_price liquidity tick)
| em_pair_created token0 token1 pair count :
    in_u 160 token0 -> in_u 160 token1 -> in_u 160 pair ->
    emitted pool hint [pair_created_topic; token0; token1] (words [pair; count])
      (PoolCreated token0 token1 pair).

(** Reach the branch of a signature. *)
Lemma topics_distinct :
  swap_v2_topic <> sync_topic /\ swap_v3_topic <> sync_topic /\ swap_v3_topic <> swap_v2_topic /\
  pair_created_topic <> sync_topic /\ pair_created_topic <> swap_v2_topic /\
  pair_created_topic <> swap_v3_topic /\ pair_created_topic <> token_exchange_topic.
Proof.
  pose proof distinct_topics as H. rewrite !NoDup_cons in H.
  repeat split; intros E; rewrite E in *; set_solver.
Qed.

Lemma topic_address_exact a : in_u 160 a -> topic_address a = a.
Proof. intros H. apply Z.mod_small. apply H. Qed.

Lemma be_words_at vs i v : vs !! i = Some v -> 0 <= v < 2 ^ 256 ->
  fmap (M:=outcome) be (slice (words vs) (32 * i) (32 * i + 32)) = Ret v.
Proof. intros H Hv. rewrite (slice_words vs i v H). simpl. by rewrite be_word. Qed.

(** The low 20 bytes of the first word. *)
Lemma slice_address v vs : in_u 160 v ->
  exists l, slice (words (v :: vs)) 12 32 = Ret l /\ be l = v.
Proof.
  intros Hv. unfold slice. rewrite length_words. simpl length.
  rewrite (proj2 (Nat.leb_le _ _)) by lia. eexists. split; [done|].
  rewrite words_cons, drop_app_le by (rewrite length_word; lia).
  rewrite take_app_le by (rewrite length_drop, length_word; lia).
  unfold word. rewrite (drop_to_be 20 12), take_ge by (by rewrite length_to_be).
  rewrite be_to_be. change (256 ^ Z.of_nat 20) with (2 ^ 160). range.
  rewrite !Z.mod_small by (rewrite ?Z.mod_small by lia; lia). done.
Qed.

Lemma words_long vs n : (n <= 32 * length vs)%nat -> (length (words vs) <? n)%nat = false.
Proof. intros H. apply Nat.ltb_ge. by rewrite length_words. Qed.

Lemma decode_sync_words pool hint r0 r1 : in_u 112 r0 -> in_u 112 r1 ->
  decode_sync (words [r0; r1]) pool hint = Ok (ReserveUpdate pool (default UniswapV2 hint) r0 r1).
Proof.
  intros H0 H1. unfold decode_sync. rewrite words_long by (simpl; lia).
  rewrite (slice_word_at [r0; r1] 0 0 32 r0), (slice_word_at [r0; r1] 1 32 64 r1) by done.
  cbn [mbind outcome_bind]. by rewrite !be_word by (range; lia).
Qed.

Lemma decode_swap_v2_words pool t0 sender to a b c d :
  in_u 160 sender -> in_u 160 to -> Forall (in_u 256) [a; b; c; d] ->
  decode_swap_v2 [t0; sender; to] (words [a; b; c; d]) pool = Ok (V2Swap pool sender to a b c d).
Proof.
  intros Hs Ht Hall. rewrite !Forall_cons in Hall. destruct Hall as (Ha & Hb & Hc & Hd & _).
  unfold decode_swap_v2. change (length [t0; sender; to] <? 3)%nat with false.
  rewrite words_long by (simpl; lia).
  rewrite (index_Some [t0; sender; to] 1 sender), (index_Some [t0; sender; to] 2 to) by done.
  rewrite (slice_word_at [a; b; c; d] 0 0 32 a), (slice_word_at [a; b; c; d] 1 32 64 b),
    (slice_word_at [a; b; c; d] 2 64 96 c), (slice_word_at [a; b; c; d] 3 96 128 d) by done.
  cbn [mbind outcome_bind]. by rewrite !be_word, !topic_address_exact.
Qed.

Lemma decode_swap_v3_words topics pool a0 a1 sq lq tk :
  in_u 160 sq -> in_u 128 lq -> in_s 24 tk ->
  decode_swap_v3 topics (words [a0; a1; sq; lq; tk]) pool = Ok (V3Update pool sq lq tk).
Proof.
  intros Hsq Hlq Htk. unfold decode_swap_v3. rewrite words_long by (simpl; lia).
  assert (E2 : slice (words [a0; a1; sq; lq; tk]) 64 96 = Ret (word sq))
    by (by apply (slice_word_at _ 2)).
  assert (E3 : slice (words [a0; a1; sq; lq; tk]) 96 128 = Ret (word lq))
    by (by apply (slice_word_at _ 3)).
  assert (E4 : slice (words [a0; a1; sq; lq; tk]) 128 160 = Ret (word tk))
    by (by apply (slice_word_at _ 4)).
  assert (Esq : be (word sq) = sq) by (apply be_word; range; lia).
  assert (Elq : be (word lq) = lq) by (apply be_word; range; lia).
  assert (Etk : tick_of_word (word tk) = Ret tk)
    by (apply tick_round_trip; unfold in_s in Htk; simpl in Htk; lia).
  revert E2 E3 E4 Esq Elq Etk. generalize (words [a0; a1; sq; lq; tk]).
  generalize (word sq), (word lq), (word tk). intros wsq wlq wtk d E2 E3 E4 Esq Elq Etk.
  rewrite E2, E3, E4. cbn [mbind outcome_bind]. rewrite Esq, Elq.
  unfold u256_to_u128. rewrite (proj2 (in_ub_spec 128 lq)) by done. cbn [mbind outcome_bind].
  by rewrite Etk.
Qed.

Lemma decode_pair_created_words t0 token0 token1 p n :
  in_u 160 token0 -> in_u 160 token1 -> in_u 160 p ->
  decode_pair_created [t0; token0; token1] (words [p; n]) = Ok (PoolCreated token0 token1 p).
Proof.
  intros H0 H1 Hp. unfold decode_pair_created.
  change (length [t0; token0; token1] <? 3)%nat with false. rewrite words_long by (simpl; lia).
  rewrite (index_Some [t0; token0; token1] 1 token0), (index_Some [t0; token0; token1] 2 token1)
    by done.
  destruct (slice_address p [n] Hp) as (l & -> & Hl). cbn [mbind outcome_bind].
  by rewrite Hl, !topic_address_exact.
Qed.

(** C18. Decoding inverts encoding: every well-formed Sync, V2 Swap, V3 Swap
    and PairCreated log decodes to the event the contract emitted, with the
    signed 24-bit tick, the 160-bit addresses and the reserves intact. *)
Theorem decode_log_round_trip pool hint topics data ev :
  emitted pool hint topics data ev -> decode_log topics data pool hint = Ok ev.
Proof.
  destruct topics_distinct as (D1 & D2 & D3 & D4 & D5 & D6 & D7).
  intros [r0 r1 H0 H1|sender to a b c d Hs Ht Hall|s r a0 a1 sq lq tk Hsq Hlq Htk|t0 t1 p n H0 H1 Hp];
    unfold decode_log; rewrite ?(proj2 (Z.eqb_neq _ _) D1), ?(proj2 (Z.eqb_neq _ _) D2),
      ?(proj2 (Z.eqb_neq _ _) D3), ?(proj2 (Z.eqb_neq _ _) D4), ?(proj2 (Z.eqb_neq _ _) D5),
      ?(proj2 (Z.eqb_neq _ _) D6), ?(proj2 (Z.eqb_neq _ _) D7), Z.eqb_refl.
  - by apply decode_sync_words.
  - by apply decode_swap_v2_words.
  - by apply decode_swap_v3_words.
  - by apply decode_pair_created_words.
Qed.

Lemma tick_of_word_returns w : length w = 32%nat -> returns (tick_of_word w).
Proof. intros H. unfold tick_of_word. rewrite slice_in by lia. by eexists. Qed.

Lemma decode_swap_v3_panics topics data pool : Forall is_byte data ->
  decode_swap_v3 topics data pool = Panic <->
  (160 <= length data)%nat /\ 2 ^ 128 <= be (take 32 (drop 96 data)).
Proof.
  intros Hb. unfold decode_swap_v3. destruct (Nat.ltb_spec (length data) 160) as [Hlt|Hge].
  { split; [done|lia]. }
  rewrite !slice_in by lia. cbn [mbind outcome_bind].
  change (128 - 96)%nat with 32%nat. change (160 - 128)%nat with 32%nat.
  assert (H0 : 0 <= be (take 32 (drop 96 data))) by (by apply be_nonneg, Forall_take, Forall_drop).
  destruct (tick_of_word_returns (take 32 (drop 128 data))) as [tk Htk].
  { rewrite length_take, length_drop. lia. }
  unfold u256_to_u128. destruct (in_ub 128 (be (take 32 (drop 96 data)))) eqn:E;
    cbn [mbind outcome_bind].
  - rewrite Htk. apply in_ub_spec in E. range. split; [done|lia].
  - assert (~ in_u 128 (be (take 32 (drop 96 data)))) by (rewrite <- in_ub_spec; congruence).
    range. split; [lia|done].
Qed.

(** C39. One malformed log aborts the process: [decode_log] panics exactly on
    a V3 Swap log whose liquidity word does not fit 128 bits, through
    [to::<u128>()]; every other log, of any length and with any topics, decodes
    or is rejected with a reason. *)
Theorem decode_log_panics_only topics data source hint :
  Forall is_byte data ->
  decode_log topics data source hint = Panic <->
  head topics = Some swap_v3_topic /\ (160 <= length data)%nat /\
  2 ^ 128 <= be (take 32 (drop 96 data)).
Proof.
  intros Hb. destruct topics_distinct as (D1 & D2 & D3 & D4 & D5 & D6 & D7).
  destruct topics as [|t0 topics]; [split; [done|naive_solver]|]. unfold decode_log. simpl head.
  assert (Hno : forall (P : Prop) (r : DecodeReason),
    ~ (Some t0 = Some swap_v3_topic /\ P) -> (Err r = Panic <-> Some t0 = Some swap_v3_topic /\ P))
    by (intros; split; [done|tauto]).
  destruct (Z.eqb_spec t0 sync_topic) as [->|N1].
  { unfold decode_sync. destruct (Nat.ltb_spec (length data) 64); [apply Hno; naive_solver|].
    rewrite !slice_in by lia. split; [done|naive_solver]. }
  destruct (Z.eqb_spec t0 swap_v2_topic) as [->|N2].
  { unfold decode_swap_v2. set (tps := swap_v2_topic :: topics).
    destruct (Nat.ltb_spec (length tps) 3); [apply Hno; naive_solver|].
    destruct (Nat.ltb_spec (length data) 128); [apply Hno; naive_solver|].
    destruct (index_lt tps 1) as (? & -> & _); [lia|].
    destruct (index_lt tps 2) as (? & -> & _); [lia|].
    rewrite !slice_in by lia. split; [done|naive_solver]. }
  destruct (Z.eqb_spec t0 swap_v3_topic) as [->|N3].
  { rewrite decode_swap_v3_panics by done. naive_solver. }
  destruct (t0 =? token_exchange_topic); [split; [done|naive_solver]|].
  set (tps := t0 :: topics). destruct (t0 =? pair_created_topic).
  { unfold decode_pair_created.
    destruct (Nat.ltb_spec (length tps) 3); [apply Hno; naive_solver|].
    destruct (Nat.ltb_spec (length data) 64); [apply Hno; naive_solver|].
    destruct (index_lt tps 1) as (? & -> & _); [lia|].
    destruct (index_lt tps 2) as (? & -> & _); [lia|].
    rewrite !slice_in by lia. split; [done|naive_solver]. }
  destruct (t0 =? pool_created_v3_topic); [|apply Hno; naive_solver].
  unfold decode_pool_created_v3.
  destruct (Nat.ltb_spec (length tps) 4); [apply Hno; naive_solver|].
  destruct (Nat.ltb_spec (length data) 64); [apply Hno; naive_solver|].
  destruct (index_lt tps 1) as (? & -> & _); [lia|].
  destruct (index_lt tps 2) as (? & -> & _); [lia|].
  rewrite !slice_in by lia. split; [done|naive_solver].
Qed.

(** *** Types of the decoded fields *)

(** Addresses are 20 bytes, amounts and prices 256-bit words, liquidity 128
    bits, and a tick a signed 24-bit integer. *)
Definition typed (ev : PoolEvent) : Prop :=
  match ev with
  | ReserveUpdate pool _ r0 r1 => in_u 160 pool /\ Forall (in_u 256) [r0; r1]
  | V2Swap pool sender to a b c d => Forall (in_u 160) [pool; sender; to] /\ Forall (in_u 256) [a; b; c; d]
  | V3Update pool sq lq tk => in_u 160 pool /\ in_u 256 sq /\ in_u 128 lq /\ in_s 24 tk
  | PoolCreated t0 t1 p => Forall (in_u 160) [t0; t1; p]
  end.

Ltac each_elem := repeat first [apply List.Forall_cons | apply List.Forall_nil].

Lemma topic_address_typed t : in_u 160 (topic_address t).
Proof. unfold in_u, topic_address. by apply Z.mod_pos_bound. Qed.

Lemma slice_typed data a b l : Forall is_byte data -> slice data a b = Ret l -> (a <= b)%nat ->
  in_u (8 * Z.of_nat (b - a)) (be l).
Proof.
  intros Hb. unfold slice. destruct (b <=? length data)%nat eqn:Hl; [|done]. intros [= <-] Hab.
  apply Nat.leb_le in Hl. unfold in_u.
  replace (2 ^ (8 * Z.of_nat (b - a))) with (256 ^ Z.of_nat (length (take (b - a) (drop a data)))).
  - apply be_bounds. by apply Forall_take, Forall_drop.
  - rewrite length_take, length_drop. rewrite Z.pow_mul_r by lia. f_equal. lia.
Qed.

(** The sign extension reads only the low 24 bits. *)
Lemma sign_extend_low t t' : t mod 2 ^ 24 = t' mod 2 ^ 24 ->
  (if negb (Z.land t 0x800000 =? 0) then Z.lor t (Z.lnot 0xFFFFFF) else Z.land t 0xFFFFFF)
  = (if negb (Z.land t' 0x800000 =? 0) then Z.lor t' (Z.lnot 0xFFFFFF) else Z.land t' 0xFFFFFF).
Proof.
  intros E. change 0x800000 with (2 ^ 23). change 0xFFFFFF with (Z.ones 24).
  assert (Hb : forall k, 0 <= k < 24 -> Z.testbit t k = Z.testbit t' k).
  { intros k Hk. rewrite <- (Z.mod_pow2_bits_low t 24 k), E, Z.mod_pow2_bits_low by lia. done. }
  assert (Hl : Z.land t (2 ^ 23) = Z.land t' (2 ^ 23)).
  { apply Z.bits_inj'. intros k Hk. rewrite !Z.land_spec.
    destruct (Z.eq_dec k 23) as [->|]; [by rewrite Hb|]. by rewrite Z.pow2_bits_false, !andb_false_r by lia. }
  rewrite Hl, !Z.land_ones, E by lia. destruct (negb _); [|done].
  apply Z.bits_inj'. intros k Hk. rewrite !Z.lor_spec, !Z.lnot_spec by done.
  destruct (Z.lt_ge_cases k 24); [by rewrite Hb|]. by rewrite Z.ones_spec_high, !orb_true_r by lia.
Qed.

Lemma to_signed_range w v : 0 < w -> in_s w (to_signed w v) /\ to_signed w v mod 2 ^ w = v mod 2 ^ w.
Proof.
  intros Hw. unfold to_signed, in_s.
  assert (E : 2 ^ w = 2 * 2 ^ (w - 1)) by (rewrite <- Z.pow_succ_r by lia; f_equal; lia).
  assert (0 < 2 ^ w) by (apply Z.pow_pos_nonneg; lia).
  pose proof (Z.mod_pos_bound v (2 ^ w)) as Hm.
  destruct (Z.ltb_spec (v mod 2 ^ w) (2 ^ (w - 1))); (split; [lia|]); [by apply Z.mod_mod; lia|].
  replace (v mod 2 ^ w - 2 ^ w) with (v mod 2 ^ w + (-1) * 2 ^ w) by lia.
  rewrite Z.mod_add by lia. apply Z.mod_mod. lia.
Qed.

Lemma tick_typed w tk : tick_of_word w = Ret tk -> in_s 24 tk.
Proof.
  unfold tick_of_word. destruct (slice w 28 32) as [low|]; cbn [mbind outcome_bind]; [|done].
  generalize (to_signed 32 (be low)). intros t [= <-].
  destruct (to_signed_range 24 t) as [Hr Hm]; [lia|].
  rewrite (sign_extend_low t (to_signed 24 t)) by done. by rewrite sign_extend_24.
Qed.

Lemma index_typed topics i t : Forall (in_u 256) topics -> index topics i = Ret t -> in_u 256 t.
Proof. intros H Hi. apply index_Ret in Hi. by eapply Forall_lookup_1. Qed.

Lemma decode_swap_v2_typed topics data pool ev : in_u 160 pool -> Forall is_byte data ->
  decode_swap_v2 topics data pool = Ok ev -> typed ev.
Proof.
  intros Hp Hb. unfold decode_swap_v2. destruct (length topics <? 3)%nat; [done|].
  destruct (length data <? 128)%nat; [done|].
  destruct (index topics 1) as [t1|]; [|done]. destruct (index topics 2) as [t2|]; [|done].
  destruct (slice data 0 32) as [w0|] eqn:E0; [|done]. destruct (slice data 32 64) as [w1|] eqn:E1; [|done].
  destruct (slice data 64 96) as [w2|] eqn:E2; [|done]. destruct (slice data 96 128) as [w3|] eqn:E3; [|done].
  intros [= <-]. apply slice_typed in E0, E1, E2, E3; [|done || lia..].
  split; each_elem; first [done | apply topic_address_typed].
Qed.

Lemma decode_swap_v3_typed topics data pool ev : in_u 160 pool -> Forall is_byte data ->
  decode_swap_v3 topics data pool = Ok ev -> typed ev.
Proof.
  intros Hp Hb. unfold decode_swap_v3. destruct (length data <? 160)%nat; [done|].
  destruct (slice data 64 96) as [w2|] eqn:E2; [|done]. destruct (slice data 96 128) as [w3|]; [|done].
  cbn [mbind outcome_bind]. unfold u256_to_u128. destruct (in_ub 128 (be w3)) eqn:E3; [|done].
  destruct (slice data 128 160) as [w4|]; [|done]. cbn [mbind outcome_bind].
  destruct (tick_of_word w4) as [tk|] eqn:E4; [|done]. intros [= <-].
  apply slice_typed in E2; [|done || lia..]. apply in_ub_spec in E3. apply tick_typed in E4.
  exact (conj Hp (conj E2 (conj E3 E4))).
Qed.

Lemma created_typed topics data a ev : Forall is_byte data ->
  (t1 ← index topics 1; t2 ← index topics 2; p ← slice data a (a + 20);
   Ok (PoolCreated (topic_address t1) (topic_address t2) (be p))) = Ok ev -> typed ev.
Proof.
  intros Hb. destruct (index topics 1) as [t1|]; [|done]. destruct (index topics 2) as [t2|]; [|done].
  destruct (slice data a (a + 20)) as [p|] eqn:E; [|done]. intros [= <-].
  apply slice_typed in E; [|done || lia..]. replace (a + 20 - a)%nat with 20%nat in E by lia.
  each_elem; first [done | apply topic_address_typed].
Qed.


(** The V3 factory decoder reads the wrong bytes: the pool address is the
    low 20 bytes of the second data word ([data[44..64]]), but the decoder
    takes the high 20 bytes of it ([data[32..52]]), so the address it reports
    is the real one shifted right by 96 bits. *)
Theorem pool_created_v3_truncates token0 token1 fee spacing pool :
  in_u 160 token0 -> in_u 160 token1 -> in_u 160 pool ->
  decode_pool_created_v3 [pool_created_v3_topic; token0; token1; fee] (words [spacing; pool])
  = Ok (PoolCreated token0 token1 (pool / 2 ^ 96)).
Proof.
  intros H0 H1 Hp. unfold decode_pool_created_v3.
  set (topics := [pool_created_v3_topic; token0; token1; fee]).
  change (length topics <? 4)%nat with false. rewrite words_long by (simpl; lia).
  rewrite (index_Some topics 1 token0), (index_Some topics 2 token1) by done.
  rewrite slice_in by (rewrite length_words; simpl; lia). cbn [mbind outcome_bind].
  rewrite !words_cons, drop_app_ge, length_word by (rewrite length_word; lia).
  change (32 - 32)%nat with 0%nat. change (52 - 32)%nat with 20%nat. rewrite drop_0.
  rewrite take_app_le by (rewrite length_word; lia). unfold word at 1.
  rewrite take_to_be, be_to_be by lia. change (256 ^ Z.of_nat (32 - 20)) with (2 ^ 96).
  change (256 ^ Z.of_nat 20) with (2 ^ 160). rewrite !topic_address_exact by done.
  assert (0 <= pool / 2 ^ 96 <= pool) by (apply div_le_self; range; lia).
  range. rewrite (Z.mod_small pool) by lia. by rewrite Z.mod_small by lia.
Qed.
End Decode.

(** ** Concrete signatures *)

(** Stand-ins for the hashes; only their distinctness is used. *)
Definition sample_signatures : EventSignatures :=
  {| sync_topic := 1; swap_v2_topic := 2; swap_v3_topic := 3; token_exchange_topic := 4;
     pair_created_topic := 5; pool_created_v3_topic := 6; plain_pool_deployed_topic := 7;
     pool_registered_v3_topic := 8 |}.

Lemma sample_distinct : DistinctSignatures (H:=sample_signatures).
Proof. split. simpl. apply (bool_decide_unpack _). vm_compute. exact I. Qed.

Lemma decode_log_round_trip_witness :
  decode_log (S:=sample_signatures) [3; 77; 88]
    (words [-500; 600; 2 ^ 96; 10 ^ 18; -887272]) 42 None
  = Ok (V3Update 42 (2 ^ 96) (10 ^ 18) (-887272)).
Proof.
  apply (decode_log_round_trip (S:=sample_signatures) (HD:=sample_distinct)).
  apply (em_swap_v3 (S:=sample_signatures)); vm_compute; split; congruence.
Defined.


Lemma decode_log_panics_only_witness :
  decode_log (S:=sample_signatures) [3] (words [0; 0; 0; 2 ^ 128; 0]) 42 None = Panic.
Proof.
  apply (decode_log_panics_only (S:=sample_signatures) (HD:=sample_distinct)).
  - vm_compute. repeat constructor; congruence.
  - repeat split; [simpl; lia|vm_compute; congruence].
Defined.

Lemma pool_created_v3_truncates_witness :
  decode_pool_created_v3 [6; addresses.USDC; addresses.WETH; 500]
    (words [10; 0x88e6A0c2dDD26FEEb64F039a2c41296FcB3f5640])
  = Ok (PoolCreated addresses.USDC addresses.WETH
          (0x88e6A0c2dDD26FEEb64F039a2c41296FcB3f5640 / 2 ^ 96)).
Proof.
  apply (pool_created_v3_truncates (S:=sample_signatures)); vm_compute; split; congruence.
Defined.
