(* ===== verification/NodePool.v ===== *)
(** * The node pool

    [crates/ingestion/src/node_pool.rs]: the health state machine of a node
    connection, the choice of the best healthy node, and the reconnection
    backoff. Durations are milliseconds. Logging and the clock reading kept in
    [last_health_check] are left out; the asynchronous read locks are taken one
    node at a time, so [best_node] and [healthy_count] run over the states they
    read, in order. *)

From Stdlib Require Import ZArith Lia String.
From S2P Require Import Prelude.
From S2P Require Import Machine.
From S2P Require Import Types.
From stdpp Require Import base option numbers strings list.

Local Open Scope Z_scope.

Inductive NodeType : Type := WebSocket | Ipc | Http.

Record NodeConfig : Type := mkNodeConfig {
  name : string;
  url : string;
  node_type : NodeType;
  priority : Z;
  max_retries : Z;
  health_check_interval : Z;
}.

Record NodeConnection : Type := mkNode {
  config : NodeConfig;
  state : NodeState;
  consecutive_failures : Z;
  last_block_seen : Z;
  latency_ms : Z;
}.

Definition node_new (c : NodeConfig) : NodeConnection := mkNode c Connected 0 0 0.

Definition transition (n : NodeConnection) (s : NodeState) : NodeConnection :=
  mkNode (config n) s (consecutive_failures n) (last_block_seen n) (latency_ms n).

Definition record_success (n : NodeConnection) (latency block : Z) : NodeConnection :=
  let n := mkNode (config n) (state n) 0 block latency in
  if decide (state n = Healthy) then n else transition n Healthy.

Definition is_healthy (n : NodeConnection) : bool :=
  match state n with Healthy | Connected => true | _ => false end.

Section NodePool.
Context `{B : Build}.

Definition record_failure (n : NodeConnection) : outcome NodeConnection :=
  failures ← u32_add (consecutive_failures n) 1;
  let n := mkNode (config n) (state n) failures (last_block_seen n) (latency_ms n) in
  Ret (if max_retries (config n) <=? failures then transition n Failed
       else if 2 <=? failures then transition n Degraded
       else n).

Record NodePool : Type := mkPool {
  nodes : list NodeConnection;
  min_healthy_nodes : nat;
  reconnect_backoff_base : Z;
  reconnect_backoff_max : Z;
}.

Definition pool_new (configs : list NodeConfig) (min_healthy_nodes : nat) : NodePool :=
  mkPool (node_new <$> configs) min_healthy_nodes 100 30000.

(** The index of the node, in place of the shared pointer to it. *)
Fixpoint best_node_from (i : nat) (ns : list NodeConnection) (best : option (Z * nat))
    : option (Z * nat) :=
  match ns with
  | [] => best
  | n :: ns =>
      let best' :=
        if is_healthy n then
          match best with
          | None => Some (priority (config n), i)
          | Some (p, _) => if priority (config n) <? p then Some (priority (config n), i) else best
          end
        else best in
      best_node_from (S i) ns best'
  end.

Definition best_node (p : NodePool) : option nat := snd <$> best_node_from 0 (nodes p) None.
Definition healthy_count (p : NodePool) : nat := length (filter (fun n => is_healthy n = true) (nodes p)).
Definition is_operational (p : NodePool) : bool := (min_healthy_nodes p <=? healthy_count p)%nat.

(** [2u32.saturating_pow(attempt)] scales a [Duration], which panics on
    overflow of its 64-bit seconds. *)
Definition backoff_delay (p : NodePool) (attempt : Z) : outcome Z :=
  let factor := saturate 32 (2 ^ attempt) in
  let delay := reconnect_backoff_base p * factor in
  if delay / 1000 <? 2 ^ 64 then Ret (Z.min delay (reconnect_backoff_max p)) else Panic.

(** ** Health *)

Inductive event : Type := Success (latency block : Z) | Failure.

Definition apply_event (n : NodeConnection) (e : event) : outcome NodeConnection :=
  match e with
  | Success l b => Ret (record_success n l b)
  | Failure => record_failure n
  end.

Fixpoint apply_events (n : NodeConnection) (es : list event) : outcome NodeConnection :=
  match es with
  | [] => Ret n
  | e :: es => n' ← apply_event n e; apply_events n' es
  end.

(** The failures since the last success, and whether there was one. *)
Fixpoint trailing_failures (k : Z) (es : list event) : Z :=
  match es with
  | [] => k
  | Success _ _ :: es => trailing_failures 0 es
  | Failure :: es => trailing_failures (k + 1) es
  end.
Definition succeeded (es : list event) : bool :=
  existsb (fun e => match e with Success _ _ => true | Failure => false end) es.

(** The state the counters call for. *)
Definition expected_state (c : NodeConfig) (seen : bool) (k : Z) : NodeState :=
  if (0 <? k) && (max_retries c <=? k) then Failed
  else if 2 <=? k then Degraded
  else if seen then Healthy else Connected.

Lemma trailing_failures_nonneg es : forall k, 0 <= k ->
  0 <= trailing_failures k es <= k + Z.of_nat (length es).
Proof.
  induction es as [|[l b|] es IH]; intros k Hk; simpl trailing_failures.
  - simpl. lia.
  - specialize (IH 0 ltac:(lia)). simpl length. lia.
  - specialize (IH (k + 1) ltac:(lia)). simpl length. lia.
Qed.

Lemma apply_events_spec es : forall n seen k,
  consecutive_failures n = k -> 0 <= k -> k + Z.of_nat (length es) < 2 ^ 32 ->
  state n = expected_state (config n) seen k ->
  exists n', apply_events n es = Ret n' /\ config n' = config n /\
    consecutive_failures n' = trailing_failures k es /\
    state n' = expected_state (config n) (seen || succeeded es) (trailing_failures k es).
Proof.
  induction es as [|e es IH]; intros n seen k Hk Hk0 Hb Hs; cbn [apply_events trailing_failures].
  { exists n. rewrite orb_false_r. auto. }
  simpl length in Hb. destruct e as [l b|].
  - cbn [apply_event mbind outcome_bind]. set (n1 := record_success n l b).
    assert (H1 : config n1 = config n /\ consecutive_failures n1 = 0 /\ state n1 = Healthy).
    { unfold n1, record_success. simpl. by case_decide. }
    destruct H1 as (Hc1 & Hk1 & Hs1).
    destruct (IH n1 true 0 Hk1 ltac:(lia) ltac:(lia)) as (n' & -> & Hc & Hf & Hst).
    { rewrite Hs1. done. }
    exists n'. rewrite Hc, Hst, Hc1. simpl succeeded. by rewrite orb_true_r.
  - cbn [apply_event]. unfold record_failure, u32_add.
    rewrite arith_exact by (range; lia). cbn [mbind outcome_bind]. rewrite Hk.
    match goal with |- context [apply_events ?x es] => set (n1 := x) end.
    assert (H1 : config n1 = config n /\ consecutive_failures n1 = k + 1 /\
      state n1 = expected_state (config n) seen (k + 1)).
    { unfold n1, expected_state. simpl config. rewrite (proj2 (Z.ltb_lt 0 (k + 1))) by lia.
      cbn [andb]. destruct (max_retries (config n) <=? k + 1) eqn:E1; [done|].
      destruct (Z.leb_spec 2 (k + 1)); [done|]. simpl. rewrite Hs. unfold expected_state.
      by replace k with 0 by lia. }
    destruct H1 as (Hc1 & Hk1 & Hs1).
    destruct (IH n1 seen (k + 1) Hk1 ltac:(lia) ltac:(lia)) as (n' & -> & Hc & Hf & Hst).
    { by rewrite Hc1. }
    exists n'. by rewrite Hc, Hst, Hc1.
Qed.

(** The health state is a function of the recent history: after any
    sequence of successes and failures a node is failed once the failures since
    the last success reach [max_retries], degraded from the second failure on,
    and otherwise healthy, or still merely connected if it never succeeded; the
    counter is exactly the number of trailing failures. *)
Theorem node_health_by_history c es :
  Z.of_nat (length es) < 2 ^ 32 ->
  exists n, apply_events (node_new c) es = Ret n /\
    consecutive_failures n = trailing_failures 0 es /\
    state n = expected_state c (succeeded es) (trailing_failures 0 es).
Proof.
  intros Hl. destruct (apply_events_spec es (node_new c) false 0) as (n & Hn & _ & Hf & Hs);
    [done|lia|lia|done|]. eauto.
Qed.

(** ** Selection *)

(** [n] is the chosen node, at index [i], among those before [k]. *)
Definition chosen (ns : list NodeConnection) (k : nat) (best : option (Z * nat)) : Prop :=
  match best with
  | None => forall j n, (j < k)%nat -> ns !! j = Some n -> is_healthy n = false
  | Some (p, i) => (i < k)%nat /\
      (exists n, ns !! i = Some n /\ is_healthy n = true /\ priority (config n) = p) /\
      forall j m, (j < k)%nat -> ns !! j = Some m -> is_healthy m = true ->
        p < priority (config m) \/ (p = priority (config m) /\ (i <= j)%nat)
  end.

Lemma best_node_from_spec all : forall ns k best,
  drop k all = ns -> chosen all k best -> (k <= length all)%nat ->
  chosen all (length all) (best_node_from k ns best).
Proof.
  induction ns as [|n ns IH]; intros k best Hd Hc Hk; simpl.
  - assert (k = length all) as ->; [|done].
    apply (f_equal length) in Hd. rewrite length_drop in Hd. simpl in Hd. lia.
  - assert (Hn : all !! k = Some n).
    { rewrite <- (Nat.add_0_r k), <- lookup_drop, Hd. done. }
    pose proof (lookup_lt_Some _ _ _ Hn) as Hlt. apply IH; [|clear IH|lia].
    { replace (S k) with (k + 1)%nat by lia. by rewrite <- drop_drop, Hd. }
    assert (Hj : forall j, (j < S k)%nat -> (j < k)%nat \/ j = k) by lia.
    destruct (is_healthy n) eqn:Eh; [destruct best as [[p i]|]; [destruct (Z.ltb_spec (priority (config n)) p)|]|].
    + destruct Hc as (Hi & _ & Hmin). split; [lia|]. split; [eauto|].
      intros j m Hjk Hm Hh. destruct (Hj j Hjk) as [Hj'| ->].
      * destruct (Hmin j m Hj' Hm Hh) as [|[]]; left; lia.
      * right. split; [congruence|lia].
    + destruct Hc as (Hi & Hex & Hmin). split; [lia|]. split; [done|].
      intros j m Hjk Hm Hh. destruct (Hj j Hjk) as [Hj'| ->]; [by apply Hmin|].
      assert (m = n) as -> by congruence. destruct (Z.eq_dec p (priority (config n))); [right|left]; lia.
    + split; [lia|]. split; [eauto|]. intros j m Hjk Hm Hh. destruct (Hj j Hjk) as [Hj'| ->].
      * rewrite (Hc j m Hj' Hm) in Hh. done.
      * right. split; [congruence|lia].
    + destruct best as [[p i]|].
      * destruct Hc as (Hi & Hex & Hmin). split; [lia|]. split; [done|].
        intros j m Hjk Hm Hh. destruct (Hj j Hjk) as [Hj'| ->]; [by apply Hmin|].
        assert (m = n) as -> by congruence. congruence.
      * intros j m Hjk Hm. destruct (Hj j Hjk) as [Hj'| ->]; [by eapply Hc|congruence].
Qed.

(** [best_node] returns a node exactly when some node is healthy, and then
    the healthy node with the smallest priority number, the earliest among
    equals. *)
Theorem best_node_optimal p :
  match best_node p with
  | None => healthy_count p = 0%nat
  | Some i => exists n, nodes p !! i = Some n /\ is_healthy n = true /\
      forall j m, nodes p !! j = Some m -> is_healthy m = true ->
        priority (config n) < priority (config m) \/
        (priority (config n) = priority (config m) /\ (i <= j)%nat)
  end.
Proof.
  pose proof (best_node_from_spec (nodes p) (nodes p) 0 None eq_refl) as H.
  unfold best_node, healthy_count.
  destruct (best_node_from 0 (nodes p) None) as [[pr i]|]; simpl.
  - destruct H as (_ & (n & Hn & Hh & <-) & Hmin); [intros ? ? ?; lia|lia|].
    exists n. split; [done|]. split; [done|]. intros j m Hm Hhm.
    apply Hmin; [by eapply lookup_lt_Some|done|done].
  - specialize (H ltac:(intros ? ? ?; lia) ltac:(lia)). simpl in H.
    apply length_zero_iff_nil. destruct (filter _ _) as [|n l] eqn:E; [done|]. exfalso.
    assert (Hin : n ∈ filter (fun n => is_healthy n = true) (nodes p)) by (rewrite E; by left).
    apply list_elem_of_filter in Hin as [Hh [j Hj]%list_elem_of_lookup].
    rewrite (H j n) in Hh; [done|by eapply lookup_lt_Some|done].
Qed.

(** Reconnection backs off exponentially up to a ceiling: with the pool's
    own settings the delay never panics, doubles from 100 ms on every attempt
    until it reaches 30 s, and stays there for every later attempt. *)
Theorem backoff_exponential configs min_healthy attempt :
  0 <= attempt ->
  backoff_delay (pool_new configs min_healthy) attempt = Ret (Z.min (100 * 2 ^ attempt) 30000).
Proof.
  intros Ha. unfold backoff_delay. simpl.
  assert (Hf : 0 <= saturate 32 (2 ^ attempt) < 2 ^ 32) by (apply saturate_range; lia).
  assert (Hd : 100 * saturate 32 (2 ^ attempt) / 1000 < 2 ^ 64)
    by (apply Z.div_lt_upper_bound; range; lia).
  rewrite (proj2 (Z.ltb_lt _ _) Hd). f_equal.
  pose proof (Z.pow_pos_nonneg 2 attempt ltac:(lia) Ha). unfold saturate. range. lia.
Qed.
End NodePool.

Definition ws_node : NodeConfig := mkNodeConfig "main" "wss://node" WebSocket 1 3 30000.

Lemma node_health_by_history_witness :
  exists n, apply_events (B:=debug) (node_new ws_node)
      [Failure; Success 12 100; Failure; Failure; Failure] = Ret n /\
    consecutive_failures n
      = trailing_failures 0 [Failure; Success 12 100; Failure; Failure; Failure] /\
    state n = expected_state ws_node
      (succeeded [Failure; Success 12 100; Failure; Failure; Failure])
      (trailing_failures 0 [Failure; Success 12 100; Failure; Failure; Failure]).
Proof.
  apply (node_health_by_history (B:=debug) ws_node
           [Failure; Success 12 100; Failure; Failure; Failure]). reflexivity.
Defined.

Lemma backoff_exponential_witness :
  backoff_delay (pool_new [ws_node] 1) 5 = Ret (Z.min (100 * 2 ^ 5) 30000).
Proof. apply (backoff_exponential [ws_node] 1 5). lia. Defined.
