(* ===== verification/FirstSeen.v ===== *)
(** * First-seen to inclusion tracking

    [crates/grpc-server/src/first_seen_tracker.rs]: the bounded map from
    transaction hash to first-seen time, its eviction log, and the block-side
    matching. The lock makes each operation atomic; the metric increments and
    the histogram observations are the operation's output. *)

From Stdlib Require Import ZArith Lia String.
From S2P Require Import Prelude.
From S2P Require Import Machine.
From S2P Require Import F64.
From stdpp Require Import base option numbers strings gmap sets list.

Local Open Scope Z_scope.

Definition DEFAULT_CAPACITY : nat := Z.to_nat 50000.

Module FirstSeen.

Record tracker : Type := mk {
  capacity : nat;
  seen : gmap Z Z;
  order : list Z;
}.

Definition with_capacity (capacity : nat) : tracker := mk (Nat.max capacity 1) ∅ [].

(** What an operation reports: an event counter, or a delta observed on the
    inclusion histogram. *)
Inductive metric : Type := Event (label : string) | Observe (delta_ms : f64).

(** The eviction loop; the log shrinks on every round. *)
Fixpoint evict (capacity : nat) (seen : gmap Z Z) (order : list Z)
    : gmap Z Z * list Z * list metric :=
  match order with
  | old :: rest =>
      if (capacity <=? length order)%nat then
        let '(seen', order', ms) := evict capacity (delete old seen) rest in
        (seen', order', Event "evicted_capacity" :: ms)
      else (seen, order, [])
  | [] => (seen, [], [])
  end.

Definition record (t : tracker) (hash first_seen_unix_nanos : Z) : tracker * list metric :=
  if first_seen_unix_nanos =? 0 then (t, [Event "unstamped"])
  else if bool_decide (is_Some (seen t !! hash)) then (t, [])
  else
    let '(seen', order', ms) := evict (capacity t) (seen t) (order t) in
    (mk (capacity t) (<[hash := first_seen_unix_nanos]> seen') (order' ++ [hash]),
     ms ++ [Event "recorded"]).

Definition delta_ms (now first_seen : Z) : f64 :=
  f64_div (f64_of_Z (u64_saturating_sub now first_seen)) (f64_of_Z 1000000).

Fixpoint observe_hashes (now : Z) (seen : gmap Z Z) (hashes : list Z) : gmap Z Z * list metric :=
  match hashes with
  | [] => (seen, [])
  | h :: hashes =>
      match seen !! h with
      | Some first_seen =>
          let '(seen', ms) := observe_hashes now (delete h seen) hashes in
          (seen', [Observe (delta_ms now first_seen); Event "matched"] ++ ms)
      | None =>
          let '(seen', ms) := observe_hashes now seen hashes in
          (seen', Event "unmatched" :: ms)
      end
  end.

Definition observe_block (t : tracker) (block_tx_hashes : list Z) (now_unix_nanos : Z)
    : tracker * list metric :=
  match block_tx_hashes with
  | [] => (t, [])
  | _ =>
      let '(seen', ms) := observe_hashes now_unix_nanos (seen t) block_tx_hashes in
      (mk (capacity t) seen' (order t), ms)
  end.

(** ** The bound *)

Record inv (t : tracker) : Prop := {
  inv_capacity : (1 <= capacity t)%nat;
  inv_order : (length (order t) <= capacity t)%nat;
  inv_logged : forall h, is_Some (seen t !! h) -> h ∈ order t;
}.

Inductive step (t : tracker) : tracker -> Prop :=
| step_record h ts : step t (record t h ts).1
| step_block hs now : step t (observe_block t hs now).1.

(** Entries are only removed, and the log keeps a suffix shorter than the
    capacity that still covers them. *)
Lemma evict_spec cap order : forall seen, (1 <= cap)%nat ->
  (forall h, is_Some (seen !! h) -> h ∈ order) ->
  let '(seen', order', _) := evict cap seen order in
  (length order' < cap)%nat /\ (forall h, is_Some (seen' !! h) -> h ∈ order').
Proof.
  induction order as [|old rest IH]; intros seen Hc Hl; simpl; [split; [lia|done]|].
  destruct (Nat.leb_spec cap (S (length rest))) as [Hge|Hlt].
  - specialize (IH (delete old seen) Hc). destruct (evict cap (delete old seen) rest) as [[s o] ms].
    apply IH. intros h Hh. destruct (decide (h = old)) as [->|Hne].
    + rewrite lookup_delete_eq in Hh. by destruct Hh.
    + rewrite lookup_delete_ne in Hh by done. apply Hl in Hh. set_solver.
  - split; [simpl; lia|done].
Qed.

Lemma observe_hashes_subset now hs : forall seen h,
  is_Some ((observe_hashes now seen hs).1 !! h) -> is_Some (seen !! h) /\ h ∉ hs.
Proof.
  induction hs as [|x hs IH]; intros seen h; simpl; [intros; split; [done|set_solver]|].
  destruct (seen !! x) as [fs|] eqn:E.
  - specialize (IH (delete x seen) h). destruct (observe_hashes now (delete x seen) hs) as [s ms].
    simpl in *. intros H. destruct (IH H) as [Hd Hn]. destruct (decide (h = x)) as [->|Hne].
    + rewrite lookup_delete_eq in Hd. by destruct Hd.
    + rewrite lookup_delete_ne in Hd by done. set_solver.
  - specialize (IH seen h). destruct (observe_hashes now seen hs) as [s ms]. simpl in *.
    intros H. destruct (IH H) as [Hd Hn]. split; [done|]. intros [->|Hin]%elem_of_cons; [|done].
    rewrite E in Hd. by destruct Hd.
Qed.

Lemma inv_record t h ts : inv t -> inv (record t h ts).1.
Proof.
  intros [Hc Ho Hl]. unfold record. destruct (ts =? 0); [done|].
  case_bool_decide; [done|].
  pose proof (evict_spec (capacity t) (order t) (seen t) Hc Hl) as He.
  destruct (evict (capacity t) (seen t) (order t)) as [[s o] ms]. destruct He as [Hlen Hlog].
  split; simpl; [done|rewrite length_app; simpl; lia|].
  intros h' [->|[_ Hh']]%lookup_insert_is_Some; set_solver.
Qed.

Lemma inv_block t hs now : inv t -> inv (observe_block t hs now).1.
Proof.
  intros [Hc Ho Hl]. unfold observe_block. destruct hs as [|x hs]; [done|].
  pose proof (observe_hashes_subset now (x :: hs) (seen t)) as Hsub.
  destruct (observe_hashes now (seen t) (x :: hs)) as [s ms].
  split; simpl; [done|done|]. intros h Hh. apply Hl. by apply Hsub.
Qed.

Lemma tracker_inv_reachable cap t : rtc step (with_capacity cap) t -> inv t.
Proof.
  intros H. assert (Hg : forall t0, inv t0 -> rtc step t0 t -> inv t).
  { clear H. intros t0 Hi H. induction H as [|t1 t2 t3 Hs _ IH]; [done|]. apply IH.
    destruct Hs; auto using inv_record, inv_block. }
  apply (Hg (with_capacity cap)); [|done]. split; simpl; [lia|lia|].
  intros h Hh. rewrite lookup_empty in Hh. by destruct Hh.
Qed.

Lemma list_to_set_size_le (l : list Z) : (size (list_to_set l : gset Z) <= length l)%nat.
Proof.
  induction l as [|x l IH]; [done|]. rewrite list_to_set_cons. simpl length.
  rewrite size_union_alt, size_singleton.
  assert (size (list_to_set l ∖ {[x]} : gset Z) <= size (list_to_set l : gset Z))%nat
    by (apply subseteq_size; set_solver). lia.
Qed.

(** The tracker is bounded: after any sequence of pending transactions
    and blocks it tracks at most [max capacity 1] hashes, every tracked hash is
    in the eviction log, and the log itself is no longer than the capacity. *)
Theorem first_seen_bounded cap t :
  rtc step (with_capacity cap) t ->
  (size (seen t) <= length (order t) <= capacity t)%nat /\
  forall h, is_Some (seen t !! h) -> h ∈ order t.
Proof.
  intros H. apply tracker_inv_reachable in H as [Hc Ho Hl]. split; [|done]. split; [|done].
  rewrite <- (size_dom (D:=gset Z)).
  transitivity (size (list_to_set (order t) : gset Z)).
  - apply subseteq_size. intros h Hh. apply elem_of_list_to_set, Hl. by apply elem_of_dom.
  - apply list_to_set_size_le.
Qed.

(** A transaction is matched once, with its earliest stamp: recording a
    tracked hash again changes nothing, the next block that includes it
    observes the delay from the first stamp (zero if the clocks disagree), and
    after that block it is no longer tracked. *)
Theorem first_seen_matched_once t h ts ts' now :
  seen t !! h = Some ts -> ts' <> 0 ->
  record t h ts' = (t, []) /\
  (observe_block t [h] now).2
    = [Observe (f64_div (f64_of_Z (u64_saturating_sub now ts)) (f64_of_Z 1000000));
       Event "matched"] /\
  (observe_block (observe_block t [h] now).1 [h] now).2 = [Event "unmatched"].
Proof.
  intros Hh Hts. split; [|split].
  - unfold record. rewrite (proj2 (Z.eqb_neq ts' 0)) by done. by rewrite bool_decide_true by eauto.
  - unfold observe_block. simpl. by rewrite Hh.
  - unfold observe_block. simpl. rewrite Hh. simpl. by rewrite lookup_delete_eq.
Qed.

(** ** Stale log entries *)

(** A hash recorded, included, and recorded again (a reorganised or
    rebroadcast transaction), in a tracker with room for two. *)
Definition rerecorded : tracker :=
  let t := (record (with_capacity 2) 7 100).1 in
  let t := (observe_block t [7] 200).1 in
  (record t 7 300).1.

(** A stale log entry evicts a live hash. The log keeps the entries of
    matched hashes, so it is longer than the map it is documented to have the
    length of, and a hash that is recorded again after a match is evicted by
    its own old entry although the tracker holds nothing else. *)
Theorem first_seen_stale_eviction :
  seen rerecorded !! 7 = Some 300 /\ size (seen rerecorded) = 1%nat /\
  length (order rerecorded) = 2%nat /\
  let t := (record rerecorded 8 400).1 in
  seen t !! 7 = None /\ (observe_block t [7] 500).2 = [Event "unmatched"].
Proof. vm_compute. auto. Qed.

Lemma first_seen_bounded_witness :
  (size (seen rerecorded) <= length (order rerecorded) <= capacity rerecorded)%nat /\
  forall h, is_Some (seen rerecorded !! h) -> h ∈ order rerecorded.
Proof.
  apply (first_seen_bounded 2 rerecorded).
  eapply rtc_l; [apply (step_record _ 7 100)|]. eapply rtc_l; [apply (step_block _ [7] 200)|].
  apply rtc_once, (step_record _ 7 300).
Defined.

Lemma first_seen_matched_once_witness :
  record rerecorded 7 400 = (rerecorded, []) /\
  (observe_block rerecorded [7] 1000300).2
    = [Observe (f64_div (f64_of_Z (u64_saturating_sub 1000300 300)) (f64_of_Z 1000000));
       Event "matched"] /\
  (observe_block (observe_block rerecorded [7] 1000300).1 [7] 1000300).2 = [Event "unmatched"].
Proof.
  apply (first_seen_matched_once rerecorded 7 300 400 1000300); [vm_compute; reflexivity|lia].
Defined.
End FirstSeen.
