(* ===== verification/CycleGating.v ===== *)
(** * Gating of detected cycles

    [crates/grpc-server/src/cycle_gating.rs]: the three gates a cycle passes
    before simulation, the fingerprint index over a detection pass, the edge
    chosen per hop when a cycle is rebuilt, and the cross-check of the simulated
    profit. Logging is left out; a dropped cycle's metric label is its
    reason's. *)

From Stdlib Require Import ZArith Lia String.
From S2P Require Import Prelude.
From S2P Require Import Machine.
From S2P Require Import F64.
From S2P Require Import Types.
From S2P Require Import PriceGraph.
From S2P Require Import Opportunity.
From S2P Require Import BellmanFord.
From stdpp Require Import base option numbers strings gmap list.

Local Open Scope Z_scope.

Record GatingConfig : Type := mkGating {
  min_reserve_f64 : f64;
  fingerprint_min_cluster : Z;
  fingerprint_quantum : f64;
  profit_factor_impossible : f64;
  profit_factor_suspicious : f64;
  revm_profit_mismatch_threshold : f64;
}.

Definition default_gating : GatingConfig :=
  mkGating (f64_of_Z 1000000) 5 (f64_of_ratio 1 1000000) (f64_of_Z 100) (f64_of_ratio 1 2)
    (f64_of_ratio 1 2).
Definition permissive : GatingConfig :=
  mkGating f64_zero u64_max (f64_of_ratio 1 1000000) f64_infinity f64_infinity f64_infinity.

Inductive GateDropReason : Type :=
| ProfitFactorImpossible | ReservesTooLow | FingerprintCluster | RevmContradicts.

Definition as_label (r : GateDropReason) : string :=
  match r with
  | ProfitFactorImpossible => "profit_factor_impossible"
  | ReservesTooLow => "reserves_too_low"
  | FingerprintCluster => "fingerprint_cluster"
  | RevmContradicts => "revm_contradicts"
  end.

(** The verdict of either side of the simulation. *)
Inductive GateVerdict : Type := Pass | Drop (r : GateDropReason).

Definition fingerprint_bucket (pf quantum : f64) : Z :=
  if negb (is_finite pf) then 2 ^ 63 - 1
  else f64_as_i64 (f64_round (f64_div pf quantum)).

Definition edge_passes_reserve_gate (e : PriceEdge) (c : GatingConfig) : bool :=
  match edge_protocol e with
  | UniswapV3 => f64_gt (reserve_in e) f64_zero
  | _ => f64_ge (reserve_in e) (min_reserve_f64 c)
  end.

(** Some pool between the two vertices has liquidity. *)
Definition hop_passes (g : PriceGraph.t) (c : GatingConfig) (a b : nat) : bool :=
  existsb (fun e => (to e =? b)%nat && edge_passes_reserve_gate e c) (PriceGraph.edges_from g a).

Fixpoint hops_pass (g : PriceGraph.t) (c : GatingConfig) (p : list nat) : bool :=
  match p with
  | a :: (b :: _) as rest => hop_passes g c a b && hops_pass g c rest
  | _ => true
  end.

Definition select_best_edge_for_hop (es : list PriceEdge) (to_idx : nat) : option PriceEdge :=
  min_by (fun a b => f64_cmp (weight a) (weight b))
    (filter (fun e => to e = to_idx /\ filtered e = false) es).

Section Gates.
Context `{M : Libm}.

(** [*counts.entry(bucket).or_insert(0) += 1] for a profitable cycle. *)
Definition count_cycle (c : GatingConfig) (counts : gmap Z Z) (cy : DetectedCycle) : gmap Z Z :=
  if is_profitable cy then
    let b := fingerprint_bucket (profit_factor cy) (fingerprint_quantum c) in
    <[b := default 0 (counts !! b) + 1]> counts
  else counts.

Definition build_fingerprint_index (cs : list DetectedCycle) (c : GatingConfig) : gmap Z Z :=
  foldl (count_cycle c) ∅ cs.

Definition gate_pre_sim (cy : DetectedCycle) (g : PriceGraph.t) (idx : gmap Z Z) (c : GatingConfig)
    : GateVerdict :=
  let pf := profit_factor cy in
  if negb (is_finite pf) || f64_gt pf (profit_factor_impossible c) then Drop ProfitFactorImpossible
  else if negb (hops_pass g c (path cy)) then Drop ReservesTooLow
  else
    let bucket := fingerprint_bucket pf (fingerprint_quantum c) in
    let cluster_size := default 0 (idx !! bucket) in
    if fingerprint_min_cluster c <=? cluster_size then Drop FingerprintCluster
    else Pass.

(** ** What the gates guarantee *)

(** The profitable cycles of a pass that share a bucket. *)
Definition in_cluster (c : GatingConfig) (b : Z) (cy : DetectedCycle) : bool :=
  is_profitable cy && (fingerprint_bucket (profit_factor cy) (fingerprint_quantum c) =? b).
Definition cluster (c : GatingConfig) (b : Z) (cs : list DetectedCycle) : list DetectedCycle :=
  filter (fun cy => in_cluster c b cy = true) cs.

Lemma fingerprint_index_counts c b cs : forall counts,
  default 0 (foldl (count_cycle c) counts cs !! b)
  = default 0 (counts !! b) + Z.of_nat (length (cluster c b cs)).
Proof.
  induction cs as [|cy cs IH]; intros counts; simpl; [lia|].
  unfold cluster in *. rewrite IH, filter_cons. unfold count_cycle. case_decide as Hd.
  - unfold in_cluster in Hd. apply andb_true_iff in Hd as [-> Heq%Z.eqb_eq].
    rewrite Heq, lookup_insert_eq. simpl. lia.
  - destruct (is_profitable cy) eqn:Ep; [|done]. rewrite lookup_insert_ne; [done|].
    intros E. apply Hd. unfold in_cluster. by rewrite Ep, E, Z.eqb_refl.
Qed.

(** Every hop of a path has a live pool. *)
Lemma hops_pass_spec g c p : hops_pass g c p = true ->
  forall i a b, p !! i = Some a -> p !! S i = Some b ->
  exists e, e ∈ PriceGraph.edges_from g a /\ to e = b /\ edge_passes_reserve_gate e c = true.
Proof.
  induction p as [|a p IH]; [done|]. destruct p as [|b p]; [by intros _ [|i]|].
  simpl hops_pass. intros [Hh Hp]%andb_true_iff i x y Hx Hy. destruct i as [|i].
  - simpl in Hx, Hy. simplify_eq. unfold hop_passes in Hh.
    apply existsb_exists in Hh as (e & He & Hm). apply andb_true_iff in Hm as [Ht Hr].
    exists e. split; [by apply list_elem_of_In|]. split; [by apply Nat.eqb_eq|done].
  - by apply (IH Hp i).
Qed.

(** A cycle that reaches the simulator has passed every gate: its profit
    factor is a finite number no greater than the cap, every hop has at least
    one pool with liquidity, and no corruption cluster is let through: if the
    pass found [fingerprint_min_cluster] or more profitable cycles with this
    profit fingerprint, all of them are dropped. *)
Theorem gate_pre_sim_sound cy g cs c :
  gate_pre_sim cy g (build_fingerprint_index cs c) c = Pass ->
  let pf := profit_factor cy in
  is_finite pf = true /\ f64_gt pf (profit_factor_impossible c) = false /\
  (forall i a b, path cy !! i = Some a -> path cy !! S i = Some b ->
     exists e, e ∈ PriceGraph.edges_from g a /\ to e = b /\
       edge_passes_reserve_gate e c = true) /\
  Z.of_nat (length (cluster c (fingerprint_bucket pf (fingerprint_quantum c)) cs))
    < fingerprint_min_cluster c.
Proof.
  unfold gate_pre_sim. intros H.
  destruct (is_finite (profit_factor cy)) eqn:Ef; [|done]. cbn [negb orb] in H.
  destruct (f64_gt (profit_factor cy) (profit_factor_impossible c)) eqn:Ec; [done|].
  destruct (hops_pass g c (path cy)) eqn:Eh; [|done]. cbn [negb] in H.
  unfold build_fingerprint_index in H. rewrite fingerprint_index_counts, lookup_empty in H.
  destruct (Z.leb_spec (fingerprint_min_cluster c)
    (default 0 None + Z.of_nat (length (cluster c (fingerprint_bucket (profit_factor cy)
       (fingerprint_quantum c)) cs)))) as [|Hlt]; [done|].
  simpl. split; [done|]. split; [done|]. split; [by apply hops_pass_spec|].
  simpl in Hlt. lia.
Qed.
End Gates.

(** The edges a cycle is rebuilt with, hop by hop. *)
Fixpoint rebuild (g : PriceGraph.t) (p : list nat) : option (list PriceEdge) :=
  match p with
  | a :: (b :: _) as rest =>
      e ← select_best_edge_for_hop (PriceGraph.edges_from g a) b;
      es ← rebuild g rest;
      Some (e :: es)
  | _ => Some []
  end.

Lemma rebuild_cons g a b p :
  rebuild g (a :: b :: p)
  = (e ← BellmanFord.best_edge g a b; es ← rebuild g (b :: p); Some (e :: es)).
Proof. done. Qed.

Lemma rebuild_path_weight g p : forall w w',
  BellmanFord.path_weight g w p = Some w' ->
  exists es, rebuild g p = Some es /\ w' = foldl f64_add w (weight <$> es).
Proof.
  induction p as [|a p IH]; intros w w' H; [exists []; by injection H as <-|].
  destruct p as [|b p]; [exists []; by injection H as <-|].
  simpl in H. destruct (BellmanFord.best_edge g a b) as [e|] eqn:E; [|done].
  destruct (IH _ _ H) as (es & Hes & Hw). exists (e :: es). split; [|done].
  by rewrite rebuild_cons, E, Hes.
Qed.

Definition gate_post_sim (expected_net_wei actual_profit_wei : Z) (c : GatingConfig)
    : GateVerdict :=
  if negb (is_finite (revm_profit_mismatch_threshold c)) then Pass
  else if expected_net_wei =? 0 then Pass
  else if actual_profit_wei =? 0 then Drop RevmContradicts
  else
    let expected_f := f64_of_Z expected_net_wei in
    let actual_f := f64_of_Z actual_profit_wei in
    let frac_diff := f64_div (f64_abs (f64_sub expected_f actual_f)) (f64_max expected_f actual_f) in
    if f64_gt frac_diff (revm_profit_mismatch_threshold c) then Drop RevmContradicts else Pass.

(** A reported cycle is rebuilt as it was priced: for every cycle the
    detector reports, choosing the best unfiltered edge hop by hop succeeds, and
    the chosen edges add up to exactly the weight the detector reported. *)
Theorem rebuild_matches_detector bf g cy :
  BellmanFord.valid_cycle bf g cy ->
  exists es, rebuild g (path cy) = Some es /\
    total_weight cy = foldl f64_add f64_zero (weight <$> es).
Proof. intros H. apply rebuild_path_weight, H. Qed.

Lemma rebuild_matches_detector_witness :
  exists es, rebuild BellmanFord.triangle [2; 0; 1; 2]%nat = Some es /\
    SpecFloat.S754_finite true 7205759403792794 (-55) = foldl f64_add f64_zero (weight <$> es).
Proof.
  apply (rebuild_matches_detector (BellmanFord.new 4 1000) BellmanFord.triangle
           (mkCycle [2; 0; 1; 2]%nat (SpecFloat.S754_finite true 7205759403792794 (-55)))).
  destruct (BellmanFord.spfa_reported (B:=debug) (BellmanFord.new 4 1000) (fun _ => 0)
    BellmanFord.triangle 10
    (BellmanFord.mkState (replicate 3 f64_zero) (replicate 3 None) (replicate 3 true)
       (replicate 3 0) (seq 0 3) [] (replicate 3 false))
    BellmanFord.triangle_scannable) as (cs & Hcs & Hv & _).
  - split; try done; vm_compute; repeat constructor; try lia; done.
  - vm_compute. lia.
  - vm_compute in Hcs. injection Hcs as <-. by apply Forall_cons in Hv as [? _].
Defined.

(** ** Gate 1 and parallel pools *)

(** A real pool and an unpriced placeholder between the same two tokens: the
    placeholder has the better rate. The exponential is a linear stand-in. *)
Definition gate_libm : Libm :=
  {| f64_ln x := x; f64_exp x := f64_add f64_one x; f64_powi x _ := x; f64_powf x _ := x |}.
Definition real_pool : PoolId := mkPoolId 7 UniswapV2.
Definition dead_pool : PoolId := mkPoolId 8 SushiSwap.
Definition parallel_ops : list PriceGraph.op :=
  [PriceGraph.AddEdge 0 1 f64_one real_pool 7 UniswapV2 1;
   PriceGraph.AddEdge 1 0 f64_one real_pool 7 UniswapV2 1;
   PriceGraph.UpdateReserves 0 1 real_pool (f64_of_Z (10 ^ 18)) (f64_of_Z (10 ^ 15)) f64_one;
   PriceGraph.UpdateReserves 1 0 real_pool (f64_of_Z (10 ^ 18)) (f64_of_Z (10 ^ 15)) f64_one;
   PriceGraph.AddEdge 0 1 f64_one dead_pool 8 SushiSwap 1].
Definition parallel_graph : PriceGraph.t :=
  match PriceGraph.run (M:=gate_libm) (PriceGraph.new 2) parallel_ops with
  | Ret g => g
  | Panic => PriceGraph.new 0
  end.
Definition phantom : DetectedCycle := mkCycle [0; 1; 0]%nat (f64_of_Z (-1)).

(** The liquidity gate does not look at the pool the cycle uses: a cycle
    whose first hop is priced, and will be rebuilt, through a pool with no
    reserves passes all the gates because another pool between the same tokens
    has some, although a zero reserve is documented to be rejected for every
    protocol. *)
Theorem gate_passes_empty_pool :
  gate_pre_sim (M:=gate_libm) phantom parallel_graph
    (build_fingerprint_index (M:=gate_libm) [phantom] default_gating) default_gating = Pass /\
  exists e, select_best_edge_for_hop (PriceGraph.edges_from parallel_graph 0) 1 = Some e /\
    pool_id e = dead_pool /\ reserve_in e = f64_zero /\
    edge_passes_reserve_gate e default_gating = false.
Proof.
  split; [vm_compute; reflexivity|]. eexists. split; [vm_compute; reflexivity|].
  split; [reflexivity|]. split; vm_compute; reflexivity.
Qed.

Lemma gate_pre_sim_sound_witness :
  let pf := profit_factor (M:=gate_libm) phantom in
  is_finite pf = true /\ f64_gt pf (profit_factor_impossible default_gating) = false /\
  (forall i a b, path phantom !! i = Some a -> path phantom !! S i = Some b ->
     exists e, e ∈ PriceGraph.edges_from parallel_graph a /\ to e = b /\
       edge_passes_reserve_gate e default_gating = true) /\
  Z.of_nat (length (cluster (M:=gate_libm) default_gating
      (fingerprint_bucket pf (fingerprint_quantum default_gating)) [phantom]))
    < fingerprint_min_cluster default_gating.
Proof.
  apply (gate_pre_sim_sound (M:=gate_libm) phantom parallel_graph [phantom] default_gating).
  vm_compute. reflexivity.
Defined.
