(* ===== verification/RouterDecoder.v ===== *)
(** * Decoding of pending router calls

    [crates/pools/src/router_decoder.rs]: from the recipient and the calldata
    of a pending transaction to the swaps it will make. Function signatures are
    those of the [sol!] declarations; selectors and the ABI decoder come from
    the alloy crate ([Keccak], [SolAbi]). What the decoder finds in the calldata of a
    call is stated in [RouterSpec]. *)

From Stdlib Require Import ZArith Lia String.
From S2P Require Import Prelude.
From S2P Require Import Machine.
From S2P Require Import Types.
From S2P Require Import Bytes.
From S2P Require Import Keccak.
From S2P Require Import Abi.
From stdpp Require Import base option numbers strings pretty list.

Local Open Scope Z_scope.

Module RouterDecoder.

(** ** Routers and records *)

Definition CURVE_ROUTERS : list Address := [0x99a58482BD75cbab83b27EC03CA68fF489b5788f].
Definition is_unsupported_curve_router (router : Address) : bool :=
  existsb (Z.eqb router) CURVE_ROUTERS.

Inductive Protocol : Type :=
| UniswapV2 | UniswapV3 | SushiSwap | BalancerV2 | Curve | BancorV3 | OneInchV6.

Definition SUSHISWAP_ROUTERS : list Address := [0xd9e1cE17f2641f24aE83637ab66a2cca9C378B9F].
Definition router_to_v2_protocol (router : Address) : Protocol :=
  if existsb (Z.eqb router) SUSHISWAP_ROUTERS then SushiSwap else UniswapV2.

Record DecodedSwap : Type := mkSwap {
  protocol : Protocol;
  router : Address;
  token_in : Address;
  token_out : Address;
  amount_in : Z;
  amount_out_min : Z;
  recipient : Address;
  fee_bps : Z;
  path_extra : list Address;
  curve_indices : option (Z * Z);
  pool_address : option Address;
  one_inch_zero_for_one : option bool;
}.

Inductive DecodeError : Type :=
| TooShort
| UnknownSelector (selector : list Z)
| AbiDecode (message : string)
| EmptyPath
| CurveUnsupported (router : Address).

(** ** The declared functions *)

Inductive SolFn : Type :=
(* IUniswapV2Router02 *)
| swapExactTokensForTokens | swapTokensForExactTokens | swapExactETHForTokens
| swapTokensForExactETH | swapExactTokensForETH | swapETHForExactTokens
| swapExactTokensForTokensSupportingFeeOnTransferTokens
| swapExactETHForTokensSupportingFeeOnTransferTokens
| swapExactTokensForETHSupportingFeeOnTransferTokens
| addLiquidity | addLiquidityETH | removeLiquidity | removeLiquidityETH
| removeLiquidityWithPermit | removeLiquidityETHWithPermit
| removeLiquidityETHSupportingFeeOnTransferTokens
| removeLiquidityETHWithPermitSupportingFeeOnTransferTokens
(* IUniswapV3Router: [_0] with a deadline, [_1] without *)
| exactInputSingle_0 | exactInputSingle_1 | exactInput_0 | exactInput_1
| exactOutputSingle_0 | exactOutputSingle_1 | exactOutput_0 | exactOutput_1
| selfPermit | selfPermitAllowed | selfPermitIfNecessary | selfPermitAllowedIfNecessary
| unwrapWETH9 | unwrapWETH9WithFee | refundETH | sweepToken | sweepTokenWithFee
(* IUniswapV3Multicall, IUniswapV3MulticallDeadline *)
| multicall | multicall_deadline
(* ICurvePoolInt128, ICurvePoolUint256 *)
| exchange_int128 | exchange_underlying | exchange_uint256
(* IBancorNetwork *)
| tradeBySourceAmount | tradeByTargetAmount
(* IBalancerVault *)
| vault_swap
(* IOneInchV6Router *)
| one_inch_swap
| unoswap | unoswapTo | unoswap2 | unoswap2To | unoswap3 | unoswap3To
| ethUnoswap | ethUnoswapTo | ethUnoswap2 | ethUnoswap2To | ethUnoswap3 | ethUnoswap3To
| uniswapV3Swap | uniswapV3SwapTo | cancelOrder | fillContractOrder
(* IUniversalRouter: [_0] without a deadline, [_1] with *)
| execute_0 | execute_1.

Definition fn_name (f : SolFn) : string :=
  match f with
  | swapExactTokensForTokens => "swapExactTokensForTokens"
  | swapTokensForExactTokens => "swapTokensForExactTokens"
  | swapExactETHForTokens => "swapExactETHForTokens"
  | swapTokensForExactETH => "swapTokensForExactETH"
  | swapExactTokensForETH => "swapExactTokensForETH"
  | swapETHForExactTokens => "swapETHForExactTokens"
  | swapExactTokensForTokensSupportingFeeOnTransferTokens =>
      "swapExactTokensForTokensSupportingFeeOnTransferTokens"
  | swapExactETHForTokensSupportingFeeOnTransferTokens =>
      "swapExactETHForTokensSupportingFeeOnTransferTokens"
  | swapExactTokensForETHSupportingFeeOnTransferTokens =>
      "swapExactTokensForETHSupportingFeeOnTransferTokens"
  | addLiquidity => "addLiquidity"
  | addLiquidityETH => "addLiquidityETH"
  | removeLiquidity => "removeLiquidity"
  | removeLiquidityETH => "removeLiquidityETH"
  | removeLiquidityWithPermit => "removeLiquidityWithPermit"
  | removeLiquidityETHWithPermit => "removeLiquidityETHWithPermit"
  | removeLiquidityETHSupportingFeeOnTransferTokens =>
      "removeLiquidityETHSupportingFeeOnTransferTokens"
  | removeLiquidityETHWithPermitSupportingFeeOnTransferTokens =>
      "removeLiquidityETHWithPermitSupportingFeeOnTransferTokens"
  | exactInputSingle_0 | exactInputSingle_1 => "exactInputSingle"
  | exactInput_0 | exactInput_1 => "exactInput"
  | exactOutputSingle_0 | exactOutputSingle_1 => "exactOutputSingle"
  | exactOutput_0 | exactOutput_1 => "exactOutput"
  | selfPermit => "selfPermit"
  | selfPermitAllowed => "selfPermitAllowed"
  | selfPermitIfNecessary => "selfPermitIfNecessary"
  | selfPermitAllowedIfNecessary => "selfPermitAllowedIfNecessary"
  | unwrapWETH9 => "unwrapWETH9"
  | unwrapWETH9WithFee => "unwrapWETH9WithFee"
  | refundETH => "refundETH"
  | sweepToken => "sweepToken"
  | sweepTokenWithFee => "sweepTokenWithFee"
  | multicall | multicall_deadline => "multicall"
  | exchange_int128 | exchange_uint256 => "exchange"
  | exchange_underlying => "exchange_underlying"
  | tradeBySourceAmount => "tradeBySourceAmount"
  | tradeByTargetAmount => "tradeByTargetAmount"
  | vault_swap | one_inch_swap => "swap"
  | unoswap => "unoswap" | unoswapTo => "unoswapTo"
  | unoswap2 => "unoswap2" | unoswap2To => "unoswap2To"
  | unoswap3 => "unoswap3" | unoswap3To => "unoswap3To"
  | ethUnoswap => "ethUnoswap" | ethUnoswapTo => "ethUnoswapTo"
  | ethUnoswap2 => "ethUnoswap2" | ethUnoswap2To => "ethUnoswap2To"
  | ethUnoswap3 => "ethUnoswap3" | ethUnoswap3To => "ethUnoswap3To"
  | uniswapV3Swap => "uniswapV3Swap" | uniswapV3SwapTo => "uniswapV3SwapTo"
  | cancelOrder => "cancelOrder"
  | fillContractOrder => "fillContractOrder"
  | execute_0 | execute_1 => "execute"
  end.

Abbreviation uint256 := (SUint 256) (only parsing).
Abbreviation uint8 := (SUint 8) (only parsing).
Abbreviation uint24 := (SUint 24) (only parsing).
Abbreviation uint160 := (SUint 160) (only parsing).
Abbreviation int128 := (SInt 128) (only parsing).

Definition permit_params : list sol := [SAddress; uint256; uint256; uint8; SBytes32; SBytes32].

Definition fn_params (f : SolFn) : list sol :=
  match f with
  | swapExactTokensForTokens | swapTokensForExactTokens | swapTokensForExactETH
  | swapExactTokensForETH | swapExactTokensForTokensSupportingFeeOnTransferTokens
  | swapExactTokensForETHSupportingFeeOnTransferTokens =>
      [uint256; uint256; SArray SAddress; SAddress; uint256]
  | swapExactETHForTokens | swapETHForExactTokens
  | swapExactETHForTokensSupportingFeeOnTransferTokens =>
      [uint256; SArray SAddress; SAddress; uint256]
  | addLiquidity =>
      [SAddress; SAddress; uint256; uint256; uint256; uint256; SAddress; uint256]
  | addLiquidityETH => [SAddress; uint256; uint256; uint256; SAddress; uint256]
  | removeLiquidity => [SAddress; SAddress; uint256; uint256; uint256; SAddress; uint256]
  | removeLiquidityETH | removeLiquidityETHSupportingFeeOnTransferTokens =>
      [SAddress; uint256; uint256; uint256; SAddress; uint256]
  | removeLiquidityWithPermit =>
      [SAddress; SAddress; uint256; uint256; uint256; SAddress; uint256;
       SBool; uint8; SBytes32; SBytes32]
  | removeLiquidityETHWithPermit
  | removeLiquidityETHWithPermitSupportingFeeOnTransferTokens =>
      [SAddress; uint256; uint256; uint256; SAddress; uint256; SBool; uint8; SBytes32; SBytes32]
  | exactInputSingle_0 | exactOutputSingle_0 =>
      [STuple [SAddress; SAddress; uint24; SAddress; uint256; uint256; uint256; uint160]]
  | exactInputSingle_1 | exactOutputSingle_1 =>
      [STuple [SAddress; SAddress; uint24; SAddress; uint256; uint256; uint160]]
  | exactInput_0 | exactOutput_0 => [STuple [SBytes; SAddress; uint256; uint256; uint256]]
  | exactInput_1 | exactOutput_1 => [STuple [SBytes; SAddress; uint256; uint256]]
  | selfPermit | selfPermitAllowed | selfPermitIfNecessary | selfPermitAllowedIfNecessary =>
      permit_params
  | unwrapWETH9 => [uint256; SAddress]
  | unwrapWETH9WithFee => [uint256; SAddress; uint256; SAddress]
  | refundETH => []
  | sweepToken => [SAddress; uint256; SAddress]
  | sweepTokenWithFee => [SAddress; uint256; SAddress; uint256; SAddress]
  | multicall => [SArray SBytes]
  | multicall_deadline => [uint256; SArray SBytes]
  | exchange_int128 | exchange_underlying => [int128; int128; uint256; uint256]
  | exchange_uint256 => [uint256; uint256; uint256; uint256]
  | tradeBySourceAmount | tradeByTargetAmount =>
      [SAddress; SAddress; uint256; uint256; uint256; SAddress]
  | vault_swap =>
      [STuple [SBytes32; uint8; SAddress; SAddress; uint256; SBytes];
       STuple [SAddress; SBool; SAddress; SBool]; uint256; uint256]
  | one_inch_swap =>
      [SAddress; STuple [SAddress; SAddress; SAddress; SAddress; uint256; uint256; uint256];
       SBytes]
  | unoswap => [uint256; uint256; uint256; uint256]
  | unoswapTo | unoswap2 => [uint256; uint256; uint256; uint256; uint256]
  | unoswap2To | unoswap3 => [uint256; uint256; uint256; uint256; uint256; uint256]
  | unoswap3To => [uint256; uint256; uint256; uint256; uint256; uint256; uint256]
  | ethUnoswap => [uint256; uint256]
  | ethUnoswapTo | ethUnoswap2 => [uint256; uint256; uint256]
  | ethUnoswap2To | ethUnoswap3 => [uint256; uint256; uint256; uint256]
  | ethUnoswap3To => [uint256; uint256; uint256; uint256; uint256]
  | uniswapV3Swap => [uint256; uint256; SArray uint256]
  | uniswapV3SwapTo => [SAddress; uint256; uint256; SArray uint256]
  | cancelOrder => [uint256; SBytes32]
  | fillContractOrder =>
      [STuple [uint256; uint256; uint256; uint256; uint256; uint256; uint256; uint256];
       SBytes; uint256; uint256]
  | execute_0 => [SBytes; SArray SBytes]
  | execute_1 => [SBytes; SArray SBytes; uint256]
  end.

(** ** Constants *)

Definition COMMAND_TYPE_MASK : Z := 0x3f.
Definition V3_SWAP_EXACT_IN : Z := 0x00.
Definition V3_SWAP_EXACT_OUT : Z := 0x01.
Definition V2_SWAP_EXACT_IN : Z := 0x08.
Definition V2_SWAP_EXACT_OUT : Z := 0x09.
Definition V4_SWAP : Z := 0x10.
Definition ZERO_FOR_ONE_BIT : Z := 247.
Definition MAX_MULTICALL_DEPTH : nat := 2.
Definition WETH_ADDRESS : Address := 0xC02aaA39b223FE8D0A0e5C4F27eAD9083C756Cc2.

(** ** Results: a panic, an error, or a value *)

Abbreviation result A := (outcome (DecodeError + A)) (only parsing).
Definition ok {A} (a : A) : result A := Ret (inr a).
Definition err {A} (e : DecodeError) : result A := Ret (inl e).
Definition rbind {A B} (m : result A) (f : A -> result B) : result B :=
  match m with Ret (inr a) => f a | Ret (inl e) => Ret (inl e) | Panic => Panic end.

Notation "'let?' p := m 'in' k" := (rbind m (fun p => k))
  (at level 10, p binder, m at level 100, k at level 200).

(** ** Bit extraction *)

(** The last 20 of the 32 big-endian bytes. *)
Definition u256_low_address (v : Z) : Address := be (drop 12 (to_be 32 v)).

Definition pool_zero_for_one (encoded : Z) : Address * bool :=
  let pool := be (drop 12 (to_be 32 encoded)) in
  let bit := Z.shiftl 1 ZERO_FOR_ONE_BIT in
  let zero_for_one := negb (Z.land encoded bit =? 0) in
  (pool, zero_for_one).

Definition pool_word_for_test (pool : Address) (zero_for_one : bool) : Z :=
  let v := be (repeat 0 12 ++ to_be 20 pool) in
  if zero_for_one then Z.lor v (Z.shiftl 1 ZERO_FOR_ONE_BIT) else v.

(** ** The decoders *)

Section Decode.
Context {K : Keccak} {A : SolAbi}.

Definition fn_sel (f : SolFn) : list Z := selector_of (fn_name f) (fn_params f).

(** [selector == fCall::SELECTOR]. *)
Definition sel (selector : list Z) (f : SolFn) : bool := bool_decide (selector = fn_sel f).

(** [fCall::abi_decode(calldata).map_err(|e| DecodeError::AbiDecode(e.to_string()))]. *)
Definition abi (f : SolFn) (calldata : list Z) : result (params (fn_params f)) :=
  match abi_decode_call (fn_name f) (fn_params f) calldata with
  | inl e => err (AbiDecode e)
  | inr v => ok v
  end.

Definition abi_params (ts : list sol) (input : list Z) : result (params ts) :=
  match abi_decode_params ts input with inl e => err (AbiDecode e) | inr v => ok v end.

Definition decode_v2_call (router : Address) (path : list Address) (amount_in amount_out_min : Z)
    (to : Address) : result DecodedSwap :=
  if (length path <? 2)%nat then err EmptyPath
  else
    token_in ← index path 0;
    token_out ← index path 1;
    let path_extra := drop 2 path in
    ok (mkSwap (router_to_v2_protocol router) router token_in token_out amount_in amount_out_min
          to 0 path_extra None None None).

Definition try_uni_v2_family (selector calldata : list Z) (router : Address)
    : result (option DecodedSwap) :=
  if sel selector swapExactTokensForTokens then
    let? '(amountIn, (amountOutMin, (path, (to, _)))) := abi swapExactTokensForTokens calldata in
    let? s := decode_v2_call router path amountIn amountOutMin to in
    ok (Some s)
  else if sel selector swapTokensForExactTokens then
    let? '(amountOut, (amountInMax, (path, (to, _)))) := abi swapTokensForExactTokens calldata in
    let? s := decode_v2_call router path amountInMax amountOut to in
    ok (Some s)
  else if sel selector swapExactETHForTokens then
    let? '(amountOutMin, (path, (to, _))) := abi swapExactETHForTokens calldata in
    let? s := decode_v2_call router path 0 amountOutMin to in
    ok (Some s)
  else if sel selector swapExactTokensForETH then
    let? '(amountIn, (amountOutMin, (path, (to, _)))) := abi swapExactTokensForETH calldata in
    let? s := decode_v2_call router path amountIn amountOutMin to in
    ok (Some s)
  else if sel selector swapTokensForExactETH then
    let? '(amountOut, (amountInMax, (path, (to, _)))) := abi swapTokensForExactETH calldata in
    let? s := decode_v2_call router path amountInMax amountOut to in
    ok (Some s)
  else if sel selector swapETHForExactTokens then
    let? '(amountOut, (path, (to, _))) := abi swapETHForExactTokens calldata in
    let? s := decode_v2_call router path 0 amountOut to in
    ok (Some s)
  else if sel selector swapExactTokensForTokensSupportingFeeOnTransferTokens then
    let? '(amountIn, (amountOutMin, (path, (to, _)))) :=
      abi swapExactTokensForTokensSupportingFeeOnTransferTokens calldata in
    let? s := decode_v2_call router path amountIn amountOutMin to in
    ok (Some s)
  else if sel selector swapExactETHForTokensSupportingFeeOnTransferTokens then
    let? '(amountOutMin, (path, (to, _))) :=
      abi swapExactETHForTokensSupportingFeeOnTransferTokens calldata in
    let? s := decode_v2_call router path 0 amountOutMin to in
    ok (Some s)
  else if sel selector swapExactTokensForETHSupportingFeeOnTransferTokens then
    let? '(amountIn, (amountOutMin, (path, (to, _)))) :=
      abi swapExactTokensForETHSupportingFeeOnTransferTokens calldata in
    let? s := decode_v2_call router path amountIn amountOutMin to in
    ok (Some s)
  else ok None.

(** The walk over the tokens after the first fee. The fuel is the path's
    length: every round advances the cursor. *)
Fixpoint path_tokens (fuel : nat) (path : list Z) (cursor : nat) : outcome (list Address) :=
  match fuel with
  | O => Panic
  | S fuel =>
      if (cursor + 20 <=? length path)%nat then
        token ← slice path cursor (cursor + 20);
        let cursor := (cursor + 20)%nat in
        let cursor := if (cursor + 3 <? length path)%nat then (cursor + 3)%nat else cursor in
        tokens ← path_tokens fuel path cursor;
        Ret (be token :: tokens)
      else Ret []
  end.

Definition parse_v3_path (path : list Z) : result (Address * Address * Z * list Address) :=
  let ADDR_LEN := 20%nat in
  let FEE_LEN := 3%nat in
  let HOP_LEN := (ADDR_LEN + FEE_LEN)%nat in
  if (length path <? HOP_LEN + ADDR_LEN)%nat then err EmptyPath
  else
    token_in ← slice path 0 ADDR_LEN;
    fee_bytes ← slice path ADDR_LEN (ADDR_LEN + FEE_LEN);
    b0 ← index fee_bytes 0;
    b1 ← index fee_bytes 1;
    b2 ← index fee_bytes 2;
    let fee := Z.lor (Z.lor (Z.shiftl b0 16) (Z.shiftl b1 8)) b2 in
    tokens ← path_tokens (S (length path)) path (ADDR_LEN + FEE_LEN);
    match tokens with
    | [] => err EmptyPath
    | token_out :: tokens => ok (be token_in, token_out, fee, tokens)
    end.

Definition swap_path_first_hop_for_exact_output (path_first path_second : Address)
    (_extras : list Address) : Address * Address := (path_second, path_first).

Definition v3_swap (router token_in token_out : Address) (amount_in amount_out_min : Z)
    (recipient : Address) (fee : Z) (extras : list Address) : DecodedSwap :=
  mkSwap UniswapV3 router token_in token_out amount_in amount_out_min recipient fee extras
    None None None.

Definition try_uni_v3_family (selector calldata : list Z) (router : Address)
    : result (option DecodedSwap) :=
  if sel selector exactInputSingle_0 then
    let? '((tokenIn, (tokenOut, (fee, (recipient, (deadline, (amountIn, (amountOutMinimum, _))))))),
           _) := abi exactInputSingle_0 calldata in
    ok (Some (v3_swap router tokenIn tokenOut amountIn amountOutMinimum recipient fee []))
  else if sel selector exactInputSingle_1 then
    let? '((tokenIn, (tokenOut, (fee, (recipient, (amountIn, (amountOutMinimum, _)))))), _) :=
      abi exactInputSingle_1 calldata in
    ok (Some (v3_swap router tokenIn tokenOut amountIn amountOutMinimum recipient fee []))
  else if sel selector exactInput_0 then
    let? '((path, (recipient, (deadline, (amountIn, (amountOutMinimum, _))))), _) :=
      abi exactInput_0 calldata in
    let? '(token_in, token_out, fee, extras) := parse_v3_path path in
    ok (Some (v3_swap router token_in token_out amountIn amountOutMinimum recipient fee extras))
  else if sel selector exactInput_1 then
    let? '((path, (recipient, (amountIn, (amountOutMinimum, _)))), _) :=
      abi exactInput_1 calldata in
    let? '(token_in, token_out, fee, extras) := parse_v3_path path in
    ok (Some (v3_swap router token_in token_out amountIn amountOutMinimum recipient fee extras))
  else if sel selector exactOutputSingle_0 then
    let? '((tokenIn, (tokenOut, (fee, (recipient, (deadline, (amountOut, (amountInMaximum, _))))))),
           _) := abi exactOutputSingle_0 calldata in
    ok (Some (v3_swap router tokenIn tokenOut amountOut amountInMaximum recipient fee []))
  else if sel selector exactOutputSingle_1 then
    let? '((tokenIn, (tokenOut, (fee, (recipient, (amountOut, (amountInMaximum, _)))))), _) :=
      abi exactOutputSingle_1 calldata in
    ok (Some (v3_swap router tokenIn tokenOut amountOut amountInMaximum recipient fee []))
  else if sel selector exactOutput_0 then
    let? '((path, (recipient, (deadline, (amountOut, (amountInMaximum, _))))), _) :=
      abi exactOutput_0 calldata in
    let? '(path_first, path_second, fee, extras) := parse_v3_path path in
    let '(token_in, token_out) :=
      swap_path_first_hop_for_exact_output path_first path_second extras in
    ok (Some (v3_swap router token_in token_out amountOut amountInMaximum recipient fee extras))
  else if sel selector exactOutput_1 then
    let? '((path, (recipient, (amountOut, (amountInMaximum, _)))), _) :=
      abi exactOutput_1 calldata in
    let? '(path_first, path_second, fee, extras) := parse_v3_path path in
    let '(token_in, token_out) :=
      swap_path_first_hop_for_exact_output path_first path_second extras in
    ok (Some (v3_swap router token_in token_out amountOut amountInMaximum recipient fee extras))
  else ok None.

Definition try_balancer (selector calldata : list Z) (router : Address)
    : result (option DecodedSwap) :=
  if sel selector vault_swap then
    let? '((poolId, (kind, (assetIn, (assetOut, (amount, _))))),
           ((sender, (fromInternal, (recipient, _))), (limit, _))) := abi vault_swap calldata in
    ok (Some (mkSwap BalancerV2 router assetIn assetOut amount limit recipient 0 []
                None None None))
  else ok None.

(** The [to_u8] closure, the same text in both index conversions. *)
Definition index_to_u8 (out_of_range : bool) (v : Z) : result Z :=
  if out_of_range then err (AbiDecode ("curve index out of u8 range: " +:+ pretty v)) else ok v.

Definition curve_indices_from_int128 (i j : Z) : result (Z * Z) :=
  let to_u8 v := index_to_u8 ((v <? 0) || (255 <? v)) v in
  let? i := to_u8 i in
  let? j := to_u8 j in
  ok (i, j).

Definition curve_indices_from_uint256 (i j : Z) : result (Z * Z) :=
  let to_u8 v := index_to_u8 (255 <? v) v in
  let? i := to_u8 i in
  let? j := to_u8 j in
  ok (i, j).

Definition curve_decoded_swap (pool : Address) (indices : Z * Z) (amount_in : Z) : DecodedSwap :=
  mkSwap Curve pool zero_address zero_address amount_in 0 zero_address 0 [] (Some indices)
    None None.

Definition try_curve (selector calldata : list Z) (pool : Address)
    : result (option DecodedSwap) :=
  if sel selector exchange_int128 || sel selector exchange_underlying then
    let? '(i, j, dx) :=
      if sel selector exchange_int128 then
        let? '(i, (j, (dx, _))) := abi exchange_int128 calldata in ok (i, j, dx)
      else
        let? '(i, (j, (dx, _))) := abi exchange_underlying calldata in ok (i, j, dx) in
    let? indices := curve_indices_from_int128 i j in
    ok (Some (curve_decoded_swap pool indices dx))
  else if sel selector exchange_uint256 then
    let? '(i, (j, (dx, _))) := abi exchange_uint256 calldata in
    let? indices := curve_indices_from_uint256 i j in
    ok (Some (curve_decoded_swap pool indices dx))
  else ok None.

Definition try_bancor (selector calldata : list Z) (router : Address)
    : result (option DecodedSwap) :=
  if sel selector tradeBySourceAmount then
    let? '(sourceToken, (targetToken, (sourceAmount, (minReturnAmount, (_, (beneficiary, _)))))) :=
      abi tradeBySourceAmount calldata in
    ok (Some (mkSwap BancorV3 router sourceToken targetToken sourceAmount minReturnAmount
                beneficiary 0 [] None None None))
  else if sel selector tradeByTargetAmount then
    let? '(sourceToken, (targetToken, (targetAmount, (maxSourceAmount, (_, (beneficiary, _)))))) :=
      abi tradeByTargetAmount calldata in
    ok (Some (mkSwap BancorV3 router sourceToken targetToken targetAmount maxSourceAmount
                beneficiary 0 [] None None None))
  else ok None.

Definition one_inch_unresolved_swap (router src dst : Address) (amount min_return : Z)
    (recipient : Address) : DecodedSwap :=
  mkSwap OneInchV6 router src dst amount min_return recipient 0 [] None None None.

Definition one_inch_chain (router token_in_first : Address) (amount_in min_return : Z)
    (pools : list Z) (recipient : Address) : list DecodedSwap :=
  imap (fun idx encoded =>
    let '(pool, zero_for_one) := pool_zero_for_one encoded in
    let is_first := (idx =? 0)%nat in
    let is_last := (idx + 1 =? length pools)%nat in
    mkSwap OneInchV6 router
      (if is_first then token_in_first else zero_address)
      zero_address
      (if is_first then amount_in else 0)
      (if is_last then min_return else 0)
      recipient 0 [] None (Some pool) (Some zero_for_one)) pools.

Definition try_one_inch_v6 (selector calldata : list Z) (router : Address)
    : result (option (list DecodedSwap)) :=
  if sel selector one_inch_swap then
    let? '(executor, ((srcToken, (dstToken, (srcReceiver, (dstReceiver,
           (amount, (minReturnAmount, _)))))), _)) := abi one_inch_swap calldata in
    ok (Some [one_inch_unresolved_swap router srcToken dstToken amount minReturnAmount dstReceiver])
  else if sel selector unoswap then
    let? '(token, (amount, (minReturn, (dex, _)))) := abi unoswap calldata in
    let token_in := u256_low_address token in
    ok (Some (one_inch_chain router token_in amount minReturn [dex] zero_address))
  else if sel selector unoswapTo then
    let? '(to, (token, (amount, (minReturn, (dex, _))))) := abi unoswapTo calldata in
    let token_in := u256_low_address token in
    let recipient := u256_low_address to in
    ok (Some (one_inch_chain router token_in amount minReturn [dex] recipient))
  else if sel selector unoswap2 then
    let? '(token, (amount, (minReturn, (dex, (dex2, _))))) := abi unoswap2 calldata in
    let token_in := u256_low_address token in
    ok (Some (one_inch_chain router token_in amount minReturn [dex; dex2] zero_address))
  else if sel selector unoswap2To then
    let? '(to, (token, (amount, (minReturn, (dex, (dex2, _)))))) := abi unoswap2To calldata in
    let token_in := u256_low_address token in
    let recipient := u256_low_address to in
    ok (Some (one_inch_chain router token_in amount minReturn [dex; dex2] recipient))
  else if sel selector unoswap3 then
    let? '(token, (amount, (minReturn, (dex, (dex2, (dex3, _)))))) := abi unoswap3 calldata in
    let token_in := u256_low_address token in
    ok (Some (one_inch_chain router token_in amount minReturn [dex; dex2; dex3] zero_address))
  else if sel selector unoswap3To then
    let? '(to, (token, (amount, (minReturn, (dex, (dex2, (dex3, _))))))) :=
      abi unoswap3To calldata in
    let token_in := u256_low_address token in
    let recipient := u256_low_address to in
    ok (Some (one_inch_chain router token_in amount minReturn [dex; dex2; dex3] recipient))
  else if sel selector ethUnoswap then
    let? '(minReturn, (dex, _)) := abi ethUnoswap calldata in
    ok (Some (one_inch_chain router WETH_ADDRESS 0 minReturn [dex] zero_address))
  else if sel selector ethUnoswapTo then
    let? '(to, (minReturn, (dex, _))) := abi ethUnoswapTo calldata in
    let recipient := u256_low_address to in
    ok (Some (one_inch_chain router WETH_ADDRESS 0 minReturn [dex] recipient))
  else if sel selector ethUnoswap2 then
    let? '(minReturn, (dex, (dex2, _))) := abi ethUnoswap2 calldata in
    ok (Some (one_inch_chain router WETH_ADDRESS 0 minReturn [dex; dex2] zero_address))
  else if sel selector ethUnoswap2To then
    let? '(to, (minReturn, (dex, (dex2, _)))) := abi ethUnoswap2To calldata in
    let recipient := u256_low_address to in
    ok (Some (one_inch_chain router WETH_ADDRESS 0 minReturn [dex; dex2] recipient))
  else if sel selector ethUnoswap3 then
    let? '(minReturn, (dex, (dex2, (dex3, _)))) := abi ethUnoswap3 calldata in
    ok (Some (one_inch_chain router WETH_ADDRESS 0 minReturn [dex; dex2; dex3] zero_address))
  else if sel selector ethUnoswap3To then
    let? '(to, (minReturn, (dex, (dex2, (dex3, _))))) := abi ethUnoswap3To calldata in
    let recipient := u256_low_address to in
    ok (Some (one_inch_chain router WETH_ADDRESS 0 minReturn [dex; dex2; dex3] recipient))
  else if sel selector uniswapV3Swap then
    let? '(amount, (minReturn, (pools, _))) := abi uniswapV3Swap calldata in
    match pools with
    | [] => err EmptyPath
    | _ => ok (Some (one_inch_chain router zero_address amount minReturn pools zero_address))
    end
  else if sel selector uniswapV3SwapTo then
    let? '(recipient, (amount, (minReturn, (pools, _)))) := abi uniswapV3SwapTo calldata in
    match pools with
    | [] => err EmptyPath
    | _ => ok (Some (one_inch_chain router zero_address amount minReturn pools recipient))
    end
  else ok None.

Definition V3Tuple : list sol := [SAddress; uint256; uint256; SBytes; SBool].
Definition V2Tuple : list sol := [SAddress; uint256; uint256; SArray SAddress; SBool].

(** Both V2 opcodes: the protocol tag is always [UniswapV2]. *)
Definition ur_v2_swap (router : Address) (path : list Address) (amount_in amount_out_min : Z)
    (recipient : Address) : result (option DecodedSwap) :=
  if (length path <? 2)%nat then err EmptyPath
  else
    token_in ← index path 0;
    token_out ← index path 1;
    let path_extra := drop 2 path in
    ok (Some (mkSwap UniswapV2 router token_in token_out amount_in amount_out_min recipient 0
                path_extra None None None)).

Definition decode_ur_opcode (opcode : Z) (input : list Z) (router : Address)
    : result (option DecodedSwap) :=
  if opcode =? V3_SWAP_EXACT_IN then
    let? '(recipient, (amount_in, (amount_out_min, (path, _)))) := abi_params V3Tuple input in
    let? '(token_in, token_out, fee, path_extra) := parse_v3_path path in
    ok (Some (v3_swap router token_in token_out amount_in amount_out_min recipient fee path_extra))
  else if opcode =? V3_SWAP_EXACT_OUT then
    let? '(recipient, (amount_out, (amount_in_max, (path, _)))) := abi_params V3Tuple input in
    let? '(path_first, path_second, fee, extras) := parse_v3_path path in
    let '(token_in, token_out) :=
      swap_path_first_hop_for_exact_output path_first path_second extras in
    ok (Some (v3_swap router token_in token_out amount_out amount_in_max recipient fee extras))
  else if opcode =? V2_SWAP_EXACT_IN then
    let? '(recipient, (amount_in, (amount_out_min, (path, _)))) := abi_params V2Tuple input in
    ur_v2_swap router path amount_in amount_out_min recipient
  else if opcode =? V2_SWAP_EXACT_OUT then
    let? '(recipient, (amount_out, (amount_in_max, (path, _)))) := abi_params V2Tuple input in
    ur_v2_swap router path amount_out amount_in_max recipient
  else if opcode =? V4_SWAP then ok None
  else ok None.

(** The [for] over the zipped streams: the first malformed swap ends it. *)
Fixpoint ur_commands_loop (router : Address) (steps : list (Z * list Z)) (out : list DecodedSwap)
    : result (list DecodedSwap) :=
  match steps with
  | [] => ok out
  | (cmd_byte, input) :: steps =>
      let opcode := Z.land cmd_byte COMMAND_TYPE_MASK in
      let? swap := decode_ur_opcode opcode input router in
      ur_commands_loop router steps
        (match swap with Some swap => out ++ [swap] | None => out end)
  end.

Definition try_universal_router (selector calldata : list Z) (router : Address)
    : result (option (list DecodedSwap)) :=
  let? decoded :=
    if sel selector execute_0 then
      let? '(commands, (inputs, _)) := abi execute_0 calldata in ok (Some (commands, inputs))
    else if sel selector execute_1 then
      let? '(commands, (inputs, _)) := abi execute_1 calldata in ok (Some (commands, inputs))
    else ok None in
  match decoded with
  | None => ok None
  | Some (commands, inputs) =>
      if negb (length commands =? length inputs)%nat then
        err (AbiDecode ("Universal Router: commands.len()=" +:+ pretty (N.of_nat (length commands))
                        +:+ " but inputs.len()=" +:+ pretty (N.of_nat (length inputs))))
      else
        let? out := ur_commands_loop router (zip commands inputs) [] in
        ok (Some out)
  end.

Definition try_decode_single (selector calldata : list Z) (to : Address)
    : result (option DecodedSwap) :=
  let? v2 := try_uni_v2_family selector calldata to in
  match v2 with
  | Some swap => ok (Some swap)
  | None =>
  let? v3 := try_uni_v3_family selector calldata to in
  match v3 with
  | Some swap => ok (Some swap)
  | None =>
  let? balancer := try_balancer selector calldata to in
  match balancer with
  | Some swap => ok (Some swap)
  | None =>
  let? curve := try_curve selector calldata to in
  match curve with
  | Some swap => ok (Some swap)
  | None =>
  let? bancor := try_bancor selector calldata to in
  match bancor with
  | Some swap => ok (Some swap)
  | None => ok None
  end end end end end.

Definition try_extract_multicall (selector calldata : list Z) : result (option (list (list Z))) :=
  if sel selector multicall then
    let? '(data, _) := abi multicall calldata in ok (Some data)
  else if sel selector multicall_deadline then
    let? '(_, (data, _)) := abi multicall_deadline calldata in ok (Some data)
  else ok None.

Definition non_swap_helpers : list SolFn :=
  [selfPermit; selfPermitAllowed; selfPermitIfNecessary; selfPermitAllowedIfNecessary;
   unwrapWETH9; unwrapWETH9WithFee; refundETH; sweepToken; sweepTokenWithFee;
   addLiquidity; addLiquidityETH; removeLiquidity; removeLiquidityETH;
   removeLiquidityWithPermit; removeLiquidityETHWithPermit;
   removeLiquidityETHSupportingFeeOnTransferTokens;
   removeLiquidityETHWithPermitSupportingFeeOnTransferTokens; cancelOrder; fillContractOrder].

Definition try_is_known_non_swap_helper (selector : list Z) : bool :=
  existsb (sel selector) non_swap_helpers.

(** The part of [decode_at_depth] after the multicall case. *)
Definition decode_flat (to : Address) (selector calldata : list Z) : result (list DecodedSwap) :=
  let? one_inch := try_one_inch_v6 selector calldata to in
  match one_inch with
  | Some swaps => ok swaps
  | None =>
  let? universal := try_universal_router selector calldata to in
  match universal with
  | Some swaps => ok swaps
  | None =>
  let? single := try_decode_single selector calldata to in
  match single with
  | Some swap => ok [swap]
  | None =>
  if try_is_known_non_swap_helper selector then ok []
  else err (UnknownSelector selector)
  end end end.

(** The loop over the inner calls: truncated and failing ones are skipped. *)
Fixpoint inner_calls_loop (decode : list Z -> result (list DecodedSwap)) (inner_calls : list (list Z))
    (out : list DecodedSwap) : result (list DecodedSwap) :=
  match inner_calls with
  | [] => ok out
  | inner :: inner_calls =>
      if (length inner <? 4)%nat then inner_calls_loop decode inner_calls out
      else
        match decode inner with
        | Ret (inr swaps) => inner_calls_loop decode inner_calls (out ++ swaps)
        | Ret (inl _) => inner_calls_loop decode inner_calls out
        | Panic => Panic
        end
  end.

(** [budget] is [MAX_MULTICALL_DEPTH - depth], the number of multicalls that may
    still be opened. *)
Fixpoint decode_within (budget : nat) (to : Address) (calldata : list Z) : result (list DecodedSwap) :=
  if (length calldata <? 4)%nat then err TooShort
  else
    selector ← slice calldata 0 4;
    match budget with
    | S budget =>
        let? inner := try_extract_multicall selector calldata in
        match inner with
        | Some inner_calls => inner_calls_loop (decode_within budget to) inner_calls []
        | None => decode_flat to selector calldata
        end
    | O => decode_flat to selector calldata
    end.

Definition decode_at_depth (to : Address) (calldata : list Z) (depth : nat)
    : result (list DecodedSwap) :=
  decode_within (MAX_MULTICALL_DEPTH - depth) to calldata.

Definition decode_pending_many (to : Address) (calldata : list Z) : result (list DecodedSwap) :=
  if (length calldata <? 4)%nat then err TooShort
  else if is_unsupported_curve_router to then err (CurveUnsupported to)
  else decode_at_depth to calldata 0.

(** [Vec::remove(0)] panics on an empty vector. *)
Definition decode_pending (to : Address) (calldata : list Z) : result DecodedSwap :=
  let? all := decode_pending_many to calldata in
  match all with
  | swap :: _ => ok swap
  | [] => Panic
  end.
End Decode.

(** ** Selectors *)

Definition all_fns : list SolFn :=
  [swapExactTokensForTokens; swapTokensForExactTokens; swapExactETHForTokens;
   swapTokensForExactETH; swapExactTokensForETH; swapETHForExactTokens;
   swapExactTokensForTokensSupportingFeeOnTransferTokens;
   swapExactETHForTokensSupportingFeeOnTransferTokens;
   swapExactTokensForETHSupportingFeeOnTransferTokens;
   addLiquidity; addLiquidityETH; removeLiquidity; removeLiquidityETH;
   removeLiquidityWithPermit; removeLiquidityETHWithPermit;
   removeLiquidityETHSupportingFeeOnTransferTokens;
   removeLiquidityETHWithPermitSupportingFeeOnTransferTokens;
   exactInputSingle_0; exactInputSingle_1; exactInput_0; exactInput_1;
   exactOutputSingle_0; exactOutputSingle_1; exactOutput_0; exactOutput_1;
   selfPermit; selfPermitAllowed; selfPermitIfNecessary; selfPermitAllowedIfNecessary;
   unwrapWETH9; unwrapWETH9WithFee; refundETH; sweepToken; sweepTokenWithFee;
   multicall; multicall_deadline; exchange_int128; exchange_underlying; exchange_uint256;
   tradeBySourceAmount; tradeByTargetAmount; vault_swap; one_inch_swap;
   unoswap; unoswapTo; unoswap2; unoswap2To; unoswap3; unoswap3To;
   ethUnoswap; ethUnoswapTo; ethUnoswap2; ethUnoswap2To; ethUnoswap3; ethUnoswap3To;
   uniswapV3Swap; uniswapV3SwapTo; cancelOrder; fillContractOrder; execute_0; execute_1].

Definition fn_index (f : SolFn) : nat :=
  match f with
  | swapExactTokensForTokens => 0 | swapTokensForExactTokens => 1 | swapExactETHForTokens => 2
  | swapTokensForExactETH => 3 | swapExactTokensForETH => 4 | swapETHForExactTokens => 5
  | swapExactTokensForTokensSupportingFeeOnTransferTokens => 6
  | swapExactETHForTokensSupportingFeeOnTransferTokens => 7
  | swapExactTokensForETHSupportingFeeOnTransferTokens => 8
  | addLiquidity => 9 | addLiquidityETH => 10 | removeLiquidity => 11 | removeLiquidityETH => 12
  | removeLiquidityWithPermit => 13 | removeLiquidityETHWithPermit => 14
  | removeLiquidityETHSupportingFeeOnTransferTokens => 15
  | removeLiquidityETHWithPermitSupportingFeeOnTransferTokens => 16
  | exactInputSingle_0 => 17 | exactInputSingle_1 => 18 | exactInput_0 => 19 | exactInput_1 => 20
  | exactOutputSingle_0 => 21 | exactOutputSingle_1 => 22
  | exactOutput_0 => 23 | exactOutput_1 => 24
  | selfPermit => 25 | selfPermitAllowed => 26 | selfPermitIfNecessary => 27
  | selfPermitAllowedIfNecessary => 28 | unwrapWETH9 => 29 | unwrapWETH9WithFee => 30
  | refundETH => 31 | sweepToken => 32 | sweepTokenWithFee => 33
  | multicall => 34 | multicall_deadline => 35
  | exchange_int128 => 36 | exchange_underlying => 37 | exchange_uint256 => 38
  | tradeBySourceAmount => 39 | tradeByTargetAmount => 40 | vault_swap => 41
  | one_inch_swap => 42 | unoswap => 43 | unoswapTo => 44 | unoswap2 => 45 | unoswap2To => 46
  | unoswap3 => 47 | unoswap3To => 48 | ethUnoswap => 49 | ethUnoswapTo => 50
  | ethUnoswap2 => 51 | ethUnoswap2To => 52 | ethUnoswap3 => 53 | ethUnoswap3To => 54
  | uniswapV3Swap => 55 | uniswapV3SwapTo => 56 | cancelOrder => 57 | fillContractOrder => 58
  | execute_0 => 59 | execute_1 => 60
  end%nat.

Lemma all_fns_index f : all_fns !! fn_index f = Some f.
Proof. by destruct f. Qed.

Lemma fn_index_inj f g : fn_index f = fn_index g -> f = g.
Proof.
  intros E. pose proof (all_fns_index f) as Hf. rewrite E, all_fns_index in Hf. by injection Hf.
Qed.

#[export] Instance SolFn_eq_dec : EqDecision SolFn.
Proof.
  intros f g. destruct (decide (fn_index f = fn_index g)) as [E|E];
    [left; by apply fn_index_inj|right; by intros ->].
Defined.

(** Distinct functions have distinct selectors. *)
Class DistinctSelectors `{Keccak} : Prop := distinct_selectors : NoDup (fn_sel <$> all_fns).

(** It holds of the published hash. *)
Lemma reference_selectors : DistinctSelectors (H:=keccak_reference).
Proof. unfold DistinctSelectors. apply (bool_decide_unpack _). vm_compute. exact I. Qed.

Lemma fn_sel_inj `{D : DistinctSelectors} f g : fn_sel f = fn_sel g -> f = g.
Proof.
  intros E. apply fn_index_inj, (proj1 (NoDup_alt _) distinct_selectors _ _ (fn_sel f)).
  - by rewrite list_lookup_fmap, all_fns_index.
  - by rewrite list_lookup_fmap, all_fns_index, E.
Qed.

Lemma sel_fn `{D : DistinctSelectors} f g : sel (fn_sel f) g = (fn_index f =? fn_index g)%nat.
Proof.
  unfold sel. destruct (Nat.eqb_spec (fn_index f) (fn_index g)) as [E|E].
  - apply fn_index_inj in E as ->. by apply bool_decide_eq_true.
  - apply bool_decide_eq_false. intros ->%fn_sel_inj. done.
Qed.

(** The selectors the deployed routers answer to. *)
Example published_selectors :
  (fn_sel (K:=keccak_reference)) <$>
    [swapExactTokensForTokens; exactInputSingle_0; exactInputSingle_1; exactInput_0; exactInput_1;
     multicall; multicall_deadline; exchange_int128; vault_swap; one_inch_swap; execute_0; execute_1]
  = to_be 4 <$>
    [0x38ed1739; 0x414bf389; 0x04e45aaf; 0xc04b8d59; 0xb858183f;
     0xac9650d8; 0x5ae401dc; 0x3df02124; 0x52bbbe29; 0x07ed2379; 0x24856bc3; 0x3593564c].
Proof. vm_compute. reflexivity. Qed.

(** ** Packed V3 paths *)

(** Token [i] of a packed path, and how many tokens its bytes hold. *)
Definition path_token (path : list Z) (i : nat) : Address := be (take 20 (drop (23 * i) path)).
Definition path_length (path : list Z) : nat := ((length path + 3) / 23)%nat.

Lemma path_tokens_end fuel path cursor : (0 < fuel)%nat -> (length path < cursor + 20)%nat ->
  path_tokens fuel path cursor = Ret [].
Proof.
  intros Hf Hl. destruct fuel; [lia|]. cbn [path_tokens].
  by rewrite (proj2 (Nat.leb_gt _ _)) by lia.
Qed.

(** The walk returns every token from [i] on, whatever the bytes. *)
Lemma path_tokens_exact fuel path : forall i,
  (0 < fuel)%nat -> (length path < fuel + 23 * i)%nat ->
  path_tokens fuel path (23 * i) = Ret (path_token path <$> seq i (path_length path - i)).
Proof.
  unfold path_length. pose proof (Nat.div_mod (length path + 3) 23 ltac:(lia)) as Hdiv.
  pose proof (Nat.mod_upper_bound (length path + 3) 23 ltac:(lia)) as Hmod.
  set (n := ((length path + 3) / 23)%nat) in *. clearbody n.
  induction fuel as [|fuel IH]; intros i Hpos Hf; [lia|].
  destruct (decide (length path < 23 * i + 20)%nat) as [Hgt|Hle].
  { rewrite path_tokens_end by lia. by replace (n - i)%nat with 0%nat by lia. }
  cbn [path_tokens]. rewrite (proj2 (Nat.leb_le _ _)), slice_in by lia.
  replace (23 * i + 20 - 23 * i)%nat with 20%nat by lia. cbn [mbind outcome_bind].
  replace (n - i)%nat with (S (n - S i)) by lia. cbn [seq fmap list_fmap].
  destruct (Nat.ltb_spec (23 * i + 20 + 3) (length path)) as [Hmore|Hlast].
  - replace (23 * i + 20 + 3)%nat with (23 * S i)%nat by lia. by rewrite IH by lia.
  - rewrite path_tokens_end by lia. by replace (n - S i)%nat with 0%nat by lia.
Qed.

(** Three bytes assembled by shifts are their big-endian value. *)
Lemma fee_bits b0 b1 b2 : is_byte b0 -> is_byte b1 -> is_byte b2 ->
  Z.lor (Z.lor (Z.shiftl b0 16) (Z.shiftl b1 8)) b2 = be [b0; b1; b2].
Proof.
  unfold is_byte. intros H0 H1 H2.
  replace (Z.lor (Z.shiftl b0 16) (Z.shiftl b1 8)) with (Z.shiftl (Z.lor (Z.shiftl b0 8) b1) 8)
    by (by rewrite Z.shiftl_lor, Z.shiftl_shiftl by lia).
  rewrite !shiftl_lor_add by lia. unfold be. simpl. lia.
Qed.

(** Parsing any byte string as a packed path: it is refused when it is shorter
    than one hop, and otherwise gives its tokens and first fee; trailing bytes
    that are not a whole hop are ignored. *)
Lemma parse_v3_path_exact path : Forall is_byte path ->
  parse_v3_path path =
    if (length path <? 43)%nat then err EmptyPath
    else ok (path_token path 0, path_token path 1, be (take 3 (drop 20 path)),
             path_token path <$> seq 2 (path_length path - 2)).
Proof.
  intros Hb. unfold parse_v3_path. change (20 + 3 + 20)%nat with 43%nat.
  destruct (Nat.ltb_spec (length path) 43) as [|Hl]; [done|].
  rewrite !slice_in by lia. cbn [mbind outcome_bind Nat.add Nat.sub].
  assert (Hfee : exists b0 b1 b2, take 3 (drop 20 path) = [b0; b1; b2]).
  { assert (Hlen : length (take 3 (drop 20 path)) = 3%nat) by (rewrite length_take, length_drop; lia).
    destruct (take 3 (drop 20 path)) as [|b0 [|b1 [|b2 [|]]]]; naive_solver. }
  destruct Hfee as (b0 & b1 & b2 & Hfee).
  assert (Forall is_byte [b0; b1; b2]) as Hbs
    by (rewrite <- Hfee; by apply Forall_take, Forall_drop).
  repeat (apply Forall_cons in Hbs as [? Hbs]).
  rewrite Hfee. cbn [index lookup list_lookup mbind outcome_bind].
  rewrite fee_bits by done.
  assert (Hn : (2 <= path_length path)%nat)
    by (unfold path_length; apply Nat.div_le_lower_bound; lia).
  rewrite (path_tokens_exact _ _ 1) by lia. cbn [mbind outcome_bind].
  replace (path_length path - 1)%nat with (S (path_length path - 2)) by lia. done.
Qed.

(** ** Hostile calldata *)

(** A value or an error, never a panic. *)
Definition settles {A} (m : result A) : Prop := m <> Panic.

Lemma settles_ok {A} (a : A) : settles (ok a).
Proof. done. Qed.
Lemma settles_err {A} e : settles (A:=A) (err e).
Proof. done. Qed.
Lemma settles_rbind {A B} (m : result A) (f : A -> result B) :
  settles m -> (forall a, settles (f a)) -> settles (rbind m f).
Proof. intros Hm Hf. destruct m as [[e|a]|]; [done|apply Hf|done]. Qed.

Create HintDb settles.
#[local] Hint Resolve settles_ok settles_err settles_rbind : settles.

(** Walk through the binds, tests and matches of a decoder. *)
Ltac settle :=
  repeat lazymatch goal with
  | |- settles (rbind _ _) => apply settles_rbind; [|intro]
  | |- settles (ok _) => apply settles_ok
  | |- settles (err _) => apply settles_err
  | |- settles (match ?x with _ => _ end) => destruct x
  | |- _ => solve [auto with settles]
  end.

Lemma decode_v2_call_settles router path a l to : settles (decode_v2_call router path a l to).
Proof. by destruct path as [|? [|? ?]]. Qed.
Lemma ur_v2_swap_settles router path a l to : settles (ur_v2_swap router path a l to).
Proof. by destruct path as [|? [|? ?]]. Qed.

Lemma parse_v3_path_settles path : settles (parse_v3_path path).
Proof.
  unfold parse_v3_path. change (20 + 3 + 20)%nat with 43%nat.
  destruct (Nat.ltb_spec (length path) 43) as [|Hl]; [done|].
  rewrite !slice_in by lia. cbn [mbind outcome_bind Nat.add Nat.sub].
  assert (Hlen : length (take 3 (drop 20 path)) = 3%nat) by (rewrite length_take, length_drop; lia).
  destruct (take 3 (drop 20 path)) as [|b0 [|b1 [|b2 [|]]]]; try done.
  cbn [index lookup list_lookup mbind outcome_bind].
  rewrite (path_tokens_exact _ _ 1) by lia. cbn [mbind outcome_bind].
  by destruct (_ <$> _).
Qed.
#[local] Hint Resolve decode_v2_call_settles ur_v2_swap_settles parse_v3_path_settles : settles.

Section Total.
Context {K : Keccak} {A : SolAbi}.

Lemma abi_settles f data : settles (abi f data).
Proof. unfold abi. settle. Qed.
Lemma abi_params_settles ts data : settles (abi_params ts data).
Proof. unfold abi_params. settle. Qed.
#[local] Hint Resolve abi_settles abi_params_settles : settles.

Lemma decode_ur_opcode_settles op input router : settles (decode_ur_opcode op input router).
Proof. unfold decode_ur_opcode. settle. Qed.
#[local] Hint Resolve decode_ur_opcode_settles : settles.

Lemma ur_loop_settles router steps : forall out, settles (ur_commands_loop router steps out).
Proof. induction steps as [|[c i] steps IH]; intros out; cbn [ur_commands_loop]; settle. Qed.
#[local] Hint Resolve ur_loop_settles : settles.

Lemma decode_flat_settles to selector data : settles (decode_flat to selector data).
Proof.
  unfold decode_flat, try_one_inch_v6, try_universal_router, try_decode_single,
    try_uni_v2_family, try_uni_v3_family, try_balancer, try_curve, try_bancor,
    curve_indices_from_int128, curve_indices_from_uint256, index_to_u8. settle.
Qed.

Lemma inner_loop_settles decode calls : (forall d, settles (decode d)) -> forall out,
  settles (inner_calls_loop decode calls out).
Proof.
  intros Hd. induction calls as [|c calls IH]; intros out; cbn [inner_calls_loop]; [done|].
  destruct (_ <? 4)%nat; [apply IH|]. specialize (Hd c).
  destruct (decode c) as [[e|l]|]; [apply IH..|done].
Qed.

Lemma decode_within_settles budget : forall to data, settles (decode_within budget to data).
Proof.
  induction budget as [|budget IH]; intros to data; cbn [decode_within].
  all: destruct (Nat.ltb_spec (length data) 4) as [|Hl]; [done|].
  all: rewrite slice_in by lia; cbn [mbind outcome_bind].
  - apply decode_flat_settles.
  - unfold try_extract_multicall. settle; apply inner_loop_settles || apply decode_flat_settles.
    all: apply IH.
Qed.

(** Whatever the recipient and the bytes of a pending transaction, decoding it
    returns swaps or an error: it terminates and does not panic. *)
Theorem decode_pending_many_total to data : exists r, decode_pending_many to data = Ret r.
Proof.
  assert (settles (decode_pending_many to data)) as H.
  { unfold decode_pending_many. settle. apply decode_within_settles. }
  destruct (decode_pending_many to data) as [r|]; [by exists r|done].
Qed.
End Total.
End RouterDecoder.
