(* ===== verification/HotToken.v ===== *)
(** * The hot-token tracker

    [crates/grpc-server/src/hot_token.rs]: the time-decaying frequency counter
    over unordered token pairs, its ranking, its candidate list and its
    pruning. The lock makes each operation atomic. *)

From Stdlib Require Import ZArith Lia Sorting.Sorted.
From S2P Require Import Prelude.
From S2P Require Import Machine.
From S2P Require Import F64.
From S2P Require Import Types.
From S2P Require Import RouterDecoder.
From stdpp Require Import base option numbers gmap sets list.

Local Open Scope Z_scope.

Module HotToken.

Abbreviation PairKey := (Z * Z)%type (only parsing).

Definition pair_key (a b : Address) : PairKey := if a <=? b then (a, b) else (b, a).

Record HotTokenConfig : Type := mkConfig {
  half_life_secs : f64;
  prune_below_score : f64;
  min_venues : nat;
}.

Definition default_config : HotTokenConfig :=
  mkConfig (f64_of_Z 300) (f64_of_ratio 5 100) 2.

Record PairStat : Type := mkStat {
  score : f64;
  last_update_secs : Z;
  hits : Z;
  venues : list (Z * option Address);
  first_seen_secs : Z;
  last_seen_secs : Z;
}.

Record HotPair : Type := mkPair {
  token_a : Address;
  token_b : Address;
  pair_score : f64;
  pair_hits : Z;
  pair_venues : nat;
  pair_first_seen_secs : Z;
  pair_last_seen_secs : Z;
}.

Definition venue_code (p : RouterDecoder.Protocol) : Z :=
  match p with
  | RouterDecoder.UniswapV2 => 1
  | RouterDecoder.UniswapV3 => 2
  | RouterDecoder.SushiSwap => 3
  | RouterDecoder.Curve => 4
  | RouterDecoder.BalancerV2 => 5
  | RouterDecoder.BancorV3 => 6
  | RouterDecoder.OneInchV6 => 7
  end.

Record HotTokenTracker : Type := mkTracker {
  cfg : HotTokenConfig;
  stats : gmap (Z * Z) PairStat;
}.

Definition new (cfg : HotTokenConfig) : HotTokenTracker := mkTracker cfg ∅.

Section Tracker.
Context `{M : Libm} `{HO : HashOrder} `{B : Build}.

Definition decay_factor (dt_secs : Z) (half_life_secs : f64) : f64 :=
  if f64_le half_life_secs f64_zero then f64_one
  else f64_powf (f64_of_ratio 1 2) (f64_div (f64_of_Z dt_secs) half_life_secs).

(** The score of an entry decayed to [now]. *)
Definition decayed (c : HotTokenConfig) (now : Z) (s : PairStat) : f64 :=
  let dt := u64_saturating_sub now (last_update_secs s) in
  f64_mul (score s) (decay_factor dt (half_life_secs c)).

(** [or_insert_with]: the entry of a pair seen for the first time. *)
Definition fresh_stat (now : Z) : PairStat := mkStat f64_zero now 0 [] now now.

(** The update of the entry in [record]. *)
Definition hit (c : HotTokenConfig) (venue : Z * option Address) (now : Z) (s : PairStat)
    : outcome PairStat :=
  let sc := f64_add (decayed c now s) f64_one in
  let last_update := Z.max (last_update_secs s) now in
  let last_seen := Z.max (last_seen_secs s) now in
  h ← u64_add (hits s) 1;
  let vs := if decide (venue ∈ venues s) then venues s else venues s ++ [venue] in
  Ret (mkStat sc last_update h vs (first_seen_secs s) last_seen).

Definition record (t : HotTokenTracker) (token_in token_out : Address) (protocol : RouterDecoder.Protocol)
    (pool_address : option Address) (now : Z) : outcome HotTokenTracker :=
  if token_in =? token_out then Ret t
  else
    let key := pair_key token_in token_out in
    let venue := (venue_code protocol, pool_address) in
    entry ← hit (cfg t) venue now (default (fresh_stat now) (stats t !! key));
    Ret (mkTracker (cfg t) (<[key := entry]> (stats t))).

Definition get_score (t : HotTokenTracker) (key : PairKey) (now : Z) : f64 :=
  match stats t !! key with Some s => decayed (cfg t) now s | None => f64_zero end.

Definition len (t : HotTokenTracker) : nat := size (stats t).
Definition is_empty (t : HotTokenTracker) : bool := (len t =? 0)%nat.

Definition hot_pair (c : HotTokenConfig) (now : Z) (ks : PairKey * PairStat) : HotPair :=
  let '((a, b), s) := ks in
  mkPair a b (decayed c now s) (hits s) (length (venues s)) (first_seen_secs s)
    (last_seen_secs s).

Definition ranked (t : HotTokenTracker) (now : Z) : list HotPair :=
  sort_by (desc pair_score) (hot_pair (cfg t) now <$> map_iter (stats t)).

Definition candidates (t : HotTokenTracker) (now : Z) (n : nat) : list HotPair :=
  take n (filter (fun p => min_venues (cfg t) <= pair_venues p)%nat (ranked t now)).

Definition prune (t : HotTokenTracker) (now : Z) : HotTokenTracker * nat :=
  let before := size (stats t) in
  let kept := filter (fun ks : PairKey * PairStat =>
    f64_ge (decayed (cfg t) now ks.2) (prune_below_score (cfg t)) = true) (stats t) in
  (mkTracker (cfg t) kept, (before - size kept)%nat).

(** ** What the table says of the swaps it was fed *)

Record swap : Type := mkSwap {
  sw_in : Address;
  sw_out : Address;
  sw_protocol : RouterDecoder.Protocol;
  sw_pool : option Address;
  sw_time : Z;
}.

Fixpoint feed (t : HotTokenTracker) (h : list swap) : outcome HotTokenTracker :=
  match h with
  | [] => Ret t
  | e :: h => t' ← record t (sw_in e) (sw_out e) (sw_protocol e) (sw_pool e) (sw_time e);
              feed t' h
  end.

Definition venue_of (e : swap) : Z * option Address := (venue_code (sw_protocol e), sw_pool e).

(** The swaps of a history that count for the pair [k]. *)
Definition swaps_of (k : PairKey) (h : list swap) : list swap :=
  filter (fun e => sw_in e <> sw_out e /\ pair_key (sw_in e) (sw_out e) = k) h.

(** The entry of a pair after the swaps [es], oldest first. *)
Record tracks (es : list swap) (s : PairStat) : Prop := {
  tr_hits : hits s = Z.of_nat (length es);
  tr_venues : NoDup (venues s);
  tr_venue : forall v, v ∈ venues s <-> exists e, e ∈ es /\ venue_of e = v;
  tr_first : sw_time <$> head es = Some (first_seen_secs s);
  tr_last : last_seen_secs s ∈ sw_time <$> es;
  tr_last_max : Forall (fun e => sw_time e <= last_seen_secs s) es;
  tr_update : last_update_secs s = last_seen_secs s;
}.

Lemma pair_key_comm a b : pair_key a b = pair_key b a.
Proof. unfold pair_key. destruct (Z.leb_spec a b), (Z.leb_spec b a); f_equal; lia. Qed.

Lemma pair_key_sorted a b : a <> b -> (pair_key a b).1 < (pair_key a b).2.
Proof. unfold pair_key. intros. destruct (Z.leb_spec a b); simpl; lia. Qed.

Lemma hit_fresh c e now : now = sw_time e ->
  exists s', hit c (venue_of e) now (fresh_stat now) = Ret s' /\ tracks [e] s'.
Proof.
  intros ->. unfold hit, fresh_stat. cbn [hits venues score last_update_secs last_seen_secs
    first_seen_secs]. rewrite u64_add_exact by (unfold in_u; lia). eexists. split; [reflexivity|].
  rewrite decide_False by set_solver. split; simpl; try done; try lia.
  - apply NoDup_singleton.
  - set_solver.
  - rewrite Z.max_id. by left.
  - by rewrite Z.max_id; constructor.
Qed.

Lemma hit_tracks c e es s : tracks es s -> Z.of_nat (length es) < 2 ^ 64 - 1 ->
  exists s', hit c (venue_of e) (sw_time e) s = Ret s' /\ tracks (es ++ [e]) s'.
Proof.
  intros [Hh Hn Hv Hf Hl Hm Hu] Hb. unfold hit.
  rewrite u64_add_exact by (unfold in_u; lia). eexists. split; [reflexivity|].
  split; cbn [hits venues score last_update_secs last_seen_secs first_seen_secs].
  - rewrite length_app, Hh. simpl. lia.
  - case_decide; [done|]. apply NoDup_app. split_and!; [done|set_solver|apply NoDup_singleton].
  - intros v. transitivity (v ∈ venues s \/ v = venue_of e).
    + case_decide as Hd; [|by rewrite elem_of_app, list_elem_of_singleton].
      split; [auto|]. by intros [? | ->].
    + rewrite Hv. split.
      * intros [(e0 & He0 & <-) | ->]; [exists e0|exists e]; set_solver.
      * intros (e0 & [He0|He0]%elem_of_app & <-); [left; eauto|].
        apply list_elem_of_singleton in He0 as ->. by right.
  - by destruct es.
  - rewrite fmap_app, elem_of_app. simpl.
    destruct (Z.max_spec (last_seen_secs s) (sw_time e)) as [[_ ->]|[_ ->]]; set_solver.
  - apply Forall_app. split; [|constructor; [lia|done]].
    eapply Forall_impl; [exact Hm|]. simpl. lia.
  - by rewrite Hu.
Qed.

Definition table_ok (t : HotTokenTracker) (h : list swap) : Prop :=
  forall k, match stats t !! k with
            | Some s => k.1 < k.2 /\ tracks (swaps_of k h) s
            | None => swaps_of k h = []
            end.

Lemma swaps_of_snoc k h e :
  swaps_of k (h ++ [e]) =
  swaps_of k h ++ (if decide (sw_in e <> sw_out e /\ pair_key (sw_in e) (sw_out e) = k)
                   then [e] else []).
Proof. unfold swaps_of. by rewrite filter_app. Qed.

Lemma swaps_of_length k h : (length (swaps_of k h) <= length h)%nat.
Proof. apply length_filter. Qed.

Lemma record_table t h e : table_ok t h -> Z.of_nat (length h) < 2 ^ 64 - 1 ->
  exists t', record t (sw_in e) (sw_out e) (sw_protocol e) (sw_pool e) (sw_time e) = Ret t' /\
    cfg t' = cfg t /\ table_ok t' (h ++ [e]).
Proof.
  intros Ht Hb. unfold record. fold (venue_of e).
  destruct (Z.eqb_spec (sw_in e) (sw_out e)) as [Heq|Hne].
  { exists t. split_and!; [done..|]. intros k. specialize (Ht k).
    rewrite swaps_of_snoc, decide_False, app_nil_r by naive_solver. done. }
  set (key := pair_key (sw_in e) (sw_out e)).
  assert (Hhit : exists s', hit (cfg t) (venue_of e) (sw_time e)
      (default (fresh_stat (sw_time e)) (stats t !! key)) = Ret s' /\
      tracks (swaps_of key (h ++ [e])) s').
  { rewrite swaps_of_snoc, decide_True by done. specialize (Ht key).
    destruct (stats t !! key) as [s|]; simpl.
    - destruct Ht as [_ Ht]. apply hit_tracks; [done|].
      pose proof (swaps_of_length key h). lia.
    - rewrite Ht. by apply hit_fresh. }
  destruct Hhit as (s' & -> & Hs'). eexists. split; [reflexivity|]. split; [done|].
  intros k. simpl. destruct (decide (k = key)) as [->|Hk].
  - rewrite lookup_insert_eq. split; [|done]. by apply pair_key_sorted.
  - rewrite lookup_insert_ne, swaps_of_snoc, decide_False, app_nil_r by naive_solver. apply Ht.
Qed.

Lemma feed_table h : forall t h0, table_ok t h0 -> Z.of_nat (length (h0 ++ h)) < 2 ^ 64 ->
  exists t', feed t h = Ret t' /\ cfg t' = cfg t /\ table_ok t' (h0 ++ h).
Proof.
  induction h as [|e h IH]; intros t h0 Ht Hb; simpl.
  { exists t. by rewrite app_nil_r. }
  rewrite length_app in Hb. simpl in Hb.
  destruct (record_table t h0 e Ht ltac:(lia)) as (t1 & -> & Hc & Ht1). simpl.
  destruct (IH t1 (h0 ++ [e]) Ht1) as (t2 & E & Hc2 & Ht2).
  { rewrite !length_app. simpl. lia. }
  exists t2. rewrite <- app_assoc in Ht2. split_and!; [done|congruence|done].
Qed.

Lemma table_ok_new c : table_ok (new c) [].
Proof. intros k. simpl. by rewrite lookup_empty. Qed.

(** The table is the history by pair: fed any swaps, the tracker does
    not panic, holds an entry for exactly the pairs that were traded (under
    their ordered key, self-swaps excluded), and the entry counts the pair's
    swaps in either direction, lists each venue once, and has the times of the
    first swap to arrive and of the latest one, whatever the order of the
    clock. *)
Theorem hot_token_history c h :
  Z.of_nat (length h) < 2 ^ 64 ->
  exists t, feed (new c) h = Ret t /\ cfg t = c /\
    forall k, match stats t !! k with
              | Some s => k.1 < k.2 /\ tracks (swaps_of k h) s
              | None => swaps_of k h = []
              end.
Proof. intros Hb. apply (feed_table h (new c) [] (table_ok_new c) Hb). Qed.

(** ** Ranking *)

Lemma ranked_elem t now p :
  p ∈ ranked t now <->
  exists a b s, stats t !! (a, b) = Some s /\ p = hot_pair (cfg t) now ((a, b), s).
Proof.
  unfold ranked. rewrite elem_of_sort_by, list_elem_of_fmap. split.
  - intros ([[a b] s] & -> & H%elem_of_map_iter). eauto.
  - intros (a & b & s & H & ->). exists ((a, b), s). split; [done|]. by apply elem_of_map_iter.
Qed.

Lemma ranked_length t now : length (ranked t now) = len t.
Proof.
  unfold ranked, len. rewrite sort_by_length, length_fmap, map_iter_perm.
  apply length_map_to_list.
Qed.

Lemma StronglySorted_filter {A} (R : A -> A -> Prop) (P : A -> Prop) `{!forall x, Decision (P x)} l :
  StronglySorted R l -> StronglySorted R (filter P l).
Proof.
  induction 1 as [|a l Hs IH Ha]; [constructor|]. rewrite filter_cons. case_decide; [|done].
  constructor; [done|]. rewrite Forall_forall in *. intros x Hx.
  apply Ha. by apply list_elem_of_filter in Hx as [_ Hx].
Qed.

(** The candidate list is the top of the ranking: each candidate is a
    tracked pair with at least [min_venues] venues, scored as of now, best
    first; there are [n] of them or all that qualify; and a qualifying pair
    that is left out scores no higher than any candidate. *)
Theorem hot_token_candidates_best t now n :
  Forall (keyed pair_score) (ranked t now) ->
  StronglySorted (flip (key_le pair_score)) (candidates t now n) /\
  (forall p, p ∈ candidates t now n ->
     (min_venues (cfg t) <= pair_venues p)%nat /\
     pair_score p = get_score t (token_a p, token_b p) now) /\
  exists left_out,
    candidates t now n ++ left_out
      ≡ₚ filter (fun p => min_venues (cfg t) <= pair_venues p)%nat (ranked t now) /\
    (left_out = [] \/ length (candidates t now n) = n) /\
    Forall (fun p => Forall (key_le pair_score p) (candidates t now n)) left_out.
Proof.
  intros Hk. unfold candidates. set (q := filter _ (ranked t now)).
  assert (Hs : StronglySorted (flip (key_le pair_score)) q).
  { apply StronglySorted_filter, sort_desc_sorted. unfold ranked in Hk.
    by rewrite sort_by_perm in Hk. }
  destruct (take_best pair_score q n Hs) as (Ht & lo & Hlo & Hn & Hf). split; [done|]. split.
  - intros p Hp. assert (Hq : p ∈ q) by (rewrite <- Hlo; set_solver).
    apply list_elem_of_filter in Hq as [Hm Hr]. split; [done|].
    apply ranked_elem in Hr as (a & b & s & E & ->). simpl. unfold get_score. by rewrite E.
  - exists lo. by rewrite Hlo.
Qed.

(** Pruning removes exactly the cold pairs: an entry survives, unchanged,
    iff its score decayed to now is at least the floor, and the result is the
    number of entries removed. *)
Theorem hot_token_prune_exact t now k s :
  let '(t', n) := prune t now in
  (stats t' !! k = Some s <->
   stats t !! k = Some s /\ f64_le (prune_below_score (cfg t)) (get_score t k now) = true) /\
  (len t = n + len t')%nat.
Proof.
  unfold prune, len. simpl. split.
  - rewrite map_lookup_filter_Some. simpl. unfold get_score, f64_ge.
    split; intros [H1 H2]; split; try done; rewrite H1 in *; done.
  - set (kept := filter _ (stats t)).
    assert (size kept <= size (stats t))%nat
      by (apply map_subseteq_size, map_filter_subseteq).
    lia.
Qed.
End Tracker.

(** ** Concrete values *)

(** A stand-in for the library's power function at whole half-lives. *)
Definition halving_libm : Libm := {|
  f64_ln := fun x => x;
  f64_exp := fun x => x;
  f64_powi := fun x _ => x;
  f64_powf := fun x y => Z.iter (f64_as_i64 y) (f64_mul x) f64_one;
|}.

(** Three swaps of one pair on two venues, one of another, and a self-swap;
    the clock steps back once. *)
Definition sample_swaps : list swap :=
  [mkSwap 10 20 RouterDecoder.UniswapV2 None 1000; mkSwap 20 10 RouterDecoder.UniswapV3 (Some 7) 1300;
   mkSwap 10 20 RouterDecoder.UniswapV2 None 1200; mkSwap 30 10 RouterDecoder.SushiSwap None 1300;
   mkSwap 5 5 RouterDecoder.Curve None 1300].

Definition sample_tracker : HotTokenTracker :=
  match feed (M:=halving_libm) (B:=release) (new default_config) sample_swaps with
  | Ret t => t | Panic => new default_config end.

Lemma hot_token_history_witness :
  stats sample_tracker !! (10, 20)
    = Some (mkStat (f64_of_ratio 5 2) 1300 3 [(1, None); (2, Some 7)] 1000 1300) /\
  exists t, feed (M:=halving_libm) (B:=release) (new default_config) sample_swaps = Ret t /\
    cfg t = default_config /\
    forall k, match stats t !! k with
              | Some s => k.1 < k.2 /\ tracks (swaps_of k sample_swaps) s
              | None => swaps_of k sample_swaps = []
              end.
Proof.
  split; [vm_compute; reflexivity|].
  apply (hot_token_history (M:=halving_libm) (B:=release) default_config sample_swaps).
  vm_compute. reflexivity.
Defined.

Lemma hot_token_candidates_best_witness :
  token_a <$> candidates (M:=halving_libm) (HO:=canonical_order) sample_tracker 1600 5 = [10] /\
  exists left_out,
    candidates (M:=halving_libm) (HO:=canonical_order) sample_tracker 1600 5 ++ left_out
      ≡ₚ filter (fun p => min_venues (cfg sample_tracker) <= pair_venues p)%nat
           (ranked (M:=halving_libm) (HO:=canonical_order) sample_tracker 1600).
Proof.
  split; [vm_compute; reflexivity|].
  destruct (hot_token_candidates_best (M:=halving_libm) (HO:=canonical_order)
    sample_tracker 1600 5) as (_ & _ & l & H & _); [|by exists l].
  vm_compute. repeat constructor.
Defined.

End HotToken.
