(* ===== verification/V2ReservesCache.v ===== *)
(** * The V2 reserves cache

    [crates/simulator/src/v2_reserves_cache.rs]: the packed reserves slot of a
    UniswapV2 pair and the cache of the latest reserves per pool that the
    [Sync] event stream feeds. The concurrent map makes each operation on a key
    atomic. *)

From Stdlib Require Import ZArith Lia.
From S2P Require Import Prelude.
From S2P Require Import Machine.
From S2P Require Import Types.
From stdpp Require Import base option numbers gmap list.

Local Open Scope Z_scope.

Module V2ReservesCache.

Definition RESERVE1_SHIFT : Z := 112.

(** [U256]'s [<<] drops the bits shifted out. *)
Definition u256_shl (a n : Z) : Z := Z.shiftl a n mod 2 ^ 256.

Definition uint112_mask : Z := u256_shl 1 112 - 1.

Definition unpack_slot8 (slot : Z) : Z * Z :=
  let r0 := Z.land slot uint112_mask in
  let r1 := Z.land (Z.shiftr slot RESERVE1_SHIFT) uint112_mask in
  (r0, r1).

Record ReserveSnapshot : Type := mkSnap {
  reserve0 : Z;
  reserve1 : Z;
  block_number : Z;
}.

Definition pack_slot8 (s : ReserveSnapshot) : Z :=
  let r0 := Z.land (reserve0 s) uint112_mask in
  let r1 := Z.land (reserve1 s) uint112_mask in
  Z.lor r0 (u256_shl r1 RESERVE1_SHIFT).

Abbreviation V2ReservesCache := (gmap Z ReserveSnapshot).

Definition new : V2ReservesCache := ∅.
Definition len (c : V2ReservesCache) : nat := size c.
Definition is_empty (c : V2ReservesCache) : bool := (len c =? 0)%nat.

Definition record (c : V2ReservesCache) (pool reserve0 reserve1 block : Z) : V2ReservesCache :=
  match c !! pool with
  | Some existing =>
      if block_number existing <=? block
      then <[pool := mkSnap reserve0 reserve1 block]> c
      else c
  | None => <[pool := mkSnap reserve0 reserve1 block]> c
  end.

Definition get (c : V2ReservesCache) (pool : Z) : option ReserveSnapshot := c !! pool.

Inductive V2CacheLookup : Type := Fresh (s : ReserveSnapshot) | Stale | Missing.

Definition get_fresh_status (c : V2ReservesCache) (pool target_block max_lag : Z)
    : V2CacheLookup :=
  match get c pool with
  | None => Missing
  | Some snap =>
      let oldest_acceptable := u64_saturating_sub target_block max_lag in
      if oldest_acceptable <=? block_number snap then Fresh snap else Stale
  end.

Definition get_fresh (c : V2ReservesCache) (pool target_block max_lag : Z)
    : option ReserveSnapshot :=
  match get_fresh_status c pool target_block max_lag with
  | Fresh snap => Some snap
  | Stale | Missing => None
  end.

(** ** The packed slot *)

Lemma mask_ones : uint112_mask = Z.ones 112.
Proof. reflexivity. Qed.

Lemma land_mask r : Z.land r uint112_mask = r mod 2 ^ 112.
Proof. rewrite mask_ones. by apply Z.land_ones. Qed.

Lemma mod112_range r : 0 <= r mod 2 ^ 112 < 2 ^ 112.
Proof. by apply Z.mod_pos_bound. Qed.

(** The halves do not overlap, so the slot is their sum in base [2 ^ 112]. *)
Lemma pack_sum a b : 0 <= a < 2 ^ 112 -> 0 <= b < 2 ^ 112 ->
  Z.lor a (u256_shl b RESERVE1_SHIFT) = a + b * 2 ^ 112.
Proof.
  intros Ha Hb. unfold u256_shl, RESERVE1_SHIFT. rewrite Z.shiftl_mul_pow2 by lia.
  rewrite Z.mod_small by (change (2 ^ 256) with (2 ^ 144 * 2 ^ 112); nia).
  rewrite <- (Z.shiftl_mul_pow2 b 112), lor_shiftl_add by lia. by rewrite Z.shiftl_mul_pow2.
Qed.

Lemma pack_slot8_eq s :
  pack_slot8 s = reserve0 s mod 2 ^ 112 + reserve1 s mod 2 ^ 112 * 2 ^ 112.
Proof.
  unfold pack_slot8. rewrite !land_mask. apply pack_sum; apply mod112_range.
Qed.

Lemma unpack_slot8_eq slot :
  unpack_slot8 slot = (slot mod 2 ^ 112, slot / 2 ^ 112 mod 2 ^ 112).
Proof. unfold unpack_slot8. by rewrite !land_mask, Z.shiftr_div_pow2. Qed.

(** Packing and unpacking are inverse up to the fields they carry: the
    packed slot has its two reserves at bits 0 and 112 and a zero timestamp,
    unpacking it gives the reserves back (cut to the 112 bits of the slot),
    and unpacking any slot a node returns and packing it again changes the
    timestamp field only. *)
Theorem slot8_round_trip s slot b : 0 <= slot ->
  unpack_slot8 (pack_slot8 s) = (reserve0 s mod 2 ^ 112, reserve1 s mod 2 ^ 112) /\
  in_u 224 (pack_slot8 s) /\
  pack_slot8 (mkSnap (unpack_slot8 slot).1 (unpack_slot8 slot).2 b) = slot mod 2 ^ 224.
Proof.
  intros Hs. rewrite !pack_slot8_eq, !unpack_slot8_eq. simpl reserve0. simpl reserve1. simpl fst.
  pose proof (mod112_range (reserve0 s)). pose proof (mod112_range (reserve1 s)).
  split; [|split].
  - rewrite Z.add_comm, Z.div_add_l, (Z.div_small (_ mod _)) by lia.
    rewrite Z.add_0_r, Z.add_comm, Z_mod_plus_full, !Zmod_mod. done.
  - unfold in_u. change (2 ^ 224) with (2 ^ 112 * 2 ^ 112). nia.
  - simpl. rewrite !Zmod_mod. change (2 ^ 224) with (2 ^ 112 * 2 ^ 112).
    rewrite Z.rem_mul_r by lia. lia.
Qed.

(** ** Newest wins *)

Record sync : Type := mkSync { pool : Z; snap : ReserveSnapshot }.

Definition apply (c : V2ReservesCache) (e : sync) : V2ReservesCache :=
  record c (pool e) (reserve0 (snap e)) (reserve1 (snap e)) (block_number (snap e)).

Definition replay (h : list sync) : V2ReservesCache := foldl apply new h.

(** The event of [p] that no later event of [p] reaches the block of, and no
    earlier one exceeds. *)
Definition newest (h : list sync) (p : Z) (s : ReserveSnapshot) : Prop :=
  exists before after, h = before ++ mkSync p s :: after /\
    Forall (fun e => pool e = p -> block_number (snap e) <= block_number s) before /\
    Forall (fun e => pool e = p -> block_number (snap e) < block_number s) after.

Lemma apply_other c e p : pool e <> p -> apply c e !! p = c !! p.
Proof.
  intros H. unfold apply, record. destruct (c !! pool e); [destruct (_ <=? _)|];
    by rewrite ?lookup_insert_ne.
Qed.

Lemma apply_same c e :
  apply c e !! pool e = Some
    (match c !! pool e with
     | Some old => if block_number old <=? block_number (snap e) then snap e else old
     | None => snap e
     end).
Proof.
  unfold apply, record. destruct e as [p [r0 r1 b]]. simpl.
  destruct (c !! p) as [old|] eqn:E; [destruct (_ <=? _); [|done]|];
    by rewrite lookup_insert_eq.
Qed.

Lemma newest_snoc h e p s : newest h p s ->
  pool e <> p \/ block_number (snap e) < block_number s -> newest (h ++ [e]) p s.
Proof.
  intros (l1 & l2 & -> & H1 & H2) He. exists l1, (l2 ++ [e]). split; [by rewrite <- app_assoc|].
  split; [done|]. apply Forall_app. split; [done|]. constructor; [|done]. naive_solver.
Qed.

Lemma newest_max h p s : newest h p s ->
  Forall (fun e => pool e = p -> block_number (snap e) <= block_number s) h.
Proof.
  intros (l1 & l2 & -> & H1 & H2). apply Forall_app. split; [done|].
  constructor; [naive_solver|]. eapply Forall_impl; [exact H2|]. intros e He Hp.
  specialize (He Hp). lia.
Qed.

Lemma replay_lookup h : forall p,
  match replay h !! p with
  | Some s => newest h p s
  | None => Forall (fun e => pool e <> p) h
  end.
Proof.
  induction h as [|e h IH] using rev_ind; intros p; [constructor|].
  unfold replay in *. rewrite foldl_snoc. specialize (IH p).
  destruct (decide (pool e = p)) as [Hp|Hne].
  - subst p. rewrite apply_same. destruct (foldl apply new h !! pool e) as [old|].
    + destruct (Z.leb_spec (block_number old) (block_number (snap e))).
      * exists h, []. destruct e as [p s]. simpl in *. split; [done|]. split; [|done].
        eapply Forall_impl; [by apply newest_max|]. simpl. intros x Hx Hxp. specialize (Hx Hxp). lia.
      * apply newest_snoc; [done|]. right. lia.
    + exists h, []. destruct e as [p s]. simpl in *. split; [done|]. split; [|done].
      eapply Forall_impl; [exact IH|]. simpl. naive_solver.
  - rewrite apply_other by done. destruct (foldl apply new h !! p) as [s|].
    + apply newest_snoc; auto.
    + apply Forall_app. split; [done|]. by constructor.
Qed.

(** The cache holds the newest reserves whatever the order of arrival:
    after any sequence of [Sync] events the entry of a pool is its event of the
    highest block (the last to arrive among those of that block), a pool with
    no event is missing, and a lookup is served only when its block is at most
    [max_lag] behind the target. *)
Theorem reserves_newest_wins h p target max_lag :
  Forall (fun e => in_u 64 (block_number (snap e))) h -> in_u 64 target -> in_u 64 max_lag ->
  match get_fresh_status (replay h) p target max_lag with
  | Fresh s => newest h p s /\ target <= block_number s + max_lag
  | Stale => exists s, newest h p s /\ block_number s + max_lag < target
  | Missing => Forall (fun e => pool e <> p) h
  end.
Proof.
  intros Hb Ht Hl. unfold get_fresh_status, get. pose proof (replay_lookup h p) as H.
  destruct (replay h !! p) as [s|]; [|done].
  assert (Hs : in_u 64 (block_number s)).
  { destruct H as (l1 & l2 & -> & _). apply Forall_app in Hb as [_ Hb]. by inversion Hb. }
  unfold u64_saturating_sub, saturate. unfold in_u in *.
  destruct (Z.leb_spec (Z.max 0 (Z.min (target - max_lag) (2 ^ 64 - 1))) (block_number s)).
  - split; [done|]. lia.
  - exists s. split; [done|]. lia.
Qed.

(** ** Concrete values *)

Lemma slot8_round_trip_witness :
  unpack_slot8 (pack_slot8 (mkSnap 1000 2000 17)) = (1000 mod 2 ^ 112, 2000 mod 2 ^ 112) /\
  in_u 224 (pack_slot8 (mkSnap 1000 2000 17)) /\
  pack_slot8 (mkSnap (unpack_slot8 (2 ^ 230 + 7)).1 (unpack_slot8 (2 ^ 230 + 7)).2 17)
    = (2 ^ 230 + 7) mod 2 ^ 224.
Proof. apply (slot8_round_trip (mkSnap 1000 2000 17) (2 ^ 230 + 7) 17). lia. Defined.

(** A delayed event of block 9 arrives after the one of block 10. *)
Definition delayed : list sync :=
  [mkSync 1 (mkSnap 5 6 8); mkSync 1 (mkSnap 7 8 10); mkSync 1 (mkSnap 1 1 9)].

Lemma reserves_newest_wins_witness :
  get_fresh_status (replay delayed) 1 11 1 = Fresh (mkSnap 7 8 10) /\
  newest delayed 1 (mkSnap 7 8 10) /\ 11 <= 10 + 1.
Proof.
  split; [reflexivity|].
  apply (reserves_newest_wins delayed 1 11 1); [repeat constructor|split; lia..];
    simpl; lia.
Defined.

End V2ReservesCache.
