(* ===== verification/Revm.v ===== *)
(** * The EVM and its forked state

    The parts of the revm crate the simulator uses, as the class [Revm]: the
    cached database of a fork, its reads and writes, and the execution of a
    transaction. The crate is code outside the repository; [cache_laws] states
    its documented behaviour where a theorem needs it. The forked states are
    those of [crates/simulator/src/fork.rs]. *)

From Stdlib Require Import ZArith Lia String Ascii.
From S2P Require Import Prelude.
From S2P Require Import Machine.
From S2P Require Import Types.
From S2P Require Import Bytes.
From S2P Require Import Keccak.
From stdpp Require Import base option numbers strings gmap list.

Local Open Scope Z_scope.

(** [alloy::hex::encode]: two lower-case digits per byte. *)
Definition hex_char (n : Z) : ascii :=
  ascii_of_nat (Z.to_nat (if n <? 10 then 48 + n else 87 + n)).
Definition hex_encode (bs : list Z) : string :=
  string_of_list_ascii (b ← bs; [hex_char (b / 16); hex_char (b mod 16)]).

Module Revm.

Record AccountInfo : Type := mkInfo {
  balance : Z;
  nonce : Z;
  code_hash : Z;
  code : option (list Z);
}.

(** An account in the result of a transaction, with the present values of the
    slots it touched. *)
Record Account : Type := mkAccount {
  info : AccountInfo;
  storage : gmap Z Z;
  is_selfdestructed : bool;
}.

Abbreviation EvmState := (gmap Z Account) (only parsing).

Inductive Output : Type :=
| OutCall (data : list Z)
| OutCreate (data : list Z) (address : option Address).

(** [Output::into_data]. *)
Definition into_data (o : Output) : list Z :=
  match o with OutCall data | OutCreate data _ => data end.

(** A halt by the debug form of its reason. *)
Inductive ExecutionResult : Type :=
| Success (gas_used : Z) (output : Output)
| Revert (gas_used : Z) (output : list Z)
| Halt (reason : string) (gas_used : Z).

(** An error by its text: a failed database read, or anything else. *)
Inductive EVMError : Type :=
| ErrDatabase (e : string)
| ErrOther (e : string).

Definition error_text (e : EVMError) : string :=
  match e with ErrDatabase s | ErrOther s => s end.

Record BlockEnv : Type := mkBlock { number : Z; timestamp : Z; basefee : Z }.

Record CfgEnv : Type := mkCfg {
  cfg_chain_id : Z;
  disable_nonce_check : bool;
  disable_balance_check : bool;
  disable_base_fee : bool;
  disable_eip3607 : bool;
}.

Inductive TxKind : Type := Call (to : Address) | Create.

Record TxEnv : Type := mkTx {
  caller : Address;
  kind : TxKind;
  tx_data : list Z;
  tx_value : Z;
  tx_gas_limit : Z;
  gas_price : Z;
  tx_nonce : Z;
  tx_chain_id : Z;
}.

(** A transaction returns the database it read through and, unless the EVM
    itself fails, a result with the accounts it touched. [cached_info] reads
    only what is already in the cache. *)
Class Revm : Type := {
  Db : Type;
  empty_db : Db;
  storage_ref : Db -> Address -> Z -> option Z;
  cached_info : Db -> Address -> option AccountInfo;
  insert_account_storage : Db -> Address -> Z -> Z -> Db;
  insert_account_info : Db -> Address -> AccountInfo -> Db;
  insert_contract : Db -> Z -> list Z -> Db;
  transact : Db -> CfgEnv -> BlockEnv -> TxEnv -> Db * (EVMError + ExecutionResult * EvmState);
  commit : Db -> EvmState -> Db;
}.

Section Fork.
Context `{E : Revm} `{K : Keccak} `{HO : HashOrder}.

(** [transact_commit]: the touched accounts are written back. *)
Definition transact_commit (d : Db) (cfg : CfgEnv) (blk : BlockEnv) (tx : TxEnv)
    : Db * (EVMError + ExecutionResult) :=
  match transact d cfg blk tx with
  | (d, inl e) => (d, inl e)
  | (d, inr (r, touched)) => (commit d touched, inr r)
  end.

(** The commit loop the simulator writes out: the accounts that were not
    destroyed, in the order of the map. *)
Definition commit_account (d : Db) (entry : Z * Account) : Db :=
  let '(a, acc) := entry in
  if is_selfdestructed acc then d
  else foldl (fun d (kv : Z * Z) => insert_account_storage d a kv.1 kv.2)
         (insert_account_info d a (info acc)) (map_iter (storage acc)).

Definition commit_all (d : Db) (touched : EvmState) : Db := foldl commit_account d (map_iter touched).

(** [storage_ref(..).unwrap_or_default()]. *)
Definition read (d : Db) (a : Address) (key : Z) : Z := default 0 (storage_ref d a key).

(** The present value of a slot among the accounts a transaction touched. *)
Definition present_value (touched : EvmState) (a : Address) (key fallback : Z) : Z :=
  default fallback (acc ← touched !! a; storage acc !! key).

(** [ForkedState] differs only in the database behind the cache. *)
Record RpcForkedState : Type := mkState {
  db : Db;
  block_number : Z;
  block_timestamp : Z;
  base_fee : Z;
  chain_id : Z;
}.

(** The block a fork reads its state at. *)
Inductive BlockId : Type := BlockNumber (n : Z) | Latest.

(** [fork id]: the cache over an RPC database at [id]; [None] outside a
    multi-threaded runtime. *)
Definition rpc_state_new (fork : BlockId -> option Db) (block_number block_timestamp base_fee : Z)
    : option RpcForkedState :=
  d ← fork (BlockNumber block_number);
  Some (mkState d block_number block_timestamp base_fee 1).

Definition rpc_state_new_at_latest (fork : BlockId -> option Db)
    (block_number block_timestamp base_fee : Z) : option RpcForkedState :=
  d ← fork Latest;
  Some (mkState d block_number block_timestamp base_fee 1).

Definition new_empty (block_number block_timestamp base_fee : Z) : RpcForkedState :=
  mkState empty_db block_number block_timestamp base_fee 1.

Definition with_db (st : RpcForkedState) (d : Db) : RpcForkedState :=
  mkState d (block_number st) (block_timestamp st) (base_fee st) (chain_id st).

(** The digest of the empty string. *)
Definition KECCAK_EMPTY : Z := 0xc5d2460186f7233c927e7db2dcc703c0e500b653ca82273b7bfad8045d85a470.

Definition insert_account (st : RpcForkedState) (address : Address) (balance : Z) (code : list Z)
    : RpcForkedState :=
  with_db st (insert_account_info (db st) address (mkInfo balance 0 (keccak256 code) (Some code))).

Definition insert_account_with_nonce (st : RpcForkedState) (address : Address) (balance nonce : Z)
    : RpcForkedState :=
  with_db st (insert_account_info (db st) address (mkInfo balance nonce KECCAK_EMPTY None)).

Definition insert_account_balance (st : RpcForkedState) (address : Address) (balance : Z)
    : RpcForkedState :=
  insert_account_with_nonce st address balance 0.

Definition insert_storage (st : RpcForkedState) (address : Address) (slot value : Z) : RpcForkedState :=
  with_db st (insert_account_storage (db st) address slot value).

Definition get_account (st : RpcForkedState) (address : Address) : option AccountInfo :=
  cached_info (db st) address.

Definition block_env (st : RpcForkedState) : BlockEnv :=
  mkBlock (block_number st) (block_timestamp st) (base_fee st).

(** The balance key of [holder] in a Solidity mapping at [mapping_slot]:
    [keccak256(pad32(holder) ++ pad32(slot))]. *)
Definition erc20_balance_key (holder : Address) (mapping_slot : Z) : Z :=
  keccak256 (repeat 0 12 ++ to_be 20 holder ++ to_be 32 mapping_slot).

(** ** What the theorems rely on *)

(** The database keeps what is written to it, slot by slot; bytecode, account
    data and the reads of a transaction do not change a slot; a commit writes
    the slots the transaction touched and no other slot of a live account. *)
Record cache_laws : Prop := {
  storage_same : forall d a k v, storage_ref (insert_account_storage d a k v) a k = Some v;
  storage_other : forall d a k v a' k', (a, k) <> (a', k') ->
    storage_ref (insert_account_storage d a k v) a' k' = storage_ref d a' k';
  storage_of_info : forall d a i a' k', storage_ref (insert_account_info d a i) a' k' = storage_ref d a' k';
  storage_of_contract : forall d h c a k, storage_ref (insert_contract d h c) a k = storage_ref d a k;
  storage_committed : forall d touched a acc k v, touched !! a = Some acc ->
    is_selfdestructed acc = false -> storage acc !! k = Some v ->
    storage_ref (commit d touched) a k = Some v;
  storage_uncommitted : forall d touched a k,
    (forall acc, touched !! a = Some acc -> is_selfdestructed acc = false /\ storage acc !! k = None) ->
    storage_ref (commit d touched) a k = storage_ref d a k;
  storage_transact : forall d cfg blk tx a k,
    storage_ref (transact d cfg blk tx).1 a k = storage_ref d a k;
}.

(** An account is still there after a transaction. *)
Definition survives (touched : EvmState) (a : Address) : Prop :=
  forall acc, touched !! a = Some acc -> is_selfdestructed acc = false.

(** No transaction destroys the account. *)
Definition durable (a : Address) : Prop :=
  forall d cfg blk tx d' r touched, transact d cfg blk tx = (d', inr (r, touched)) -> survives touched a.

(** The present value among the touched accounts is what the committed
    database reads. *)
Lemma read_commit d touched a k : cache_laws -> survives touched a ->
  read (commit d touched) a k = present_value touched a k (read d a k).
Proof.
  intros L Hs. unfold read, present_value. destruct (touched !! a) as [acc|] eqn:Ha; cbn [mbind option_bind].
  - destruct (storage acc !! k) as [v|] eqn:Hk; cbn [default].
    + by rewrite (storage_committed L d touched a acc k v Ha (Hs _ Ha) Hk).
    + rewrite (storage_uncommitted L); [done|]. intros acc' Ha'. rewrite Ha in Ha'. injection Ha' as <-.
      split; [by apply Hs|done].
  - rewrite (storage_uncommitted L); [done|]. intros acc Ha'. by rewrite Ha in Ha'.
Qed.

(** The commit loop does the same. *)
Lemma commit_account_other d b acc a k : cache_laws -> a <> b ->
  storage_ref (commit_account d (b, acc)) a k = storage_ref d a k.
Proof.
  intros L Hne. unfold commit_account. destruct (is_selfdestructed acc); [done|].
  rewrite <- (storage_of_info L d b (info acc)). generalize (insert_account_info d b (info acc)).
  induction (map_iter (storage acc)) as [|[k' v] l IH]; intros d'; [done|]. cbn [foldl].
  rewrite IH. apply (storage_other L). congruence.
Qed.

Lemma write_list_lookup a l : cache_laws -> NoDup l.*1 -> forall d k,
  storage_ref (foldl (fun d (kv : Z * Z) => insert_account_storage d a kv.1 kv.2) d l) a k
  = match (list_to_map l : gmap Z Z) !! k with Some v => Some v | None => storage_ref d a k end.
Proof.
  intros L. induction l as [|[k' v] l IH]; intros Hd d k; [done|].
  apply NoDup_cons in Hd as [Hk Hd]. cbn [foldl fst snd]. rewrite (IH Hd), list_to_map_cons.
  destruct (decide (k' = k)) as [->|Hne].
  - rewrite lookup_insert_eq, not_elem_of_list_to_map_1 by done. apply (storage_same L).
  - rewrite lookup_insert_ne by done. rewrite (storage_other L) by congruence. done.
Qed.

Lemma commit_account_same d acc a k : cache_laws -> is_selfdestructed acc = false ->
  storage_ref (commit_account d (a, acc)) a k
  = match storage acc !! k with Some v => Some v | None => storage_ref d a k end.
Proof.
  intros L Hs. unfold commit_account. rewrite Hs, write_list_lookup by
    (done || (rewrite map_iter_perm; apply NoDup_fst_map_to_list)).
  rewrite (storage_of_info L). rewrite (list_to_map_proper (M:=gmap Z) _ (map_to_list (storage acc))).
  - by rewrite list_to_map_to_list.
  - rewrite map_iter_perm. apply NoDup_fst_map_to_list.
  - apply map_iter_perm.
Qed.

Lemma commit_list_other l a k : cache_laws -> a ∉ l.*1 -> forall d,
  storage_ref (foldl commit_account d l) a k = storage_ref d a k.
Proof.
  intros L. induction l as [|[b acc] l IH]; intros Ha d; [done|].
  rewrite fmap_cons, elem_of_cons in Ha. cbn [foldl]. rewrite IH by tauto.
  apply commit_account_other; [done|]. cbn in Ha. tauto.
Qed.

Lemma read_commit_all d touched a k : cache_laws -> survives touched a ->
  read (commit_all d touched) a k = present_value touched a k (read d a k).
Proof.
  intros L Hs. unfold read, present_value, commit_all.
  assert (Hd : NoDup (map_iter touched).*1) by (rewrite map_iter_perm; apply NoDup_fst_map_to_list).
  destruct (touched !! a) as [acc|] eqn:Ha; cbn [mbind option_bind].
  - assert (Hin : (a, acc) ∈ map_iter touched) by (by apply elem_of_map_iter).
    apply list_elem_of_split in Hin as (l1 & l2 & Hl). rewrite Hl in *.
    rewrite fmap_app, fmap_cons in Hd. apply NoDup_app in Hd as (_ & H1 & Hd).
    apply NoDup_cons in Hd as [H2 _]. rewrite foldl_app. cbn [foldl].
    rewrite commit_list_other by done. rewrite commit_account_same by auto.
    destruct (storage acc !! k); [done|]. cbn [default].
    rewrite commit_list_other; [done|done|]. intros H. apply (H1 a H). by left.
  - rewrite commit_list_other; [done|done|]. intros ([b acc] & -> & Hin)%list_elem_of_fmap.
    apply elem_of_map_iter in Hin. cbn in Ha. congruence.
Qed.
End Fork.

Abbreviation ForkedState := RpcForkedState (only parsing).

(** ** A reference database

    Slots and account data in finite maps; [run] executes a transaction. *)

Definition store : Type := gmap (Z * Z) Z * gmap Z AccountInfo.

Definition write_slots (a : Address) (m : gmap Z Z) (cells : gmap (Z * Z) Z) : gmap (Z * Z) Z :=
  map_fold (fun k v c => <[(a, k) := v]> c) cells m.

Definition write_account (a : Address) (acc : Account) (s : store) : store :=
  if is_selfdestructed acc then s
  else (write_slots a (storage acc) s.1, <[a := info acc]> s.2).

Definition store_commit (s : store) (touched : EvmState) : store := map_fold write_account s touched.

Definition store_evm (run : store -> CfgEnv -> BlockEnv -> TxEnv -> EVMError + ExecutionResult * EvmState)
    : Revm := {|
  Db := store;
  empty_db := (∅, ∅);
  storage_ref := fun (s : store) a k => s.1 !! (a, k);
  cached_info := fun (s : store) a => s.2 !! a;
  insert_account_storage := fun (s : store) a k v => (<[(a, k) := v]> s.1, s.2);
  insert_account_info := fun (s : store) a i => (s.1, <[a := i]> s.2);
  insert_contract := fun s _ _ => s;
  transact := fun s cfg blk tx => (s, run s cfg blk tx);
  commit := store_commit;
|}.

Lemma write_slots_lookup a m cells a' k :
  write_slots a m cells !! (a', k)
  = if decide (a = a') then match m !! k with Some v => Some v | None => cells !! (a', k) end
    else cells !! (a', k).
Proof.
  unfold write_slots.
  apply (map_fold_weak_ind (fun r m => r !! (a', k) =
    if decide (a = a') then match m !! k with Some v => Some v | None => cells !! (a', k) end
    else cells !! (a', k))); [by destruct (decide _)|].
  intros i v m' r Hi IH. destruct (decide (a = a')) as [->|Ha].
  - destruct (decide (i = k)) as [->|Hk]; [by rewrite !lookup_insert_eq|].
    rewrite !lookup_insert_ne by congruence. exact IH.
  - rewrite lookup_insert_ne by congruence. exact IH.
Qed.

Lemma store_commit_lookup touched : forall s a acc k v,
  touched !! a = Some acc -> is_selfdestructed acc = false -> storage acc !! k = Some v ->
  (store_commit s touched).1 !! (a, k) = Some v.
Proof.
  intros s. unfold store_commit.
  apply (map_fold_weak_ind (fun r touched => forall a acc k v,
    touched !! a = Some acc -> is_selfdestructed acc = false -> storage acc !! k = Some v ->
    r.1 !! (a, k) = Some v)); [done|].
  intros b ab m r Hb IH a acc k v. destruct (decide (b = a)) as [->|Hne].
  - rewrite lookup_insert_eq. intros [= ->] Hd Hk. unfold write_account. rewrite Hd. cbn [fst].
    by rewrite write_slots_lookup, decide_True, Hk.
  - rewrite lookup_insert_ne by done. intros Ha Hd Hk. unfold write_account.
    destruct (is_selfdestructed ab); [by apply (IH a acc)|]. cbn [fst].
    rewrite write_slots_lookup, decide_False by done. by apply (IH a acc).
Qed.

Lemma store_commit_untouched s touched a k :
  (forall acc, touched !! a = Some acc -> is_selfdestructed acc = false /\ storage acc !! k = None) ->
  (store_commit s touched).1 !! (a, k) = s.1 !! (a, k).
Proof.
  unfold store_commit. apply (map_fold_weak_ind (fun r touched =>
    (forall acc, touched !! a = Some acc -> is_selfdestructed acc = false /\ storage acc !! k = None) ->
    r.1 !! (a, k) = s.1 !! (a, k))); [done|].
  intros b acc m r Hb IH Ha. unfold write_account.
  assert (IH' : r.1 !! (a, k) = s.1 !! (a, k)).
  { apply IH. intros acc' Hm. apply Ha. rewrite lookup_insert_ne by congruence. done. }
  destruct (is_selfdestructed acc) eqn:Ed; [done|]. cbn [fst]. rewrite write_slots_lookup.
  destruct (decide (b = a)) as [->|]; [|done].
  destruct (Ha acc) as [_ ->]; [by rewrite lookup_insert_eq|done].
Qed.

Lemma store_evm_laws run : cache_laws (E:=store_evm run).
Proof.
  split.
  - intros. apply lookup_insert_eq.
  - intros. by apply lookup_insert_ne.
  - done.
  - done.
  - intros. by apply store_commit_lookup with acc.
  - apply store_commit_untouched.
  - done.
Qed.
End Revm.
