(* ===== verification/Simulator.v ===== *)
(** * The transaction simulator

    [EvmSimulator] of [crates/simulator/src/lib.rs]: one transaction against a
    forked state, and the profit of a recipient measured on it. *)

From Stdlib Require Import ZArith Lia String.
From S2P Require Import Prelude.
From S2P Require Import Machine.
From S2P Require Import Types.
From S2P Require Import Bytes.
From S2P Require Import Keccak.
From S2P Require Import Revm.
From stdpp Require Import base option numbers strings gmap list.

Local Open Scope Z_scope.

Module Simulator.
Import Revm.

Record SimConfig : Type := mkConfig {
  gas_limit : Z;
  sim_chain_id : Z;
  sim_caller : Address;
  sim_value : Z;
}.

Definition default_config : SimConfig := mkConfig 1000000 1 zero_address 0.

(** A simulator is its configuration. *)
Definition with_defaults : SimConfig := default_config.

Definition failed (gas_used : Z) (reason : string) : SimulationResult :=
  mkSimulationResult false 0 gas_used (Some reason).

Section Simulator.
Context `{E : Revm} `{K : Keccak} `{HO : HashOrder}.

(** [simulate] and [simulate_rpc] keep the balance and base-fee checks; the
    profit measurements on an RPC fork do not. *)
Definition strict_cfg (chain : Z) : CfgEnv := mkCfg chain true false false false.
Definition lenient_cfg (chain : Z) : CfgEnv := mkCfg chain true true true false.

Definition sim_tx (self : SimConfig) (st : RpcForkedState) (to : Address) (calldata : list Z) : TxEnv :=
  mkTx (sim_caller self) (Call to) calldata (sim_value self) (gas_limit self) (base_fee st) 0
    (chain_id st).

(** The result of a transaction; [profit] reads the accounts a successful one
    touched, [label] names a failure of the EVM. *)
Definition report (label : string) (profit : EvmState -> Z)
    (r : EVMError + ExecutionResult * EvmState) : SimulationResult :=
  match r with
  | inr (Success gas_used _, touched) => mkSimulationResult true (profit touched) gas_used None
  | inr (Revert gas_used output, _) => failed gas_used ("0x" +:+ hex_encode output)
  | inr (Halt reason gas_used, _) => failed gas_used reason
  | inl e => failed 0 (label +:+ error_text e)
  end.

Definition simulate (self : SimConfig) (st : ForkedState) (to : Address) (calldata : list Z)
    : SimulationResult :=
  report "EVM error: " (fun _ => 0)
    (transact (db st) (strict_cfg (chain_id st)) (block_env st) (sim_tx self st to calldata)).2.

(** The profit in ether of [profit_recipient]; the token is not read. *)
Definition simulate_with_profit (self : SimConfig) (st : ForkedState) (to : Address)
    (calldata : list Z) (profit_token profit_recipient : Address) : SimulationResult :=
  let initial_balance := default 0 (balance <$> cached_info (db st) profit_recipient) in
  let profit touched :=
    let final_balance :=
      default initial_balance ((fun acc => balance (info acc)) <$> touched !! profit_recipient) in
    saturate 256 (final_balance - initial_balance) in
  report "EVM error: " profit
    (transact (db st) (strict_cfg (chain_id st)) (block_env st) (sim_tx self st to calldata)).2.

Definition simulate_rpc (self : SimConfig) (st : RpcForkedState) (to : Address) (calldata : list Z)
    : SimulationResult :=
  report "EVM error: " (fun _ => 0)
    (transact (db st) (strict_cfg (chain_id st)) (block_env st) (sim_tx self st to calldata)).2.

(** The growth of a slot of [token] in the touched accounts. *)
Definition slot_profit (d : Db) (token : Address) (key : Z) (touched : EvmState) : Z :=
  let pre_balance := read d token key in
  let post_balance := present_value touched token key pre_balance in
  saturate 256 (post_balance - pre_balance).

Definition simulate_rpc_with_erc20_profit (self : SimConfig) (st : RpcForkedState) (to : Address)
    (calldata : list Z) (profit_token profit_recipient : Address) (balance_slot : Z)
    : SimulationResult :=
  let storage_key := erc20_balance_key profit_recipient balance_slot in
  report "EVM error: " (slot_profit (db st) profit_token storage_key)
    (transact (db st) (lenient_cfg (chain_id st)) (block_env st) (sim_tx self st to calldata)).2.

(** The second transaction of a deployment, on the state the first one left. *)
Definition call_deployed (self : SimConfig) (st : RpcForkedState) (deployer deployed_addr : Address)
    (calldata : list Z) (profit_token profit_recipient : Address) (balance_slot : Z)
    : SimulationResult :=
  let storage_key := erc20_balance_key profit_recipient balance_slot in
  let call_tx :=
    mkTx deployer (Call deployed_addr) calldata 0 (gas_limit self) (base_fee st) 1 (chain_id st) in
  report "CALL EVM error: " (slot_profit (db st) profit_token storage_key)
    (transact (db st) (lenient_cfg (chain_id st)) (block_env st) call_tx).2.

Definition deploy_and_simulate_with_erc20_profit (self : SimConfig) (st : RpcForkedState)
    (deployer : Address) (init_bytecode constructor_args calldata : list Z)
    (profit_token profit_recipient : Address) (balance_slot : Z) : SimulationResult :=
  let st := insert_account_balance st deployer (100 * 10 ^ 18) in
  let deploy_data := init_bytecode ++ constructor_args in
  let create_tx :=
    mkTx deployer Create deploy_data 0 8000000 (base_fee st) 0 (chain_id st) in
  match transact (db st) (lenient_cfg (chain_id st)) (block_env st) create_tx with
  | (_, inl e) => failed 0 ("CREATE EVM error: " +:+ error_text e)
  | (_, inr (Success _ (OutCreate _ None), _)) => failed 0 "CREATE succeeded but no address returned"
  | (_, inr (Success _ (OutCall _), _)) => failed 0 "CREATE returned unexpected output variant"
  | (_, inr (Revert gas_used output, _)) =>
      failed gas_used ("CREATE reverted: " +:+ "0x" +:+ hex_encode output)
  | (_, inr (Halt reason gas_used, _)) => failed gas_used ("CREATE halted: " +:+ reason)
  | (d, inr (Success _ (OutCreate _ (Some deployed_addr)), created)) =>
      call_deployed self (with_db st (commit_all d created)) deployer deployed_addr calldata
        profit_token profit_recipient balance_slot
  end.

(** ** Profit is measured *)

(** A transaction that succeeds, with the gas it uses and the database it leaves
    when committed. *)
Definition succeeds (d : Db) (cfg : CfgEnv) (blk : BlockEnv) (tx : TxEnv) (d' : Db) (gas : Z) : Prop :=
  exists d1 out touched, transact d cfg blk tx = (d1, inr (Success gas out, touched)) /\
    d' = commit d1 touched.

Lemma report_success label profit r :
  sim_success (report label profit r) = true ->
  exists gas out touched, r = inr (Success gas out, touched) /\
    report label profit r = mkSimulationResult true (profit touched) gas None.
Proof. destruct r as [e|[[g o|g o|h g] t]]; try done. by exists g, o, t. Qed.

Lemma report_failure label profit r :
  sim_success (report label profit r) = false ->
  sim_profit_wei (report label profit r) = 0 /\ is_Some (sim_revert_reason (report label profit r)).
Proof. destruct r as [e|[[g o|g o|h g] t]]; done || (intros _; split; [done|by eexists]). Qed.

(** The profit of a successful run is the growth of the slot between the state
    before it and the state it commits. *)
Lemma slot_profit_delta d cfg blk tx d1 r token key touched : cache_laws -> durable token ->
  transact d cfg blk tx = (d1, inr (r, touched)) ->
  slot_profit d token key touched
  = saturate 256 (read (commit d1 touched) token key - read d token key).
Proof.
  intros L Hdur Ht. unfold slot_profit.
  assert (Hd : read d1 token key = read d token key).
  { unfold read. pose proof (storage_transact L d cfg blk tx token key) as H. rewrite Ht in H.
    cbn [fst] in H. by rewrite H. }
  by rewrite (read_commit d1 touched token key L (Hdur _ _ _ _ _ _ _ Ht)), Hd.
Qed.

(** A measured success: the transaction succeeds and the reported profit is the
    growth of the recipient's balance it commits. *)
Lemma erc20_profit_measured self st to calldata token recipient slot :
  cache_laws -> durable token ->
  let r := simulate_rpc_with_erc20_profit self st to calldata token recipient slot in
  let key := erc20_balance_key recipient slot in
  sim_success r = true ->
  exists d', succeeds (db st) (lenient_cfg (chain_id st)) (block_env st) (sim_tx self st to calldata) d'
               (sim_gas_used r) /\
    sim_profit_wei r = saturate 256 (read d' token key - read (db st) token key).
Proof.
  intros L Hdur r key Hs. unfold r, simulate_rpc_with_erc20_profit in *.
  destruct (transact (db st) (lenient_cfg (chain_id st)) (block_env st) (sim_tx self st to calldata))
    as [d1 res] eqn:Et. cbn [snd] in *.
  destruct (report_success _ _ _ Hs) as (gas & out & touched & -> & Hr).
  exists (commit d1 touched). rewrite Hr. cbn [sim_gas_used sim_profit_wei]. split.
  - by exists d1, out, touched.
  - by eapply slot_profit_delta.
Qed.

(** A deployment is simulated as two transactions in sequence: when the result
    is a success, the creation succeeded and returned the address that is then
    called; the call runs on a state in which every slot reads as the creation
    left it; it succeeded; and the profit is the growth of the recipient's
    balance over the call alone. *)
Theorem deploy_then_call_measured self st deployer init args calldata token recipient slot :
  cache_laws -> (forall a, durable a) ->
  let r := deploy_and_simulate_with_erc20_profit self st deployer init args calldata token recipient slot in
  let st0 := insert_account_balance st deployer (100 * 10 ^ 18) in
  let key := erc20_balance_key recipient slot in
  sim_success r = true ->
  exists d1 g0 data addr created d2 d' ,
    transact (db st0) (lenient_cfg (chain_id st)) (block_env st)
      (mkTx deployer Create (init ++ args) 0 8000000 (base_fee st) 0 (chain_id st))
      = (d1, inr (Success g0 (OutCreate data (Some addr)), created)) /\
    (forall a k, read d2 a k = read (commit d1 created) a k) /\
    succeeds d2 (lenient_cfg (chain_id st)) (block_env st)
      (mkTx deployer (Call addr) calldata 0 (gas_limit self) (base_fee st) 1 (chain_id st)) d'
      (sim_gas_used r) /\
    sim_profit_wei r = saturate 256 (read d' token key - read d2 token key).
Proof.
  intros L Hdur r st0 key Hs. unfold r, deploy_and_simulate_with_erc20_profit in *.
  fold st0 in Hs |- *.
  change (chain_id st0) with (chain_id st) in *. change (base_fee st0) with (base_fee st) in *.
  change (block_env st0) with (block_env st) in *.
  destruct (transact (db st0) _ _ _) as [d1 [e|[[g0 [data|data [addr|]]|g0 o|h g0] created]]] eqn:Ec;
    try discriminate Hs.
  set (d2 := commit_all d1 created) in *. unfold call_deployed in *.
  cbn [db with_db base_fee chain_id block_env block_number block_timestamp] in *.
  destruct (transact d2 _ _ _) as [d3 res] eqn:Et in *. cbn [snd] in *.
  destruct (report_success _ _ _ Hs) as (gas & out & touched & -> & Hr).
  exists d1, g0, data, addr, created, d2, (commit d3 touched). split; [done|]. split; [|split].
  - intros a k. unfold d2. rewrite read_commit_all, read_commit by (done || by eapply Hdur). done.
  - rewrite Hr. by exists d3, out, touched.
  - rewrite Hr. cbn [sim_profit_wei]. by eapply slot_profit_delta.
Qed.
End Simulator.
End Simulator.
