(* ===== verification/BytecodeCache.v ===== *)
(** * The bytecode cache

    [crates/simulator/src/bytecode_cache.rs]: contract code in memory over a
    pair of disk tables, address to code hash and code hash to code. The disk
    store is the redb crate: a transaction either fails, with an error the
    operation is given, or reads and writes the tables. Code never changes once
    deployed, so the cache is transparent. *)

From Stdlib Require Import ZArith Lia String.
From S2P Require Import Prelude.
From S2P Require Import Machine.
From S2P Require Import Types.
From S2P Require Import Bytes.
From S2P Require Import Keccak.
From stdpp Require Import base option numbers strings gmap list.

Local Open Scope Z_scope.

Module BytecodeCache.

Inductive CacheError : Type :=
| Db (e : string) | Tx (e : string) | Commit (e : string) | Table (e : string) | Storage (e : string)
| Io (e : string).

(** [Bytecode::new_raw] keeps the bytes. *)
Abbreviation Bytecode := (list Z) (only parsing).

Record t : Type := mkCache {
  addr_to_hash : gmap Z Z;
  hash_to_code : gmap Z (list Z);
  mem : gmap Z (Z * Bytecode);
}.

(** Opened on tables that were just created. *)
Definition new : t := mkCache ∅ ∅ ∅.

Definition set_mem (c : t) (m : gmap Z (Z * Bytecode)) : t :=
  mkCache (addr_to_hash c) (hash_to_code c) m.

(** [io]: the error of the disk transaction, if it fails. *)
Definition disk_get (io : option CacheError) (c : t) (addr : Address)
    : CacheError + option (Z * list Z) :=
  match io with
  | Some e => inl e
  | None =>
      inr match addr_to_hash c !! addr with
          | None => None
          | Some hash =>
              match hash_to_code c !! hash with
              | None => None
              | Some code => Some (hash, code)
              end
          end
  end.

Definition disk_put (io : option CacheError) (c : t) (addr : Address) (hash : Z) (code : list Z)
    : CacheError + t :=
  match io with
  | Some e => inl e
  | None => inr (mkCache (<[addr := hash]> (addr_to_hash c)) (<[hash := code]> (hash_to_code c)) (mem c))
  end.

Definition get (io : option CacheError) (c : t) (addr : Address) : option (Z * Bytecode) * t :=
  match mem c !! addr with
  | Some v => (Some v, c)
  | None =>
      match disk_get io c addr with
      | inr (Some (hash, code)) => (Some (hash, code), set_mem c (<[addr := (hash, code)]> (mem c)))
      | inr None => (None, c)
      | inl _ => (None, c)
      end
  end.

Definition put (io : option CacheError) (c : t) (addr : Address) (hash : Z) (code : list Z)
    : (CacheError + unit) * t :=
  let same := match mem c !! addr with Some existing => existing.1 =? hash | None => false end in
  if same then (inr tt, c)
  else
    match disk_put io c addr hash code with
    | inl e => (inl e, c)
    | inr c => (inr tt, set_mem c (<[addr := (hash, code)]> (mem c)))
    end.

Definition get_mem (c : t) (addr : Address) : option (Z * Bytecode) := mem c !! addr.
Definition mem_len (c : t) : nat := size (mem c).

Section Fetch.
Context `{K : Keccak}.

(** [rpc]: the answer of [eth_getCode]; [io1] and [io2] are the disk errors of
    the lookup and of the write. *)
Definition get_or_fetch (io1 io2 : option CacheError) (rpc : string + list Z) (c : t) (addr : Address)
    : option (Z * Bytecode) * t :=
  match get io1 c addr with
  | (Some hit, c) => (Some hit, c)
  | (None, c) =>
      match rpc with
      | inr [] => (None, c)
      | inr code =>
          let hash := keccak256 code in
          (Some (hash, code), (put io2 c addr hash code).2)
      | inl _ => (None, c)
      end
  end.

(** [io0]: the disk error of the first lookup. *)
Definition prewarm_bytecode (io0 io1 io2 : option CacheError) (rpc : string + list Z) (c : t)
    (addr : Address) : bool * t :=
  match get io0 c addr with
  | (Some _, c) => (true, c)
  | (None, c) =>
      let '(r, c) := get_or_fetch io1 io2 rpc c addr in
      (match r with Some _ => true | None => false end, c)
  end.

(** ** Transparency *)

Context (code_at : Address -> list Z).

(** Different contracts have different hashes. *)
Definition collision_free : Prop :=
  forall a b, keccak256 (code_at a) = keccak256 (code_at b) -> code_at a = code_at b.

(** The node answers with the code at the address, or not at all. *)
Definition honest (addr : Address) (rpc : string + list Z) : Prop :=
  match rpc with inr code => code = code_at addr | inl _ => True end.

Definition entry (addr : Address) : Z * Bytecode := (keccak256 (code_at addr), code_at addr).

Definition on_disk (c : t) (a : Address) : Prop :=
  exists h, addr_to_hash c !! a = Some h /\ is_Some (hash_to_code c !! h).

(** Whatever is stored about an address is its code, which is not empty; a
    stored code belongs to some address with that hash; what is in memory is on
    disk. *)
Record inv (c : t) : Prop := {
  inv_hash : forall a h, addr_to_hash c !! a = Some h -> h = keccak256 (code_at a) /\ code_at a <> [];
  inv_code : forall h bs, hash_to_code c !! h = Some bs ->
    exists b, h = keccak256 (code_at b) /\ bs = code_at b;
  inv_mem : forall a v, mem c !! a = Some v -> v = entry a /\ code_at a <> [];
  inv_through : forall a v, mem c !! a = Some v -> on_disk c a;
}.

Lemma inv_new : inv new.
Proof. by split; intros. Qed.

Lemma inv_set_mem c a : inv c -> code_at a <> [] -> on_disk c a ->
  inv (set_mem c (<[a := entry a]> (mem c))).
Proof.
  intros [H1 H2 H3 H4] Ha Hd. split; [done|done| |]; cbn; intros b v;
    (destruct (decide (a = b)) as [->|Hne]; [rewrite lookup_insert_eq; by intros [= <-]|
     rewrite lookup_insert_ne by done]); [apply H3|apply H4].
Qed.

Lemma get_spec io c a : collision_free -> inv c ->
  inv (get io c a).2 /\ (forall v, (get io c a).1 = Some v -> v = entry a /\ code_at a <> []).
Proof.
  intros Hcf Hi. unfold get, disk_get. destruct (mem c !! a) as [v|] eqn:Em.
  { split; [done|]. intros ? [= <-]. by apply (inv_mem c Hi). }
  destruct io; [done|]. destruct (addr_to_hash c !! a) as [h|] eqn:Eh; [|done].
  destruct (hash_to_code c !! h) as [bs|] eqn:Ec; [|done]. cbn.
  destruct (inv_hash c Hi a h Eh) as [-> Hne].
  destruct (inv_code c Hi _ _ Ec) as (b & Hb & ->). apply Hcf in Hb. rewrite <- Hb.
  split; [|by intros ? [= <-]]. apply inv_set_mem; [done|done|]. eexists. by rewrite Ec.
Qed.

Lemma put_spec io c a : inv c -> code_at a <> [] ->
  inv (put io c a (keccak256 (code_at a)) (code_at a)).2.
Proof.
  intros Hi Ha. unfold put. destruct (match mem c !! a with Some _ => _ | None => _ end); [done|].
  destruct io; [done|]. apply inv_set_mem; [|done|]; cycle 1.
  { exists (keccak256 (code_at a)). cbn. by rewrite !lookup_insert_eq. }
  destruct Hi as [H1 H2 H3 H4]. split; cbn; [| |done|].
  - intros b h. destruct (decide (a = b)) as [->|Hne].
    + rewrite lookup_insert_eq. by intros [= <-].
    + rewrite lookup_insert_ne by done. apply H1.
  - intros h bs. destruct (decide (keccak256 (code_at a) = h)) as [<-|Hne].
    + rewrite lookup_insert_eq. intros [= <-]. by exists a.
    + rewrite lookup_insert_ne by done. apply H2.
  - intros b v Hb. destruct (H3 b v Hb) as [-> _]. destruct (H4 b _ Hb) as (h & Hh & Hc).
    unfold on_disk. cbn. destruct (decide (a = b)) as [->|Hne].
    + exists (keccak256 (code_at b)). by rewrite !lookup_insert_eq.
    + exists h. rewrite lookup_insert_ne by done. split; [done|].
      destruct (decide (keccak256 (code_at a) = h)) as [<-|];
        [by rewrite lookup_insert_eq|by rewrite lookup_insert_ne].
Qed.

Lemma get_or_fetch_spec io1 io2 rpc c a : collision_free -> honest a rpc -> inv c ->
  inv (get_or_fetch io1 io2 rpc c a).2 /\
  (forall v, (get_or_fetch io1 io2 rpc c a).1 = Some v -> v = entry a /\ code_at a <> []) /\
  (forall bs, rpc = inr bs -> bs <> [] -> (get_or_fetch io1 io2 rpc c a).1 = Some (entry a)).
Proof.
  intros Hcf Hh Hi. unfold get_or_fetch. destruct (get_spec io1 c a Hcf Hi) as [Hi' Hg].
  destruct (get io1 c a) as [[v|] c'] eqn:Eg; cbn [fst snd] in *.
  { split; [done|]. split; [by intros ? [= <-]; auto|].
    intros _ _ _. by destruct (Hg v eq_refl) as [-> _]. }
  destruct rpc as [e|code]; [done|]. cbn in Hh. subst code.
  destruct (code_at a) as [|b bs] eqn:Ec.
  { split; [done|]. split; [done|]. intros ? [= <-]. done. }
  rewrite <- Ec. split; [apply put_spec; [done|by rewrite Ec]|]. unfold entry.
  split; [intros ? [= <-]; by rewrite Ec|done].
Qed.

(** ** Histories *)

Inductive op : Type :=
| Get (io : option CacheError) (addr : Address)
| GetOrFetch (io1 io2 : option CacheError) (rpc : string + list Z) (addr : Address)
| Prewarm (io0 io1 io2 : option CacheError) (rpc : string + list Z) (addr : Address)
| Reopen.

(** What an operation looks up, and the cache after it. A restart loses the
    memory tier. *)
Definition step (c : t) (o : op) : option (Address * option (Z * Bytecode)) * t :=
  match o with
  | Get io a => let '(r, c) := get io c a in (Some (a, r), c)
  | GetOrFetch io1 io2 rpc a => let '(r, c) := get_or_fetch io1 io2 rpc c a in (Some (a, r), c)
  | Prewarm io0 io1 io2 rpc a => let '(_, c) := prewarm_bytecode io0 io1 io2 rpc c a in (None, c)
  | Reopen => (None, set_mem c ∅)
  end.

Definition honest_op (o : op) : Prop :=
  match o with
  | GetOrFetch _ _ rpc a | Prewarm _ _ _ rpc a => honest a rpc
  | _ => True
  end.

Fixpoint run (c : t) (os : list op) : list (Address * option (Z * Bytecode)) * t :=
  match os with
  | [] => ([], c)
  | o :: os =>
      let '(r, c) := step c o in
      let '(rs, c) := run c os in
      (match r with Some r => r :: rs | None => rs end, c)
  end.

Definition right_answer (r : Address * option (Z * Bytecode)) : Prop :=
  forall v, r.2 = Some v -> v = entry r.1 /\ code_at r.1 <> [].

Lemma step_spec c o : collision_free -> honest_op o -> inv c ->
  inv (step c o).2 /\ match (step c o).1 with Some r => right_answer r | None => True end.
Proof.
  intros Hcf Hh Hi. destruct o as [io a|io1 io2 rpc a|io0 io1 io2 rpc a|]; cbn [step honest_op] in *.
  - destruct (get_spec io c a Hcf Hi). by destruct (get io c a).
  - destruct (get_or_fetch_spec io1 io2 rpc c a Hcf Hh Hi) as (? & ? & _).
    by destruct (get_or_fetch io1 io2 rpc c a).
  - unfold prewarm_bytecode. destruct (get_spec io0 c a Hcf Hi) as [Hi' _].
    destruct (get io0 c a) as [[v|] c']; [done|]. cbn [snd] in Hi'.
    destruct (get_or_fetch_spec io1 io2 rpc c' a Hcf Hh Hi') as (? & _).
    by destruct (get_or_fetch io1 io2 rpc c' a).
  - split; [|done]. destruct Hi as [H1 H2 _ _]. split; [done|done|by intros|by intros].
Qed.

Lemma run_spec os : collision_free -> forall c, Forall honest_op os -> inv c ->
  inv (run c os).2 /\ Forall right_answer (run c os).1.
Proof.
  intros Hcf. induction os as [|o os IH]; intros c Hh Hi; [by split|].
  apply Forall_cons in Hh as [Ho Hh]. destruct (step_spec c o Hcf Ho Hi) as [Hi1 Hr].
  cbn [run]. destruct (step c o) as [r c1]. cbn [fst snd] in *.
  destruct (IH c1 Hh Hi1) as [Hi2 Hrs]. destruct (run c1 os) as [rs c2]. cbn [fst snd] in *.
  split; [done|]. destruct r; [by constructor|done].
Qed.

(** An answer that comes from the cache, or from the node with a working disk,
    is on disk afterwards. *)
Lemma fetched_on_disk io1 rpc c a : collision_free -> honest a rpc -> inv c ->
  is_Some (get_or_fetch io1 None rpc c a).1 -> on_disk (get_or_fetch io1 None rpc c a).2 a.
Proof.
  intros Hcf Hh Hi. unfold get_or_fetch. destruct (get_spec io1 c a Hcf Hi) as [Hi' _].
  assert (Hg : forall v, (get io1 c a).1 = Some v -> mem (get io1 c a).2 !! a = Some v).
  { unfold get. destruct (mem c !! a) as [v|] eqn:Em; [by intros ? [= <-]|].
    destruct (disk_get io1 c a) as [e|[[h bs]|]]; try done. cbn. intros ? [= <-].
    apply lookup_insert_eq. }
  destruct (get io1 c a) as [[v|] c'] eqn:Eg; cbn [fst snd] in *.
  { intros _. by apply (inv_through c' Hi' a v), Hg. }
  destruct rpc as [e|[|b bs]]; [by intros []|by intros []|]. intros _.
  unfold put. destruct (mem c' !! a) as [v|] eqn:Em.
  - pose proof (inv_mem c' Hi' a v Em) as [-> _]. cbn in Hh. unfold entry. cbn [fst]. rewrite <- Hh, Z.eqb_refl.
    cbn. by apply (inv_through c' Hi' a (entry a)).
  - exists (keccak256 (b :: bs)). cbn. by rewrite !lookup_insert_eq.
Qed.

(** The bytecode cache is transparent: whatever lookups, fetches, disk and
    node failures and restarts came before, an answer for an address is that
    contract's code with its hash, and never an empty account; a contract whose
    code the node returns is always served; and once served with a working disk,
    it is served after a restart without asking the node. *)
Theorem bytecode_cache_transparent os : collision_free -> Forall honest_op os ->
  let '(answers, c) := run new os in
  Forall right_answer answers /\
  forall io1 io2 a, code_at a <> [] ->
    (get_or_fetch io1 io2 (inr (code_at a)) c a).1 = Some (entry a) /\
    (get None (set_mem (get_or_fetch io1 None (inr (code_at a)) c a).2 ∅) a).1 = Some (entry a).
Proof.
  intros Hcf Hh. destruct (run_spec os Hcf new Hh inv_new) as [Hi Ha].
  destruct (run new os) as [answers c]. cbn [fst snd] in *. split; [done|].
  intros io1 io2 a Hne.
  assert (Hf : forall io, (get_or_fetch io1 io (inr (code_at a)) c a).1 = Some (entry a)).
  { intros io. destruct (get_or_fetch_spec io1 io (inr (code_at a)) c a Hcf eq_refl Hi) as (_ & _ & H).
    by apply (H (code_at a)). }
  split; [apply Hf|].
  destruct (get_or_fetch_spec io1 None (inr (code_at a)) c a Hcf eq_refl Hi) as (Hi' & _ & _).
  assert (Hd : on_disk (get_or_fetch io1 None (inr (code_at a)) c a).2 a)
    by (apply fetched_on_disk; [done|done|done|rewrite Hf; by eexists]).
  set (c' := (get_or_fetch io1 None (inr (code_at a)) c a).2) in *.
  destruct Hd as (h & Hh1 & bs & Hc). unfold get, disk_get. cbn [mem set_mem addr_to_hash hash_to_code].
  rewrite lookup_empty, Hh1, Hc. cbn [fst].
  destruct (inv_hash c' Hi' a h Hh1) as [-> _]. destruct (inv_code c' Hi' _ _ Hc) as (b & Hb & ->).
  apply Hcf in Hb. by rewrite <- Hb.
Qed.
End Fetch.

(** Two contracts with the same code and an account without code; the hash is a
    stand-in that reads its input as a number. *)
Definition sample_keccak : Keccak := {| keccak256 := be |}.
Definition sample_code (a : Address) : list Z :=
  if (a =? 1) || (a =? 2) then [96; 1] else if a =? 3 then [96; 2; 0] else [].

(** The node is down at first, then the disk is, then both work. *)
Definition sample_ops : list op :=
  [GetOrFetch None None (inl "timeout"%string) 1; GetOrFetch None (Some (Io "disk full"%string)) (inr [96; 1]) 1;
   Prewarm None None None (inr [96; 1]) 2; Get None 1; Reopen; Get None 2; Get None 4].

Lemma bytecode_cache_transparent_witness :
  (run (K:=sample_keccak) new sample_ops).1
    = [(1, None); (1, Some (24577, [96; 1])); (1, None); (2, Some (24577, [96; 1])); (4, None)] /\
  Forall (right_answer (K:=sample_keccak) sample_code) (run (K:=sample_keccak) new sample_ops).1.
Proof.
  pose proof (bytecode_cache_transparent (K:=sample_keccak) sample_code sample_ops) as H.
  split; [vm_compute; reflexivity|]. destruct (run (K:=sample_keccak) new sample_ops) as [answers c].
  apply H.
  - intros a b. unfold sample_code.
    destruct ((a =? 1) || (a =? 2)), ((b =? 1) || (b =? 2)), (a =? 3), (b =? 3); vm_compute; done.
  - repeat constructor; vm_compute; done.
Defined.
End BytecodeCache.
