(* ===== verification/Fork.v ===== *)
(** * Pre-warming a fork

    [prewarm_state] and [PrewarmedState] of [crates/simulator/src/fork.rs], with
    the Multicall3 batch of [crates/simulator/src/slot_prefetch.rs]: before the
    simulations of a block, the code of the contracts and the reserve slots of
    the V2 pairs are collected from the caches and from the node, and injected
    into each fork. The node's answers are arguments; the requests of a stream
    complete in any order ([StreamOrder]). *)

From Stdlib Require Import ZArith Lia String.
From S2P Require Import Prelude.
From S2P Require Import Machine.
From S2P Require Import Types.
From S2P Require Import Bytes.
From S2P Require Import Keccak.
From S2P Require Import Abi.
From S2P Require Import Revm.
From S2P Require Import V2ReservesCache.
From S2P Require Import BytecodeCache.
From stdpp Require Import base option numbers strings pretty gmap list.

Local Open Scope Z_scope.

(** The order in which the requests of a [buffer_unordered] stream complete. *)
Class StreamOrder : Type := {
  completion : forall {A}, list A -> list A;
  completion_perm : forall {A} (l : list A), completion l ≡ₚ l;
}.

Definition in_order : StreamOrder :=
  {| completion := fun A l => l; completion_perm := fun A l => reflexivity l |}.

Module Fork.
Import Revm.

(** ** The Multicall3 batch *)

Definition MULTICALL3_ADDRESS : Address := 0xcA11bde05977b3631167028862bE2a173976CA11.

Record V2ReservesResult : Type := mkResult { pool : Address; reserve0 : Z; reserve1 : Z }.

Definition Call3 : sol := STuple [SAddress; SBool; SBytes].
Definition Result : sol := STuple [SBool; SBytes].

(** One sub-call's answer: dropped when it failed, is short or has no
    reserves. *)
Definition batch_result (p : Address) (success : bool) (bytes : list Z) : option V2ReservesResult :=
  if negb success then None
  else if (length bytes <? 96)%nat then None
  else
    let reserve0 := be (take 32 bytes) in
    let reserve1 := be (take 32 (drop 32 bytes)) in
    if (reserve0 =? 0) && (reserve1 =? 0) then None else Some (mkResult p reserve0 reserve1).

Section Batch.
Context `{K : Keccak} `{A : !SolAbi}.

Definition aggregate3_calldata (pools : list Address) : list Z :=
  let getreserves_calldata := abi_encode_call "getReserves" [] tt in
  abi_encode_call "aggregate3" [SArray Call3]
    ((fun p => (p, (true, (getreserves_calldata, tt)))) <$> pools, tt).

(** [eth_call]: the node's answer to a call at the block. *)
Definition batch_v2_reserves (eth_call : Address -> list Z -> string + list Z) (pools : list Address)
    : string + list V2ReservesResult :=
  match pools with
  | [] => inr []
  | _ =>
      match eth_call MULTICALL3_ADDRESS (aggregate3_calldata pools) with
      | inl e => inl ("multicall3 eth_call failed: " +:+ e)%string
      | inr out =>
          match abi_decode_params [SArray Result] out with
          | inl e => inl ("multicall3 decode failed: " +:+ e)%string
          | inr (decoded, _) =>
              if negb (length decoded =? length pools)%nat then
                inl ("multicall3 returned " +:+ pretty (N.of_nat (length decoded)) +:+ " results for "
                     +:+ pretty (N.of_nat (length pools)) +:+ " sub-calls")%string
              else
                inr (omap (fun pr : Address * denote Result => batch_result pr.1 pr.2.1 pr.2.2.1)
                       (zip pools decoded))
          end
      end
  end.
End Batch.

(** ** Pre-warmed state *)

Record PrewarmStats : Type := mkStats {
  bytecode_cache_hits : nat;
  bytecode_rpc_fetches : nat;
  v2_reserves_cache_hits : nat;
  v2_reserves_cache_stale : nat;
  v2_reserves_cache_missing : nat;
  multicall_batches : nat;
  multicall_v2_slots : nat;
  multicall_fallbacks : nat;
}.

Record PrewarmedState : Type := mkPrewarmed {
  code_cache : list (Z * list Z);
  slots : list (Address * Z * Z);
  stats : PrewarmStats;
}.

Section Inject.
Context `{E : Revm}.

Definition inject_code_into_db (pw : PrewarmedState) (d : Db) : Db :=
  foldl (fun d (hc : Z * list Z) => insert_contract d hc.1 hc.2) d (code_cache pw).

Definition inject_into_db (pw : PrewarmedState) (d : Db) : Db :=
  foldl (fun d (s : Address * Z * Z) => insert_account_storage d s.1.1 s.1.2 s.2)
    (inject_code_into_db pw d) (slots pw).

Definition inject_into (pw : PrewarmedState) (st : RpcForkedState) : RpcForkedState :=
  with_db st (inject_into_db pw (db st)).

Definition inject_code_only (pw : PrewarmedState) (st : RpcForkedState) : RpcForkedState :=
  with_db st (inject_code_into_db pw (db st)).
End Inject.

(** ** Collecting it *)

Definition V2_RESERVES_MAX_LAG_BLOCKS : Z := 1.
Definition V2_RESERVES_SLOT : Z := 8.

Section Prewarm.
Context `{K : Keccak} `{A : !SolAbi} `{SO : StreamOrder}.

(** The node, and the errors of the disk for the lookup and the write of an
    address. *)
Context (get_code_at : Address -> string + list Z) (get_storage_at : Address -> Z -> string + Z)
  (eth_call : Address -> list Z -> string + list Z)
  (io_get io_put : Address -> option BytecodeCache.CacheError).

(** Split the addresses into hits and misses. *)
Fixpoint split_cached (c : BytecodeCache.t) (addrs : list Address)
    : list (Z * list Z) * list Address * BytecodeCache.t :=
  match addrs with
  | [] => ([], [], c)
  | addr :: addrs =>
      let '(r, c) := BytecodeCache.get (io_get addr) c addr in
      let '(cached, to_fetch, c) := split_cached c addrs in
      match r with
      | Some hit => (hit :: cached, to_fetch, c)
      | None => (cached, addr :: to_fetch, c)
      end
  end.

(** One request of the code stream. *)
Definition fetch_code (cache : option BytecodeCache.t) (addr : Address)
    : option (Z * list Z) * option BytecodeCache.t :=
  match get_code_at addr with
  | inr [] => (None, cache)
  | inr code =>
      let code_hash := keccak256 code in
      (Some (code_hash, code),
       (fun c => (BytecodeCache.put (io_put addr) c addr code_hash code).2) <$> cache)
  | inl _ => (None, cache)
  end.

Fixpoint fetch_codes (cache : option BytecodeCache.t) (addrs : list Address)
    : list (option (Z * list Z)) * option BytecodeCache.t :=
  match addrs with
  | [] => ([], cache)
  | addr :: addrs =>
      let '(r, cache) := fetch_code cache addr in
      let '(rs, cache) := fetch_codes cache addrs in
      (r :: rs, cache)
  end.

(** Pools served by the event-fed cache, and the rest, counted. *)
Fixpoint split_fresh (rcache : V2ReservesCache.V2ReservesCache) (block_number : Z) (addrs : list Address)
    : list (Address * Z * Z) * list Address * nat * nat :=
  match addrs with
  | [] => ([], [], O, O)
  | addr :: addrs =>
      let '(ws, fetch, stale, missing) := split_fresh rcache block_number addrs in
      match V2ReservesCache.get_fresh_status rcache addr block_number V2_RESERVES_MAX_LAG_BLOCKS with
      | V2ReservesCache.Fresh snap =>
          ((addr, V2_RESERVES_SLOT, V2ReservesCache.pack_slot8 snap) :: ws, fetch, stale, missing)
      | V2ReservesCache.Stale => (ws, addr :: fetch, S stale, missing)
      | V2ReservesCache.Missing => (ws, addr :: fetch, stale, S missing)
      end
  end.

Definition record_in (rcache : option V2ReservesCache.V2ReservesCache) (p r0 r1 block : Z)
    : option V2ReservesCache.V2ReservesCache :=
  (fun c => V2ReservesCache.record c p r0 r1 block) <$> rcache.

Definition batch_slot (block_number : Z) (r : V2ReservesResult) : Address * Z * Z :=
  (pool r, V2_RESERVES_SLOT,
   V2ReservesCache.pack_slot8 (V2ReservesCache.mkSnap (reserve0 r) (reserve1 r) block_number)).

Definition record_batch (rcache : option V2ReservesCache.V2ReservesCache) (block_number : Z)
    (results : list V2ReservesResult) : option V2ReservesCache.V2ReservesCache :=
  foldl (fun rc r => record_in rc (pool r) (reserve0 r) (reserve1 r) block_number) rcache results.

(** One request of the storage stream. *)
Definition fetch_slot (rcache : option V2ReservesCache.V2ReservesCache) (block_number : Z) (addr : Address)
    : option (Address * Z * Z) * option V2ReservesCache.V2ReservesCache :=
  match get_storage_at addr V2_RESERVES_SLOT with
  | inr value =>
      if value =? 0 then (None, rcache)
      else
        let '(r0, r1) := V2ReservesCache.unpack_slot8 value in
        (Some (addr, V2_RESERVES_SLOT, value), record_in rcache addr r0 r1 block_number)
  | inl _ => (None, rcache)
  end.

Fixpoint fetch_slots (rcache : option V2ReservesCache.V2ReservesCache) (block_number : Z)
    (addrs : list Address) : list (option (Address * Z * Z)) * option V2ReservesCache.V2ReservesCache :=
  match addrs with
  | [] => ([], rcache)
  | addr :: addrs =>
      let '(r, rcache) := fetch_slot rcache block_number addr in
      let '(rs, rcache) := fetch_slots rcache block_number addrs in
      (r :: rs, rcache)
  end.

(** The Multicall3 step: the slots it serves, the addresses left, the batches
    and the fallbacks. *)
Definition multicall_step (rcache : option V2ReservesCache.V2ReservesCache) (block_number : Z)
    (to_fetch : list Address)
    : list (Address * Z * Z) * list Address * nat * nat * option V2ReservesCache.V2ReservesCache :=
  match to_fetch with
  | [] => ([], [], O, O, rcache)
  | _ =>
      match batch_v2_reserves eth_call to_fetch with
      | inr results =>
          let served := pool <$> results in
          (batch_slot block_number <$> results, filter (fun a => a ∉ served) to_fetch, 1%nat, O,
           record_batch rcache block_number results)
      | inl _ => ([], to_fetch, 1%nat, 1%nat, rcache)
      end
  end.

Definition prewarm_state (block_number : Z) (code_addresses v2_pool_addresses : list Address)
    (bytecode_cache : option BytecodeCache.t)
    (v2_reserves_cache : option V2ReservesCache.V2ReservesCache)
    : PrewarmedState * option BytecodeCache.t * option V2ReservesCache.V2ReservesCache :=
  let '(cached, to_fetch, bytecode_cache) :=
    match bytecode_cache with
    | Some cache =>
        let '(cached, to_fetch, cache) := split_cached cache code_addresses in
        (cached, to_fetch, Some cache)
    | None => ([], code_addresses, None)
    end in
  let '(ws_storage, storage_to_fetch, v2_stale, v2_missing) :=
    match v2_reserves_cache with
    | Some rcache => split_fresh rcache block_number v2_pool_addresses
    | None => ([], v2_pool_addresses, O, length v2_pool_addresses)
    end in
  let '(multicall_v2_storage, storage_to_fetch, batches, fallbacks, v2_reserves_cache) :=
    multicall_step v2_reserves_cache block_number storage_to_fetch in
  let '(code_results, bytecode_cache) := fetch_codes bytecode_cache (completion to_fetch) in
  let '(storage_results, v2_reserves_cache) :=
    fetch_slots v2_reserves_cache block_number (completion storage_to_fetch) in
  (mkPrewarmed (cached ++ omap id code_results)
     (ws_storage ++ multicall_v2_storage ++ omap id storage_results)
     (mkStats (length cached) (length (omap id code_results)) (length ws_storage) v2_stale v2_missing
        batches (length multicall_v2_storage) fallbacks),
   bytecode_cache, v2_reserves_cache).

(** ** Pre-warming is transparent *)

(** The chain at the block: the code of each account, and the reserves word of
    each pair. *)
Context (code_at : Address -> list Z) (slot8 : Address -> Z).

(** Multicall3's answer for a pool: a failed sub-call, or [getReserves()]. *)
Definition reserves_answer (p : Address) (r : denote Result) : Prop :=
  r.1 = false \/
  exists ts, r.2.1 = words [(V2ReservesCache.unpack_slot8 (slot8 p)).1;
                            (V2ReservesCache.unpack_slot8 (slot8 p)).2; ts].

(** The node answers from that state, or not at all. *)
Record honest_node : Prop := {
  hn_code : forall a c, get_code_at a = inr c -> c = code_at a;
  hn_slot : forall a v, get_storage_at a V2_RESERVES_SLOT = inr v -> v = slot8 a;
  hn_batch : forall pools out,
    eth_call MULTICALL3_ADDRESS (aggregate3_calldata pools) = inr out ->
    exists results : list (denote Result),
      out = Abi.encode (STuple [SArray Result]) (results, tt) /\
      encodable (STuple [SArray Result]) (results, tt) /\ Forall2 reserves_answer pools results;
}.

Context (Hnode : honest_node) (Hcf : BytecodeCache.collision_free code_at).

Lemma batch_result_exact p r res : reserves_answer p r -> batch_result p r.1 r.2.1 = Some res ->
  pool res = p /\ (reserve0 res, reserve1 res) = V2ReservesCache.unpack_slot8 (slot8 p).
Proof.
  unfold batch_result. intros [->|[ts ->]]; [done|]. destruct r.1; [|done]. cbn [negb].
  rewrite V2ReservesCache.unpack_slot8_eq. cbn [fst snd].
  set (r0 := slot8 p mod _). set (r1 := slot8 p / _ mod _).
  assert (H0 : 0 <= r0 < 2 ^ 256 /\ 0 <= r1 < 2 ^ 256).
  { pose proof (V2ReservesCache.mod112_range (slot8 p)).
    pose proof (V2ReservesCache.mod112_range (slot8 p / 2 ^ 112)). lia. }
  assert (Ht : take 32 (words [r0; r1; ts]) = word r0 /\ take 32 (drop 32 (words [r0; r1; ts])) = word r1).
  { rewrite !words_cons. split.
    - by rewrite take_app_le, take_ge by (rewrite length_word; lia).
    - rewrite drop_app_ge by (rewrite length_word; lia). rewrite length_word. cbn [Nat.sub].
      rewrite drop_0. by rewrite take_app_le, take_ge by (rewrite length_word; lia). }
  destruct Ht as [-> ->]. rewrite !be_word by apply H0.
  destruct (_ <? 96)%nat; [done|]. destruct (_ && _); [done|]. by intros [= <-].
Qed.

Definition exact_result (r : V2ReservesResult) : Prop :=
  (reserve0 r, reserve1 r) = V2ReservesCache.unpack_slot8 (slot8 (pool r)).

Lemma omap_batch_exact pools results : Forall2 reserves_answer pools results ->
  Forall (fun r => pool r ∈ pools /\ exact_result r)
    (omap (fun pr : Address * denote Result => batch_result pr.1 pr.2.1 pr.2.2.1) (zip pools results)).
Proof.
  induction 1 as [|p r pools results Hr Hrs IH]; [constructor|]. cbn [zip zip_with omap list_omap fst snd].
  assert (IH' : Forall (fun r => pool r ∈ p :: pools /\ exact_result r)
    (omap (fun pr : Address * denote Result => batch_result pr.1 pr.2.1 pr.2.2.1) (zip pools results))).
  { eapply Forall_impl; [exact IH|]. cbn. intros x [Hx ?]. split; [by right|done]. }
  destruct (batch_result p r.1 r.2.1) as [res|] eqn:Er; [|exact IH'].
  constructor; [|exact IH']. destruct (batch_result_exact p r res Hr Er) as [Hp He].
  unfold exact_result. rewrite Hp. split; [by left|done].
Qed.

Lemma batch_exact pools rs : batch_v2_reserves eth_call pools = inr rs ->
  Forall (fun r => pool r ∈ pools /\ exact_result r) rs.
Proof.
  unfold batch_v2_reserves. destruct pools as [|p pools]; [by intros [= <-]|].
  destruct (eth_call _ _) as [e|out] eqn:Ec; [done|].
  destruct (hn_batch Hnode _ _ Ec) as (results & -> & Henc & Hr).
  rewrite (abi_params_inverse [SArray Result] (results, tt) Henc).
  destruct (negb _); [done|]. intros H. injection H as <-. exact (omap_batch_exact _ _ Hr).
Qed.

(** Where an injected slot comes from. *)
Definition from_chain (pools : list Address) (s : Address * Z * Z) : Prop :=
  s.1.2 = V2_RESERVES_SLOT /\ s.1.1 ∈ pools /\ s.2 mod 2 ^ 224 = slot8 s.1.1 mod 2 ^ 224.

Lemma batch_slot_chain block r pools : 0 <= slot8 (pool r) -> pool r ∈ pools -> exact_result r ->
  from_chain pools (batch_slot block r).
Proof.
  intros H0 Hin He. split; [done|]. split; [done|]. cbn. unfold exact_result in He.
  destruct (V2ReservesCache.slot8_round_trip (V2ReservesCache.mkSnap 0 0 0) (slot8 (pool r)) block H0)
    as (_ & _ & Hp).
  destruct (V2ReservesCache.unpack_slot8 (slot8 (pool r))) as [r0 r1]. injection He as -> ->.
  cbn [fst snd] in Hp. rewrite Hp. by rewrite Z.mod_mod.
Qed.

Lemma multicall_step_spec rc block to_fetch storage rest b f rc' :
  (forall a, 0 <= slot8 a) ->
  multicall_step rc block to_fetch = (storage, rest, b, f, rc') ->
  Forall (from_chain to_fetch) storage /\ rest ⊆ to_fetch /\
  (forall a, a ∈ to_fetch -> a ∉ rest -> exists v, (a, V2_RESERVES_SLOT, v) ∈ storage).
Proof.
  intros H0. unfold multicall_step. destruct to_fetch as [|p pools].
  { intros [= <- <- _ _ _]. split; [constructor|]. split; [done|]. intros a Ha. by apply not_elem_of_nil in Ha. }
  destruct (batch_v2_reserves eth_call (p :: pools)) as [e|rs] eqn:Eb; intros [= <- <- _ _ _].
  { split; [constructor|]. split; [done|]. done. }
  apply batch_exact in Eb. split; [|split].
  - apply Forall_fmap. eapply Forall_impl; [exact Eb|]. intros r [Hin He]. by apply batch_slot_chain.
  - intros a [_ Ha]%list_elem_of_filter. done.
  - intros a Ha Hn. rewrite list_elem_of_filter in Hn.
    destruct (decide (a ∈ pool <$> rs)) as [Hs|]; [|tauto].
    apply list_elem_of_fmap in Hs as (r & -> & Hr). eexists. apply list_elem_of_fmap.
    by exists r.
Qed.

Lemma fetch_slots_spec addrs : forall rc block rs rc',
  fetch_slots rc block addrs = (rs, rc') ->
  Forall (from_chain addrs) (omap id rs) /\
  (forall a, a ∈ addrs -> (exists v, (a, V2_RESERVES_SLOT, v) ∈ omap id rs) \/
     (exists e, get_storage_at a V2_RESERVES_SLOT = inl e) \/ slot8 a = 0).
Proof.
  induction addrs as [|p addrs IH]; intros rc block rs rc' H; cbn [fetch_slots] in H.
  { injection H as <- <-. split; [constructor|]. intros a Ha. by apply not_elem_of_nil in Ha. }
  destruct (fetch_slot rc block p) as [r rc1] eqn:Ef.
  destruct (fetch_slots rc1 block addrs) as [rs' rc2] eqn:Es. injection H as <- <-.
  destruct (IH _ _ _ _ Es) as [IH1 IH2].
  assert (IH1' : Forall (from_chain (p :: addrs)) (omap id rs')).
  { eapply Forall_impl; [exact IH1|]. intros s (H1 & H2 & H3). split; [done|]. split; [by right|done]. }
  unfold fetch_slot in Ef. destruct (get_storage_at p V2_RESERVES_SLOT) as [e|v] eqn:Eg.
  - injection Ef as <- <-. split; [exact IH1'|]. intros a [->|Ha]%elem_of_cons; [eauto|by apply IH2].
  - pose proof (hn_slot Hnode p v Eg) as ->. destruct (Z.eqb_spec (slot8 p) 0) as [Hz|Hz].
    + injection Ef as <- <-. split; [exact IH1'|]. intros a [->|Ha]%elem_of_cons; [auto|by apply IH2].
    + destruct (V2ReservesCache.unpack_slot8 (slot8 p)) as [r0 r1]. injection Ef as <- <-.
      cbn [omap list_omap id]. split.
      * constructor; [|exact IH1']. split; [done|]. split; [by left|done].
      * intros a [->|Ha]%elem_of_cons; [left; eexists; by left|].
        destruct (IH2 a Ha) as [[v Hv]|Hf]; [left; exists v; by right|by right].
Qed.

Definition fresh_in (rcache : option V2ReservesCache.V2ReservesCache) (block : Z) (a : Address)
    (snap : V2ReservesCache.ReserveSnapshot) : Prop :=
  exists c, rcache = Some c /\
    V2ReservesCache.get_fresh_status c a block V2_RESERVES_MAX_LAG_BLOCKS = V2ReservesCache.Fresh snap.

Definition from_cache rcache block (pools : list Address) (s : Address * Z * Z) : Prop :=
  s.1.2 = V2_RESERVES_SLOT /\ s.1.1 ∈ pools /\
  exists snap, fresh_in rcache block s.1.1 snap /\ s.2 = V2ReservesCache.pack_slot8 snap.

Lemma split_fresh_spec c block addrs : forall ws fetch stale missing,
  split_fresh c block addrs = (ws, fetch, stale, missing) ->
  Forall (from_cache (Some c) block addrs) ws /\ fetch ⊆ addrs /\
  (forall a, a ∈ addrs -> a ∉ fetch -> exists v, (a, V2_RESERVES_SLOT, v) ∈ ws).
Proof.
  induction addrs as [|p addrs IH]; intros ws fetch stale missing H; cbn [split_fresh] in H.
  { injection H as <- <- _ _. split; [constructor|]. split; [done|]. intros a Ha. by apply not_elem_of_nil in Ha. }
  destruct (split_fresh c block addrs) as [[[ws' fetch'] st'] ms'] eqn:Es.
  destruct (IH _ _ _ _ eq_refl) as (H1 & H2 & H3).
  assert (H1' : Forall (from_cache (Some c) block (p :: addrs)) ws').
  { eapply Forall_impl; [exact H1|]. intros s (Ha & Hb & Hc). split; [done|]. split; [by right|done]. }
  assert (Hmiss : forall ws fetch, ws = ws' -> fetch = p :: fetch' ->
    Forall (from_cache (Some c) block (p :: addrs)) ws /\ fetch ⊆ p :: addrs /\
    (forall a, a ∈ p :: addrs -> a ∉ fetch -> exists v, (a, V2_RESERVES_SLOT, v) ∈ ws)).
  { intros ? ? -> ->. split; [exact H1'|]. split.
    - intros a [->|Ha]%elem_of_cons; [by left|right; by apply H2].
    - intros a [->|Ha]%elem_of_cons Hn; [by destruct Hn; left|]. apply H3; [done|].
      intros Hin. apply Hn. by right. }
  destruct (V2ReservesCache.get_fresh_status c p block V2_RESERVES_MAX_LAG_BLOCKS) as [snap| |] eqn:Eg;
    injection H as <- <- _ _; [|by apply Hmiss|by apply Hmiss].
  split; [|split].
  - constructor; [|exact H1']. split; [done|]. split; [by left|]. exists snap. split; [by exists c|done].
  - intros a Ha. right. by apply H2.
  - intros a [->|Ha]%elem_of_cons Hn; [eexists; by left|].
    destruct (H3 a Ha Hn) as [v Hv]. exists v. by right.
Qed.

Definition code_ok (codes : list Address) (hc : Z * list Z) : Prop :=
  exists a, a ∈ codes /\ hc = BytecodeCache.entry code_at a /\ code_at a <> [].

Lemma code_ok_cons a codes hc : code_ok codes hc -> code_ok (a :: codes) hc.
Proof. intros (b & Hb & H). exists b. split; [by right|done]. Qed.

Lemma split_cached_spec addrs : forall c cached fetch c',
  BytecodeCache.inv code_at c -> split_cached c addrs = (cached, fetch, c') ->
  BytecodeCache.inv code_at c' /\ Forall (code_ok addrs) cached /\ fetch ⊆ addrs.
Proof.
  induction addrs as [|a addrs IH]; intros c cached fetch c' Hi H; cbn [split_cached] in H.
  { by injection H as <- <- <-. }
  destruct (BytecodeCache.get_spec code_at (io_get a) c a Hcf Hi) as [Hi1 Hg].
  destruct (BytecodeCache.get (io_get a) c a) as [r c1]. cbn [fst snd] in *.
  destruct (split_cached c1 addrs) as [[cached' fetch'] c2] eqn:Es.
  destruct (IH _ _ _ _ Hi1 Es) as (H1 & H2 & H3).
  assert (H2' : Forall (code_ok (a :: addrs)) cached')
    by (eapply Forall_impl; [exact H2|]; intros ?; apply code_ok_cons).
  destruct r as [hit|]; injection H as <- <- <-; (split; [done|]).
  - split; [|intros b Hb; right; by apply H3]. constructor; [|done].
    destruct (Hg hit eq_refl) as [-> Hne]. exists a. split; [by left|done].
  - split; [done|]. intros b [->|Hb]%elem_of_cons; [by left|right; by apply H3].
Qed.

Lemma fetch_codes_spec addrs : forall cache rs cache',
  (forall c, cache = Some c -> BytecodeCache.inv code_at c) ->
  fetch_codes cache addrs = (rs, cache') ->
  (forall c, cache' = Some c -> BytecodeCache.inv code_at c) /\ Forall (code_ok addrs) (omap id rs).
Proof.
  induction addrs as [|a addrs IH]; intros cache rs cache' Hi H; cbn [fetch_codes] in H.
  { by injection H as <- <-. }
  destruct (fetch_code cache a) as [r c1] eqn:Ef.
  destruct (fetch_codes c1 addrs) as [rs' c2] eqn:Es. injection H as <- <-.
  assert (Hf : (forall c, c1 = Some c -> BytecodeCache.inv code_at c) /\
    (forall v, r = Some v -> v = BytecodeCache.entry code_at a /\ code_at a <> [])).
  { unfold fetch_code in Ef. destruct (get_code_at a) as [e|code] eqn:Eg; [injection Ef as <- <-; split; [exact Hi|done]|].
    pose proof (hn_code Hnode a code Eg) as ->. destruct (code_at a) as [|b bs] eqn:Ec.
    { injection Ef as <- <-. split; [exact Hi|done]. }
    rewrite <- Ec in Ef. injection Ef as <- <-. split.
    2: { intros v Hv. injection Hv as <-. done. }
    intros c Hc. apply fmap_Some in Hc as (c0 & -> & ->).
    apply BytecodeCache.put_spec; [by apply Hi|by rewrite Ec]. }
  destruct Hf as [Hi1 Hr]. destruct (IH _ _ _ Hi1 Es) as [H1 H2]. split; [done|].
  assert (H2' : Forall (code_ok (a :: addrs)) (omap id rs'))
    by (eapply Forall_impl; [exact H2|]; intros ?; apply code_ok_cons).
  destruct r as [v|]; [|exact H2']. cbn [omap list_omap id]. constructor; [|exact H2'].
  destruct (Hr v eq_refl) as [-> Hne]. exists a. split; [by left|done].
Qed.

(** What a run collects. *)
Lemma prewarm_spec block codes pools bc rc pw bc' rc' :
  (forall a, 0 <= slot8 a) -> (forall c, bc = Some c -> BytecodeCache.inv code_at c) ->
  prewarm_state block codes pools bc rc
    = (pw, bc', rc') ->
  Forall (fun s => from_chain pools s \/ from_cache rc block pools s) (slots pw) /\
  (forall a, a ∈ pools -> (exists v, (a, V2_RESERVES_SLOT, v) ∈ slots pw) \/
     (exists e, get_storage_at a V2_RESERVES_SLOT = inl e) \/ slot8 a = 0) /\
  Forall (code_ok codes) (code_cache pw) /\
  (forall c, bc' = Some c -> BytecodeCache.inv code_at c).
Proof.
  intros H0 Hi. unfold prewarm_state.
  destruct (match bc with Some _ => _ | None => _ end) as [[cached fetch] bc1] eqn:E1.
  destruct (match rc with Some _ => _ | None => _ end) as [[[ws sfetch] stale] missing] eqn:E2.
  destruct (multicall_step rc block sfetch) as [[[[ms rest] nb] nf] rc1] eqn:E3.
  destruct (fetch_codes bc1 (completion fetch)) as [cr bc2] eqn:E4.
  destruct (fetch_slots rc1 block (completion rest)) as [sr rc2] eqn:E5.
  intros [= <- <- <-]. cbn [slots code_cache].
  assert (Hc : (forall c, bc1 = Some c -> BytecodeCache.inv code_at c) /\ Forall (code_ok codes) cached /\
    fetch ⊆ codes).
  { destruct bc as [c|]; [|by injection E1 as <- <- <-].
    destruct (split_cached c codes) as [[cached' fetch'] c'] eqn:Es. injection E1 as <- <- <-.
    destruct (split_cached_spec codes _ _ _ _ (Hi c eq_refl) Es) as (? & ? & ?).
    split; [by intros ? [= <-]|done]. }
  assert (Hs : Forall (from_cache rc block pools) ws /\ sfetch ⊆ pools /\
    (forall a, a ∈ pools -> a ∉ sfetch -> exists v, (a, V2_RESERVES_SLOT, v) ∈ ws)).
  { destruct rc as [c|]; [by apply split_fresh_spec with stale missing|]. injection E2 as <- <- _ _.
    split; [constructor|]. split; [done|]. done. }
  destruct Hc as (Hi1 & Hcached & Hfetch). destruct Hs as (Hws & Hsf & Hserved).
  destruct (multicall_step_spec _ _ _ _ _ _ _ _ H0 E3) as (Hms & Hrest & Hbatch).
  destruct (fetch_codes_spec _ _ _ _ Hi1 E4) as [Hi2 Hcr].
  destruct (fetch_slots_spec _ _ _ _ _ E5) as [Hsr Hdone].
  assert (Hsub : forall l l' s, from_chain l s -> l ⊆ l' -> from_chain l' s).
  { intros l l' s (Ha & Hb & Hd) Hl. split; [done|]. split; [by apply Hl|done]. }
  split; [|split; [|split; [|done]]].
  - rewrite !Forall_app. split; [|split].
    + eapply Forall_impl; [exact Hws|]. auto.
    + eapply Forall_impl; [exact Hms|]. intros s Hc. left. by apply (Hsub _ _ _ Hc).
    + eapply Forall_impl; [exact Hsr|]. intros s Hc. left. apply (Hsub _ _ _ Hc).
      intros a Ha. rewrite completion_perm in Ha. by apply Hsf, Hrest.
  - intros a Ha. destruct (decide (a ∈ sfetch)) as [Hf|Hf].
    2: { destruct (Hserved a Ha Hf) as [v Hv]. left. exists v. rewrite !elem_of_app. auto. }
    destruct (decide (a ∈ rest)) as [Hr|Hr].
    2: { destruct (Hbatch a Hf Hr) as [v Hv]. left. exists v. rewrite !elem_of_app. auto. }
    destruct (Hdone a) as [[v Hv]|Hd]; [by rewrite completion_perm| |by right].
    left. exists v. rewrite !elem_of_app. auto.
  - apply Forall_app. split; [done|]. eapply Forall_impl; [exact Hcr|].
    intros hc (a & Ha & Hh). exists a. rewrite completion_perm in Ha. split; [by apply Hfetch|done].
Qed.

Lemma inject_code_reads `{E : Revm} pw d a k : cache_laws ->
  storage_ref (inject_code_into_db pw d) a k = storage_ref d a k.
Proof.
  intros L. unfold inject_code_into_db. revert d.
  induction (code_cache pw) as [|[h c] l IH]; intros d; [done|]. cbn [foldl]. rewrite IH.
  apply (storage_of_contract L).
Qed.

(** An injected slot reads one of the values given for it. *)
Lemma inject_slots_reads `{E : Revm} l d a k : cache_laws ->
  (exists v, (a, k, v) ∈ l /\
     storage_ref (foldl (fun d (s : Address * Z * Z) => insert_account_storage d s.1.1 s.1.2 s.2) d l) a k
     = Some v) \/
  ((forall v, (a, k, v) ∉ l) /\
     storage_ref (foldl (fun d (s : Address * Z * Z) => insert_account_storage d s.1.1 s.1.2 s.2) d l) a k
     = storage_ref d a k).
Proof.
  intros L. revert d. induction l as [|[[a' k'] v'] l IH]; intros d; cbn [foldl fst snd].
  { right. split; [|done]. intros v. apply not_elem_of_nil. }
  destruct (IH (insert_account_storage d a' k' v')) as [(v & Hv & Hr)|[Hn Hr]].
  { left. exists v. split; [by right|done]. }
  destruct (decide ((a', k') = (a, k))) as [[= -> ->]|Hne].
  - left. exists v'. split; [by left|]. rewrite Hr. apply (storage_same L).
  - right. split.
    + intros v [[= -> -> ->]|Hv]%elem_of_cons; [done|]. by apply (Hn v).
    + rewrite Hr. by apply (storage_other L).
Qed.

Lemma unpack_mod x y : x mod 2 ^ 224 = y mod 2 ^ 224 ->
  V2ReservesCache.unpack_slot8 x = V2ReservesCache.unpack_slot8 y.
Proof.
  intros H. assert (Hu : forall z, V2ReservesCache.unpack_slot8 z = V2ReservesCache.unpack_slot8 (z mod 2 ^ 224)).
  { intros z. rewrite !V2ReservesCache.unpack_slot8_eq. change (2 ^ 224) with (2 ^ 112 * 2 ^ 112).
    rewrite Z.rem_mul_r by lia.
    replace (z mod 2 ^ 112 + 2 ^ 112 * ((z / 2 ^ 112) mod 2 ^ 112))
      with ((z / 2 ^ 112) mod 2 ^ 112 * 2 ^ 112 + z mod 2 ^ 112) by lia.
    pose proof (V2ReservesCache.mod112_range z).
    rewrite Z.div_add_l, (Z.div_small (z mod 2 ^ 112)), Z.add_0_r by lia.
    rewrite (Z.add_comm (_ * _)), Z_mod_plus_full, !Z.mod_mod by lia. done. }
  by rewrite Hu, H, <- Hu.
Qed.

End Prewarm.

(** ** A concrete run *)

(** Pool 1 has a fresh snapshot, pool 2 has none; the batch contract is not
    reachable, so pool 2 is read slot by slot. *)
Definition sample_slot8 (a : Address) : Z :=
  if a =? 1 then 700 + 900 * 2 ^ 112 + 5 * 2 ^ 224
  else if a =? 2 then 300 + 400 * 2 ^ 112 + 6 * 2 ^ 224 else 0.
Definition sample_code (a : Address) : list Z := if a =? 1 then [96; 1] else [].
Definition sample_evm : Revm :=
  store_evm (fun _ _ _ _ => inl (ErrOther "not used")).
Definition sample_fork : RpcForkedState (E:=sample_evm) :=
  mkState (E:=sample_evm) ({[(1, 8) := sample_slot8 1; (2, 8) := sample_slot8 2]}, ∅) 100 1700000000 7 1.
Definition sample_run :=
  prewarm_state (K:=BytecodeCache.sample_keccak) (A:=abi_reference (H:=BytecodeCache.sample_keccak))
    (SO:=in_order) (fun a => inr (sample_code a)) (fun a _ => inr (sample_slot8 a))
    (fun _ _ => inl "connection refused"%string) (fun _ => None) (fun _ => None)
    100 [1] [1; 2] (Some BytecodeCache.new)
    (Some (V2ReservesCache.record V2ReservesCache.new 1 650 950 99)).

End Fork.
