(* ===== verification/MempoolBackrun.v ===== *)
(** * Validation of a mempool backrun

    [crates/simulator/src/mempool_backrun.rs]: a pending victim transaction and
    then the arbitrage, executed on one forked state; the arbitrage is accepted
    when both succeed and the profit covers its gas. [decode_revert_reason]
    only renders log text and is left out. *)

From Stdlib Require Import ZArith Lia String.
From S2P Require Import Prelude.
From S2P Require Import Machine.
From S2P Require Import Types.
From S2P Require Import Bytes.
From S2P Require Import Keccak.
From S2P Require Import Revm.
From S2P Require Import Simulator.
From stdpp Require Import base option numbers strings gmap list.

Local Open Scope Z_scope.

Module MempoolBackrun.
Import Revm.

Record VictimTx : Type := mkVictim {
  v_from : Address;
  v_to : Address;
  v_value : Z;
  v_data : list Z;
  v_gas_price : Z;
  v_gas_limit : Z;
}.

Record ArbTx : Type := mkArb {
  a_caller : Address;
  a_to : Address;
  a_data : list Z;
  a_gas_limit : Z;
}.

Inductive RejectReason : Type :=
| VictimReverted | VictimHalted | ArbReverted | ArbHalted | NegativeAfterGas | SimError
| RpcTransport | SimTimeout.

#[global] Instance RejectReason_eq_dec : EqDecision RejectReason.
Proof. solve_decision. Defined.

Definition as_str (r : RejectReason) : string :=
  match r with
  | VictimReverted => "victim_reverted"
  | VictimHalted => "victim_halted"
  | ArbReverted => "arb_reverted"
  | ArbHalted => "arb_halted"
  | NegativeAfterGas => "negative_after_gas"
  | SimError => "sim_error"
  | RpcTransport => "rpc_transport"
  | SimTimeout => "sim_timeout"
  end.

Record BackrunSimResult : Type := mkResult {
  accepted : bool;
  gross_profit_wei : Z;
  arb_gas_used : Z;
  victim_gas_used : Z;
  reject : option RejectReason;
  result_selector : option (list Z);
}.

Definition rejected (reason : RejectReason) (victim_gas arb_gas : Z) : BackrunSimResult :=
  mkResult false 0 arb_gas victim_gas (Some reason) None.

Record ValidatorParams : Type := mkParams {
  p_block_number : Z;
  p_block_timestamp : Z;
  p_base_fee : Z;
  p_chain_id : Z;
  profit_token : Address;
  profit_recipient : Address;
  balance_slot : Z;
  executor_bytecode : option (list Z);
  skip_victim_with_overrides : option (list (Address * Z * Z));
}.

Definition classify_transact_err (e : EVMError) : RejectReason :=
  match e with ErrDatabase _ => RpcTransport | ErrOther _ => SimError end.

(** The first four bytes, zero padded. *)
Definition revert_selector (output : list Z) : list Z :=
  let n := Nat.min (length output) 4 in
  take n output ++ repeat 0 (4 - n).

Section Validate.
Context `{E : Revm} `{K : Keccak}.

Definition read_post_balance (touched : EvmState) (token : Address) (storage_key fallback : Z) : Z :=
  present_value touched token storage_key fallback.

Definition apply_overrides (d : Db) (overrides : list (Address * Z * Z)) : Db :=
  foldl (fun d (o : Address * Z * Z) => insert_account_storage d o.1.1 o.1.2 o.2) d overrides.

(** The key of [protocolEnabled[p]]: a mapping at slot 3. *)
Definition enabled_key (p : Z) : Z := keccak256 (to_be 32 p ++ to_be 32 3).

(** The bytecode of an executor that is not deployed on the fork, owned by the
    caller, with the protocols 1 to 6 enabled. *)
Definition inject_executor (d : Db) (arb : ArbTx) (code : list Z) : Db :=
  let d := insert_account_storage d (a_to arb) 0 (a_caller arb) in
  let d := foldl (fun d p => insert_account_storage d (a_to arb) (enabled_key p) 1) d (seqZ 1 6) in
  insert_account_info d (a_to arb) (mkInfo 0 1 (keccak256 code) (Some code)).

(** The state the two transactions start from. *)
Definition prepare (d : Db) (arb : ArbTx) (params : ValidatorParams) : Db :=
  let d := match skip_victim_with_overrides params with
           | Some overrides => apply_overrides d overrides
           | None => d
           end in
  match executor_bytecode params with
  | Some code => inject_executor d arb code
  | None => d
  end.

Definition validator_cfg (params : ValidatorParams) : CfgEnv :=
  mkCfg (p_chain_id params) true true true true.
Definition validator_block (params : ValidatorParams) : BlockEnv :=
  mkBlock (p_block_number params) (p_block_timestamp params) (p_base_fee params).
Definition victim_env (victim : VictimTx) (params : ValidatorParams) : TxEnv :=
  mkTx (v_from victim) (Call (v_to victim)) (v_data victim) (v_value victim) (v_gas_limit victim)
    (v_gas_price victim) 0 (p_chain_id params).
Definition arb_env (arb : ArbTx) (params : ValidatorParams) : TxEnv :=
  mkTx (a_caller arb) (Call (a_to arb)) (a_data arb) 0 (a_gas_limit arb) (p_base_fee params) 0
    (p_chain_id params).

(** The victim's transaction, unless overrides stand for it: the state it
    leaves and its gas, or the rejection. *)
Definition victim_leg (d : Db) (victim : VictimTx) (params : ValidatorParams)
    : Db * (BackrunSimResult + Z) :=
  match skip_victim_with_overrides params with
  | Some _ => (d, inr 0)
  | None =>
      let '(d, r) := transact_commit d (validator_cfg params) (validator_block params)
                       (victim_env victim params) in
      (d, match r with
          | inr (Success gas_used _) => inr gas_used
          | inr (Revert gas_used output) =>
              inl (mkResult false 0 0 gas_used (Some VictimReverted) (Some (revert_selector output)))
          | inr (Halt reason gas_used) => inl (rejected VictimHalted gas_used 0)
          | inl e => inl (rejected (classify_transact_err e) 0 0)
          end)
  end.

(** The arbitrage, on the state the victim left ([victim_ok] holds whenever
    this point is reached). *)
Definition arb_leg (d : Db) (pre_balance victim_gas : Z) (arb : ArbTx) (params : ValidatorParams)
    : BackrunSimResult :=
  let storage_key := erc20_balance_key (profit_recipient params) (balance_slot params) in
  match (transact d (validator_cfg params) (validator_block params) (arb_env arb params)).2 with
  | inr (Success gas_used _, touched) =>
      let post_balance := read_post_balance touched (profit_token params) storage_key pre_balance in
      let gross := saturate 256 (post_balance - pre_balance) in
      let gas_cost_wei := u256_saturating_mul gas_used (p_base_fee params) in
      if gross <=? gas_cost_wei then rejected NegativeAfterGas victim_gas gas_used
      else mkResult true gross gas_used victim_gas None None
  | inr (Revert gas_used output, _) =>
      mkResult false 0 gas_used victim_gas (Some ArbReverted) (Some (revert_selector output))
  | inr (Halt reason gas_used, _) => rejected ArbHalted victim_gas gas_used
  | inl e => rejected (classify_transact_err e) victim_gas 0
  end.

(** The balance before both transactions. *)
Definition pre_balance (d : Db) (params : ValidatorParams) : Z :=
  read d (profit_token params) (erc20_balance_key (profit_recipient params) (balance_slot params)).

Definition validate_backrun_inner (d : Db) (victim : VictimTx) (arb : ArbTx) (params : ValidatorParams)
    : BackrunSimResult :=
  let d := prepare d arb params in
  let pre := pre_balance d params in
  match victim_leg d victim params with
  | (_, inl r) => r
  | (d, inr victim_gas) => arb_leg d pre victim_gas arb params
  end.

Definition validate_backrun_rpc (state : RpcForkedState) (victim : VictimTx) (arb : ArbTx)
    (params : ValidatorParams) : BackrunSimResult :=
  validate_backrun_inner (db state) victim arb params.

Definition validate_backrun_cache (state : RpcForkedState) (victim : VictimTx) (arb : ArbTx)
    (params : ValidatorParams) : BackrunSimResult :=
  validate_backrun_inner (db state) victim arb params.

(** ** Acceptance *)

(** The victim ran, or its overrides stand for it; [d1] is what it left. *)
Definition victim_ran (d : Db) (victim : VictimTx) (params : ValidatorParams) (d1 : Db) (gas : Z) : Prop :=
  match skip_victim_with_overrides params with
  | Some _ => d1 = d /\ gas = 0
  | None => exists out, transact_commit d (validator_cfg params) (validator_block params)
              (victim_env victim params) = (d1, inr (Success gas out))
  end.

(** The arbitrage succeeds on [d], using [gas], and commits [d']. *)
Definition arb_ran (d : Db) (arb : ArbTx) (params : ValidatorParams) (d' : Db) (gas : Z) : Prop :=
  Simulator.succeeds d (validator_cfg params) (validator_block params) (arb_env arb params) d' gas.

Lemma victim_leg_ran d victim params d1 gas :
  victim_leg d victim params = (d1, inr gas) <-> victim_ran d victim params d1 gas.
Proof.
  unfold victim_leg, victim_ran. destruct (skip_victim_with_overrides params); [naive_solver|].
  destruct (transact_commit _ _ _ _) as [d' [e|[g o|g o|h g]]]; naive_solver.
Qed.

Lemma victim_leg_rejected d victim params d1 r :
  victim_leg d victim params = (d1, inl r) ->
  accepted r = false /\ gross_profit_wei r = 0 /\ is_Some (reject r).
Proof.
  unfold victim_leg. destruct (skip_victim_with_overrides params); [done|].
  destruct (transact_commit _ _ _ _) as [d' [e|[g o|g o|h g]]]; naive_solver.
Qed.

(** How much the recipient's balance grew from [d] to [d'], as a [U256]. *)
Definition growth (d d' : Db) (params : ValidatorParams) : Z :=
  saturate 256 (pre_balance d' params - pre_balance d params).

Lemma arb_leg_exact d1 pre vgas arb params :
  cache_laws -> durable (profit_token params) -> pre_balance d1 params = pre ->
  let r := arb_leg d1 pre vgas arb params in
  (accepted r = true <-> exists d2 gas, arb_ran d1 arb params d2 gas /\
     u256_saturating_mul gas (p_base_fee params) < growth d1 d2 params) /\
  (forall d2 gas, arb_ran d1 arb params d2 gas -> accepted r = true ->
     r = mkResult true (growth d1 d2 params) gas vgas None None) /\
  (accepted r = false -> gross_profit_wei r = 0 /\ is_Some (reject r)).
Proof.
  intros L Hdur <- r. unfold r, arb_leg, arb_ran, Simulator.succeeds.
  destruct (transact d1 _ _ _) as [d2 [e|[[g o|g o|h g] touched]]] eqn:Et; cbn [snd];
    try (split; [naive_solver|]; split; [naive_solver|]; intros _; split; [done|by eexists]).
  assert (Hs : growth d1 (commit d2 touched) params = saturate 256
      (read_post_balance touched (profit_token params)
         (erc20_balance_key (profit_recipient params) (balance_slot params)) (pre_balance d1 params)
       - pre_balance d1 params)).
  { unfold growth, pre_balance. rewrite read_commit by (done || eapply Hdur, Et).
    unfold read_post_balance. do 3 f_equal. unfold read.
    pose proof (storage_transact L d1 (validator_cfg params) (validator_block params)
      (arb_env arb params)) as Ht. rewrite Et in Ht. cbn [fst] in Ht. by rewrite Ht. }
  rewrite <- Hs. destruct (Z.leb_spec (growth d1 (commit d2 touched) params)
    (u256_saturating_mul g (p_base_fee params))) as [Hle|Hlt].
  - split; [split; [done|]|split; [done|intros _; split; [done|by eexists]]].
    intros (d' & gas & (d3 & o3 & t3 & He & ->) & Hp). injection He as <- <- <- <-. lia.
  - split; [split; [|done]|split; [|done]].
    + intros _. eexists _, g. split; [by eexists d2, o, touched|done].
    + intros d' gas (d3 & o3 & t3 & He & ->) _. by injection He as <- <- <- <-.
Qed.

(** An accepted backrun gains, over both transactions, what it reports. *)
Lemma accepted_gain d victim arb params :
  cache_laws -> durable (profit_token params) ->
  accepted (validate_backrun_inner d victim arb params) = true ->
  let d0 := prepare d arb params in
  exists d1 d2 vgas gas, victim_ran d0 victim params d1 vgas /\ arb_ran d1 arb params d2 gas /\
    validate_backrun_inner d victim arb params
      = mkResult true (saturate 256 (pre_balance d2 params - pre_balance d0 params)) gas vgas None None /\
    u256_saturating_mul gas (p_base_fee params)
      < saturate 256 (pre_balance d2 params - pre_balance d0 params).
Proof.
  intros L Hdur Ha d0. unfold validate_backrun_inner in *. fold d0 in Ha |- *.
  destruct (victim_leg d0 victim params) as [d1 [rv|vgas]] eqn:Ev.
  { apply victim_leg_rejected in Ev as [Hf _]. congruence. }
  apply victim_leg_ran in Ev. set (pre := pre_balance d0 params) in *. clearbody pre.
  unfold arb_leg in *. destruct (transact d1 _ _ _) as [d' [e|[[g o|g o|h g] touched]]] eqn:Et;
    cbn [snd] in *; try discriminate.
  set (key := erc20_balance_key (profit_recipient params) (balance_slot params)) in *.
  set (post := read_post_balance touched (profit_token params) key pre) in *.
  destruct (Z.leb_spec (saturate 256 (post - pre)) (u256_saturating_mul g (p_base_fee params)))
    as [|Hlt]; [discriminate|].
  assert (Hpost : pre_balance (commit d' touched) params = post).
  { unfold pre_balance. fold key. rewrite read_commit by (done || eapply Hdur, Et).
    subst post. unfold read_post_balance, present_value in *.
    destruct (acc ← touched !! profit_token params; storage acc !! key) as [v|]; [done|].
    cbn [from_option id] in Hlt. rewrite Z.sub_diag in Hlt.
    pose proof (saturate_range 256 (g * p_base_fee params) ltac:(lia)) as [H0 _].
    unfold u256_saturating_mul in Hlt. unfold saturate in Hlt at 2. lia. }
  exists d1, (commit d' touched), vgas, g. rewrite Hpost.
  split; [done|]. split; [by exists d', o, touched|]. done.
Qed.

End Validate.

(** ** A concrete backrun *)

(** The victim (account 5) writes slot 8 of the pool 77; the arbitrage pays the
    recipient 9 its profit in the token 10 when it finds that write, and reverts
    otherwise. *)
Definition toy_key : Z := erc20_balance_key (K:=keccak_reference) 9 3.
Definition toy_touch (a k v : Z) : EvmState :=
  {[a := mkAccount (mkInfo 0 1 0 None) {[k := v]} false]}.
Definition toy_run (d : store) (_ : CfgEnv) (_ : BlockEnv) (tx : TxEnv)
    : EVMError + ExecutionResult * EvmState :=
  inr (if caller tx =? 5 then (Success 100000 (OutCall []), toy_touch 77 8 1)
       else if default 0 (d.1 !! (77, 8)) =? 1
            then (Success 200000 (OutCall []), toy_touch 10 toy_key (10 ^ 16))
            else (Revert 30000 [], ∅)).

Definition toy_evm : Revm := store_evm toy_run.
Definition toy_victim : VictimTx := mkVictim 5 77 0 [] 0 30000000.
Definition toy_arb : ArbTx := mkArb 9 50 [1; 2; 3; 4] 3000000.
Definition toy_params : ValidatorParams := mkParams 100 1700000000 (10 ^ 9) 1 10 9 3 None None.

Lemma toy_durable a : durable (E:=toy_evm) a.
Proof.
  intros d cfg blk tx d' r touched [= <- Hr]. unfold toy_run in Hr.
  assert (Ht : forall b k v, survives (toy_touch b k v) a).
  { intros b k v acc Ha. unfold toy_touch in Ha. by apply lookup_singleton_Some in Ha as [_ <-]. }
  destruct (caller tx =? 5); [injection Hr as _ <-; apply Ht|].
  destruct (_ =? 1); injection Hr as _ <-; [apply Ht|]. intros acc Ha. by rewrite lookup_empty in Ha.
Qed.

End MempoolBackrun.
