(* ===== verification/PostStateReplay.v ===== *)
(** * Replaying a victim

    [crates/simulator/src/post_state_replay.rs]: when a closed-form prediction is
    not trusted, the pending transaction is executed on a fork and the pool's new
    state is read back through its view functions. *)

From Stdlib Require Import ZArith Lia String.
From S2P Require Import Prelude.
From S2P Require Import Machine.
From S2P Require Import Types.
From S2P Require Import Bytes.
From S2P Require Import Keccak.
From S2P Require Import Abi.
From S2P Require Import Revm.
From S2P Require Import UniswapV3.
From S2P Require Import Curve.
From S2P Require Import Balancer.
From S2P Require Import MempoolBackrun.
From stdpp Require Import base option numbers strings gmap list.

Local Open Scope Z_scope.

Module PostStateReplay.
Import Revm MempoolBackrun.

Definition BALANCER_V2_VAULT : Address := 0xBA12222222228d8Ba445958a75a0704d566BF2C8.

Inductive ReplayError : Type :=
| ReVictimReverted
| ReVictimHalted
| ReadCallFailed (view : string)
| DecodeFailed (view : string)
| ReSimError
| UnimplementedProtocol (label : string).

Definition replay_error_str (e : ReplayError) : string :=
  match e with
  | ReVictimReverted => "victim_reverted"
  | ReVictimHalted => "victim_halted"
  | ReadCallFailed _ => "read_call_failed"
  | DecodeFailed _ => "decode_failed"
  | ReSimError => "sim_error"
  | UnimplementedProtocol _ => "unimplemented_protocol"
  end.

Record ReplayParams : Type := mkReplay {
  r_block_number : Z;
  r_block_timestamp : Z;
  r_base_fee : Z;
  r_chain_id : Z;
}.

(** What the view functions return. *)
Definition slot0_returns : list sol :=
  [SUint 160; SInt 24; SUint 16; SUint 16; SUint 16; SUint 8; SBool].
Definition pool_tokens_returns : list sol := [SArray SAddress; SArray (SUint 256); SUint 256].

Definition replay_cfg (params : ReplayParams) : CfgEnv := mkCfg (r_chain_id params) true true true false.
Definition replay_block (params : ReplayParams) : BlockEnv :=
  mkBlock (r_block_number params) (r_block_timestamp params) (r_base_fee params).
Definition replay_victim_env (victim : VictimTx) (params : ReplayParams) : TxEnv :=
  mkTx (v_from victim) (Call (v_to victim)) (v_data victim) (v_value victim) (v_gas_limit victim)
    (v_gas_price victim) 0 (r_chain_id params).

Definition build_view_env (pool : Address) (data : list Z) (chain : Z) : TxEnv :=
  mkTx zero_address (Call pool) data 0 1000000 0 0 chain.

Section Replay.
Context `{E : Revm} `{K : Keccak} `{A : !SolAbi}.

(** The victim's transaction, committed. *)
Definition replay_victim (d : Db) (victim : VictimTx) (params : ReplayParams) : Db * (ReplayError + unit) :=
  let '(d, r) := transact_commit d (replay_cfg params) (replay_block params)
                   (replay_victim_env victim params) in
  (d, match r with
      | inr (Success _ _) => inr tt
      | inr (Revert _ _) => inl ReVictimReverted
      | inr (Halt _ _) => inl ReVictimHalted
      | inl _ => inl ReSimError
      end).

(** A view call and the decoding of what it returns. *)
Definition read_view (d : Db) (params : ReplayParams) (to : Address) (name : string) (ins : list sol)
    (args : denote (STuple ins)) (outs : list sol) : Db * (ReplayError + denote (STuple outs)) :=
  let '(d, r) := transact d (replay_cfg params) (replay_block params)
                   (build_view_env to (abi_encode_call name ins args) (r_chain_id params)) in
  (d, match r with
      | inr (Success _ output, _) =>
          match abi_decode_params outs (into_data output) with
          | inr v => inr v
          | inl _ => inl (DecodeFailed name)
          end
      | _ => inl (ReadCallFailed name)
      end).

Definition replay_v3_inner (d : Db) (victim : VictimTx) (pool : Address) (params : ReplayParams)
    : ReplayError + UniswapV3Pool.V3PostState :=
  match replay_victim d victim params with
  | (_, inl e) => inl e
  | (d, inr _) =>
      match read_view d params pool "slot0" [] tt slot0_returns with
      | (_, inl e) => inl e
      | (d, inr (sqrt_price_x96, _)) =>
          match read_view d params pool "liquidity" [] tt [SUint 128] with
          | (_, inl e) => inl e
          | (_, inr (liquidity, _)) => inr (UniswapV3Pool.mkPost sqrt_price_x96 liquidity 0 true)
          end
      end
  end.

Definition replay_curve_inner (d : Db) (victim : VictimTx) (pool : Address)
    (coin_idx_in coin_idx_out : Z) (params : ReplayParams) : ReplayError + CurvePool.CurvePostState :=
  match replay_victim d victim params with
  | (_, inl e) => inl e
  | (d, inr _) =>
      match read_view d params pool "balances" [SUint 256] (coin_idx_in, tt) [SUint 256] with
      | (_, inl e) => inl e
      | (d, inr (new_balance_in, _)) =>
          match read_view d params pool "balances" [SUint 256] (coin_idx_out, tt) [SUint 256] with
          | (_, inl e) => inl e
          | (_, inr (new_balance_out, _)) =>
              inr (CurvePool.mkPost (Z.to_nat coin_idx_in) (Z.to_nat coin_idx_out) new_balance_in
                     new_balance_out 0 false)
          end
      end
  end.

(** The loop over the parallel arrays: the last balance listed for each
    token. *)
Fixpoint pick_balances (token0 token1 : Address) (acc : option Z * option Z) (l : list (Address * Z))
    : option Z * option Z :=
  match l with
  | [] => acc
  | (tok, bal) :: l =>
      pick_balances token0 token1
        (if tok =? token0 then (Some bal, acc.2)
         else if tok =? token1 then (acc.1, Some bal) else acc) l
  end.

Definition replay_balancer_inner (d : Db) (victim : VictimTx) (pool vault token0 token1 : Address)
    (params : ReplayParams) : ReplayError + BalancerPool.BalancerPostState :=
  match replay_victim d victim params with
  | (_, inl e) => inl e
  | (d, inr _) =>
      match read_view d params pool "getPoolId" [] tt [SBytes32] with
      | (_, inl e) => inl e
      | (d, inr (pool_id, _)) =>
          match read_view d params vault "getPoolTokens" [SBytes32] (pool_id, tt) pool_tokens_returns with
          | (_, inl e) => inl e
          | (_, inr (tokens, (balances, _))) =>
              match pick_balances token0 token1 (None, None) (zip tokens balances) with
              | (Some b0, Some b1) => inr (BalancerPool.mkPost b0 b1 0 false)
              | _ => inl (DecodeFailed "getPoolTokens")
              end
          end
      end
  end.

Definition replay_v3_post_state_rpc (state : RpcForkedState) (victim : VictimTx) (pool : Address)
    (params : ReplayParams) : ReplayError + UniswapV3Pool.V3PostState :=
  replay_v3_inner (db state) victim pool params.

Definition replay_curve_post_state_rpc (state : RpcForkedState) (victim : VictimTx) (pool : Address)
    (coin_idx_in coin_idx_out : Z) (params : ReplayParams) : ReplayError + CurvePool.CurvePostState :=
  replay_curve_inner (db state) victim pool coin_idx_in coin_idx_out params.

Definition replay_balancer_post_state_rpc (state : RpcForkedState) (victim : VictimTx)
    (pool token0 token1 : Address) (params : ReplayParams) : ReplayError + BalancerPool.BalancerPostState :=
  replay_balancer_inner (db state) victim pool BALANCER_V2_VAULT token0 token1 params.

(** ** What a replay reads *)

(** In every state, calling [name] on the contract answers the encoding of
    [value]; the answer is not affected by calls that are not committed. *)
Definition view_is (params : ReplayParams) (to : Address) (name : string) (ins : list sol)
    (args : denote (STuple ins)) (outs : list sol) (value : Db -> denote (STuple outs)) : Prop :=
  (forall d, exists d' gas touched,
     transact d (replay_cfg params) (replay_block params)
       (build_view_env to (abi_encode_call name ins args) (r_chain_id params))
     = (d', inr (Success gas (OutCall (Abi.encode (STuple outs) (value d))), touched))) /\
  (forall d, encodable (STuple outs) (value d)) /\
  (forall d cfg blk tx, value (transact d cfg blk tx).1 = value d).

Lemma read_view_is params to name ins args outs value : view_is params to name ins args outs value ->
  forall d, exists tx, read_view d params to name ins args outs
            = ((transact d (replay_cfg params) (replay_block params) tx).1, inr (value d)).
Proof.
  intros (Ha & He & _) d. unfold read_view.
  destruct (Ha d) as (d' & gas & touched & Ht). exists (build_view_env to (abi_encode_call name ins args) (r_chain_id params)).
  rewrite Ht. cbn [into_data fst]. by rewrite (abi_params_inverse outs (value d) (He d)).
Qed.

(** The outcome of the victim, as the errors the replays report. *)
Definition victim_error (r : EVMError + ExecutionResult) : option ReplayError :=
  match r with
  | inr (Success _ _) => None
  | inr (Revert _ _) => Some ReVictimReverted
  | inr (Halt _ _) => Some ReVictimHalted
  | inl _ => Some ReSimError
  end.

Definition after_victim (d : Db) (victim : VictimTx) (params : ReplayParams) : Db * option ReplayError :=
  let '(d, r) := transact_commit d (replay_cfg params) (replay_block params)
                   (replay_victim_env victim params) in
  (d, victim_error r).

Lemma replay_victim_after d victim params :
  replay_victim d victim params
  = ((after_victim d victim params).1,
     match (after_victim d victim params).2 with Some e => inl e | None => inr tt end).
Proof.
  unfold replay_victim, after_victim. destruct (transact_commit _ _ _ _) as [d' [e|[| |]]]; done.
Qed.

(** The last entry for a token in a list without duplicates is its entry. *)
Lemma pick_balances_skip token0 token1 l : forall acc,
  (token0 ∉ l.*1 -> (pick_balances token0 token1 acc l).1 = acc.1) /\
  (token1 ∉ l.*1 -> (pick_balances token0 token1 acc l).2 = acc.2).
Proof.
  induction l as [|[tok bal] l IH]; intros acc; [done|].
  cbn [pick_balances]. rewrite fmap_cons, !elem_of_cons. cbn [fst].
  destruct (IH (if tok =? token0 then (Some bal, acc.2)
                else if tok =? token1 then (acc.1, Some bal) else acc)) as [H1 H2].
  split; intros Hn; rewrite (H1 ltac:(tauto)) || rewrite (H2 ltac:(tauto));
    destruct (Z.eqb_spec tok token0), (Z.eqb_spec tok token1); cbn; naive_solver.
Qed.

Lemma pick_balances_exact token0 token1 l b0 b1 : token0 <> token1 -> NoDup l.*1 ->
  (token0, b0) ∈ l -> (token1, b1) ∈ l -> forall acc,
  pick_balances token0 token1 acc l = (Some b0, Some b1).
Proof.
  intros Hne Hd H0 H1 acc. rewrite (surjective_pairing (pick_balances _ _ _ _)). f_equal.
  - clear H1. revert acc. induction l as [|[t b] l IH]; intros acc; [by apply not_elem_of_nil in H0|].
    rewrite fmap_cons in Hd. apply NoDup_cons in Hd as [Hn Hd]. cbn [pick_balances].
    apply elem_of_cons in H0 as [[= <- <-]|H0]; [|by apply IH].
    rewrite (proj1 (pick_balances_skip _ _ l _)) by done. by rewrite Z.eqb_refl.
  - clear H0. revert acc. induction l as [|[t b] l IH]; intros acc; [by apply not_elem_of_nil in H1|].
    rewrite fmap_cons in Hd. apply NoDup_cons in Hd as [Hn Hd]. cbn [pick_balances].
    apply elem_of_cons in H1 as [[= <- <-]|H1]; [|by apply IH].
    rewrite (proj2 (pick_balances_skip _ _ l _)) by done.
    destruct (Z.eqb_spec token1 token0); [naive_solver|]. by rewrite Z.eqb_refl.
Qed.

End Replay.

(** ** A concrete replay *)

(** A contract that answers every view from its slots, and the Vault that lists
    the tokens 12 and 11 in this order; the victim (account 5) moves the slots
    0, 1 and 2 of the pool 7. *)
Definition cell (d : store) (a k w : Z) : Z := default 0 (d.1 !! (a, k)) mod 2 ^ w.

Definition toy_slot0 (d : store) : denote (STuple slot0_returns) :=
  (cell d 7 0 160, (0, (0, (0, (0, (0, (true, tt))))))).
Definition toy_liquidity (d : store) : denote (STuple [SUint 128]) := (cell d 7 1 128, tt).
Definition toy_balance (k : Z) (d : store) : denote (STuple [SUint 256]) := (cell d 7 (k mod 2 ^ 256) 256, tt).
Definition toy_pool_id (d : store) : denote (STuple [SBytes32]) := (7, tt).
Definition toy_tokens (d : store) : denote (STuple pool_tokens_returns) :=
  ([12; 11], ([cell d 7 2 256; cell d 7 1 256], (100, tt))).

Definition toy_view (d : store) (data : list Z) : option (list Z) :=
  let sel := take 4 data in
  let is_ name ins := bool_decide (sel = selector_of (H:=keccak_reference) name ins) in
  if is_ "slot0"%string [] then Some (Abi.encode (STuple slot0_returns) (toy_slot0 d))
  else if is_ "liquidity"%string [] then Some (Abi.encode (STuple [SUint 128]) (toy_liquidity d))
  else if is_ "balances"%string [SUint 256]
  then Some (Abi.encode (STuple [SUint 256]) (toy_balance (be (drop 4 data)) d))
  else if is_ "getPoolId"%string [] then Some (Abi.encode (STuple [SBytes32]) (toy_pool_id d))
  else if is_ "getPoolTokens"%string [SBytes32]
  then Some (Abi.encode (STuple pool_tokens_returns) (toy_tokens d))
  else None.

Definition toy_run (d : store) (_ : CfgEnv) (_ : BlockEnv) (tx : TxEnv)
    : EVMError + ExecutionResult * EvmState :=
  inr (if caller tx =? 5
       then (Success 90000 (OutCall []),
             {[7 := mkAccount (mkInfo 0 1 0 None) {[0 := 111; 1 := 222; 2 := 333]} false]})
       else match toy_view d (tx_data tx) with
            | Some out => (Success 2000 (OutCall out), ∅)
            | None => (Revert 500 [], ∅)
            end).

Definition toy_evm : Revm := store_evm toy_run.
Definition toy_replay : ReplayParams := mkReplay 100 1700000000 (10 ^ 9) 1.

Lemma cell_range d a k w : 0 <= w -> 0 <= cell d a k w < 2 ^ w.
Proof. intros Hw. apply Z.mod_pos_bound, Z.pow_pos_nonneg; lia. Qed.

(** The encodings of these values are short. *)
Ltac short_encoding :=
  cbn -[word Z.lt Z.of_nat]; rewrite ?length_app, ?length_word; cbn; lia.

(** A view the contract answers is a view. *)
Lemma toy_view_is to name ins args outs value :
  (forall d, toy_view d (abi_encode_call (SolAbi:=abi_reference (H:=keccak_reference)) name ins args)
             = Some (Abi.encode (STuple outs) (value d))) ->
  (forall d, encodable (STuple outs) (value d)) ->
  view_is (E:=toy_evm) (K:=keccak_reference) (A:=abi_reference (H:=keccak_reference)) toy_replay to name
    ins args outs value.
Proof.
  intros Hv He. split; [|split; [done|done]]. intros d. eexists _, _, _.
  cbn [transact toy_evm store_evm]. unfold toy_run. cbn [caller build_view_env].
  change (zero_address =? 5) with false. cbn match. cbn [tx_data build_view_env]. rewrite Hv. reflexivity.
Qed.

(** The branch of [toy_view] depends on the selector alone. *)
Lemma toy_view_selector d name ins args :
  toy_view d (abi_encode_call (SolAbi:=abi_reference (H:=keccak_reference)) name ins args)
  = toy_view d (selector_of (H:=keccak_reference) name ins ++ Abi.encode (STuple ins) args).
Proof. done. Qed.

Ltac toy_branch :=
  intros d; rewrite toy_view_selector; unfold toy_view; rewrite take_app_length' by (by rewrite length_selector);
  repeat first [rewrite bool_decide_true by (vm_compute; reflexivity)
               |rewrite bool_decide_false by (vm_compute; discriminate)];
  try reflexivity.

Lemma toy_balances k d :
  toy_view d (abi_encode_call (SolAbi:=abi_reference (H:=keccak_reference)) "balances" [SUint 256] (k, tt))
  = Some (Abi.encode (STuple [SUint 256]) (toy_balance k d)).
Proof.
  revert d. toy_branch. rewrite drop_app_length' by (by rewrite length_selector).
  do 2 f_equal. unfold toy_balance. do 2 f_equal.
  change (Abi.encode (STuple [SUint 256]) (k, tt)) with (word k ++ []). rewrite app_nil_r.
  unfold word. rewrite be_to_be. change (256 ^ Z.of_nat 32) with (2 ^ 256). by rewrite !Z.mod_mod.
Qed.

End PostStateReplay.
