(* ===== verification/FeeOnTransfer.v ===== *)
(** * The fee-on-transfer and honeypot screens

    [crates/simulator/src/fee_on_transfer.rs]: the transfer probe and the
    buy-and-sell round trip that decide whether a discovered token is safe for
    the pool math. The EVM, the forked database and Keccak-256 are code outside
    the repository ([Revm], [Keccak]); what a theorem needs of a token contract
    is stated with it. *)

From Stdlib Require Import ZArith Lia String.
From S2P Require Import Prelude.
From S2P Require Import Machine.
From S2P Require Import Types.
From S2P Require Import Bytes.
From S2P Require Import Keccak.
From S2P Require Import Revm.
From S2P Require Import V2ReservesCache.
From stdpp Require Import base option numbers strings gmap list.

Local Open Scope Z_scope.

Module FeeOnTransfer.
Import Revm.

(** [[0xa9, 0x05, 0x9c, 0xbb]]. *)
Definition TRANSFER_SELECTOR : list Z := [169; 5; 156; 187].
Definition TEST_HOLDER : Address := 0xd39D.

Record FotConfig : Type := mkConfig {
  max_tax_bps : Z;
  test_fraction_bps : Z;
  max_slot_probe : Z;
  gas_limit : Z;
}.

Definition default_config : FotConfig := mkConfig 10 10 40 1000000.

Inductive FotVerdict : Type :=
| Clean (observed_tax_bps : Z)
| FeeOnTransfer (tax_bps : Z)
| Honeypot (reason : string)
| Inconclusive (reason : string).

Definition is_admissible (v : FotVerdict) : bool :=
  match v with Clean _ => true | _ => false end.

Inductive RoundTripVerdict : Type :=
| RtClean (recovery_bps : Z)
| RtFeeOnTransfer (loss_bps : Z)
| RtHoneypot (reason : string)
| RtInconclusive (reason : string).

Definition rt_is_admissible (v : RoundTripVerdict) : bool :=
  match v with RtClean _ => true | _ => false end.

(** The configuration both probes run with. *)
Definition probe_cfg (chain : Z) : CfgEnv := mkCfg chain true true true false.

Section Screens.
Context `{K : Keccak} `{E : Revm} `{HO : HashOrder} `{B : Build}.

Definition expected_amount_out (amount_in reserve_in reserve_out fee_bps : Z) : outcome Z :=
  if (amount_in =? 0) || (reserve_in =? 0) || (reserve_out =? 0) || (10000 <=? fee_bps)
  then Ret 0
  else
    fee_factor ← u32_sub 10000 fee_bps;
    amount_in_with_fee ← u256_mul amount_in fee_factor;
    numerator ← u256_mul amount_in_with_fee reserve_out;
    scaled ← u256_mul reserve_in 10000;
    denominator ← u256_add scaled amount_in_with_fee;
    u256_div numerator denominator.

Definition tax_bps (expected actual : Z) : outcome Z :=
  if (expected =? 0) || (expected <=? actual) then Ret 0
  else
    diff ← u256_sub expected actual;
    bps ← u256_div (u256_saturating_mul diff 10000) expected;
    Ret (if bps <=? u32_max then bps else 10000).

Definition classify_transfer (sent received max_tax_bps : Z) : outcome FotVerdict :=
  tax ← tax_bps sent received;
  Ret (if tax <=? max_tax_bps then Clean tax else FeeOnTransfer tax).

Definition discover_balance_slot (read_storage : Z -> Z) (holder : Address)
    (known_balance max_slots : Z) : option Z :=
  if known_balance =? 0 then None
  else find (fun slot => read_storage (erc20_balance_key holder slot) =? known_balance)
         (seqZ 0 max_slots).

(** [(balance.saturating_mul(fraction) / 10_000).max(1)]. *)
Definition probe_size (balance fraction : Z) : Z :=
  Z.max (u256_saturating_mul balance fraction / 10000) 1.

(** [transfer(to, amount)] calldata. *)
Definition transfer_calldata (to : Address) (amount : Z) : list Z :=
  TRANSFER_SELECTOR ++ (repeat 0 12 ++ to_be 20 to) ++ to_be 32 amount.

Definition probe_tx (st : RpcForkedState) (token pool : Address) (x : Z) (cfg : FotConfig) : TxEnv :=
  mkTx TEST_HOLDER (Call token) (transfer_calldata pool x) 0 (gas_limit cfg) (base_fee st) 0 (chain_id st).

Definition screen_token_transfer (st : RpcForkedState) (token pool : Address)
    (pool_token_balance : Z) (cfg : FotConfig) : outcome FotVerdict :=
  match discover_balance_slot (read (db st) token) pool pool_token_balance (max_slot_probe cfg) with
  | None => Ret (Inconclusive "balance storage slot not found")
  | Some slot =>
      let x := probe_size pool_token_balance (test_fraction_bps cfg) in
      let holder_key := erc20_balance_key TEST_HOLDER slot in
      let funded := insert_account_storage (db st) token holder_key x in
      let pool_key := erc20_balance_key pool slot in
      let pre_pool := read funded token pool_key in
      match (transact funded (probe_cfg (chain_id st)) (block_env st) (probe_tx st token pool x cfg)).2 with
      | inr (Success _ _, touched) =>
          let post_pool := present_value touched token pool_key pre_pool in
          let received := saturate 256 (post_pool - pre_pool) in
          classify_transfer x received (max_tax_bps cfg)
      | inr (Revert _ output, _) => Ret (Honeypot ("transfer reverted: 0x" +:+ hex_encode output))
      | inr (Halt reason _, _) => Ret (Honeypot ("transfer halted: " +:+ reason))
      | inl e => Ret (Inconclusive ("evm transact error: " +:+ error_text e))
      end
  end.

(** ** The round trip *)

(** [[0x02, 0x2c, 0x0d, 0x9f]]. *)
Definition V2_SWAP_SELECTOR : list Z := [2; 44; 13; 159].
Definition V2_RESERVES_SLOT : Z := 8.

Definition unpack_v2_reserves (slot_value : Z) : Z * Z :=
  let mask := V2ReservesCache.u256_shl 1 112 - 1 in
  let reserve0 := Z.land slot_value mask in
  let reserve1 := Z.land (Z.shiftr slot_value 112) mask in
  (reserve0, reserve1).

Definition encode_v2_swap (amount0_out amount1_out : Z) (to : Address) : list Z :=
  V2_SWAP_SELECTOR ++ to_be 32 amount0_out ++ to_be 32 amount1_out
    ++ (repeat 0 12 ++ to_be 20 to) ++ to_be 32 0x80 ++ to_be 32 0.

(** [u32::try_from(v).unwrap_or(d)]. *)
Definition u32_or (v d : Z) : Z := if v <=? u32_max then v else d.

Definition classify_round_trip (base_in base_out fee_bps : Z) (sell_succeeded : bool)
    (max_loss_bps : Z) : outcome RoundTripVerdict :=
  if negb sell_succeeded then Ret (RtHoneypot "sell leg reverted")
  else if base_out =? 0 then Ret (RtHoneypot "sell recovered zero base")
  else if base_in =? 0 then Ret (RtInconclusive "zero base_in")
  else
    q ← u256_div (u256_saturating_mul base_out 10000) base_in;
    let actual_bps := u32_or q u32_max in
    let ff := u64_saturating_sub 10000 fee_bps in
    ff2 ← u64_mul ff ff;
    let expected_bps := u32_or (ff2 / 10000) 10000 in
    let loss_bps := saturate 32 (expected_bps - actual_bps) in
    Ret (if loss_bps <=? max_loss_bps then RtClean actual_bps else RtFeeOnTransfer loss_bps).

Definition v2_transact (d : Db) (block : BlockEnv) (chain base_fee caller to : Z)
    (data : list Z) (nonce gas_limit : Z) : bool * option string * Db :=
  let '(d', r) := transact d (probe_cfg chain) block
                   (mkTx caller (Call to) data 0 gas_limit base_fee nonce chain) in
  match r with
  | inr (Success _ _, touched) => (true, None, commit_all d' touched)
  | inr (Revert _ output, _) => (false, Some ("revert 0x" +:+ hex_encode output), d')
  | inr (Halt reason _, _) => (false, Some ("halt " +:+ reason), d')
  | inl e => (false, Some ("evm error: " +:+ error_text e), d')
  end.

Definition read_balance (d : Db) (token holder slot : Z) : Z :=
  read d token (erc20_balance_key holder slot).

(** Pair a token amount with a base amount in the order of the pair. *)
Definition pair_order (token_is_0 : bool) (r0 r1 : Z) : Z * Z :=
  if token_is_0 then (r0, r1) else (r1, r0).

(** The sell leg: transfer the bought tokens into the pair, then swap them
    back; [d] is the database after the buy. *)
Definition sell_leg (st : RpcForkedState) (d : Db) (pair token base base_slot token_slot fee_bps : Z)
    (cfg : FotConfig) (max_loss_bps base_in t_received : Z) : outcome RoundTripVerdict :=
  let token_is_0 := token <? base in
  let '(ok_t, reason_t, d) :=
    v2_transact d (block_env st) (chain_id st) (base_fee st) TEST_HOLDER token
      (transfer_calldata pair t_received) 1 (gas_limit cfg) in
  if negb ok_t
  then Ret (RtHoneypot ("sell transfer to pair failed: " +:+ default "" reason_t))
  else
    let slot8b := read d pair V2_RESERVES_SLOT in
    let '(r0b, r1b) := unpack_v2_reserves slot8b in
    let '(reserve_token_b, reserve_base_b) := pair_order token_is_0 r0b r1b in
    let pair_token_bal := read_balance d token pair token_slot in
    let amt_t_in := saturate 256 (pair_token_bal - reserve_token_b) in
    amt_base_out ← expected_amount_out amt_t_in reserve_token_b reserve_base_b fee_bps;
    if amt_base_out =? 0
    then Ret (RtHoneypot "pair received ~zero sellable tokens")
    else
      let base_is_0 := negb token_is_0 in
      let '(sa0, sa1) := if base_is_0 then (amt_base_out, 0) else (0, amt_base_out) in
      let pre_b := read_balance d base TEST_HOLDER base_slot in
      let '(ok_s, reason_s, d) :=
        v2_transact d (block_env st) (chain_id st) (base_fee st) TEST_HOLDER pair
          (encode_v2_swap sa0 sa1 TEST_HOLDER) 2 (gas_limit cfg) in
      if negb ok_s
      then Ret (RtHoneypot ("sell swap reverted: " +:+ default "" reason_s))
      else
        let base_out := saturate 256 (read_balance d base TEST_HOLDER base_slot - pre_b) in
        classify_round_trip base_in base_out fee_bps true max_loss_bps.

Definition screen_token_v2_round_trip (st : RpcForkedState)
    (pair token base base_slot fee_bps : Z) (cfg : FotConfig) (max_loss_bps : Z)
    : outcome RoundTripVerdict :=
  let token_is_0 := token <? base in
  let slot8 := read (db st) pair V2_RESERVES_SLOT in
  let '(r0, r1) := unpack_v2_reserves slot8 in
  let '(reserve_token, reserve_base) := pair_order token_is_0 r0 r1 in
  if (reserve_token =? 0) || (reserve_base =? 0)
  then Ret (RtInconclusive "pair has zero reserves")
  else
    match discover_balance_slot (read (db st) token) pair reserve_token (max_slot_probe cfg) with
    | None => Ret (RtInconclusive "token balance slot not found")
    | Some token_slot =>
        let base_in := probe_size reserve_base (test_fraction_bps cfg) in
        amt_t_out ← expected_amount_out base_in reserve_base reserve_token fee_bps;
        if amt_t_out =? 0
        then Ret (RtInconclusive "computed zero token-out for buy")
        else
          let pair_base_key := erc20_balance_key pair base_slot in
          let pair_base_bal := read (db st) base pair_base_key in
          let d := insert_account_storage (db st) base pair_base_key
                     (u256_saturating_add pair_base_bal base_in) in
          let '(a0, a1) := if token_is_0 then (amt_t_out, 0) else (0, amt_t_out) in
          let pre_t := read_balance d token TEST_HOLDER token_slot in
          let '(ok, reason, d) :=
            v2_transact d (block_env st) (chain_id st) (base_fee st) TEST_HOLDER pair
              (encode_v2_swap a0 a1 TEST_HOLDER) 0 (gas_limit cfg) in
          if negb ok
          then Ret (RtInconclusive ("buy leg failed: " +:+ default "" reason))
          else
            let t_received :=
              saturate 256 (read_balance d token TEST_HOLDER token_slot - pre_t) in
            if t_received =? 0
            then Ret (RtHoneypot "buy returned zero tokens")
            else sell_leg st d pair token base base_slot token_slot fee_bps cfg max_loss_bps
                   base_in t_received
    end.

(** ** Measured tax *)

Lemma probe_size_pos balance fraction : 1 <= probe_size balance fraction.
Proof. unfold probe_size. lia. Qed.

Lemma probe_size_le balance fraction :
  1 <= balance -> 0 <= fraction <= 10000 -> probe_size balance fraction <= balance.
Proof.
  intros Hb Hf. unfold probe_size, u256_saturating_mul, saturate.
  apply Z.max_lub; [|done]. apply Z.div_le_upper_bound; [done|].
  assert (0 <= balance * fraction <= balance * 10000) by nia. lia.
Qed.

(** While the scaled shortfall fits in 256 bits, the tax is exact. *)
Lemma tax_bps_exact sent received :
  0 < sent -> 0 <= received -> sent * 10000 < 2 ^ 256 ->
  tax_bps sent received = Ret (Z.max 0 (sent - received) * 10000 / sent).
Proof.
  intros Hs Hr Hb. unfold tax_bps. destruct (Z.eqb_spec sent 0); [lia|]. simpl.
  destruct (Z.leb_spec sent received) as [Hle|Hlt].
  { by rewrite Z.max_l, Z.mul_0_l, Z.div_0_l by lia. }
  rewrite u256_sub_exact by (unfold in_u; lia). simpl.
  unfold u256_saturating_mul. rewrite saturate_exact by (unfold in_u; lia).
  rewrite u256_div_exact by lia. simpl. rewrite Z.max_r by lia.
  assert ((sent - received) * 10000 / sent <= 10000) by (apply Z.div_le_upper_bound; nia).
  by rewrite (proj2 (Z.leb_le _ _)) by (unfold u32_max; lia).
Qed.

(** A tax of [tau] basis points, floored, is measured to within one. *)
Lemma measured_tax x tau : 10000 <= x -> 0 <= tau <= 10000 ->
  tau - 1 <= (x * tau / 10000) * 10000 / x <= tau.
Proof.
  intros Hx Ht. pose proof (Z.div_mod (x * tau) 10000 ltac:(lia)) as Hdm.
  pose proof (Z.mod_pos_bound (x * tau) 10000 ltac:(lia)). set (q := x * tau / 10000) in *.
  split; [apply Z.div_le_lower_bound; [lia|nia]|].
  apply Z.div_le_upper_bound; [lia|nia].
Qed.

(** ** The transfer screen measures the tax *)

(** [token] keeps its balances in the mapping at [slot], and a transfer from
    the funded test holder to [pool] credits the amount less a tax of [tau]
    basis points. *)
Definition taxes (token pool slot tau : Z) : Prop :=
  forall d cfg blk tx x bal,
    in_u 256 x -> caller tx = TEST_HOLDER -> kind tx = Call token -> tx_data tx = transfer_calldata pool x ->
    read_balance d token TEST_HOLDER slot = x -> read_balance d token pool slot = bal ->
    exists d' gas out touched, transact d cfg blk tx = (d', inr (Success gas out, touched)) /\
      (acc ← touched !! token; storage acc !! erc20_balance_key pool slot)
        = Some (bal + (x - x * tau / 10000)).

(** The slot whose balance of the pool is the known one, and no earlier slot. *)
Record balance_slot (d : Db) (token pool bal slot : Z) : Prop := {
  bs_nonneg : 0 <= slot;
  bs_known : read_balance d token pool slot = bal;
  bs_first : forall s, 0 <= s < slot -> read_balance d token pool s <> bal;
}.

Lemma find_app_skip {A} (f : A -> bool) l1 l2 :
  (forall x, x ∈ l1 -> f x = false) -> find f (l1 ++ l2) = find f l2.
Proof.
  induction l1 as [|a l1 IH]; simpl; intros H; [done|].
  rewrite (H a) by set_solver. apply IH. set_solver.
Qed.

Lemma discover_first d token pool bal slot n :
  bal <> 0 -> slot < n -> balance_slot d token pool bal slot ->
  discover_balance_slot (read d token) pool bal n = Some slot.
Proof.
  intros Hb Hn [H0 Hk Hf]. unfold discover_balance_slot. destruct (Z.eqb_spec bal 0); [done|].
  replace n with (slot + (n - slot)) by lia. rewrite seqZ_app by lia. rewrite find_app_skip.
  - rewrite Z.add_0_l, seqZ_cons by lia. cbn [find]. unfold read_balance in Hk.
    by rewrite Hk, Z.eqb_refl.
  - intros s Hs%elem_of_seqZ. apply Z.eqb_neq, Hf. lia.
Qed.

(** The transfer screen measures a token's tax: on a token whose transfer
    keeps back [tau] basis points, probed with at least 10,000 units, the
    screen reports a tax of [tau] or [tau - 1], as clean when it is within the
    tolerance and as fee-on-transfer otherwise. *)
Theorem transfer_screen_measures_tax st token pool bal slot tau cfg :
  cache_laws -> taxes token pool slot tau -> balance_slot (db st) token pool bal slot ->
  erc20_balance_key TEST_HOLDER slot <> erc20_balance_key pool slot ->
  slot < max_slot_probe cfg -> 0 <= test_fraction_bps cfg <= 10000 ->
  0 < bal -> bal * 10000 < 2 ^ 256 -> 10000 <= probe_size bal (test_fraction_bps cfg) ->
  0 <= tau <= 10000 ->
  exists t, tau - 1 <= t <= tau /\
    screen_token_transfer st token pool bal cfg
      = Ret (if t <=? max_tax_bps cfg then Clean t else FeeOnTransfer t).
Proof.
  intros Hl Htax Hs Hkey Hn Hf Hb0 Hb Hx Htau. unfold screen_token_transfer.
  rewrite (discover_first _ _ _ _ slot) by (done || lia).
  pose proof (probe_size_le bal _ ltac:(lia) Hf) as Hxb.
  set (x := probe_size bal (test_fraction_bps cfg)) in *.
  set (funded := insert_account_storage (db st) token (erc20_balance_key TEST_HOLDER slot) x).
  assert (Hpre : read_balance funded token pool slot = bal).
  { rewrite <- (bs_known _ _ _ _ _ Hs). unfold read_balance, read, funded.
    rewrite (storage_other Hl); [done|congruence]. }
  destruct (Htax funded (probe_cfg (chain_id st)) (block_env st) (probe_tx st token pool x cfg) x bal)
    as (d' & gas & out & touched & -> & Hpost); [unfold in_u; lia|done..|unfold read_balance, read, funded;
      by rewrite (storage_same Hl)|done|].
  unfold read_balance in Hpre. simpl. rewrite Hpre. unfold present_value. rewrite Hpost. simpl.
  pose proof (measured_tax x tau Hx Htau) as Hm. set (q := x * tau / 10000) in *.
  assert (Hq : 0 <= q <= x).
  { split; [apply Z.div_pos; nia|apply Z.div_le_upper_bound; nia]. }
  rewrite saturate_exact by (unfold in_u; lia).
  exists (q * 10000 / x). split; [done|]. unfold classify_transfer.
  rewrite tax_bps_exact by lia. simpl. by replace (Z.max 0 _) with q by lia.
Qed.

(** Above that bound the scaled shortfall saturates: a transfer of [2 ^ 255]
    units of which nothing arrives passes as clean. *)
Theorem saturated_tax_is_clean : classify_transfer (2 ^ 255) 0 10 = Ret (Clean 1).
Proof.
  unfold classify_transfer, tax_bps. rewrite u256_sub_exact by (unfold in_u; lia).
  reflexivity.
Qed.

(** ** The round trip fails closed *)

Lemma u32_or_max_le v : u32_or v u32_max <= v \/ v < 0.
Proof. unfold u32_or. destruct (Z.leb_spec v u32_max); lia. Qed.

(** A clean round trip recovered the fee-only share less the tolerance. *)
Lemma classify_round_trip_clean base_in base_out fee_bps max_loss_bps v :
  0 < base_in -> 0 <= base_out -> in_u 32 fee_bps ->
  classify_round_trip base_in base_out fee_bps true max_loss_bps = Ret v ->
  rt_is_admissible v = true ->
  base_out <> 0 /\
  Z.max 0 (10000 - fee_bps) ^ 2 / 10000 - max_loss_bps <= base_out * 10000 / base_in.
Proof.
  intros Hi Ho Hf. unfold classify_round_trip. simpl.
  destruct (Z.eqb_spec base_out 0) as [|Hne]; [by intros [= <-]|].
  destruct (Z.eqb_spec base_in 0); [lia|]. rewrite u256_div_exact by lia. simpl.
  unfold u64_saturating_sub. unfold in_u in Hf.
  assert (Hff : saturate 64 (10000 - fee_bps) = Z.max 0 (10000 - fee_bps))
    by (unfold saturate; lia).
  rewrite Hff. set (ff := Z.max 0 (10000 - fee_bps)). assert (Hffr : 0 <= ff <= 10000) by lia.
  assert (Hsq : 0 <= ff * ff <= 10000 * 10000) by (apply mul_bound; lia).
  rewrite u64_mul_exact by (unfold in_u; lia). simpl.
  assert (Hex : 0 <= ff * ff / 10000 <= 10000)
    by (split; [apply Z.div_pos; lia|apply Z.div_le_upper_bound; lia]).
  replace (u32_or (ff * ff / 10000) 10000) with (ff * ff / 10000)
    by (unfold u32_or; rewrite (proj2 (Z.leb_le _ _)); unfold u32_max; lia).
  set (q := u256_saturating_mul base_out 10000 / base_in).
  assert (Hq : 0 <= q <= base_out * 10000 / base_in).
  { unfold q, u256_saturating_mul, saturate. split; [apply Z.div_pos; lia|].
    apply Z.div_le_mono; lia. }
  pose proof (u32_or_max_le q) as Hu. rewrite Z.pow_2_r. unfold saturate.
  destruct (Z.leb_spec (Z.max 0 (Z.min (ff * ff / 10000 - u32_or q u32_max) (2 ^ 32 - 1)))
    max_loss_bps); intros [= <-] Had; [|done]. split; [done|].
  assert (0 <= u32_or q u32_max) by (unfold u32_or; destruct (_ <=? _); unfold u32_max; lia).
  lia.
Qed.

Lemma v2_transact_reason d blk ch bf c to data n g ok r d' :
  v2_transact d blk ch bf c to data n g = (ok, r, d') -> ok = true -> r = None.
Proof.
  unfold v2_transact. destruct (transact _ _ _ _) as [d0 [e|[[g0 o|g0 o|h g0] touched]]]; naive_solver.
Qed.

(** What an admissible verdict of the sell leg rests on. *)
Lemma sell_leg_admissible st d pair token base base_slot token_slot fee_bps cfg max_loss_bps
    base_in t_received v :
  0 < base_in -> in_u 32 fee_bps ->
  sell_leg st d pair token base base_slot token_slot fee_bps cfg max_loss_bps base_in t_received
    = Ret v -> rt_is_admissible v = true ->
  exists d2 d3 b0 b1,
    v2_transact d (block_env st) (chain_id st) (base_fee st) TEST_HOLDER token
      (transfer_calldata pair t_received) 1 (gas_limit cfg) = (true, None, d2) /\
    v2_transact d2 (block_env st) (chain_id st) (base_fee st) TEST_HOLDER pair
      (encode_v2_swap b0 b1 TEST_HOLDER) 2 (gas_limit cfg) = (true, None, d3) /\
    let base_out := read_balance d3 base TEST_HOLDER base_slot
                    - read_balance d2 base TEST_HOLDER base_slot in
    0 < base_out /\
    Z.max 0 (10000 - fee_bps) ^ 2 / 10000 - max_loss_bps <= base_out * 10000 / base_in.
Proof.
  intros Hi Hf. unfold sell_leg.
  destruct (v2_transact d _ _ _ _ _ _ _ _) as [[ok_t reason_t] d2] eqn:Et.
  destruct ok_t; [|by intros [= <-]]. pose proof (v2_transact_reason _ _ _ _ _ _ _ _ _ _ _ _ Et eq_refl).
  subst reason_t. cbn [negb].
  destruct (unpack_v2_reserves _) as [r0b r1b].
  destruct (pair_order (token <? base) r0b r1b) as [rt rb]. intros H Had.
  apply bind_Ret in H as (amt & _ & H). destruct (amt =? 0); [by injection H as <-|].
  destruct (if negb (token <? base) then _ else _) as [b0 b1].
  destruct (v2_transact d2 _ _ _ _ _ _ _ _) as [[ok_s reason_s] d3] eqn:Es.
  destruct ok_s; [|by injection H as <-]. pose proof (v2_transact_reason _ _ _ _ _ _ _ _ _ _ _ _ Es eq_refl).
  subst reason_s. exists d2, d3, b0, b1. split; [done|]. split; [exact Es|].
  set (delta := read_balance d3 base TEST_HOLDER base_slot - _) in *.
  cbn [negb] in H. assert (0 <= saturate 256 delta) by (unfold saturate; lia).
  destruct (classify_round_trip_clean _ _ _ _ _ Hi ltac:(eassumption) Hf H Had) as [Hne Hr].
  assert (saturate 256 delta <= delta) by (unfold saturate in *; lia).
  split; [unfold saturate in *; lia|]. etransitivity; [exact Hr|]. apply Z.div_le_mono; lia.
Qed.

(** The round-trip screen fails closed: it admits a token only when the
    buy, the transfer into the pair and the swap back were all executed
    successfully, in this order and each on the state the previous one left,
    and the base asset recovered is positive and at least the fee-only share
    [(1 - fee)^2] of what was spent, less [max_loss_bps]. *)
Theorem round_trip_fails_closed st pair token base base_slot fee_bps cfg max_loss_bps v :
  in_u 32 fee_bps ->
  screen_token_v2_round_trip st pair token base base_slot fee_bps cfg max_loss_bps = Ret v ->
  rt_is_admissible v = true ->
  exists d0 d1 d2 d3 a0 a1 t b0 b1,
    v2_transact d0 (block_env st) (chain_id st) (base_fee st) TEST_HOLDER pair
      (encode_v2_swap a0 a1 TEST_HOLDER) 0 (gas_limit cfg) = (true, None, d1) /\
    v2_transact d1 (block_env st) (chain_id st) (base_fee st) TEST_HOLDER token
      (transfer_calldata pair t) 1 (gas_limit cfg) = (true, None, d2) /\
    v2_transact d2 (block_env st) (chain_id st) (base_fee st) TEST_HOLDER pair
      (encode_v2_swap b0 b1 TEST_HOLDER) 2 (gas_limit cfg) = (true, None, d3) /\
    let '(r0, r1) := unpack_v2_reserves (read (db st) pair V2_RESERVES_SLOT) in
    let base_in := probe_size (pair_order (token <? base) r0 r1).2 (test_fraction_bps cfg) in
    let base_out := read_balance d3 base TEST_HOLDER base_slot
                    - read_balance d2 base TEST_HOLDER base_slot in
    0 < base_out /\
    Z.max 0 (10000 - fee_bps) ^ 2 / 10000 - max_loss_bps <= base_out * 10000 / base_in.
Proof.
  intros Hf. unfold screen_token_v2_round_trip.
  destruct (unpack_v2_reserves _) as [r0 r1].
  destruct (pair_order (token <? base) r0 r1) as [rt rb]. simpl.
  destruct ((rt =? 0) || (rb =? 0)); [by intros [= <-]|].
  destruct (discover_balance_slot _ _ _ _) as [slot|]; [|by intros [= <-]]. intros H Had.
  apply bind_Ret in H as (amt & _ & H). destruct (amt =? 0); [by injection H as <-|].
  destruct (if token <? base then _ else _) as [a0 a1].
  destruct (v2_transact _ _ _ _ _ _ _ _ _) as [[ok reason] d1] eqn:Eb.
  destruct ok; [|by injection H as <-].
  pose proof (v2_transact_reason _ _ _ _ _ _ _ _ _ _ _ _ Eb eq_refl). subst reason.
  cbn [negb] in H. destruct (_ =? 0) in H; [by injection H as <-|].
  assert (Hpos : 0 < probe_size rb (test_fraction_bps cfg))
    by (pose proof (probe_size_pos rb (test_fraction_bps cfg)); lia).
  destruct (sell_leg_admissible _ _ _ _ _ _ _ _ _ _ _ _ _ Hpos Hf H Had)
    as (d2 & d3 & b0 & b1 & H2 & H3 & Hr).
  by exists (insert_account_storage (db st) base (erc20_balance_key pair base_slot)
    (u256_saturating_add (read (db st) base (erc20_balance_key pair base_slot))
       (probe_size rb (test_fraction_bps cfg)))), d1, d2, d3, a0, a1; eexists _, b0, b1.
Qed.
End Screens.

(** ** Concrete values *)

(** An address 10 with a token at mapping slot 2 that keeps back [tau] basis
    points of a transfer, an untaxed base asset 20 at slot 3, and their pair 30
    with its reserves in slot 8. The hash is a stand-in that keeps its input. *)
Section Toy.
Context (tau : Z).

#[local] Instance toy_keccak : Keccak := {| keccak256 := be |}.

Definition toy_read (d : store) (a k : Z) : Z := default 0 (d.1 !! (a, k)).
Definition toy_account (slots : gmap Z Z) : Account := mkAccount (mkInfo 0 1 0 None) slots false.

Definition toy_transfer (d : store) (from to amount : Z) : EvmState :=
  let from_key := erc20_balance_key from 2 in
  let to_key := erc20_balance_key to 2 in
  {[10 := toy_account (<[to_key := toy_read d 10 to_key + (amount - amount * tau / 10000)]>
                       {[from_key := toy_read d 10 from_key - amount]})]}.

Definition toy_swap (d : store) (out0 out1 to : Z) : EvmState :=
  let pair_t := erc20_balance_key 30 2 in let to_t := erc20_balance_key to 2 in
  let pair_b := erc20_balance_key 30 3 in let to_b := erc20_balance_key to 3 in
  let bt := toy_read d 10 pair_t - out0 in
  let bb := toy_read d 20 pair_b - out1 in
  <[10 := toy_account (<[to_t := toy_read d 10 to_t + out0]> {[pair_t := bt]})]>
  (<[20 := toy_account (<[to_b := toy_read d 20 to_b + out1]> {[pair_b := bb]})]>
   {[30 := toy_account {[8 := bt + bb * 2 ^ 112]}]}).

Definition arg (data : list Z) (i : nat) : Z := be (take 32 (drop (4 + 32 * i) data)).

Definition toy_run (d : store) (_ : CfgEnv) (_ : BlockEnv) (tx : TxEnv)
    : EVMError + ExecutionResult * EvmState :=
  inr (Success 50000 (OutCall []),
    match kind tx with
    | Call 10 => toy_transfer d (caller tx) (arg (tx_data tx) 0) (arg (tx_data tx) 1)
    | _ => toy_swap d (arg (tx_data tx) 0) (arg (tx_data tx) 1) (arg (tx_data tx) 2)
    end).

#[local] Instance toy_evm : Revm := store_evm toy_run.

Lemma toy_taxes : taxes 10 30 2 tau.
Proof.
  intros d cfg blk tx x bal Hx Hc Ht Hd Hh Hp. eexists _, _, _, _. split; [reflexivity|].
  rewrite Hc, Ht, Hd.
  assert (E0 : arg (transfer_calldata 30 x) 0 = 30) by reflexivity.
  assert (E1 : arg (transfer_calldata 30 x) 1 = x).
  { unfold arg, transfer_calldata. change (4 + 32 * 1)%nat with 36%nat.
    rewrite app_assoc, drop_app_ge by done.
    set (n := (36 - _)%nat). assert (n = 0%nat) as -> by reflexivity.
    rewrite drop_0, take_ge by (by rewrite length_to_be). rewrite be_to_be.
    by apply Z.mod_small. }
  rewrite E0, E1. unfold toy_transfer. rewrite lookup_singleton_eq. cbn [mbind option_bind toy_account storage].
  rewrite lookup_insert_eq. do 2 f_equal. exact Hp.
Qed.
End Toy.

Definition toy_cells : gmap (Z * Z) Z :=
  <[(30, 8) := 10 ^ 9 + 10 ^ 18 * 2 ^ 112]>
  (<[(10, be (repeat 0 12 ++ to_be 20 30 ++ to_be 32 2)) := 10 ^ 9]>
   {[(20, be (repeat 0 12 ++ to_be 20 30 ++ to_be 32 3)) := 10 ^ 18]}).

Definition toy_state (tau : Z) : RpcForkedState (E:=toy_evm tau) :=
  mkState (E:=toy_evm tau) (toy_cells, ∅) 1 1 1 1.

(** A tax of 5 percent is reported. *)
Lemma transfer_screen_measures_tax_witness :
  exists t, 500 - 1 <= t <= 500 /\
    screen_token_transfer (K:=toy_keccak) (E:=toy_evm 500) (B:=release) (toy_state 500)
      10 30 (10 ^ 9) default_config
      = Ret (if t <=? 10 then Clean t else FeeOnTransfer t).
Proof.
  apply (transfer_screen_measures_tax (K:=toy_keccak) (E:=toy_evm 500) (B:=release)
    (toy_state 500) 10 30 (10 ^ 9) 2 500 default_config).
  - apply store_evm_laws.
  - apply toy_taxes.
  - split; [lia|vm_compute; reflexivity|]. intros s Hs.
    assert (s = 0 \/ s = 1) as [-> | ->] by lia; vm_compute; discriminate.
  - vm_compute. discriminate.
  - vm_compute. reflexivity.
  - vm_compute. split; discriminate.
  - lia.
  - vm_compute. reflexivity.
  - vm_compute. discriminate.
  - lia.
Defined.

(** An untaxed token survives the round trip. *)
Lemma round_trip_fails_closed_witness :
  exists v,
    screen_token_v2_round_trip (K:=toy_keccak) (E:=toy_evm 0) (HO:=canonical_order) (B:=release)
      (toy_state 0) 30 10 20 3 30 default_config 100 = Ret v /\ rt_is_admissible v = true /\
    exists d2 d3 : store, 0 < read_balance (K:=toy_keccak) (E:=toy_evm 0) d3 20 TEST_HOLDER 3
                   - read_balance (K:=toy_keccak) (E:=toy_evm 0) d2 20 TEST_HOLDER 3.
Proof.
  eexists. split; [vm_compute; reflexivity|]. split; [reflexivity|].
  destruct (round_trip_fails_closed (K:=toy_keccak) (E:=toy_evm 0) (HO:=canonical_order) (B:=release)
    (toy_state 0) 30 10 20 3 30 default_config 100 (RtClean 9940))
    as (d0 & d1 & d2 & d3 & a0 & a1 & t & b0 & b1 & _ & _ & _ & Hr).
  - split; [lia|reflexivity].
  - vm_compute. reflexivity.
  - reflexivity.
  - exists d2, d3. destruct (unpack_v2_reserves _) as [r0 r1]. apply Hr.
Defined.

End FeeOnTransfer.
