(* ===== verification/PoolAdmission.v ===== *)
(** * Pool admission

    [crates/grpc-server/src/pool_admission.rs]: the admission decision and the
    writer that appends admitted pools to the configuration file. Text is a list
    of ASCII characters (the file the program and its operator write is ASCII);
    the file is its contents, absent when there is none, and the I/O succeeds.
    The checksum rendering of an address is alloy's and is a parameter. *)

From Stdlib Require Import ZArith Lia String Ascii.
From S2P Require Import Prelude.
From S2P Require Import Machine.
From S2P Require Import F64.
From S2P Require Import Types.
From S2P Require Import V2ReservesCache.
From S2P Require Import FeeOnTransfer.
From stdpp Require Import base option numbers strings gmap sets pretty list.

Local Open Scope Z_scope.

Module PoolAdmission.

Abbreviation text := (list ascii) (only parsing).
Definition txt (s : string) : text := String.list_ascii_of_string s.

(** ** The decision *)

Record AdmissionConfig : Type := mkAdmission {
  min_venues : nat;
  min_liquidity_usd : f64;
  require_fot_clean : bool;
  cfg_tier : text;
}.

Definition default_admission : AdmissionConfig :=
  mkAdmission 2 (f64_of_Z 25000) true (txt "warm").

Record CandidateVenue : Type := mkVenue {
  v_protocol : ProtocolType;
  v_address : Address;
  v_token0 : Address;
  v_token1 : Address;
  v_fee_bps : Z;
  v_tick_spacing : option Z;
  v_liquidity_usd : f64;
}.

Record PoolEntryToml : Type := mkEntry {
  protocol : ProtocolType;
  address : Address;
  token0 : Address;
  token1 : Address;
  fee_bps : Z;
  tick_spacing : option Z;
  tier : text;
}.

Definition to_entry (tier : text) (v : CandidateVenue) : PoolEntryToml :=
  mkEntry (v_protocol v) (v_address v) (v_token0 v) (v_token1 v) (v_fee_bps v)
    (v_tick_spacing v) tier.

(** The two rejections, with the values their messages render. *)
Inductive RejectReason : Type :=
| NotClean (fot : FeeOnTransfer.FotVerdict)
| TooFewVenues (qualified : nat) (floor : f64) (need : nat).

Inductive AdmissionOutcome : Type :=
| Admit (entries : list PoolEntryToml)
| Reject (reason : RejectReason).

Definition protocol_toml_str (p : ProtocolType) : text :=
  match p with
  | UniswapV2 => txt "uniswap_v2"
  | UniswapV3 => txt "uniswap_v3"
  | SushiSwap => txt "sushiswap"
  | Curve => txt "curve"
  | BalancerV2 => txt "balancer_v2"
  | BalancerV3 => txt "balancer_v3"
  | BancorV3 => txt "bancor_v3"
  end.

Definition evaluate (venues : list CandidateVenue) (fot : FeeOnTransfer.FotVerdict)
    (cfg : AdmissionConfig) : AdmissionOutcome :=
  if require_fot_clean cfg && negb (FeeOnTransfer.is_admissible fot) then Reject (NotClean fot)
  else
    let qualified :=
      filter (fun v => f64_ge (v_liquidity_usd v) (min_liquidity_usd cfg) = true) venues in
    if (length qualified <? min_venues cfg)%nat
    then Reject (TooFewVenues (length qualified) (min_liquidity_usd cfg) (min_venues cfg))
    else Admit (to_entry (cfg_tier cfg) <$> qualified).

(** ** The configuration file *)

Definition newline : ascii := "010"%char.
Definition quote : ascii := "034"%char.

(** [char::is_whitespace] and [to_lowercase] on ASCII. *)
Definition is_whitespace (c : ascii) : bool :=
  let n := nat_of_ascii c in ((9 <=? n) && (n <=? 13) || (n =? 32))%nat.
Definition lower (c : ascii) : ascii :=
  let n := nat_of_ascii c in
  if ((65 <=? n) && (n <=? 90))%nat then ascii_of_nat (n + 32) else c.
Definition to_lowercase (s : text) : text := lower <$> s.

Fixpoint trim_start (s : text) : text :=
  match s with
  | [] => []
  | c :: s' => if is_whitespace c then trim_start s' else s
  end.
Definition trim (s : text) : text := rev (trim_start (rev (trim_start s))).

(** The segments between newlines; [str::lines] has no empty last line, and
    the carriage return it cuts is cut by [trim] here. *)
Fixpoint segments (s : text) : list text :=
  match s with
  | [] => [[]]
  | c :: s' =>
      if decide (c = newline) then [] :: segments s'
      else match segments s' with h :: t => (c :: h) :: t | [] => [[c]] end
  end.
Definition lines (s : text) : list text :=
  let l := segments s in
  match last l with Some [] => removelast l | _ => l end.

Fixpoint strip_prefix (p s : text) : option text :=
  match p, s with
  | [], _ => Some s
  | a :: p, b :: s => if decide (a = b) then strip_prefix p s else None
  | _ :: _, [] => None
  end.

(** [s.find('quote')] as the text before and after. *)
Fixpoint split_quote (s : text) : option (text * text) :=
  match s with
  | [] => None
  | c :: s =>
      if decide (c = quote) then Some ([], s)
      else match split_quote s with Some (a, b) => Some (c :: a, b) | None => None end
  end.

Definition line_address (line : text) : option text :=
  rest ← strip_prefix (txt "address") (trim line);
  '(_, rest) ← split_quote rest;
  '(addr, _) ← split_quote rest;
  Some (to_lowercase addr).

Definition read_existing_addresses (file : option text) : gset text :=
  match file with
  | Some contents => list_to_set (omap line_address (lines contents))
  | None => ∅
  end.

(** [Address::to_checksum(None)]: hexadecimal digits after [0x]. *)
Class Checksum : Type := {
  to_checksum : Address -> text;
  to_checksum_chars : forall a, (quote ∉ to_checksum a) /\ (newline ∉ to_checksum a);
}.

Section Writer.
Context `{CS : Checksum}.

(** [key = "value"] and a newline. *)
Definition quoted_field (name : string) (value : text) : text :=
  txt name ++ txt " = " ++ [quote] ++ value ++ [quote] ++ [newline].
Definition plain_field (name : string) (value : text) : text :=
  txt name ++ txt " = " ++ value ++ [newline].

Definition format_pool_entry (e : PoolEntryToml) : text :=
  txt "[[pools]]" ++ [newline]
  ++ quoted_field "protocol" (protocol_toml_str (protocol e))
  ++ quoted_field "address" (to_checksum (address e))
  ++ quoted_field "token0" (to_checksum (token0 e))
  ++ quoted_field "token1" (to_checksum (token1 e))
  ++ plain_field "fee_bps" (txt (pretty (fee_bps e)))
  ++ quoted_field "tier" (tier e)
  ++ match tick_spacing e with
     | Some ts => plain_field "tick_spacing" (txt (pretty ts))
     | None => []
     end.

Definition key (e : PoolEntryToml) : text := to_lowercase (to_checksum (address e)).

(** The loop over the entries: the keys seen, the blocks and their number. *)
Definition append_step (acc : gset text * text * nat) (e : PoolEntryToml)
    : gset text * text * nat :=
  let '(seen, blocks, appended) := acc in
  if decide (key e ∈ seen) then acc
  else ({[key e]} ∪ seen, blocks ++ [newline] ++ format_pool_entry e, S appended).

Definition rule_line : text :=
  txt "# ---------------------------------------------------------------------------".

(** The three [writeln!] calls that precede the blocks. *)
Definition banner : text :=
  [newline] ++ rule_line ++ [newline]
  ++ txt "# Auto-discovered pools (hot-token admission gate)" ++ [newline]
  ++ rule_line ++ [newline].

Definition append_admitted_pools (file : option text) (entries : list PoolEntryToml)
    : option text * nat :=
  let '(_, blocks, appended) :=
    foldl append_step (read_existing_addresses file, [], 0%nat) entries in
  if (0 <? appended)%nat
  then (Some (default [] file ++ banner ++ blocks), appended)
  else (file, 0%nat).

(** ** Reading back what was written *)

(** The addresses of a text. *)
Definition addresses (s : text) : list text := omap line_address (segments s).

Lemma segments_nonempty s : segments s <> [].
Proof. destruct s as [|c s]; simpl; [done|]. case_decide; [done|]. by destruct (segments s). Qed.

Lemma omap_lines s : omap line_address (lines s) = addresses s.
Proof.
  unfold addresses, lines. destruct (last (segments s)) as [[|c l]|] eqn:E; try done.
  apply last_Some in E as [l' ->]. rewrite removelast_last, omap_app. by rewrite app_nil_r.
Qed.

Lemma elem_of_existing k s : k ∈ read_existing_addresses (Some s) <-> k ∈ addresses s.
Proof. simpl. by rewrite elem_of_list_to_set, omap_lines. Qed.

Lemma segments_newline a b : segments (a ++ newline :: b) = segments a ++ segments b.
Proof.
  induction a as [|c a IH]; simpl; [done|].
  case_decide; [by rewrite IH|]. rewrite IH. destruct (segments a) eqn:E; [|done].
  by destruct (segments_nonempty a).
Qed.

Lemma addresses_newline a b : addresses (a ++ newline :: b) = addresses a ++ addresses b.
Proof. unfold addresses. by rewrite segments_newline, omap_app. Qed.

Lemma segments_line s : newline ∉ s -> segments s = [s].
Proof.
  induction s as [|c s IH]; intros H; simpl; [done|].
  rewrite decide_False by set_solver. by rewrite IH by set_solver.
Qed.

Lemma split_quote_app a b : quote ∉ a -> split_quote (a ++ quote :: b) = Some (a, b).
Proof.
  induction a as [|c a IH]; intros H; simpl; [done|].
  rewrite decide_False by set_solver. by rewrite IH by set_solver.
Qed.

(** A line that starts and ends with visible characters is not trimmed. *)
Lemma trim_id c s d : is_whitespace c = false -> is_whitespace d = false ->
  trim (c :: s ++ [d]) = c :: s ++ [d].
Proof.
  intros Hc Hd. unfold trim. simpl trim_start at 2. rewrite Hc.
  rewrite app_comm_cons, rev_unit. cbn [trim_start]. rewrite Hd.
  rewrite <- (rev_unit (c :: s) d). apply rev_involutive.
Qed.

Definition address_line (a : Address) : text :=
  txt "address" ++ txt " = " ++ [quote] ++ to_checksum a ++ [quote].

Lemma line_address_written a : line_address (address_line a) = Some (to_lowercase (to_checksum a)).
Proof.
  destruct (to_checksum_chars a) as [Hq _]. unfold line_address, address_line.
  change (txt "address" ++ txt " = " ++ [quote] ++ to_checksum a ++ [quote])
    with ("a"%char :: (txt "ddress = " ++ [quote] ++ to_checksum a) ++ [quote]).
  rewrite trim_id by done. simpl. by rewrite split_quote_app.
Qed.

Lemma addresses_written a : addresses (address_line a) = [to_lowercase (to_checksum a)].
Proof.
  destruct (to_checksum_chars a) as [_ Hn]. unfold addresses. rewrite segments_line.
  - simpl. by rewrite line_address_written.
  - unfold address_line. simpl. set_solver.
Qed.

Definition block (e : PoolEntryToml) : text := [newline] ++ format_pool_entry e.

(** The line of the address inside its block. *)
Lemma block_line e : exists pre post,
  block e = pre ++ newline :: address_line (address e) ++ newline :: post.
Proof.
  eexists ([newline] ++ txt "[[pools]]" ++ [newline] ++ txt "protocol" ++ txt " = " ++ [quote]
    ++ protocol_toml_str (protocol e) ++ [quote]), _.
  unfold block, format_pool_entry, quoted_field, address_line. rewrite <- !app_assoc. simpl.
  reflexivity.
Qed.

(** ** Idempotent admission *)

(** The entries the loop writes: the first of each key not seen before. *)
Fixpoint written (seen : gset text) (es : list PoolEntryToml) : list PoolEntryToml :=
  match es with
  | [] => []
  | e :: es =>
      if decide (key e ∈ seen) then written seen es
      else e :: written ({[key e]} ∪ seen) es
  end.

Definition blocks_of (es : list PoolEntryToml) : text :=
  mjoin (block <$> es).

Lemma blocks_of_app l1 l2 : blocks_of (l1 ++ l2) = blocks_of l1 ++ blocks_of l2.
Proof. unfold blocks_of. by rewrite fmap_app, join_app. Qed.

Lemma blocks_of_cons e l : blocks_of (e :: l) = block e ++ blocks_of l.
Proof. done. Qed.

Lemma append_loop es : forall seen blocks n, exists seen',
  foldl append_step (seen, blocks, n) es
  = (seen', blocks ++ blocks_of (written seen es), (n + length (written seen es))%nat).
Proof.
  induction es as [|e es IH]; intros seen blocks n; simpl.
  { exists seen. by rewrite app_nil_r, Nat.add_0_r. }
  case_decide as Hk; [apply IH|].
  destruct (IH ({[key e]} ∪ seen) (blocks ++ block e) (S n)) as [s' E].
  exists s'. unfold block in E at 1. simpl app in E at 1. rewrite E. f_equal; [f_equal|simpl; lia].
  by rewrite blocks_of_cons, <- app_assoc.
Qed.

Lemma append_eq file es :
  append_admitted_pools file es =
  match written (read_existing_addresses file) es with
  | [] => (file, 0%nat)
  | w => (Some (default [] file ++ banner ++ blocks_of w), length w)
  end.
Proof.
  unfold append_admitted_pools.
  destruct (append_loop es (read_existing_addresses file) [] 0) as [s' ->].
  by destruct (written _ es).
Qed.

Lemma written_known seen es : (forall e, e ∈ es -> key e ∈ seen) -> written seen es = [].
Proof.
  induction es as [|e es IH]; intros H; simpl; [done|].
  rewrite decide_True by (apply H; set_solver). apply IH. set_solver.
Qed.

Lemma written_keys es : forall seen,
  NoDup (key <$> written seen es) /\
  (forall k, k ∈ key <$> written seen es <-> k ∈ key <$> es /\ k ∉ seen).
Proof.
  induction es as [|e es IH]; intros seen; simpl; [split; [constructor|set_solver]|].
  case_decide as Hk.
  - destruct (IH seen) as [Hn H]. split; [done|]. intros k. rewrite H. set_solver.
  - destruct (IH ({[key e]} ∪ seen)) as [Hn H]. split.
    + rewrite fmap_cons. constructor; [|done]. rewrite H. set_solver.
    + intros k. rewrite fmap_cons, !elem_of_cons, H.
      destruct (decide (k = key e)); set_solver.
Qed.

Lemma blocks_addresses pre w e : e ∈ w -> key e ∈ addresses (pre ++ blocks_of w).
Proof.
  intros [l1 [l2 ->]]%list_elem_of_split. rewrite blocks_of_app, blocks_of_cons.
  destruct (block_line e) as (p1 & p2 & ->).
  rewrite <- (app_assoc p1), <- app_comm_cons, <- (app_assoc (address_line _)), <- app_comm_cons.
  rewrite !app_assoc, addresses_newline, addresses_newline, addresses_written.
  unfold key. set_solver.
Qed.

Lemma size_written seen es :
  length (written seen es) = size (list_to_set (key <$> es) ∖ seen : gset text).
Proof.
  destruct (written_keys es seen) as [Hn H].
  rewrite <- (length_fmap key), <- (size_list_to_set (C:=gset text) _ Hn).
  f_equal. apply set_eq. intros k. rewrite elem_of_list_to_set, H. set_solver.
Qed.

Lemma banner_newline : exists r, banner = newline :: r.
Proof. by eexists. Qed.

Lemma append_records file es e : e ∈ es ->
  key e ∈ read_existing_addresses (append_admitted_pools file es).1.
Proof.
  intros He. rewrite append_eq. set (seen := read_existing_addresses file).
  destruct (written_keys es seen) as [_ H].
  destruct (decide (key e ∈ seen)) as [Hs|Hs].
  - destruct (written seen es) as [|e' w]; [done|]. destruct file as [contents|]; [|set_solver].
    cbn [fst]. apply elem_of_existing. unfold seen in Hs. rewrite elem_of_existing in Hs.
    destruct banner_newline as [r ->]. cbn [default]. rewrite <- app_comm_cons, addresses_newline.
    set_solver.
  - assert (Hw : key e ∈ key <$> written seen es) by (apply H; set_solver).
    apply list_elem_of_fmap in Hw as (e' & Hk & Hw).
    destruct (written seen es) as [|e0 w] eqn:E; [by apply elem_of_nil in Hw|]. cbn [fst].
    apply elem_of_existing. rewrite Hk, app_assoc. by apply blocks_addresses.
Qed.

(** Admission is idempotent: appending entries keeps the contents of the
    file as a prefix, writes as many blocks as there are addresses among the
    entries that the file does not list yet, after it the file lists all of
    them, and admitting any of them again, in any order or number, writes
    nothing. *)
Theorem admission_idempotent file es :
  let '(file', n) := append_admitted_pools file es in
  (exists suffix, default [] file' = default [] file ++ suffix) /\
  n = size (list_to_set (key <$> es) ∖ read_existing_addresses file) /\
  (forall e, e ∈ es -> key e ∈ read_existing_addresses file') /\
  (forall es', es' ⊆ es -> append_admitted_pools file' es' = (file', 0%nat)).
Proof.
  pose proof (append_records file es) as Hr. rewrite append_eq in *.
  rewrite <- size_written.
  destruct (written (read_existing_addresses file) es) as [|e w]; cbn [fst] in Hr.
  - split; [exists []; by rewrite app_nil_r|]. split; [done|]. split; [done|].
    intros es' Hs. rewrite append_eq, written_known; [done|]. auto.
  - split; [by eexists|]. split; [done|]. split; [done|].
    intros es' Hs. rewrite append_eq, written_known; [done|]. auto.
Qed.
End Writer.

(** The gate fails closed: it admits exactly when the screen is clean (or
    not required) and enough venues clear the liquidity floor, and what it
    admits is one entry, of the configured tier, per venue that clears it; a
    venue whose liquidity is not a number never does. *)
Theorem admission_gate_exact venues fot cfg es :
  evaluate venues fot cfg = Admit es <->
  (require_fot_clean cfg = true -> exists tax, fot = FeeOnTransfer.Clean tax) /\
  es = to_entry (cfg_tier cfg)
         <$> filter (fun v => f64_le (min_liquidity_usd cfg) (v_liquidity_usd v) = true) venues /\
  (min_venues cfg <= length es)%nat.
Proof.
  unfold evaluate, f64_ge. fold f64_le.
  set (q := filter _ venues). change (filter _ venues) with q.
  assert (Hfot : require_fot_clean cfg && negb (FeeOnTransfer.is_admissible fot) = false <->
    (require_fot_clean cfg = true -> exists tax, fot = FeeOnTransfer.Clean tax)).
  { destruct (require_fot_clean cfg), fot; simpl; naive_solver. }
  destruct (require_fot_clean cfg && _); [naive_solver|].
  destruct (Nat.ltb_spec (length q) (min_venues cfg)) as [Hlt|Hge].
  - split; [done|]. intros (_ & -> & Hl). rewrite length_fmap in Hl. lia.
  - split; [intros [= <-]; rewrite length_fmap; naive_solver|]. naive_solver.
Qed.

(** ** Concrete values *)

(** Lower-case hexadecimal: one rendering with the characters of a checksum. *)
Definition hex_digit (n : Z) : ascii := nth (Z.to_nat n) (txt "0123456789abcdef") "0"%char.
Definition plain_hex (a : Address) : text :=
  txt "0x" ++ (i ← rev (seq 0 40); [hex_digit (a / 16 ^ Z.of_nat i mod 16)]).

Lemma hex_digit_chars n : hex_digit n <> quote /\ hex_digit n <> newline.
Proof.
  unfold hex_digit. generalize (Z.to_nat n). intros k. do 16 (destruct k as [|k]; [done|]).
  rewrite nth_overflow by (vm_compute; lia). done.
Qed.

Lemma plain_hex_digits a c : c ∈ plain_hex a -> c ∈ txt "0x" \/ exists n, c = hex_digit n.
Proof.
  unfold plain_hex. intros [H|(i & H & _)%list_elem_of_bind]%elem_of_app; [by left|right].
  apply list_elem_of_singleton in H. eauto.
Qed.

Lemma plain_hex_chars a : (quote ∉ plain_hex a) /\ (newline ∉ plain_hex a).
Proof.
  assert (Hx : (quote ∉ txt "0x") /\ (newline ∉ txt "0x")) by (split; by apply (bool_decide_unpack _)).
  split; intros [H|[n H]]%plain_hex_digits; try (by apply Hx in H);
    symmetry in H; by apply hex_digit_chars in H.
Qed.

#[local] Instance hex_checksum : Checksum :=
  {| to_checksum := plain_hex; to_checksum_chars := plain_hex_chars |}.

Definition sample_entry (a : Address) : PoolEntryToml :=
  mkEntry UniswapV3 a 10 20 5 (Some 10) (txt "warm").

(** A file that already lists pool 7: of pools 7, 8 and 8 again, one is
    written. *)
Definition sample_file : option text := (append_admitted_pools None [sample_entry 7]).1.

Lemma admission_idempotent_witness :
  let '(file', n) :=
    append_admitted_pools sample_file [sample_entry 7; sample_entry 8; sample_entry 8] in
  n = 1%nat /\ append_admitted_pools file' [sample_entry 8; sample_entry 7] = (file', 0%nat).
Proof.
  pose proof (admission_idempotent sample_file [sample_entry 7; sample_entry 8; sample_entry 8]) as H.
  destruct (append_admitted_pools sample_file _) as [file' n] eqn:E.
  destruct H as (_ & Hn & _ & H). split; [|apply H; clear; generalize (sample_entry 7), (sample_entry 8); set_solver].
  rewrite Hn. vm_compute. reflexivity.
Defined.

End PoolAdmission.
