(* ===== verification/Discovery.v ===== *)
(** * Pool discovery: scoring and the ranked cache

    [crates/discovery/src/scorer.rs] and [crates/discovery/src/cache.rs], with
    the types of [crates/discovery/src/types.rs]. The clock is an argument; the
    events an operation broadcasts are part of its result. The operations of
    the cache are modelled one at a time. *)

From Stdlib Require Import ZArith Lia Sorting.Sorted String.
From S2P Require Import Prelude.
From S2P Require Import Machine.
From S2P Require Import F64.
From S2P Require Import Types.
From stdpp Require Import base option numbers strings gmap sets list.

Local Open Scope Z_scope.

Module Discovery.

(** ** Scoring *)

Record ScoringSettings : Type := mkScoring {
  tvl_weight : f64;
  volume_weight : f64;
  slippage_estimate_bps : Z;
}.

Record PoolScoreInputs : Type := mkInputs {
  in_tvl_usd : f64;
  in_volume_24h_usd : f64;
  in_fee_bps : Z;
  in_slippage_estimate : f64;
}.

Definition slippage_cap : f64 := f64_of_ratio 99 100.

Definition raw_score (inputs : PoolScoreInputs) (settings : ScoringSettings) : f64 :=
  let tvl := f64_max (in_tvl_usd inputs) f64_zero in
  let volume := f64_max (in_volume_24h_usd inputs) f64_zero in
  if f64_eqb tvl f64_zero || f64_eqb volume f64_zero then f64_zero
  else
    let fee_factor :=
      f64_sub f64_one (f64_div (f64_of_Z (in_fee_bps inputs)) (f64_of_Z 10000)) in
    let slippage := f64_clamp (in_slippage_estimate inputs) f64_zero slippage_cap in
    let slip_factor := f64_sub f64_one slippage in
    f64_mul (f64_mul (f64_mul (f64_mul (f64_sqrt tvl) (tvl_weight settings))
                              (f64_mul volume (volume_weight settings)))
                     fee_factor)
            slip_factor.

Definition normalise_score (raw max_raw : f64) : f64 :=
  if negb (is_finite raw) || f64_le raw f64_zero then f64_zero
  else if f64_le max_raw f64_zero || negb (is_finite max_raw) then f64_zero
  else f64_clamp (f64_div raw max_raw) f64_zero f64_one.

Definition compute_score (inputs : PoolScoreInputs) (settings : ScoringSettings) (max_raw : f64)
    : f64 := normalise_score (raw_score inputs settings) max_raw.

Definition default_slippage_estimate (settings : ScoringSettings) : f64 :=
  f64_clamp (f64_div (f64_of_Z (slippage_estimate_bps settings)) (f64_of_Z 10000))
    f64_zero slippage_cap.

(** No reserve or amount to work with. *)
Definition degenerate (reserve_in reserve_out amount_in_eth : f64) : bool :=
  f64_le reserve_in f64_zero || f64_le reserve_out f64_zero || f64_le amount_in_eth f64_zero.

Definition estimate_v2_slippage (reserve_in reserve_out amount_in_eth : f64) (fee_bps : Z) : f64 :=
  if degenerate reserve_in reserve_out amount_in_eth then f64_one
  else
    let fee_factor := f64_sub f64_one (f64_div (f64_of_Z fee_bps) (f64_of_Z 10000)) in
    let amount_in := f64_mul amount_in_eth fee_factor in
    let spot := f64_div reserve_out reserve_in in
    let amount_out :=
      f64_div (f64_mul amount_in reserve_out) (f64_add reserve_in amount_in) in
    let effective_rate := f64_div amount_out amount_in in
    if f64_le spot f64_zero then f64_one
    else f64_clamp (f64_div (f64_sub spot effective_rate) spot) f64_zero slippage_cap.

Definition estimate_curve_slippage (balance_in balance_out amount_in_eth : f64) (fee_bps : Z)
    : f64 :=
  if degenerate balance_in balance_out amount_in_eth then f64_one
  else f64_mul (estimate_v2_slippage balance_in balance_out amount_in_eth fee_bps)
         (f64_of_ratio 35 100).

Definition estimate_balancer_v3_slippage (balance_in balance_out amount_in_eth : f64) (fee_bps : Z)
    : f64 :=
  if degenerate balance_in balance_out amount_in_eth then f64_one
  else f64_mul (estimate_v2_slippage balance_in balance_out amount_in_eth fee_bps)
         (f64_of_ratio 85 100).

Definition estimate_protocol_slippage (protocol : ProtocolType)
    (balance_in balance_out amount_in_eth : f64) (fee_bps : Z) : f64 :=
  match protocol with
  | Curve => estimate_curve_slippage balance_in balance_out amount_in_eth fee_bps
  | BalancerV3 => estimate_balancer_v3_slippage balance_in balance_out amount_in_eth fee_bps
  | _ => estimate_v2_slippage balance_in balance_out amount_in_eth fee_bps
  end.

(** ** The cache *)

Record PoolInfo : Type := mkInfo {
  address : Address;
  token0 : Address;
  token1 : Address;
  protocol : ProtocolType;
  fee_bps : Z;
  score : f64;
  tvl_usd : f64;
  volume_24h_usd : f64;
  slippage_estimate : f64;
  discovered_at : Z;
}.

Inductive DiscoveryEvent : Type :=
| PoolAdded (info : PoolInfo)
| PoolUpdated (info : PoolInfo)
| PoolPruned (addr : Address) (reason : string)
| CachePruned (removed : nat).

Record CachedPool : Type := mkCached {
  info : PoolInfo;
  inserted_at : Z;
  last_scored_at : Z;
}.

Record DiscoveryCache : Type := mkCache {
  pools : gmap Z CachedPool;
  max_pools : nat;
  prune_max_age : Z;
  scoring : ScoringSettings;
  discovery_counter : Z;
}.

Definition new (max_pools : nat) (prune_max_age : Z) (scoring : ScoringSettings) : DiscoveryCache :=
  mkCache ∅ max_pools prune_max_age scoring 1.

Definition len (c : DiscoveryCache) : nat := size (pools c).
Definition is_empty (c : DiscoveryCache) : bool := (len c =? 0)%nat.
Definition contains (c : DiscoveryCache) (a : Address) : bool := bool_decide (is_Some (pools c !! a)).

Definition with_pools (c : DiscoveryCache) (ps : gmap Z CachedPool) : DiscoveryCache :=
  mkCache ps (max_pools c) (prune_max_age c) (scoring c) (discovery_counter c).

Definition set_score (i : PoolInfo) (s : f64) : PoolInfo :=
  mkInfo (address i) (token0 i) (token1 i) (protocol i) (fee_bps i) s (tvl_usd i)
    (volume_24h_usd i) (slippage_estimate i) (discovered_at i).

Definition inputs_of (i : PoolInfo) : PoolScoreInputs :=
  mkInputs (tvl_usd i) (volume_24h_usd i) (fee_bps i) (slippage_estimate i).

Section Cache.
Context `{HO : HashOrder}.

Definition max_raw_score (c : DiscoveryCache) : f64 :=
  foldl f64_max f64_zero
    ((fun e : Z * CachedPool => raw_score (inputs_of (info e.2)) (scoring c)) <$> map_iter (pools c)).

Definition renormalise_all (c : DiscoveryCache) (now : Z) : DiscoveryCache :=
  let max_raw := max_raw_score c in
  with_pools c ((fun e =>
    mkCached (set_score (info e)
                (normalise_score (raw_score (inputs_of (info e)) (scoring c)) max_raw))
      (inserted_at e) now) <$> pools c).

(** The addresses with their scores, lowest first. *)
Definition by_score (c : DiscoveryCache) : list (Z * f64) :=
  sort_by (asc snd)
    ((fun e : Z * CachedPool => (e.1, score (info e.2))) <$> map_iter (pools c)).

Definition enforce_capacity (c : DiscoveryCache) : DiscoveryCache * list DiscoveryEvent :=
  if (len c <=? max_pools c)%nat then (c, [])
  else
    let excess := (len c - max_pools c)%nat in
    let evicted := (take excess (by_score c)).*1 in
    (with_pools c (foldl (fun ps a => delete a ps) (pools c) evicted),
     (fun a => PoolPruned a "capacity"%string) <$> evicted).

(** The entry [upsert] stores: scored against the current maximum, with a
    discovery number when it has none. *)
Definition upserted (c : DiscoveryCache) (i : PoolInfo) (inputs : PoolScoreInputs) : PoolInfo :=
  let raw := raw_score inputs (scoring c) in
  let max_raw := f64_max (max_raw_score c) raw in
  mkInfo (address i) (token0 i) (token1 i) (protocol i) (fee_bps i) (normalise_score raw max_raw)
    (in_tvl_usd inputs) (in_volume_24h_usd inputs) (in_slippage_estimate inputs)
    (if discovered_at i =? 0 then discovery_counter c else discovered_at i).

Definition upsert (c : DiscoveryCache) (i : PoolInfo) (inputs : PoolScoreInputs) (now : Z)
    : DiscoveryCache * PoolInfo * list DiscoveryEvent :=
  let raw := raw_score inputs (scoring c) in
  let max_raw := f64_max (max_raw_score c) raw in
  let i' := upserted c i inputs in
  let counter := if discovered_at i =? 0 then (discovery_counter c + 1) mod 2 ^ 64
                 else discovery_counter c in
  let is_new := negb (contains c (address i')) in
  let c1 := mkCache (<[address i' := mkCached i' now now]> (pools c)) (max_pools c)
              (prune_max_age c) (scoring c) counter in
  let '(c2, evictions) := enforce_capacity c1 in
  let event := if is_new then PoolAdded i' else PoolUpdated i' in
  let c3 := if f64_ge raw max_raw then renormalise_all c2 now else c2 in
  (c3, i', evictions ++ [event]).

Definition get_top_n (c : DiscoveryCache) (n : nat) : list PoolInfo :=
  take n (sort_by (desc score) ((fun e : Z * CachedPool => info e.2) <$> map_iter (pools c))).

Definition prunable (c : DiscoveryCache) (min_score : f64) (now : Z) (e : CachedPool) : bool :=
  (prune_max_age c <? now - inserted_at e) || f64_lt (score (info e)) min_score.

Definition prune (c : DiscoveryCache) (min_score : f64) (now : Z)
    : DiscoveryCache * nat * list DiscoveryEvent :=
  let to_remove := (filter (fun e : Z * CachedPool => prunable c min_score now e.2 = true)
                      (map_iter (pools c))).*1 in
  let c1 := with_pools c (foldl (fun ps a => delete a ps) (pools c) to_remove) in
  let removed := length to_remove in
  let events := (fun a => PoolPruned a "age_or_low_score"%string) <$> to_remove in
  if (0 <? removed)%nat
  then (renormalise_all c1 now, removed, events ++ [CachePruned removed])
  else (c1, removed, events).

(** ** Scores stay in the unit interval *)

Definition unit_score (s : f64) : Prop := f64_le f64_zero s = true /\ f64_le s f64_one = true.

Lemma unit_not_nan s : unit_score s -> is_nan s = false.
Proof. intros [H _]. apply (f64_le_not_nan _ _ H). Qed.

Lemma not_le_nonzero x : is_nan x = false -> f64_le x f64_zero = false -> f64_eqb x f64_zero = false.
Proof. destruct x as [|[]| |[]]; cbv; congruence. Qed.

Lemma is_finite_not_nan x : is_finite x = true -> is_nan x = false.
Proof. by destruct x. Qed.

(** The normalised score is a number between 0 and 1 whatever the inputs. *)
Lemma normalise_unit raw max_raw : unit_score (normalise_score raw max_raw).
Proof.
  unfold normalise_score.
  destruct (negb (is_finite raw) || f64_le raw f64_zero) eqn:E1; [done|].
  destruct (f64_le max_raw f64_zero || negb (is_finite max_raw)) eqn:E2; [done|].
  apply orb_false_iff in E1 as [Hf%negb_false_iff Hr].
  apply orb_false_iff in E2 as [Hm Hmf%negb_false_iff].
  apply f64_clamp_range; [|done]. apply f64_div_finite; [done..|].
  apply not_le_nonzero; [by apply is_finite_not_nan|done].
Qed.

(** ** The invariant *)

Record inv (c : DiscoveryCache) : Prop := {
  inv_size : (len c <= max_pools c)%nat;
  inv_key : forall a e, pools c !! a = Some e -> address (info e) = a;
  inv_score : forall a e, pools c !! a = Some e -> unit_score (score (info e));
}.

(** Keys and scores are in order, the size aside. *)
Record sound (c : DiscoveryCache) : Prop := {
  so_key : forall a e, pools c !! a = Some e -> address (info e) = a;
  so_score : forall a e, pools c !! a = Some e -> unit_score (score (info e));
}.

Lemma lookup_delete_all {A} (l : list Z) (m : gmap Z A) a :
  foldl (fun ps a => delete a ps) m l !! a = if decide (a ∈ l) then None else m !! a.
Proof.
  revert m. induction l as [|b l IH]; intros m; simpl; [done|]. rewrite IH.
  destruct (decide (a = b)) as [->|Hne].
  - rewrite lookup_delete_eq. case_decide; case_decide; set_solver.
  - rewrite lookup_delete_ne by done. case_decide; case_decide; set_solver.
Qed.

Lemma size_delete_all {A} (l : list Z) (m : gmap Z A) :
  NoDup l -> (forall a, a ∈ l -> is_Some (m !! a)) ->
  (size (foldl (fun ps a => delete a ps) m l) + length l = size m)%nat.
Proof.
  revert m. induction l as [|b l IH]; intros m Hn Hs; simpl; [lia|].
  apply NoDup_cons in Hn as [Hb Hn].
  destruct (Hs b) as [x Hx]; [set_solver|].
  specialize (IH (delete b m) Hn). rewrite map_size_delete_Some in IH by eauto.
  assert (size m <> 0%nat) by (intros E; apply map_size_empty_inv in E; subst; by rewrite lookup_empty in Hx).
  rewrite Nat.add_succ_r, IH; [lia|]. intros a Ha. rewrite lookup_delete_ne by set_solver.
  apply Hs. set_solver.
Qed.

Lemma sound_delete c l : sound c ->
  sound (with_pools c (foldl (fun ps a => delete a ps) (pools c) l)).
Proof.
  intros [Hk Hs]. split; simpl; intros a e; rewrite lookup_delete_all; case_decide; [done| |done|];
    eauto.
Qed.

Lemma sound_renormalise c now : sound c -> sound (renormalise_all c now).
Proof.
  intros [Hk Hs]. split; simpl; intros a e; rewrite lookup_fmap_Some; intros (e0 & <- & H); simpl.
  - by apply Hk.
  - apply normalise_unit.
Qed.

Lemma len_renormalise c now : len (renormalise_all c now) = len c.
Proof. unfold len, renormalise_all. simpl. apply map_size_fmap. Qed.

Lemma by_score_perm c :
  (by_score c).*1 ≡ₚ (map_to_list (pools c)).*1.
Proof.
  unfold by_score. rewrite sort_by_perm, <- list_fmap_compose.
  rewrite map_iter_perm. done.
Qed.

Lemma by_score_nodup c : NoDup (by_score c).*1.
Proof. rewrite by_score_perm. apply NoDup_fst_map_to_list. Qed.

Lemma by_score_length c : length (by_score c) = len c.
Proof. rewrite <- (length_fmap fst), by_score_perm, length_fmap. apply length_map_to_list. Qed.

Lemma by_score_present c a : a ∈ (by_score c).*1 -> is_Some (pools c !! a).
Proof.
  rewrite by_score_perm. intros ([b e] & -> & H%elem_of_map_to_list)%list_elem_of_fmap. eauto.
Qed.

Lemma enforce_size c : len (enforce_capacity c).1 = Nat.min (len c) (max_pools c).
Proof.
  unfold enforce_capacity. destruct (Nat.leb_spec (len c) (max_pools c)); [simpl; lia|].
  simpl. set (ev := (take (len c - max_pools c) (by_score c)).*1).
  assert (Hsub : ev = take (len c - max_pools c) (by_score c).*1) by apply fmap_take.
  pose proof (size_delete_all ev (pools c)) as Hsz. unfold len at 1. simpl.
  assert (Hlen : length ev = (len c - max_pools c)%nat).
  { unfold ev. rewrite length_fmap, length_take, by_score_length. lia. }
  rewrite Hlen in Hsz. unfold len in *.
  assert (Hn : NoDup ev).
  { pose proof (by_score_nodup c) as Hn.
    rewrite <- (take_drop (size (pools c) - max_pools c) (by_score c).*1) in Hn.
    rewrite Hsub. by apply NoDup_app in Hn as [Hn _]. }
  assert (Hp : forall a, a ∈ ev -> is_Some (pools c !! a)).
  { intros a Ha. apply by_score_present. rewrite Hsub in Ha.
    rewrite <- (take_drop (size (pools c) - max_pools c) (by_score c).*1). set_solver. }
  specialize (Hsz Hn Hp). lia.
Qed.

Lemma sound_enforce c : sound c -> sound (enforce_capacity c).1.
Proof.
  intros H. unfold enforce_capacity. destruct (_ <=? _)%nat; [done|]. by apply sound_delete.
Qed.

Lemma enforce_config c : max_pools (enforce_capacity c).1 = max_pools c.
Proof. unfold enforce_capacity. by destruct (_ <=? _)%nat. Qed.

Lemma inv_sound c : inv c -> sound c.
Proof. by intros [_ ? ?]. Qed.

Lemma inv_upsert c i inputs now : inv c -> inv (upsert c i inputs now).1.1.
Proof.
  intros Hi. apply inv_sound in Hi. unfold upsert.
  set (c1 := mkCache _ _ _ _ _).
  assert (H1 : sound c1).
  { destruct Hi as [Hk Hs]. split; simpl; intros a e.
    all: destruct (decide (a = address i)) as [->|Hne];
      [rewrite lookup_insert_eq; intros [= <-]|rewrite lookup_insert_ne by done; eauto].
    - done.
    - apply normalise_unit. }
  pose proof (sound_enforce c1 H1) as H2. pose proof (enforce_size c1) as Hsz.
  pose proof (enforce_config c1) as Hm.
  destruct (enforce_capacity c1) as [c2 evs]. simpl in *.
  destruct (f64_ge _ _).
  - pose proof (sound_renormalise c2 now H2) as [Hk Hs].
    split; [rewrite len_renormalise; simpl; lia|done..].
  - destruct H2 as [Hk Hs]. split; [lia|done..].
Qed.

Lemma prune_removes c min_score now a :
  a ∈ (filter (fun e : Z * CachedPool => prunable c min_score now e.2 = true)
         (map_iter (pools c))).*1 <->
  exists e, pools c !! a = Some e /\ prunable c min_score now e = true.
Proof.
  rewrite list_elem_of_fmap. split.
  - intros ([b e] & -> & [Hp H%elem_of_map_iter]%list_elem_of_filter). eauto.
  - intros (e & H & Hp). exists (a, e). split; [done|]. apply list_elem_of_filter.
    split; [done|]. by apply elem_of_map_iter.
Qed.

Lemma inv_prune c min_score now : inv c -> inv (prune c min_score now).1.1.
Proof.
  intros Hi. unfold prune. set (l := (filter _ _).*1).
  set (c1 := with_pools c _).
  assert (H1 : inv c1).
  { destruct (sound_delete c l (inv_sound c Hi)) as [Hk Hs]. split; [|done..].
    destruct Hi as [Hsz _ _]. etransitivity; [|exact Hsz].
    apply map_subseteq_size, map_subseteq_spec. intros a e. simpl. rewrite lookup_delete_all.
    by case_decide. }
  destruct (0 <? length l)%nat; simpl; [|done].
  destruct (sound_renormalise c1 now (inv_sound c1 H1)) as [Hk Hs].
  split; [rewrite len_renormalise; apply H1|done..].
Qed.

Inductive step (c : DiscoveryCache) : DiscoveryCache -> Prop :=
| step_upsert i inputs now : step c (upsert c i inputs now).1.1
| step_prune min_score now : step c (prune c min_score now).1.1.

(** C40. The cache keeps its bound and its scale: after any sequence of
    insertions, updates and prunes it holds at most [max_pools] pools, each
    under its own address, and every score is a number between 0 and 1. *)
Theorem discovery_cache_bounded mp age sc c :
  rtc step (new mp age sc) c ->
  (len c <= max_pools c)%nat /\
  forall a e, pools c !! a = Some e -> address (info e) = a /\ unit_score (score (info e)).
Proof.
  intros H. assert (Hg : forall c0, inv c0 -> rtc step c0 c -> inv c).
  { clear H. intros c0 Hi H. induction H as [|c1 c2 c3 Hs _ IH]; [done|]. apply IH.
    destruct Hs; [by apply inv_upsert|by apply inv_prune]. }
  destruct (Hg (new mp age sc)) as [Hsz Hk Hs]; [|done|].
  - split; simpl; [unfold len; simpl; rewrite map_size_empty; lia|..];
      intros a e; by rewrite lookup_empty.
  - split; [done|]. intros a e He. eauto.
Qed.

Lemma by_score_elem c a s :
  (a, s) ∈ by_score c <-> exists e, pools c !! a = Some e /\ s = score (info e).
Proof.
  unfold by_score. rewrite elem_of_sort_by, list_elem_of_fmap. split.
  - intros ([b e] & [= -> ->] & H%elem_of_map_iter). eauto.
  - intros (e & H & ->). exists (a, e). split; [done|]. by apply elem_of_map_iter.
Qed.

(** The pools the capacity leaves and the ones it evicts. *)
Lemma enforce_split c : exists evicted kept, by_score c = evicted ++ kept /\
  (enforce_capacity c).2 = (fun a => PoolPruned a "capacity"%string) <$> evicted.*1 /\
  forall a, pools (enforce_capacity c).1 !! a
            = if decide (a ∈ evicted.*1) then None else pools c !! a.
Proof.
  unfold enforce_capacity. destruct (len c <=? max_pools c)%nat.
  - by exists [], (by_score c).
  - exists (take (len c - max_pools c) (by_score c)), (drop (len c - max_pools c) (by_score c)).
    rewrite take_drop. split_and!; [done..|]. intros a. simpl. apply lookup_delete_all.
Qed.

(** An overfull cache evicts its worst pools: enforcing the capacity
    leaves [min n max_pools] pools, unchanged, and no evicted pool scored
    higher than one that stays; the events name exactly the evicted ones. *)
Theorem capacity_evicts_worst c :
  (forall a e, pools c !! a = Some e -> unit_score (score (info e))) ->
  let '(c', events) := enforce_capacity c in
  len c' = Nat.min (len c) (max_pools c) /\
  (forall a e, pools c' !! a = Some e -> pools c !! a = Some e) /\
  (forall a, PoolPruned a "capacity" ∈ events <->
     pools c' !! a = None /\ is_Some (pools c !! a)) /\
  (forall a e b e', pools c !! a = Some e -> pools c' !! a = None -> pools c' !! b = Some e' ->
     f64_le (score (info e)) (score (info e')) = true).
Proof.
  intros Hu. pose proof (enforce_size c) as Hsz.
  destruct (enforce_split c) as (ev & kept & Hl & He & Hp).
  assert (Hs : StronglySorted (key_le snd) (ev ++ kept)).
  { rewrite <- Hl. apply sort_asc_sorted. apply Forall_forall. intros [a s] H.
    apply list_elem_of_fmap in H as ([b e] & [= -> ->] & H%elem_of_map_iter).
    apply unit_not_nan. by apply (Hu b). }
  apply StronglySorted_split in Hs as (_ & _ & Hs).
  destruct (enforce_capacity c) as [c' events]. simpl in *. subst events. split_and!; [done|..].
  - intros a e. rewrite Hp. by case_decide.
  - intros a. rewrite Hp, list_elem_of_fmap. split.
    + intros (b & [= <-] & Hb). rewrite decide_True by done. split; [done|].
      apply by_score_present. rewrite Hl, fmap_app. set_solver.
    + intros [Ha [e Hae]]. destruct (decide (a ∈ ev.*1)); [eauto|congruence].
  - intros a e b e' Hae Hac Hbc. rewrite Hp in Hac, Hbc.
    destruct (decide (a ∈ ev.*1)) as [Hd1|]; [|congruence].
    destruct (decide (b ∈ ev.*1)) as [|Hd2]; [done|].
    apply list_elem_of_fmap in Hd1 as ([a' s] & Ha' & Hin). simpl in Ha'. subst a'.
    assert (Hbk : (b, score (info e')) ∈ ev ++ kept) by (rewrite <- Hl; apply by_score_elem; eauto).
    assert (Has : (a, s) ∈ by_score c) by (rewrite Hl; set_solver).
    apply by_score_elem in Has as (e0 & H0 & ->). rewrite H0 in Hae. injection Hae as ->.
    apply elem_of_app in Hbk as [Hb|Hb].
    { destruct Hd2. apply list_elem_of_fmap. by exists (b, score (info e')). }
    rewrite Forall_forall in Hs. specialize (Hs _ Hin). rewrite Forall_forall in Hs.
    by apply (Hs _ Hb).
Qed.

(** The top of the ranking: [get_top_n] returns [n] pools of the cache
    (all of them when it has fewer), best score first, and no pool it leaves
    out scores higher than one it returns. *)
Theorem top_n_best c n :
  (forall a e, pools c !! a = Some e -> unit_score (score (info e))) ->
  StronglySorted (flip (key_le score)) (get_top_n c n) /\
  exists left_out,
    get_top_n c n ++ left_out ≡ₚ (fun e : Z * CachedPool => info e.2) <$> map_to_list (pools c) /\
    (left_out = [] \/ length (get_top_n c n) = n) /\
    Forall (fun p => Forall (key_le score p) (get_top_n c n)) left_out.
Proof.
  intros Hu. unfold get_top_n. set (l := sort_by _ _).
  assert (Hs : StronglySorted (flip (key_le score)) l).
  { apply sort_desc_sorted. apply Forall_forall. intros i Hi.
    apply list_elem_of_fmap in Hi as ([a e] & -> & H%elem_of_map_iter).
    apply unit_not_nan. by apply (Hu a). }
  destruct (take_best score l n Hs) as (Ht & lo & Hlo & Hn & Hf). split; [done|].
  exists lo. split; [|done]. rewrite Hlo. unfold l. by rewrite sort_by_perm, map_iter_perm.
Qed.

(** Pruning removes exactly the pools that are too old or score below the
    floor, reports their number, and rescales the others when it removed any. *)
Theorem prune_exact c min_score now a e :
  let '(c', removed, events) := prune c min_score now in
  (is_Some (pools c' !! a) <->
   exists e0, pools c !! a = Some e0 /\ prunable c min_score now e0 = false) /\
  (len c = removed + len c')%nat /\
  (pools c !! a = Some e -> prunable c min_score now e = true ->
   PoolPruned a "age_or_low_score" ∈ events).
Proof.
  unfold prune. pose proof (prune_removes c min_score now a) as Hr.
  set (l := (filter _ _).*1) in *. set (c1 := with_pools c _).
  assert (H1 : is_Some (pools c1 !! a) <->
    exists e0, pools c !! a = Some e0 /\ prunable c min_score now e0 = false).
  { simpl. rewrite lookup_delete_all. destruct (decide (a ∈ l)) as [Ha|Ha].
    - split; [by intros []|]. apply Hr in Ha as (e1 & H & Hp). intros (e0 & H0 & H2). congruence.
    - split; [intros [e0 H0]; exists e0; split; [done|]|naive_solver].
      destruct (prunable c min_score now e0) eqn:E; [|done]. destruct Ha. apply Hr. eauto. }
  assert (H2 : (len c = length l + len c1)%nat).
  { unfold len, c1. simpl. rewrite Nat.add_comm. symmetry. apply size_delete_all.
    - unfold l. rewrite map_iter_perm. apply NoDup_fmap_fst.
      + intros k x y [_ Hx]%list_elem_of_filter [_ Hy]%list_elem_of_filter.
        apply elem_of_map_to_list in Hx, Hy. congruence.
      + apply NoDup_filter, NoDup_map_to_list.
    - intros b Hb. apply list_elem_of_fmap in Hb as ([k x] & -> & [_ Hb]%list_elem_of_filter).
      apply elem_of_map_iter in Hb. eauto. }
  assert (H3 : pools c !! a = Some e -> prunable c min_score now e = true ->
    PoolPruned a "age_or_low_score" ∈ (fun a => PoolPruned a "age_or_low_score") <$> l).
  { intros H Hp. apply list_elem_of_fmap. exists a. split; [done|]. apply Hr. eauto. }
  destruct (0 <? length l)%nat; [|done]. rewrite len_renormalise. split_and!; [|done|set_solver].
  rewrite <- H1. simpl. by rewrite lookup_fmap, fmap_is_Some.
Qed.
End Cache.

(** ** Concrete values *)

#[local] Existing Instance canonical_order.

Definition flat_scoring : ScoringSettings := mkScoring f64_one f64_one 50.
Definition blank (a : Address) : PoolInfo :=
  mkInfo a 10 20 UniswapV2 0 f64_zero f64_zero f64_zero f64_zero 0.
(** A pool of value 10,000 with the given daily volume, no fee or slippage. *)
Definition volume (v : Z) : PoolScoreInputs := mkInputs (f64_of_Z 10000) (f64_of_Z v) 0 f64_zero.

Definition put (c : DiscoveryCache) (av : Address * Z) : DiscoveryCache :=
  (upsert c (blank av.1) (volume av.2) 0).1.1.

Definition filled (max : nat) (avs : list (Address * Z)) : DiscoveryCache :=
  foldl put (new max 3600 flat_scoring) avs.

Definition three : list (Address * Z) := [(1, 500); (2, 900); (3, 700)].

Lemma put_steps c avs : rtc step c (foldl put c avs).
Proof.
  revert c. induction avs as [|av avs IH]; intros c; simpl; [done|].
  eapply rtc_l; [apply step_upsert|apply IH].
Qed.

Lemma discovery_cache_bounded_witness :
  address <$> get_top_n (filled 2 three) 5 = [2; 3] /\
  (len (filled 2 three) <= 2)%nat.
Proof.
  split; [vm_compute; reflexivity|].
  apply (discovery_cache_bounded 2 3600 flat_scoring _ (put_steps _ three)).
Defined.

(** Three scored pools in a cache of two. *)
Definition overfull : DiscoveryCache :=
  let c := filled 3 three in
  mkCache (pools c) 2 (prune_max_age c) (scoring c) (discovery_counter c).

Lemma overfull_unit a e : pools overfull !! a = Some e -> unit_score (score (info e)).
Proof.
  intros H. apply (inv_score (filled 3 three)) with a; [|done].
  unfold filled. simpl. do 3 apply inv_upsert.
  split; simpl; [vm_compute; lia|..]; intros b x; by rewrite lookup_empty.
Qed.

Lemma capacity_evicts_worst_witness :
  len (enforce_capacity overfull).1 = 2%nat /\ pools (enforce_capacity overfull).1 !! 1 = None.
Proof.
  pose proof (capacity_evicts_worst overfull overfull_unit) as H.
  destruct (enforce_capacity overfull) as [c' ev] eqn:E. split; [apply H|].
  replace c' with (enforce_capacity overfull).1 by (by rewrite E). vm_compute. reflexivity.
Defined.

Lemma top_n_best_witness :
  address <$> get_top_n overfull 2 = [2; 3] /\
  StronglySorted (flip (key_le score)) (get_top_n overfull 2).
Proof. split; [vm_compute; reflexivity|]. apply (top_n_best overfull 2 overfull_unit). Defined.

(** Pool 1 leads, pool 2 is small, pool 1 collapses, pool 3 arrives with half
    the volume of pool 2. *)
Definition rescaled : DiscoveryCache := filled 10 [(1, 1000000); (2, 1000); (1, 1); (3, 500)].

(** An update can invert the ranking: when the leading pool is updated to
    a lower score the other scores keep its old scale, so a pool that arrives
    later is normalised against a smaller maximum and is ranked above a pool
    with twice its raw score. *)
Theorem upsert_inverts_ranking :
  address <$> get_top_n rescaled 1 = [3] /\
  f64_lt (raw_score (volume 500) flat_scoring) (raw_score (volume 1000) flat_scoring) = true /\
  contains rescaled 2 = true.
Proof. vm_compute. auto. Qed.

End Discovery.
