(* ===== verification/PoolValidator.v ===== *)
(** * Validation of discovered pools

    [crates/discovery/src/validator.rs]: before a pool enters the discovery
    cache its reserves are read and a small round trip is quoted, and, with a
    fork, the round trip is sent to the protocol's router. The node's answers are
    an argument; time measurements are left out. *)

From Stdlib Require Import ZArith Lia String Ascii.
From S2P Require Import Prelude.
From S2P Require Import Machine.
From S2P Require Import F64.
From S2P Require Import Types.
From S2P Require Import Bytes.
From S2P Require Import Keccak.
From S2P Require Import Abi.
From S2P Require Import UniswapV2.
From S2P Require Import Balancer.
From S2P Require Import Curve.
From S2P Require Import Revm.
From S2P Require Import Discovery.
From stdpp Require Import base option numbers strings gmap list.
Import Revm.

Local Open Scope Z_scope.

Module PoolValidator.

Inductive ValidationResult : Type :=
| Valid
| Invalid (reason : string)
| LowLiquidity.

#[global] Instance ValidationResult_eq_dec : EqDecision ValidationResult.
Proof. solve_decision. Defined.

(** The test account of the probes. *)
Definition REVM_PROBE_CALLER : Address := 0xbEEF.
Definition MIN_WETH_RESERVE_ETH : f64 := f64_of_ratio 1 10.
Definition V3_SWAP_ROUTER_02 : Address := 0x68b3465833fb72A70ecDF485E0e4C7bD8665Fc45.
Definition BALANCER_VAULT : Address := 0xBA12222222228d8Ba445958a75a0704d566BF2C8.

Definition ascii_lower (c : ascii) : ascii :=
  let n := nat_of_ascii c in
  if (65 <=? n)%nat && (n <=? 90)%nat then ascii_of_nat (n + 32) else c.
Fixpoint to_ascii_lowercase (s : string) : string :=
  match s with
  | EmptyString => EmptyString
  | String c s => String (ascii_lower c) (to_ascii_lowercase s)
  end.

Definition str_contains (s pattern : string) : bool :=
  match String.index 0 pattern s with Some _ => true | None => false end.

(** The decimal text of the value parsed back as an [f64] is the value rounded
    to the nearest one. *)
Definition u256_to_eth (v : Z) : f64 := f64_div (f64_of_Z v) (f64_of_Z (10 ^ 18)).
Definition eth_to_u256 (eth : f64) : Z :=
  if f64_le eth f64_zero || negb (is_finite eth) then 0
  else f64_as_u128 (f64_mul eth (f64_of_Z (10 ^ 18))).

Definition v2_router_for (protocol : ProtocolType) : Address :=
  match protocol with
  | UniswapV2 => 0x7a250d5630B4cF539739dF2C5dAcb4c659F2488D
  | SushiSwap => 0xd9e1cE17f2641f24aE83637ab66a2cca9C378B9F
  | _ => zero_address
  end.

(** In hundredths of a basis point, clamped to 24 bits. *)
Definition v3_fee_from_bps (fee_bps : Z) : Z := Z.min (saturate 32 (fee_bps * 100)) 0xFFFFFF.

Definition dex_label (protocol : ProtocolType) : string :=
  match protocol with
  | UniswapV2 => "uniswap_v2"
  | UniswapV3 => "uniswap_v3"
  | SushiSwap => "sushiswap"
  | Curve => "curve"
  | BalancerV2 => "balancer_v2"
  | BalancerV3 => "balancer_v3"
  | BancorV3 => "bancor_v3"
  end.

Definition result_label (result : ValidationResult) : string :=
  match result with
  | Valid => "valid"
  | LowLiquidity => "low_liquidity"
  | Invalid _ => "invalid"
  end.

(** The derived [Debug] text. *)
Definition protocol_debug (protocol : ProtocolType) : string :=
  match protocol with
  | UniswapV2 => "UniswapV2"
  | UniswapV3 => "UniswapV3"
  | SushiSwap => "SushiSwap"
  | Curve => "Curve"
  | BalancerV2 => "BalancerV2"
  | BalancerV3 => "BalancerV3"
  | BancorV3 => "BancorV3"
  end.

Definition balancer_pool_id (pool_addr : Address) : Z := be (repeat 0 12 ++ to_be 20 pool_addr).

(** ** Quotes *)

Section Quotes.
Context `{B : Build}.

(** The side a pool's liquidity is measured on. *)
Definition weth_side (token0 token1 : Address) (r0 r1 : Z) : f64 :=
  if token0 =? addresses.WETH then u256_to_eth r0
  else if token1 =? addresses.WETH then u256_to_eth r1
  else u256_to_eth (Z.min r0 r1).

(** [match quote { Some(v) if !v.is_zero() => v, _ => return Invalid(..) }]. *)
Definition non_zero (quote : option Z) (reason : string) (k : Z -> outcome ValidationResult)
    : outcome ValidationResult :=
  match quote with
  | Some v => if v =? 0 then Ret (Invalid reason) else k v
  | None => Ret (Invalid reason)
  end.

Definition simulate_round_trip (pool : UniswapV2Pool.t) (weth other : Address) (swap_wei : Z)
    : outcome ValidationResult :=
  q ← UniswapV2Pool.get_amount_out pool weth swap_wei;
  non_zero q "ETH→token swap failed" (fun token_out =>
  q ← UniswapV2Pool.get_amount_out pool other token_out;
  non_zero q "token→ETH swap failed" (fun eth_back =>
  Ret (if swap_wei / 100 <? eth_back then Valid else Invalid "round-trip output near zero"))).

Definition validate_v2_reserves (token0 token1 : Address) (protocol : ProtocolType)
    (fee_bps reserve0 reserve1 : Z) (swap_eth : f64) : outcome ValidationResult :=
  if negb (bool_decide (protocol = UniswapV2) || bool_decide (protocol = SushiSwap))
  then Ret (Invalid ("unsupported protocol: " +:+ protocol_debug protocol))
  else if (reserve0 =? 0) || (reserve1 =? 0) then Ret LowLiquidity
  else if f64_lt (weth_side token0 token1 reserve0 reserve1) MIN_WETH_RESERVE_ETH then Ret LowLiquidity
  else
    let swap_wei := eth_to_u256 swap_eth in
    if swap_wei =? 0 then Ret (Invalid "swap amount too small")
    else
      let pool := UniswapV2Pool.update_state (UniswapV2Pool.new zero_address token0 token1 fee_bps)
                    reserve0 reserve1 in
      if token0 =? addresses.WETH then simulate_round_trip pool addresses.WETH token1 swap_wei
      else if token1 =? addresses.WETH then simulate_round_trip pool addresses.WETH token0 swap_wei
      else
        q ← UniswapV2Pool.get_amount_out pool token0 swap_wei;
        non_zero q "forward swap failed" (fun amount_out =>
        back ← UniswapV2Pool.get_amount_out pool token1 amount_out;
        Ret match back with
            | Some v =>
                if swap_wei / 2 <? v then Valid else Invalid "round-trip swap unprofitable"
            | None => Invalid "round-trip swap unprofitable"
            end).

Definition validate_curve_balances (token0 token1 : Address) (fee_bps amplification balance0 balance1 : Z)
    (swap_eth : f64) : outcome ValidationResult :=
  if (balance0 =? 0) || (balance1 =? 0) then Ret LowLiquidity
  else
    let amp := limb amplification 0 in
    let pool := CurvePool.mk zero_address [token0; token1] [balance0; balance1] (Z.max amp 1) fee_bps in
    let swap_wei := eth_to_u256 swap_eth in
    if swap_wei =? 0 then Ret (Invalid "swap amount too small")
    else if f64_lt (weth_side token0 token1 balance0 balance1) MIN_WETH_RESERVE_ETH then Ret LowLiquidity
    else
      q ← CurvePool.get_amount_out pool token0 swap_wei;
      non_zero q "Curve forward swap failed" (fun token_out =>
      q ← CurvePool.get_amount_out pool token1 token_out;
      non_zero q "Curve reverse swap failed" (fun back =>
      Ret (if swap_wei / 100 <? back then Valid else Invalid "Curve round-trip output near zero"))).

Definition validate_balancer_v3_balances (token0 token1 : Address) (fee_bps balance0 balance1 : Z)
    (swap_eth : f64) : outcome ValidationResult :=
  if (balance0 =? 0) || (balance1 =? 0) then Ret LowLiquidity
  else if f64_lt (weth_side token0 token1 balance0 balance1) MIN_WETH_RESERVE_ETH then Ret LowLiquidity
  else
    let swap_wei := eth_to_u256 swap_eth in
    if swap_wei =? 0 then Ret (Invalid "swap amount too small")
    else
      let pool := BalancerPool.mk zero_address token0 token1 balance0 balance1 50 50 fee_bps in
      q ← BalancerPool.get_amount_out pool token0 swap_wei;
      non_zero q "Balancer V3 forward swap failed" (fun token_out =>
      q ← BalancerPool.get_amount_out pool token1 token_out;
      non_zero q "Balancer V3 reverse swap failed" (fun back =>
      Ret (if swap_wei / 100 <? back then Valid
           else Invalid "Balancer V3 round-trip output near zero"))).
End Quotes.

(** ** Probes on a fork

    The four probes run their calls on one [Context], each with [transact]. *)

Section Probes.
Context `{B : Build} `{E : Revm} `{K : Keccak} `{A : !SolAbi}.

Definition probe_cfg (st : RpcForkedState) : CfgEnv := mkCfg (chain_id st) true true true false.

(** A call of the test account. *)
Definition probe_tx (st : RpcForkedState) (to : Address) (data : list Z) (value gas_limit nonce : Z)
    : TxEnv :=
  mkTx REVM_PROBE_CALLER (Call to) data value gas_limit (base_fee st) nonce (chain_id st).

Definition build_probe_tx (st : RpcForkedState) (to : Address) (data : list Z) (value nonce : Z) : TxEnv :=
  probe_tx st to data value 700000 nonce.

Definition revm_transact_success (st : RpcForkedState) (d : Db) (tx : TxEnv) : Db * bool :=
  let '(d, r) := transact d (probe_cfg st) (block_env st) tx in
  (d, match r with inr (Success _ _, _) => true | _ => false end).

(** The last word of the output. *)
Definition revm_transact_output (st : RpcForkedState) (d : Db) (tx : TxEnv) : Db * option Z :=
  let '(d, r) := transact d (probe_cfg st) (block_env st) tx in
  (d, match r with
      | inr (Success _ output, _) =>
          let out := into_data output in
          if (32 <=? length out)%nat then Some (be (drop (length out - 32) out)) else None
      | _ => None
      end).

(** A call that has to succeed, and a balance that has to be positive. *)
Definition expect (st : RpcForkedState) (tx : TxEnv) (reason : string) (d : Db)
    (k : Db -> ValidationResult) : ValidationResult :=
  let '(d, ok) := revm_transact_success st d tx in if ok then k d else Invalid reason.
Definition expect_balance (st : RpcForkedState) (tx : TxEnv) (reason : string) (d : Db)
    (k : Db -> Z -> ValidationResult) : ValidationResult :=
  let '(d, b) := revm_transact_output st d tx in
  match b with
  | Some b => if b =? 0 then Invalid reason else k d b
  | None => Invalid reason
  end.

Definition approve_data (spender : Address) (amount : Z) : list Z :=
  abi_encode_call "approve" [SAddress; SUint 256] (spender, (amount, tt)).
Definition balance_data (account : Address) : list Z :=
  abi_encode_call "balanceOf" [SAddress] (account, tt).
Definition deposit_data : list Z := abi_encode_call "deposit" [] tt.

(** *** Uniswap V2 and SushiSwap *)

Definition buy_v2_data (path : list Address) (deadline : Z) : list Z :=
  abi_encode_call "swapExactETHForTokens" [SUint 256; SArray SAddress; SAddress; SUint 256]
    (0, (path, (REVM_PROBE_CALLER, (deadline, tt)))).
Definition sell_v2_data (amount_in : Z) (path : list Address) (deadline : Z) : list Z :=
  abi_encode_call "swapExactTokensForETH" [SUint 256; SUint 256; SArray SAddress; SAddress; SUint 256]
    (amount_in, (0, (path, (REVM_PROBE_CALLER, (deadline, tt))))).

Definition run_revm_round_trip (st : RpcForkedState) (router other_token weth_token : Address)
    (swap_wei deadline : Z) (buy_data : list Z) : ValidationResult :=
  expect st (probe_tx st router buy_data swap_wei 500000 0) "revm ETH→token swap reverted" (db st) (fun d =>
  expect_balance st (probe_tx st other_token (balance_data REVM_PROBE_CALLER) 0 200000 1)
    "revm probe received zero tokens" d (fun d token_balance =>
  expect st (probe_tx st other_token (approve_data router token_balance) 0 200000 2)
    "revm token approve reverted" d (fun d =>
  expect st
    (probe_tx st router (sell_v2_data token_balance [other_token; weth_token] deadline) 0 500000 3)
    "revm token→ETH swap reverted" d (fun _ => Valid)))).

(** *** Uniswap V3 *)

Definition exact_input_single : list sol :=
  [STuple [SAddress; SAddress; SUint 24; SAddress; SUint 256; SUint 256; SUint 160]].
Definition swap_v3_data (token_in token_out : Address) (fee amount_in : Z) : list Z :=
  abi_encode_call "exactInputSingle" exact_input_single
    ((token_in, (token_out, (fee, (REVM_PROBE_CALLER, (amount_in, (0, (0, tt))))))), tt).

Definition run_v3_round_trip (st : RpcForkedState) (router weth_token other_token : Address)
    (fee_v3 swap_wei : Z) : ValidationResult :=
  expect st (build_probe_tx st weth_token deposit_data swap_wei 0) "revm WETH wrap reverted" (db st) (fun d =>
  expect st (build_probe_tx st weth_token (approve_data router swap_wei) 0 1)
    "revm WETH approve reverted" d (fun d =>
  expect st (build_probe_tx st router (swap_v3_data weth_token other_token fee_v3 swap_wei) 0 2)
    "revm V3 ETH→token swap reverted" d (fun d =>
  expect_balance st (build_probe_tx st other_token (balance_data REVM_PROBE_CALLER) 0 3)
    "revm V3 probe received zero tokens" d (fun d token_balance =>
  expect st (build_probe_tx st other_token (approve_data router token_balance) 0 4)
    "revm V3 token approve reverted" d (fun d =>
  expect st (build_probe_tx st router (swap_v3_data other_token weth_token fee_v3 token_balance) 0 5)
    "revm V3 token→ETH swap reverted" d (fun _ => Valid)))))).

(** *** Curve *)

Definition exchange_data (i j dx : Z) : list Z :=
  abi_encode_call "exchange" [SInt 128; SInt 128; SUint 256; SUint 256] (i, (j, (dx, (0, tt)))).

Definition run_curve_exchange_round_trip (st : RpcForkedState)
    (pool_addr weth_token other_token : Address) (i j swap_wei : Z) : ValidationResult :=
  expect st (probe_tx st weth_token deposit_data swap_wei 200000 0) "revm WETH deposit reverted" (db st)
    (fun d =>
  expect st (probe_tx st weth_token (approve_data pool_addr swap_wei) 0 200000 1)
    "revm WETH approve reverted" d (fun d =>
  expect st (probe_tx st pool_addr (exchange_data i j swap_wei) 0 700000 2)
    "revm Curve forward exchange reverted" d (fun d =>
  expect_balance st (probe_tx st other_token (balance_data REVM_PROBE_CALLER) 0 200000 3)
    "revm Curve probe received zero tokens" d (fun d token_balance =>
  expect st (probe_tx st other_token (approve_data pool_addr token_balance) 0 200000 4)
    "revm token approve reverted" d (fun d =>
  expect st (probe_tx st pool_addr (exchange_data j i token_balance) 0 700000 5)
    "revm Curve reverse exchange reverted" d (fun _ => Valid)))))).

(** *** Balancer V3 *)

Definition vault_swap : list sol :=
  [STuple [SBytes32; SUint 8; SAddress; SAddress; SUint 256; SBytes];
   STuple [SAddress; SBool; SAddress; SBool]; SUint 256; SUint 256].
Definition vault_swap_data (pool_id : Z) (asset_in asset_out : Address) (amount deadline : Z) : list Z :=
  abi_encode_call "swap" vault_swap
    ((pool_id, (0, (asset_in, (asset_out, (amount, ([], tt)))))),
     ((REVM_PROBE_CALLER, (false, (REVM_PROBE_CALLER, (false, tt)))), (0, (deadline, tt)))).

Definition run_balancer_v3_round_trip (st : RpcForkedState)
    (pool_addr weth_token other_token : Address) (swap_wei deadline : Z) : ValidationResult :=
  let pool_id := balancer_pool_id pool_addr in
  expect st (probe_tx st weth_token deposit_data swap_wei 200000 0) "revm WETH deposit reverted" (db st)
    (fun d =>
  expect st (probe_tx st weth_token (approve_data BALANCER_VAULT swap_wei) 0 200000 1)
    "revm WETH vault approve reverted" d (fun d =>
  expect st
    (probe_tx st BALANCER_VAULT (vault_swap_data pool_id weth_token other_token swap_wei deadline)
       0 800000 2)
    "revm Balancer V3 forward swap reverted" d (fun d =>
  expect_balance st (probe_tx st other_token (balance_data REVM_PROBE_CALLER) 0 200000 3)
    "revm Balancer V3 probe received zero tokens" d (fun d token_balance =>
  expect st (probe_tx st other_token (approve_data BALANCER_VAULT token_balance) 0 200000 4)
    "revm token vault approve reverted" d (fun d =>
  expect st
    (probe_tx st BALANCER_VAULT (vault_swap_data pool_id other_token weth_token token_balance deadline)
       0 800000 5)
    "revm Balancer V3 reverse swap reverted" d (fun _ => Valid)))))).

(** ** The node *)

(** What the node answers while a pool is validated: calls and code at the
    latest block ([None]: the request failed), the latest header with its base
    fee, and the forks. *)
Record Node : Type := mkNode {
  eth_call : Address -> list Z -> option (list Z);
  get_code_at : Address -> option (list Z);
  latest_block : option (Z * Z * option Z);
  fork : BlockId -> option Db;
}.

(** [Ok(out) if out.len() >= n]. *)
Definition call_at_least (node : Node) (to : Address) (data : list Z) (n : nat) : option (list Z) :=
  out ← eth_call node to data;
  if (n <=? length out)%nat then Some out else None.

(** The address in the first word. *)
Definition word_address (out : list Z) : Address := be (take 20 (drop 12 out)).

Definition erc20_balance_of (node : Node) (token holder : Address) : option Z :=
  out ← eth_call node token (balance_data holder);
  if (32 <=? length out)%nat then Some (be (drop (length out - 32) out)) else None.

(** The fork of a probe, with the test account funded; [None]: no block or no
    fork. *)
Definition probe_state (node : Node) : option RpcForkedState :=
  ' (number, timestamp, base_fee) ← latest_block node;
  st ← rpc_state_new_at_latest (fork node) number timestamp (default 0 base_fee);
  Some (insert_account_balance st REVM_PROBE_CALLER (10 ^ 18)).

(** The WETH side of a pair, and the other one. *)
Definition weth_pair (token0 token1 : Address) : option (Address * Address) :=
  if token0 =? addresses.WETH then Some (token0, token1)
  else if token1 =? addresses.WETH then Some (token1, token0)
  else None.

Definition validate_v2_pool_rpc (node : Node) (pool_addr token0 token1 : Address)
    (protocol : ProtocolType) (fee_bps : Z) (swap_eth : f64) : outcome ValidationResult :=
  match call_at_least node pool_addr (abi_encode_call "token0" [] tt) 32 with
  | None => Ret (Invalid "token0() call failed")
  | Some out0 =>
  match call_at_least node pool_addr (abi_encode_call "token1" [] tt) 32 with
  | None => Ret (Invalid "token1() call failed")
  | Some out1 =>
  if negb (word_address out0 =? token0) || negb (word_address out1 =? token1)
  then Ret (Invalid "token ordering mismatch")
  else
  match call_at_least node pool_addr (abi_encode_call "getReserves" [] tt) 64 with
  | None => Ret (Invalid "getReserves() failed")
  | Some out =>
      validate_v2_reserves token0 token1 protocol fee_bps (be (take 32 out)) (be (take 32 (drop 32 out)))
        swap_eth
  end end end.

Definition validate_v2_pool_revm (node : Node) (token0 token1 : Address) (protocol : ProtocolType)
    (swap_eth : f64) : outcome ValidationResult :=
  let router := v2_router_for protocol in
  if router =? zero_address
  then Ret (Invalid ("no router for protocol: " +:+ protocol_debug protocol))
  else
    match weth_pair token0 token1 with
    | None => Ret Valid
    | Some (weth_token, other_token) =>
        let swap_wei := eth_to_u256 swap_eth in
        if swap_wei =? 0 then Ret (Invalid "swap amount too small")
        else
          match latest_block node with
          | None => Ret (Invalid "failed to fetch latest block")
          | Some _ =>
              match probe_state node with
              | None => Ret (Invalid "revm fork init failed")
              | Some st =>
                  deadline ← u64_add (block_timestamp st) 3600;
                  Ret (run_revm_round_trip st router other_token weth_token swap_wei deadline
                         (buy_v2_data [weth_token; other_token] deadline))
              end
          end
    end.

Definition validate_v2_pool_full (node : Node) (pool_addr token0 token1 : Address)
    (protocol : ProtocolType) (fee_bps : Z) (swap_eth : f64) (validation_mode : string)
    : outcome ValidationResult :=
  let mode := to_ascii_lowercase validation_mode in
  analytical ← validate_v2_pool_rpc node pool_addr token0 token1 protocol fee_bps swap_eth;
  if bool_decide (mode = "analytical") then Ret analytical
  else if bool_decide (mode = "revm") then
    match analytical with
    | Invalid reason =>
        if str_contains reason "token" || str_contains reason "getReserves" then Ret (Invalid reason)
        else validate_v2_pool_revm node token0 token1 protocol swap_eth
    | _ => validate_v2_pool_revm node token0 token1 protocol swap_eth
    end
  else if negb (bool_decide (analytical = Valid)) then Ret analytical
  else validate_v2_pool_revm node token0 token1 protocol swap_eth.

Definition validate_v3_pool_revm (node : Node) (token0 token1 : Address) (fee_bps : Z) (swap_eth : f64)
    : ValidationResult :=
  match weth_pair token0 token1 with
  | None => Valid
  | Some (weth_token, other_token) =>
      let swap_wei := eth_to_u256 swap_eth in
      if swap_wei =? 0 then Invalid "swap amount too small"
      else
        match probe_state node with
        | None => Valid
        | Some st =>
            run_v3_round_trip st V3_SWAP_ROUTER_02 weth_token other_token (v3_fee_from_bps fee_bps)
              swap_wei
        end
  end.

Definition validate_v3_pool_full (node : Node) (pool_addr token0 token1 : Address) (fee_bps : Z)
    (swap_eth : f64) (validation_mode : string) : ValidationResult :=
  let mode := to_ascii_lowercase validation_mode in
  let low :=
    match weth_pair token0 token1 with
    | Some (weth, _) =>
        match erc20_balance_of node weth pool_addr with
        | Some bal => f64_lt (u256_to_eth bal) MIN_WETH_RESERVE_ETH
        | None => false
        end
    | None => false
    end in
  if low then LowLiquidity
  else if bool_decide (mode = "analytical") then Valid
  else validate_v3_pool_revm node token0 token1 fee_bps swap_eth.

(** The [balances] loop. *)
Definition curve_balance (node : Node) (pool_addr : Address) (idx : Z) : option Z :=
  out ← call_at_least node pool_addr (abi_encode_call "balances" [SUint 256] (idx, tt)) 32;
  Some (be (take 32 out)).

Definition validate_curve_pool_rpc (node : Node) (pool_addr token0 token1 : Address) (fee_bps : Z)
    (swap_eth : f64) : outcome ValidationResult :=
  match call_at_least node pool_addr (abi_encode_call "A" [] tt) 32 with
  | None => Ret (Invalid "Curve A() call failed")
  | Some a =>
      match curve_balance node pool_addr 0 with
      | None => Ret (Invalid "Curve balances() call failed")
      | Some b0 =>
          match curve_balance node pool_addr 1 with
          | None => Ret (Invalid "Curve balances() call failed")
          | Some b1 => validate_curve_balances token0 token1 fee_bps (be (take 32 a)) b0 b1 swap_eth
          end
      end
  end.

Definition validate_curve_pool_revm (node : Node) (pool_addr token0 token1 : Address) (fee_bps : Z)
    (swap_eth : f64) : outcome ValidationResult :=
  analytical ← validate_curve_pool_rpc node pool_addr token0 token1 fee_bps swap_eth;
  if negb (bool_decide (analytical = Valid)) then Ret analytical
  else
    match weth_pair token0 token1 with
    | None => Ret Valid
    | Some (weth_token, other_token) =>
        let swap_wei := eth_to_u256 swap_eth in
        if swap_wei =? 0 then Ret (Invalid "swap amount too small")
        else
          let i := if weth_token =? token0 then 0 else 1 in
          let j := if i =? 0 then 1 else 0 in
          match probe_state node with
          | None => Ret Valid
          | Some st =>
              _ ← u64_add (block_timestamp st) 3600;
              Ret (run_curve_exchange_round_trip st pool_addr weth_token other_token i j swap_wei)
          end
    end.

(** The mode of the Curve and Balancer V3 pipelines: the fork probe alone, after
    the quotes, or the quotes alone. *)
Definition by_mode (validation_mode : string) (rpc revm : outcome ValidationResult)
    : outcome ValidationResult :=
  let mode := to_ascii_lowercase validation_mode in
  if bool_decide (mode = "revm") then revm
  else if bool_decide (mode = "both") then
    analytical ← rpc;
    if negb (bool_decide (analytical = Valid)) then Ret analytical else revm
  else rpc.

Definition validate_curve_pool_full (node : Node) (pool_addr token0 token1 : Address) (fee_bps : Z)
    (swap_eth : f64) (validation_mode : string) : outcome ValidationResult :=
  by_mode validation_mode
    (validate_curve_pool_rpc node pool_addr token0 token1 fee_bps swap_eth)
    (validate_curve_pool_revm node pool_addr token0 token1 fee_bps swap_eth).

Definition validate_balancer_v3_pool_rpc (node : Node) (pool_addr token0 token1 : Address) (fee_bps : Z)
    (swap_eth : f64) : outcome ValidationResult :=
  match get_code_at node pool_addr with
  | None => Ret Valid
  | Some [] => Ret (Invalid "pool address has no bytecode")
  | Some _ =>
      match erc20_balance_of node token0 pool_addr, erc20_balance_of node token1 pool_addr with
      | Some balance0, Some balance1 =>
          validate_balancer_v3_balances token0 token1 fee_bps balance0 balance1 swap_eth
      | _, _ => Ret Valid
      end
  end.

Definition validate_balancer_v3_pool_revm (node : Node) (pool_addr token0 token1 : Address) (fee_bps : Z)
    (swap_eth : f64) : outcome ValidationResult :=
  analytical ← validate_balancer_v3_pool_rpc node pool_addr token0 token1 fee_bps swap_eth;
  if negb (bool_decide (analytical = Valid)) then Ret analytical
  else
    match weth_pair token0 token1 with
    | None => Ret Valid
    | Some (weth_token, other_token) =>
        let swap_wei := eth_to_u256 swap_eth in
        if swap_wei =? 0 then Ret (Invalid "swap amount too small")
        else
          match latest_block node with
          | None => Ret Valid
          | Some (_, timestamp, _) =>
              deadline ← u64_add timestamp 3600;
              Ret match probe_state node with
                  | None => Valid
                  | Some st =>
                      run_balancer_v3_round_trip st pool_addr weth_token other_token swap_wei deadline
                  end
          end
    end.

Definition validate_balancer_v3_pool_full (node : Node) (pool_addr token0 token1 : Address) (fee_bps : Z)
    (swap_eth : f64) (validation_mode : string) : outcome ValidationResult :=
  by_mode validation_mode
    (validate_balancer_v3_pool_rpc node pool_addr token0 token1 fee_bps swap_eth)
    (validate_balancer_v3_pool_revm node pool_addr token0 token1 fee_bps swap_eth).

(** *** Balancer V2 and Bancor V3 *)

Definition validate_custodial_pool (node : Node) (pool : Address) : ValidationResult :=
  match get_code_at node pool with
  | Some [] => Invalid "pool address has no bytecode"
  | Some _ | None => Valid
  end.

(** The process-wide memory of the pools that passed, with the time in
    seconds. *)
Abbreviation SwapCache := (gmap Z Z) (only parsing).

Definition validate_custodial_swap (node : Node) (cache : SwapCache) (now : Z) (pool : Address)
    (amount_eth : f64) : ValidationResult * SwapCache :=
  let fresh := match cache !! pool with Some ts => now - ts <? 24 * 3600 | None => false end in
  if fresh then (Valid, cache)
  else if f64_le amount_eth f64_zero then (Invalid "custodial swap amount must be positive", cache)
  else
    match get_code_at node pool with
    | Some [] => (Invalid "pool address has no bytecode", cache)
    | Some _ => (Valid, <[pool := now]> cache)
    | None => (Valid, cache)
    end.

(** [f64::min]: the other operand when one is NaN. *)
Definition f64_min (x y : f64) : f64 :=
  if is_nan x then y else if is_nan y then x else if f64_lt y x then y else x.

Definition validate_custodial_pool_full (node : Node) (cache : SwapCache) (now : Z) (pool : Address)
    (swap_eth : f64) (swap_enabled : bool) (max_amount : f64) : ValidationResult * SwapCache :=
  let base := validate_custodial_pool node pool in
  if negb (bool_decide (base = Valid)) then (base, cache)
  else if negb swap_enabled then (base, cache)
  else validate_custodial_swap node cache now pool (f64_min swap_eth max_amount).

(** The entry point of the discovery service. *)
Definition validate_pool_revm (node : Node) (cache : SwapCache) (now : Z) (pool : Discovery.PoolInfo)
    (swap_eth : f64) (validation_mode : string) : outcome (ValidationResult * SwapCache) :=
  let addr := Discovery.address pool in
  let token0 := Discovery.token0 pool in
  let token1 := Discovery.token1 pool in
  let fee_bps := Discovery.fee_bps pool in
  let keep (r : outcome ValidationResult) := v ← r; Ret (v, cache) in
  match Discovery.protocol pool with
  | UniswapV2 | SushiSwap =>
      keep (validate_v2_pool_full node addr token0 token1 (Discovery.protocol pool) fee_bps swap_eth
              validation_mode)
  | UniswapV3 =>
      Ret (validate_v3_pool_full node addr token0 token1 fee_bps swap_eth validation_mode, cache)
  | Curve => keep (validate_curve_pool_full node addr token0 token1 fee_bps swap_eth validation_mode)
  | BalancerV3 =>
      keep (validate_balancer_v3_pool_full node addr token0 token1 fee_bps swap_eth validation_mode)
  | BalancerV2 | BancorV3 =>
      Ret (validate_custodial_pool_full node cache now addr swap_eth true (f64_of_Z (10 ^ 18)))
  end.
End Probes.

(** ** What the quotes decide *)

(** If the first leg buys at least one unit, the second leg returns more than a
    hundredth of the input: flooring costs at most half of each leg. *)
Lemma round_trip_returns w t x f : 7000 <= f <= 10000 -> 100 <= x <= w -> 0 < t ->
  let o := t * (x * f) / (w * 10000 + x * f) in
  1 <= o -> x / 100 < w * (o * f) / (t * 10000 + o * f).
Proof.
  intros Hf Hx Ht o Ho. set (D1 := w * 10000 + x * f) in *.
  assert (HD1 : 0 < D1 <= 20000 * w) by (subst D1; nia).
  assert (H1 : t * (x * f) < (o + 1) * D1).
  { pose proof (Z.mul_succ_div_gt (t * (x * f)) D1 ltac:(lia)). subst o. lia. }
  assert (Hot : o <= t).
  { subst o. apply Z.div_le_upper_bound; [lia|]. subst D1. nia. }
  set (D2 := t * 10000 + o * f). assert (HD2 : 0 < D2 <= 20000 * t) by (subst D2; nia).
  set (b := w * (o * f) / D2).
  assert (H2 : w * (o * f) < (b + 1) * D2).
  { pose proof (Z.mul_succ_div_gt (w * (o * f)) D2 ltac:(lia)). subst b. lia. }
  assert (Hb0 : 0 <= b) by (subst b; apply Z.div_pos; nia).
  assert (H3 : t * (x * f) < 40000 * (w * o)) by nia.
  assert (H4 : w * (o * f) < (b + 1) * (20000 * t)) by nia.
  assert (H5 : t * (x * (f * f)) < t * (800000000 * (b + 1))) by nia.
  apply Z.mul_lt_mono_pos_l in H5; [|lia].
  assert (x * 49000000 <= x * (f * f)) by nia.
  pose proof (Z.mul_div_le x 100 ltac:(lia)). lia.
Qed.

Section Verdicts.
Context `{B : Build}.

(** The WETH reserve and the other one. *)
Definition oriented (token0 : Address) (r0 r1 : Z) : Z * Z :=
  if token0 =? addresses.WETH then (r0, r1) else (r1, r0).

Definition low_liquidity (w t : Z) : Prop :=
  w = 0 \/ t = 0 \/ f64_lt (u256_to_eth w) MIN_WETH_RESERVE_ETH = true.

Lemma simulate_round_trip_verdict pool other x w t : UniswapV2Pool.wf pool ->
  UniswapV2Pool.reserves_from pool addresses.WETH = Some (w, t) ->
  UniswapV2Pool.reserves_from pool other = Some (t, w) ->
  UniswapV2Pool.fee_bps pool <= 3000 -> in_u 112 x -> 0 < x -> 0 < w -> 0 < t ->
  exists v, simulate_round_trip pool addresses.WETH other x = Ret v /\ v <> LowLiquidity /\
    let f := 10000 - UniswapV2Pool.fee_bps pool in
    (v = Valid -> w * 10000 + x * f <= t * (x * f)) /\
    (100 <= x <= w -> w * 10000 + x * f <= t * (x * f) -> v = Valid).
Proof.
  intros Hwf Hw Ho Hfee Hx Hx0 Hw0 Ht0. unfold simulate_round_trip.
  destruct (UniswapV2Pool.reserves_from_wf _ _ _ _ Hwf Hw) as [Hww Htw].
  rewrite (UniswapV2Pool.v2_amount_out_eq pool addresses.WETH x w t) by done. cbn [mbind outcome_bind].
  rewrite (UniswapV2Pool.fee_complement_eq pool Hwf). destruct Hwf as [Hr0 Hr1 Hf].
  pose proof (UniswapV2Pool.Build_wf pool Hr0 Hr1 Hf) as Hwf.
  replace (Z.max 0 (10000 - UniswapV2Pool.fee_bps pool)) with (10000 - UniswapV2Pool.fee_bps pool) by lia.
  set (f := 10000 - UniswapV2Pool.fee_bps pool). assert (Hf' : 7000 <= f <= 10000) by (subst f; range; lia).
  set (o := t * (x * f) / (w * 10000 + x * f)).
  assert (HD : 0 < w * 10000 + x * f) by nia.
  assert (Ho1 : 1 <= o <-> w * 10000 + x * f <= t * (x * f)).
  { subst o. split; intros H.
    - pose proof (Z.mul_div_le (t * (x * f)) (w * 10000 + x * f) HD). nia.
    - apply Z.div_le_lower_bound; lia. }
  assert (Ho0 : 0 <= o) by (subst o; apply Z.div_pos; nia).
  assert (Hot : o <= t) by (subst o; apply Z.div_le_upper_bound; nia).
  unfold non_zero. destruct (Z.eqb_spec o 0) as [E|E].
  { eexists. split; [done|]. split; [done|]. cbv zeta. split; [done|]. intros _ H. apply Ho1 in H. lia. }
  rewrite (UniswapV2Pool.v2_amount_out_eq pool other o t w) by (done || range; lia). cbn [mbind outcome_bind].
  rewrite (UniswapV2Pool.fee_complement_eq pool Hwf).
  replace (Z.max 0 (10000 - UniswapV2Pool.fee_bps pool)) with f by (subst f; lia).
  set (b := w * (o * f) / (t * 10000 + o * f)).
  assert (Hb : 100 <= x <= w -> x / 100 < b) by (intros Hxw; apply round_trip_returns; lia).
  assert (Hx100 : 0 <= x / 100) by (apply Z.div_pos; lia).
  destruct (Z.eqb_spec b 0) as [Eb|Eb].
  { eexists. split; [done|]. split; [done|]. cbv zeta. split; [done|]. intros Hxw _. specialize (Hb Hxw). lia. }
  destruct (Z.ltb_spec (x / 100) b); eexists; (split; [done|]); (split; [done|]); cbv zeta.
  - split; [intros _; apply Ho1; lia|done].
  - split; [done|]. intros Hxw _. specialize (Hb Hxw). lia.
Qed.

Lemma v2_reserves_verdict token0 token1 protocol fee r0 r1 swap_eth :
  protocol = UniswapV2 \/ protocol = SushiSwap -> token0 <> token1 ->
  token0 = addresses.WETH \/ token1 = addresses.WETH ->
  0 <= fee <= 3000 -> in_u 112 r0 -> in_u 112 r1 -> in_u 112 (eth_to_u256 swap_eth) ->
  let '(w, t) := oriented token0 r0 r1 in
  let x := eth_to_u256 swap_eth in
  let f := 10000 - fee in
  exists v, validate_v2_reserves token0 token1 protocol fee r0 r1 swap_eth = Ret v /\
    (v = LowLiquidity <-> low_liquidity w t) /\
    (v = Valid -> w * 10000 + x * f <= t * (x * f)) /\
    (100 <= x <= w -> ~ low_liquidity w t -> w * 10000 + x * f <= t * (x * f) -> v = Valid).
Proof.
  intros Hp Hne Hweth Hfee H0 H1 Hx. destruct (oriented token0 r0 r1) as [w t] eqn:Ho. cbv zeta.
  assert (Hlow : low_liquidity w t <-> (r0 =? 0) || (r1 =? 0) = true \/
            f64_lt (weth_side token0 token1 r0 r1) MIN_WETH_RESERVE_ETH = true).
  { unfold oriented, weth_side, low_liquidity in *. rewrite orb_true_iff, !Z.eqb_eq.
    destruct (Z.eqb_spec token0 addresses.WETH) as [E0|E0]; injection Ho as <- <-; [tauto|].
    destruct Hweth as [|E1]; [done|]. rewrite E1, Z.eqb_refl. tauto. }
  unfold validate_v2_reserves.
  replace (negb _) with false by (destruct Hp as [-> | ->]; done).
  destruct ((r0 =? 0) || (r1 =? 0)) eqn:Hz.
  { eexists. split; [done|]. rewrite Hlow. split; [tauto|]. split; [done|tauto]. }
  destruct (f64_lt (weth_side token0 token1 r0 r1) MIN_WETH_RESERVE_ETH) eqn:Hm.
  { eexists. split; [done|]. rewrite Hlow. split; [tauto|]. split; [done|tauto]. }
  assert (Hok : ~ low_liquidity w t) by (rewrite Hlow; intros [|]; congruence).
  destruct (Z.eqb_spec (eth_to_u256 swap_eth) 0) as [Ex|Ex].
  { eexists. split; [done|]. split; [split; [done|tauto]|]. split; [done|]. lia. }
  set (pool := UniswapV2Pool.update_state _ r0 r1).
  apply orb_false_iff in Hz as [Hz0%Z.eqb_neq Hz1%Z.eqb_neq].
  assert (Hwf : UniswapV2Pool.wf pool) by (split; simpl; range; lia).
  assert (Hr : exists other, (if token0 =? addresses.WETH
      then simulate_round_trip pool addresses.WETH token1 (eth_to_u256 swap_eth)
      else if token1 =? addresses.WETH
      then simulate_round_trip pool addresses.WETH token0 (eth_to_u256 swap_eth)
      else Panic) = simulate_round_trip pool addresses.WETH other (eth_to_u256 swap_eth) /\
    UniswapV2Pool.reserves_from pool addresses.WETH = Some (w, t) /\
    UniswapV2Pool.reserves_from pool other = Some (t, w)).
  { unfold oriented in Ho. unfold UniswapV2Pool.reserves_from.
    change (UniswapV2Pool.token0 pool) with token0. change (UniswapV2Pool.token1 pool) with token1.
    change (UniswapV2Pool.reserve0 pool) with r0. change (UniswapV2Pool.reserve1 pool) with r1.
    destruct (Z.eqb_spec token0 addresses.WETH) as [E0|E0]; injection Ho as <- <-.
    - exists token1. rewrite E0 in Hne |- *. rewrite (proj2 (Z.eqb_neq token1 addresses.WETH)) by congruence.
      by rewrite !Z.eqb_refl.
    - destruct Hweth as [|E1]; [done|]. exists token0. rewrite E1. assert (Hn : addresses.WETH <> token0) by congruence.
      apply Z.eqb_neq in Hn. rewrite Hn, !Z.eqb_refl. done. }
  destruct Hr as (other & Hsim & Hrw & Hro).
  assert (Hpos : 0 < w /\ 0 < t).
  { unfold oriented in Ho. destruct (token0 =? addresses.WETH); injection Ho as <- <-; range; lia. }
  destruct (simulate_round_trip_verdict pool other (eth_to_u256 swap_eth) w t Hwf Hrw Hro)
    as (v & Hv & Hnl & Hq & Hc); [simpl; lia|done|range; lia|tauto..|].
  exists v. split.
  { rewrite Hv in Hsim. destruct (token0 =? addresses.WETH); [done|].
    destruct (token1 =? addresses.WETH); done. }
  split; [tauto|]. split; [exact Hq|]. intros Hxw _. exact (Hc Hxw).
Qed.
End Verdicts.

Section Exact.
Context `{B : Build} `{E : Revm} `{K : Keccak} `{A : !SolAbi}.

(** The node relays what a pair contract answers. *)
Definition pair_answers (node : Node) (pool t0 t1 r0 r1 ts : Z) : Prop :=
  eth_call node pool (abi_encode_call "token0" [] tt) = Some (word t0) /\
  eth_call node pool (abi_encode_call "token1" [] tt) = Some (word t1) /\
  eth_call node pool (abi_encode_call "getReserves" [] tt) = Some (words [r0; r1; ts]).

Lemma word_address_word a : in_u 160 a -> word_address (word a) = a.
Proof.
  intros Ha. unfold word_address, word. rewrite (drop_to_be 20 12), take_ge by (by rewrite length_to_be).
  rewrite be_to_be. change (256 ^ Z.of_nat 20) with (2 ^ 160). range. by rewrite !Z.mod_small by (rewrite ?Z.mod_small; lia).
Qed.

Lemma v2_rpc_answers node pool t0 t1 r0 r1 ts token0 token1 protocol fee swap_eth :
  pair_answers node pool t0 t1 r0 r1 ts -> in_u 160 t0 -> in_u 160 t1 -> in_u 112 r0 -> in_u 112 r1 ->
  validate_v2_pool_rpc node pool token0 token1 protocol fee swap_eth
  = if bool_decide (t0 = token0 /\ t1 = token1)
    then validate_v2_reserves token0 token1 protocol fee r0 r1 swap_eth
    else Ret (Invalid "token ordering mismatch").
Proof.
  intros (Ha0 & Ha1 & Hr) H0 H1 Hr0 Hr1. unfold validate_v2_pool_rpc, call_at_least.
  rewrite Ha0, Ha1, Hr. cbn [mbind option_bind]. rewrite !length_word. cbn [Nat.leb].
  rewrite !word_address_word by done. rewrite length_words. cbn [length Nat.leb Nat.mul Nat.add].
  rewrite !words_cons, take_app_le, take_ge by (rewrite ?length_word; lia).
  rewrite drop_app_length' by (by rewrite length_word). rewrite take_app_le, take_ge by (rewrite ?length_word; lia).
  rewrite !be_word by (range; lia).
  destruct (Z.eqb_spec t0 token0), (Z.eqb_spec t1 token1); cbn [negb orb];
    first [rewrite bool_decide_true by tauto | rewrite bool_decide_false by tauto]; done.
Qed.


(** ** What the probes see

    [transact] returns the accounts a transaction touched and keeps none of it:
    only [transact_commit] and an explicit commit write them back. *)

Definition same (d d' : Db) : Prop :=
  forall cfg blk tx, (transact d' cfg blk tx).2 = (transact d cfg blk tx).2.
Definition isolated : Prop := forall d cfg blk tx, same d (transact d cfg blk tx).1.

Lemma expect_valid st tx reason d d0 k : isolated -> same d0 d ->
  expect st tx reason d k = Valid -> exists d', same d0 d' /\ k d' = Valid.
Proof.
  intros Hi Hs. unfold expect, revm_transact_success.
  pose proof (Hi d (probe_cfg st) (block_env st) tx) as Hd.
  destruct (transact d (probe_cfg st) (block_env st) tx) as [d' r].
  assert (same d0 d') by (intros cfg blk tx'; rewrite <- Hs; apply Hd).
  destruct r as [|[[] ]]; try done. eauto.
Qed.

(** The test account owns none of the token on the fork. *)
Definition owns_none (st : RpcForkedState) (token : Address) : Prop :=
  forall gas_limit nonce,
    default 0 (revm_transact_output st (db st)
                 (probe_tx st token (balance_data REVM_PROBE_CALLER) 0 gas_limit nonce)).2 = 0.

Lemma expect_balance_not_valid st token gas nonce reason d k : same (db st) d -> owns_none st token ->
  expect_balance st (probe_tx st token (balance_data REVM_PROBE_CALLER) 0 gas nonce) reason d k <> Valid.
Proof.
  intros Hs Hn. specialize (Hn gas nonce). revert Hn. unfold expect_balance, revm_transact_output.
  specialize (Hs (probe_cfg st) (block_env st) (probe_tx st token (balance_data REVM_PROBE_CALLER) 0 gas nonce)).
  destruct (transact d _ _ _) as [d' r], (transact (db st) _ _ _) as [d1 r1]. simpl in Hs. subst r1. cbn [snd].
  destruct r as [|[[] ]]; try done. destruct (32 <=? length (into_data output))%nat; [|done].
  cbv [default from_option id]. intros ->. done.
Qed.

Lemma after_quotes (m k : outcome ValidationResult) : k <> Ret Valid ->
  (a ← m; if negb (bool_decide (a = Valid)) then Ret a else k) <> Ret Valid.
Proof.
  intros Hk. destruct m as [a|]; [|done]. cbn [mbind outcome_bind].
  case_bool_decide as Ha; cbn [negb]; congruence.
Qed.

(** The last step before the balance is read, and the steps before it. *)
Ltac probe_steps Hi :=
  repeat match goal with
  | H : expect _ _ _ ?d _ = Valid, Hs : same ?d0 ?d |- _ =>
      let d' := fresh "d" in let H' := fresh "H" in let Hs' := fresh "Hs" in
      destruct (expect_valid _ _ _ _ _ _ Hi Hs H) as (d' & Hs' & H'); clear H Hs; rename H' into H
  end.

(** The fork probes accept no pair the test account does not already own. The
    calls of a probe run on one EVM, but none of them is committed, so the balance
    read after the purchase is that of the untouched fork: for a WETH pair whose
    other token the test account does not own there, the probe of every protocol
    rejects the pool, however well it trades. In the default mode, which requires
    the probe, no such pool is ever admitted. *)
Theorem fork_probes_reject_unowned node st token0 token1 weth other pool protocol fee swap_eth :
  isolated -> weth_pair token0 token1 = Some (weth, other) -> probe_state node = Some st ->
  owns_none st other ->
  validate_v2_pool_revm node token0 token1 protocol swap_eth <> Ret Valid /\
  validate_v3_pool_revm node token0 token1 fee swap_eth <> Valid /\
  validate_curve_pool_revm node pool token0 token1 fee swap_eth <> Ret Valid /\
  validate_balancer_v3_pool_revm node pool token0 token1 fee swap_eth <> Ret Valid.
Proof.
  intros Hi Hp Hst Hn. assert (Hb : is_Some (latest_block node)).
  { unfold probe_state in Hst. destruct (latest_block node); [eauto|done]. }
  destruct Hb as [[[nb tb] bf] Hb]. assert (Hs : same (db st) (db st)) by done.
  unfold validate_v2_pool_revm, validate_v3_pool_revm, validate_curve_pool_revm, validate_balancer_v3_pool_revm.
  rewrite Hp, Hst, Hb. destruct (eth_to_u256 swap_eth =? 0).
  { split; [by destruct (_ =? _)|]. split; [done|]. split; by apply after_quotes. }
  split; [|split; [|split; apply after_quotes]].
  - destruct (_ =? _); [done|]. destruct (u64_add _ _) as [deadline|]; [|done]. cbn [mbind outcome_bind].
    intros [= H]. unfold run_revm_round_trip in H. probe_steps Hi.
    by apply expect_balance_not_valid in H.
  - intros H. unfold run_v3_round_trip in H. probe_steps Hi. by apply expect_balance_not_valid in H.
  - destruct (u64_add _ _); [|done]. cbn [mbind outcome_bind]. intros [= H].
    unfold run_curve_exchange_round_trip in H. probe_steps Hi. by apply expect_balance_not_valid in H.
  - destruct (u64_add _ _); [|done]. cbn [mbind outcome_bind]. intros [= H].
    unfold run_balancer_v3_round_trip in H. probe_steps Hi. by apply expect_balance_not_valid in H.
Qed.
End Exact.

(** ** Witnesses *)

(** A fork on which every call succeeds and returns one zero word. *)
Definition idle_evm : Revm := store_evm (fun _ _ _ _ => inr (Success 21000 (OutCall (word 0)), ∅)).

(** A node that serves the pair [77] of USDC and WETH. *)
Definition pair_node (r0 r1 : Z) : Node (E:=idle_evm) :=
  let call name := @abi_encode_call keccak_reference abi_reference name [] tt in
  mkNode (E:=idle_evm)
    (fun to data =>
       if negb (to =? 77) then None
       else if bool_decide (data = call "token0") then Some (word addresses.USDC)
       else if bool_decide (data = call "token1") then Some (word addresses.WETH)
       else if bool_decide (data = call "getReserves") then Some (words [r0; r1; 1700000000])
       else None)
    (fun _ => None) (Some (100, 1700000000, None)) (fun _ => Some (∅, ∅)).


Lemma fork_probes_reject_unowned_witness :
  validate_v2_pool_revm (B:=release) (E:=idle_evm) (K:=keccak_reference) (A:=abi_reference)
    (pair_node 1 1) addresses.USDC addresses.WETH UniswapV2 (f64_of_ratio 1 1000) <> Ret Valid.
Proof.
  refine (proj1 (fork_probes_reject_unowned (B:=release) (E:=idle_evm) (K:=keccak_reference) (A:=abi_reference) (pair_node 1 1) _ addresses.USDC
    addresses.WETH addresses.WETH addresses.USDC 77 UniswapV2 30 (f64_of_ratio 1 1000) _ _ eq_refl _));
    [done|reflexivity|done].
Defined.

(** A pair that answers this reserve makes the denominator of the quote wrap to
    zero, and the division stops the validation, in either build. *)
Lemma hostile_reserves_panic (debug_build : bool) :
  validate_v2_reserves (B:=if debug_build then debug else release) addresses.WETH addresses.USDC UniswapV2 30
    (2 ^ 252 - 997 * 10 ^ 12) (10 ^ 18) (f64_of_ratio 1 1000) = Panic.
Proof. destruct debug_build; vm_compute; reflexivity. Qed.

End PoolValidator.
