(* ===== verification/DiscoveryService.v ===== *)
(** * The discovery service

    [crates/discovery/src/config.rs], [volume.rs], [service.rs] and [events.rs]:
    factory logs are decoded, the pools they announce are validated, scored and
    put into the ranked cache; a polling listener covers the blocks the
    subscription misses. The configuration is the parsed file; address parsing,
    environment variables, the node and the clock are arguments. *)

From Stdlib Require Import ZArith Lia String Ascii.
From S2P Require Import Prelude.
From S2P Require Import Machine.
From S2P Require Import F64.
From S2P Require Import Types.
From S2P Require Import Bytes.
From S2P Require Import Keccak.
From S2P Require Import Abi.
From S2P Require Import UniswapV2.
From S2P Require Import EventDecoder.
From S2P Require Import Revm.
From S2P Require Import Discovery.
From S2P Require Import PoolValidator.
From stdpp Require Import base option numbers strings gmap sorting list.
Import Revm PoolValidator.

Local Open Scope Z_scope.

Module DiscoveryService.

(** ** Configuration *)

Inductive FactoryEventType : Type := PairCreated | PoolCreatedV3 | PlainPoolDeployed | PoolRegistered.

#[global] Instance FactoryEventType_eq_dec : EqDecision FactoryEventType.
Proof. solve_decision. Defined.

Definition one_of (s : string) (l : list string) : bool := bool_decide (s ∈ l).

Definition from_config_str (s : string) : FactoryEventType :=
  if one_of s ["PoolCreated"; "pool_created"; "PoolCreatedV3"] then PoolCreatedV3
  else if one_of s ["PlainPoolDeployed"; "plain_pool_deployed"] then PlainPoolDeployed
  else if one_of s ["PoolRegistered"; "pool_registered"] then PoolRegistered
  else PairCreated.

Definition topic `{S : EventSignatures} (t : FactoryEventType) : Z :=
  match t with
  | PairCreated => pair_created_topic
  | PoolCreatedV3 => pool_created_v3_topic
  | PlainPoolDeployed => plain_pool_deployed_topic
  | PoolRegistered => pool_registered_v3_topic
  end.

Record FactoryEntry : Type := mkEntry {
  fe_address : Address;
  fe_protocol : ProtocolType;
  fe_fee_bps : Z;
  event_type : FactoryEventType;
}.

Record FactoryConfig : Type := mkFactory {
  fc_name : string;
  fc_protocol : string;
  fc_address : string;
  fc_fee_bps : Z;
  fc_event : string;
}.

Record BalancerV3DiscoverySettings : Type := mkBalancerV3 {
  bv3_enabled : bool;
  vault_address : string;
  default_fee_bps : Z;
}.

Record DiscoverySettings : Type := mkSettings {
  enabled : bool;
  max_pools : nat;
  prune_interval_secs : Z;
  prune_max_age_secs : Z;
  score_refresh_interval_secs : Z;
  validation_swap_eth : f64;
  listener_mode : string;
  ws_url : string;
  poll_interval_secs : Z;
  ws_fallback_poll : bool;
  poll_when_ws_healthy : bool;
  volume_source : string;
  custodial_swap_validation_enabled : bool;
  custodial_max_amount : f64;
  validation_mode : string;
}.

Definition default_settings : DiscoverySettings :=
  mkSettings true 50000 3600 3600 300 (f64_of_ratio 1 1000) "auto" "" 12 true false "proxy" true
    (f64_of_Z (10 ^ 18)) "both".

Definition default_scoring : Discovery.ScoringSettings := Discovery.mkScoring f64_one f64_one 50.

Definition default_balancer_v3 : BalancerV3DiscoverySettings :=
  mkBalancerV3 false "0xbA1333333333a1BA1108E8412f11850A5C319bA9" 10.

(** The sections read by modelled code. *)
Record DiscoveryConfig : Type := mkConfig {
  discovery : DiscoverySettings;
  scoring : Discovery.ScoringSettings;
  factories : list FactoryConfig;
  balancer_v3 : BalancerV3DiscoverySettings;
}.

Definition parse_protocol (s : string) : option ProtocolType :=
  if bool_decide (s = "uniswap_v2") then Some UniswapV2
  else if bool_decide (s = "uniswap_v3") then Some UniswapV3
  else if bool_decide (s = "sushiswap") then Some SushiSwap
  else if bool_decide (s = "curve") then Some Curve
  else if bool_decide (s = "balancer_v2") then Some BalancerV2
  else if bool_decide (s = "balancer_v3") then Some BalancerV3
  else if bool_decide (s = "bancor_v3") then Some BancorV3
  else None.

Section Entries.
Context (parse_address : string -> option Address).

Definition factory_entry (f : FactoryConfig) : option FactoryEntry :=
  addr ← parse_address (fc_address f);
  protocol ← parse_protocol (fc_protocol f);
  Some (mkEntry addr protocol (fc_fee_bps f) (from_config_str (fc_event f))).

Definition factory_entries (c : DiscoveryConfig) : list FactoryEntry :=
  let entries := omap factory_entry (factories c) in
  if bv3_enabled (balancer_v3 c) then
    match parse_address (vault_address (balancer_v3 c)) with
    | Some vault =>
        entries ++ [mkEntry vault BalancerV3 (default_fee_bps (balancer_v3 c)) PoolRegistered]
    | None => entries
    end
  else entries.

Definition factory_addresses (c : DiscoveryConfig) : list (Address * ProtocolType * Z) :=
  (fun e => (fe_address e, fe_protocol e, fe_fee_bps e)) <$> factory_entries c.
End Entries.

(** ** Volume *)

Definition proxy_volume (tvl_usd : f64) : f64 := f64_mul tvl_usd (f64_of_ratio 5 100).

(** The subgraph source: an endpoint and the volumes of the last six hours. *)
Record Subgraph : Type := mkSubgraph {
  endpoint : string;
  volumes : gmap Z (f64 * Z);
}.

Definition subgraph_new (endpoint : string) : Subgraph := mkSubgraph endpoint ∅.
Definition cache_ttl : Z := 6 * 3600.
Definition inject_cache (s : Subgraph) (pool : Address) (volume : f64) (now : Z) : Subgraph :=
  mkSubgraph (endpoint s) (<[pool := (volume, now)]> (volumes s)).

(** The query is not written yet: it never answers. *)
Definition fetch_subgraph (s : Subgraph) (pool : Address) : option f64 := None.

Definition subgraph_volume (s : Subgraph) (pool : Address) (tvl_usd : f64) (now : Z) : f64 * Subgraph :=
  let fetched :=
    match fetch_subgraph s pool with
    | Some vol => (vol, inject_cache s pool vol now)
    | None => (f64_mul tvl_usd (f64_of_ratio 5 100), s)
    end in
  match volumes s !! pool with
  | Some (vol, ts) => if now - ts <? cache_ttl then (vol, s) else fetched
  | None => fetched
  end.

Inductive VolumeSource : Type := VSubgraph (s : Subgraph) | VProxy.

Definition volume_from_config (source endpoint : string) : VolumeSource :=
  if bool_decide (source = "subgraph") then VSubgraph (subgraph_new endpoint) else VProxy.

Definition volume_24h_usd (v : VolumeSource) (pool : Address) (tvl_usd : f64) (now : Z)
    : f64 * VolumeSource :=
  match v with
  | VSubgraph s => let '(vol, s) := subgraph_volume s pool tvl_usd now in (vol, VSubgraph s)
  | VProxy => (proxy_volume tvl_usd, VProxy)
  end.

(** ** Metrics of a pool *)

Definition u256_to_f64 (v : Z) : f64 := f64_div (f64_of_Z v) (f64_of_Z (10 ^ 18)).

Definition ETH_USD : f64 := f64_of_Z 3000.

Definition estimate_tvl_usd (token0 token1 : Address) (r0 r1 : f64) : f64 :=
  let two := f64_of_Z 2 in
  if token0 =? addresses.WETH then f64_mul (f64_mul r0 ETH_USD) two
  else if token1 =? addresses.WETH then f64_mul (f64_mul r1 ETH_USD) two
  else if (token0 =? addresses.USDC) || (token1 =? addresses.USDC) then f64_mul (f64_add r0 r1) two
  else f64_max (f64_add r0 r1) f64_one.

Section Service.
Context `{B : Build} `{E : Revm} `{K : Keccak} `{A : !SolAbi} `{HO : HashOrder}
  `{Sg : EventSignatures} `{D : DynamicDecoders}.

Definition fetch_curve_balances (node : Node) (pool : Address) : option (Z * Z * Z) :=
  b0 ← curve_balance node pool 0;
  b1 ← curve_balance node pool 1;
  Some (b0, b1, 4).

Definition fetch_balancer_v3_balances (node : Node) (pool token0 token1 : Address) : option (Z * Z * Z) :=
  b0 ← eth_call node token0 (balance_data pool);
  b1 ← eth_call node token1 (balance_data pool);
  if (length b0 <? 32)%nat || (length b1 <? 32)%nat then None
  else Some (be (drop (length b0 - 32) b0), be (drop (length b1 - 32) b1), 10).

Definition fetch_v2_reserves (node : Node) (pool : Address) : option (Z * Z * Z) :=
  out ← call_at_least node pool (abi_encode_call "getReserves" [] tt) 64;
  Some (be (take 32 out), be (take 32 (drop 32 out)), 30).

(** [block_on]: what [Handle::block_on] does where the metrics are fetched; it
    panics inside an asynchronous task. *)
Definition fetch_metrics (block_on : forall X : Type, X -> outcome X) (provider : option Node)
    (scoring : Discovery.ScoringSettings) (swap_eth : f64) (pool token0 token1 : Address)
    (protocol : ProtocolType) : outcome Discovery.PoolScoreInputs :=
  let default_slip := Discovery.default_slippage_estimate scoring in
  match provider with
  | None => Ret (Discovery.mkInputs (f64_of_Z 100000) (f64_of_Z 10000) 30 default_slip)
  | Some node =>
      reserves ← block_on _
        match protocol with
        | Curve => fetch_curve_balances node pool
        | BalancerV3 => fetch_balancer_v3_balances node pool token0 token1
        | _ => fetch_v2_reserves node pool
        end;
      Ret match reserves with
          | Some (r0, r1, fee_bps) =>
              let r0_f := u256_to_f64 r0 in
              let r1_f := u256_to_f64 r1 in
              let tvl_usd := estimate_tvl_usd token0 token1 r0_f r1_f in
              let '(bal_in, bal_out) :=
                if token0 =? addresses.WETH then (r0_f, r1_f)
                else if token1 =? addresses.WETH then (r1_f, r0_f)
                else (r0_f, r1_f) in
              let slip :=
                Discovery.estimate_protocol_slippage protocol bal_in bal_out swap_eth fee_bps in
              Discovery.mkInputs tvl_usd
                (volume_24h_usd (volume_from_config "proxy" "") pool tvl_usd 0).1 fee_bps
                (f64_max slip default_slip)
          | None => Discovery.mkInputs f64_zero f64_zero 30 default_slip
          end
  end.

(** ** Factory logs *)

Record FactoryPoolCreated : Type := mkCreated {
  factory : Address;
  protocol : ProtocolType;
  fee_bps : Z;
  token0 : Address;
  token1 : Address;
  pool : Address;
}.

(** The fee of the event, unless it is zero. *)
Definition onchain_or (onchain_fee fee_bps : Z) : Z := if 0 <? onchain_fee then onchain_fee else fee_bps.

Definition decode_factory_log (factory : Address) (protocol : ProtocolType) (fee_bps : Z)
    (ty : FactoryEventType) (topics data : list Z) : outcome (option FactoryPoolCreated) :=
  match topics with
  | [] => Ret None
  | topic0 :: _ =>
      if negb (topic0 =? topic ty) then Ret None
      else
        match ty with
        | PlainPoolDeployed =>
            Ret (' (pool, token0, token1, onchain_fee) ← decode_plain_pool_deployed topics data;
                 Some (mkCreated factory protocol (onchain_or onchain_fee fee_bps) token0 token1 pool))
        | PoolRegistered =>
            Ret (' (pool, token0, token1, onchain_fee) ← decode_pool_registered_v3 topics data;
                 Some (mkCreated factory protocol (onchain_or onchain_fee fee_bps) token0 token1 pool))
        | PairCreated | PoolCreatedV3 =>
            let effective_fee :=
              match ty, topics !! 3%nat with
              | PoolCreatedV3, Some t => v3_fee_bps_from_topic t
              | _, _ => fee_bps
              end in
            r ← decode_log topics data factory (Some protocol);
            Ret match r with
                | inl (PoolCreated token0 token1 pool) =>
                    Some (mkCreated factory protocol effective_fee token0 token1 pool)
                | _ => None
                end
        end
  end.

Definition decode_pair_created_log (factory : Address) (protocol : ProtocolType) (fee_bps : Z)
    (topics data : list Z) : outcome (option FactoryPoolCreated) :=
  decode_factory_log factory protocol fee_bps PairCreated topics data.

(** The addresses and the topics of the subscription, the topics sorted and
    without repetitions. *)
Definition build_factory_filter (entries : list FactoryEntry) : list Address * list Z :=
  (fe_address <$> entries, remove_dups (merge_sort Z.le ((fun e => topic (event_type e)) <$> entries))).

(** ** The service *)

(** [swaps] is the validator's memory of custodial pools. *)
Record Service : Type := mkService {
  config : DiscoveryConfig;
  cache : Discovery.DiscoveryCache;
  swaps : gmap Z Z;
}.

Definition service_new (config : DiscoveryConfig) : Service :=
  mkService config
    (Discovery.new (max_pools (discovery config)) (prune_max_age_secs (discovery config))
       (scoring config)) ∅.

(** What surrounds an operation: the provider, if any, with its answers, the
    source of the metrics, and the time in seconds. *)
Record Surroundings : Type := mkSurroundings {
  provider : option Node;
  metrics_source : Address -> Address -> Address -> ProtocolType -> outcome Discovery.PoolScoreInputs;
  now : Z;
}.

Definition one_eth : Z := 10 ^ 18.

Definition offline_validate (event : FactoryPoolCreated) (swap_eth : f64) : outcome ValidationResult :=
  match protocol event with
  | UniswapV2 | SushiSwap =>
      validate_v2_reserves (token0 event) (token1 event) (protocol event) (fee_bps event) one_eth one_eth
        swap_eth
  | Curve | BalancerV3 =>
      validate_v2_reserves (token0 event) (token1 event) UniswapV2 (fee_bps event) one_eth one_eth swap_eth
  | _ => Ret (if fee_bps event <=? 10000 then Valid else Invalid "invalid fee")
  end.

(** The metadata of an event, before it is scored. *)
Definition unscored (event : FactoryPoolCreated) (tvl volume slippage : f64) : Discovery.PoolInfo :=
  Discovery.mkInfo (pool event) (token0 event) (token1 event) (protocol event) (fee_bps event) f64_zero
    tvl volume slippage 0.

Definition validate_pool (svc : Service) (env : Surroundings) (event : FactoryPoolCreated)
    : outcome (ValidationResult * gmap Z Z) :=
  let swap_eth := validation_swap_eth (discovery (config svc)) in
  match provider env with
  | None => v ← offline_validate event swap_eth; Ret (v, swaps svc)
  | Some node =>
      validate_pool_revm node (swaps svc) (now env) (unscored event f64_zero f64_zero f64_zero) swap_eth
        (validation_mode (discovery (config svc)))
  end.

Definition insert_validated (svc : Service) (env : Surroundings) (info : Discovery.PoolInfo)
    (inputs : Discovery.PoolScoreInputs) : Service * Discovery.PoolInfo * list Discovery.DiscoveryEvent :=
  let '(c, info, events) := Discovery.upsert (cache svc) info inputs (now env) in
  (mkService (config svc) c (swaps svc), info, events).

(** Whether the pool was admitted, and the events broadcast. *)
Definition ingest_pool_created (svc : Service) (env : Surroundings) (event : FactoryPoolCreated)
    : outcome (bool * Service * list Discovery.DiscoveryEvent) :=
  if negb (enabled (discovery (config svc))) then Ret (false, svc, [])
  else if Discovery.contains (cache svc) (pool event) then Ret (false, svc, [])
  else
    ' (validation, swaps) ← validate_pool svc env event;
    let svc := mkService (config svc) (cache svc) swaps in
    match validation with
    | LowLiquidity | Invalid _ => Ret (false, svc, [])
    | Valid =>
        inputs ← metrics_source env (pool event) (token0 event) (token1 event) (protocol event);
        let slippage :=
          if f64_eqb (Discovery.in_slippage_estimate inputs) f64_zero
          then Discovery.default_slippage_estimate (scoring (config svc))
          else Discovery.in_slippage_estimate inputs in
        let inputs := Discovery.mkInputs (Discovery.in_tvl_usd inputs) (Discovery.in_volume_24h_usd inputs)
                        (fee_bps event) slippage in
        let info := unscored event (Discovery.in_tvl_usd inputs) (Discovery.in_volume_24h_usd inputs)
                      slippage in
        let '(svc, _, events) := insert_validated svc env info inputs in
        Ret (true, svc, events)
    end.

Definition prune (svc : Service) (env : Surroundings) (min_score : f64)
    : Service * nat * list Discovery.DiscoveryEvent :=
  let '(c, removed, events) := Discovery.prune (cache svc) min_score (now env) in
  (mkService (config svc) c (swaps svc), removed, events).

(** A tick of the prune task. *)
Definition prune_tick (svc : Service) (env : Surroundings)
    : Service * nat * list Discovery.DiscoveryEvent := prune svc env (f64_of_ratio 1 100).

Definition get_top_n (svc : Service) (n : nat) : list Discovery.PoolInfo := Discovery.get_top_n (cache svc) n.

(** ** Processing logs *)

Record Log : Type := mkLog { log_address : Address; log_topics : list Z; log_data : list Z }.

Definition entry_for (entries : list FactoryEntry) (a : Address) : option FactoryEntry :=
  List.find (fun e => fe_address e =? a) entries.

(** The pool a log announces, for the factory that emitted it. *)
Definition announced (entries : list FactoryEntry) (log : Log) : outcome (option FactoryPoolCreated) :=
  match entry_for entries (log_address log) with
  | None => Ret None
  | Some entry =>
      decode_factory_log (log_address log) (fe_protocol entry) (fe_fee_bps entry) (event_type entry)
        (log_topics log) (log_data log)
  end.

(** Each log with what surrounds its processing; the number of pools admitted. *)
Fixpoint process_logs (svc : Service) (entries : list FactoryEntry) (logs : list (Surroundings * Log))
    : outcome (nat * Service * list Discovery.DiscoveryEvent) :=
  match logs with
  | [] => Ret (0%nat, svc, [])
  | (env, log) :: logs =>
      created ← announced entries log;
      ' (ok, svc, events) ←
        match created with
        | None => Ret (false, svc, [])
        | Some event => ingest_pool_created svc env event
        end;
      ' (ingested, svc, events') ← process_logs svc entries logs;
      Ret ((if ok : bool then S ingested else ingested), svc, events ++ events')
  end.

(** ** Listeners *)

(** [str::replacen(pattern, with, 1)]. *)
Definition replace_first (pattern by_ s : string) : string :=
  match String.index 0 pattern s with
  | Some i =>
      String.substring 0 i s +:+ by_
      +:+ String.substring (i + String.length pattern) (String.length s - (i + String.length pattern)) s
  | None => s
  end.

Definition http_to_ws_url (url : string) : option string :=
  let lower := to_ascii_lowercase url in
  if String.prefix "wss://" lower || String.prefix "ws://" lower then Some url
  else if String.prefix "https://" lower
  then Some (replace_first "HTTPS://" "wss://" (replace_first "https://" "wss://" url))
  else if String.prefix "http://" lower
  then Some (replace_first "HTTP://" "ws://" (replace_first "http://" "ws://" url))
  else None.

(** The environment variables [ETH_WS_URL] and [ETH_RPC_URL]. *)
Definition resolve_ws_url (config_ws : string) (eth_ws_url eth_rpc_url : option string) : option string :=
  if negb (bool_decide (config_ws = "")) then Some config_ws
  else
    match eth_ws_url with
    | Some url => if bool_decide (url = "") then eth_rpc_url ≫= http_to_ws_url else Some url
    | None => eth_rpc_url ≫= http_to_ws_url
    end.

(** Which listeners start: the subscription, with its address, and the poll. *)
Definition spawn_factory_listener (listener_mode ws_url : string) (ws_fallback_poll http_provider : bool)
    (eth_ws_url eth_rpc_url : option string) : option string * bool :=
  let mode := to_ascii_lowercase listener_mode in
  let websocket := bool_decide (mode = "websocket") in
  let auto := bool_decide (mode = "auto") in
  let want_ws := websocket || auto in
  let want_poll :=
    bool_decide (mode = "poll") || (auto && ws_fallback_poll) || (websocket && ws_fallback_poll) in
  (if want_ws then resolve_ws_url ws_url eth_ws_url eth_rpc_url else None, want_poll && http_provider).

(** The pause before the reconnection number [attempt], in seconds. *)
Definition ws_backoff (attempt : Z) : Z := Z.min (Z.shiftl 1 (Z.min attempt 5)) 30.
Definition next_attempt (attempt : Z) : Z := saturate 32 (attempt + 1).

(** *** The subscription *)

(** One connection: whether the subscription succeeds, the logs of its stream,
    each with what surrounds its processing, whether the shutdown ends it rather
    than the end of the stream, and whether the shutdown cuts the pause after
    it. *)
Record Session : Type := mkSession {
  subscribes : bool;
  stream : list (Surroundings * Log);
  shut_down : bool;
  pause_cut : bool;
}.

(** The service, and whether the subscription left because of the shutdown. *)
Definition run_ws_subscription (entries : list FactoryEntry) (svc : Service) (s : Session)
    : outcome (Service * bool) :=
  if negb (subscribes s) then Ret (svc, false)
  else
    svc ← (fix loop svc logs :=
             match logs with
             | [] => Ret svc
             | log :: logs => ' (_, svc, _) ← process_logs svc entries [log]; loop svc logs
             end) svc (stream s);
    Ret (svc, shut_down s).

(** The service and the pauses between the connections, in seconds. *)
Fixpoint spawn_ws_listener (entries : list FactoryEntry) (svc : Service) (attempt : Z)
    (sessions : list Session) : outcome (Service * list Z) :=
  match sessions with
  | [] => Ret (svc, [])
  | s :: sessions =>
      ' (svc, clean) ← run_ws_subscription entries svc s;
      if clean : bool then Ret (svc, [])
      else
        let attempt := next_attempt attempt in
        let backoff := ws_backoff attempt in
        if pause_cut s then Ret (svc, [backoff])
        else
          ' (svc, pauses) ← spawn_ws_listener entries svc attempt sessions;
          Ret (svc, backoff :: pauses)
  end.

(** *** Polling *)

(** One tick: whether the subscription is healthy, the block number the node
    reports, and the logs it returns for a range ([None]: the request failed),
    each with what surrounds its processing. *)
Record Tick : Type := mkTick {
  ws_healthy : bool;
  tip : option Z;
  get_logs : Z -> Z -> option (list (Surroundings * Log));
}.

(** The last block polled at the start. *)
Definition poll_start (tip : option Z) : Z :=
  match tip with Some n => u64_saturating_sub n 1 | None => 0 end.

(** The range a tick requests. *)
Definition polled (poll_when_ws_healthy : bool) (last_block : Z) (t : Tick) : option (Z * Z) :=
  if ws_healthy t && negb poll_when_ws_healthy then None
  else
    current ← tip t;
    if last_block <? current then Some (last_block + 1, current) else None.

Definition poll_tick (entries : list FactoryEntry) (poll_when_ws_healthy : bool) (svc : Service)
    (last_block : Z) (t : Tick) : outcome (Service * Z) :=
  match polled poll_when_ws_healthy last_block t with
  | None => Ret (svc, last_block)
  | Some (from, current) =>
      match get_logs t from current with
      | Some logs => ' (_, svc, _) ← process_logs svc entries logs; Ret (svc, current)
      | None => Ret (svc, current)
      end
  end.

Fixpoint poll_loop (entries : list FactoryEntry) (poll_when_ws_healthy : bool) (svc : Service)
    (last_block : Z) (ticks : list Tick) : outcome (Service * Z) :=
  match ticks with
  | [] => Ret (svc, last_block)
  | t :: ticks =>
      ' (svc, last_block) ← poll_tick entries poll_when_ws_healthy svc last_block t;
      poll_loop entries poll_when_ws_healthy svc last_block ticks
  end.

(** ** Where cached pools come from *)

(** What identifies a pool; the scores and the metrics change. *)
Definition identity (i : Discovery.PoolInfo) : Address * Address * Address * ProtocolType * Z :=
  (Discovery.address i, Discovery.token0 i, Discovery.token1 i, Discovery.protocol i, Discovery.fee_bps i).

(** Entries of [c'] are entries of [c] up to scores and metrics, apart from
    [extra]. *)
Definition comes_from (c c' : Discovery.DiscoveryCache) (extra : list Discovery.PoolInfo) : Prop :=
  forall a e, Discovery.pools c' !! a = Some e ->
    (exists e0, Discovery.pools c !! a = Some e0 /\
       identity (Discovery.info e) = identity (Discovery.info e0)) \/
    (exists i, i ∈ extra /\ a = Discovery.address i /\ identity (Discovery.info e) = identity i).

Lemma renormalise_identity c now a e :
  Discovery.pools (Discovery.renormalise_all c now) !! a = Some e ->
  exists e0, Discovery.pools c !! a = Some e0 /\ identity (Discovery.info e) = identity (Discovery.info e0).
Proof. simpl. rewrite lookup_fmap_Some. intros (e0 & <- & H). by exists e0. Qed.

Lemma upsert_comes_from c i inputs now : comes_from c (Discovery.upsert c i inputs now).1.1 [i].
Proof.
  unfold Discovery.upsert. set (c1 := Discovery.mkCache _ _ _ _ _).
  assert (H1 : comes_from c c1 [i]).
  { intros a e. simpl. destruct (decide (a = Discovery.address i)) as [->|Hne].
    - rewrite lookup_insert_eq. intros [= <-]. right. exists i. split; [by left|done].
    - rewrite lookup_insert_ne by done. left. eauto. }
  destruct (Discovery.enforce_split c1) as (ev & _ & _ & _ & Hp).
  assert (H2 : comes_from c (Discovery.enforce_capacity c1).1 [i]).
  { intros a e. rewrite Hp. case_decide; [done|]. apply H1. }
  destruct (Discovery.enforce_capacity c1) as [c2 evs]. simpl in *.
  destruct (f64_ge _ _); [|exact H2]. intros a e (e0 & H0 & Hid)%renormalise_identity.
  rewrite Hid. by apply H2.
Qed.

Lemma prune_comes_from c min_score now : comes_from c (Discovery.prune c min_score now).1.1 [].
Proof.
  unfold Discovery.prune. set (l := (filter _ _).*1).
  assert (H1 : comes_from c (Discovery.with_pools c (foldl (fun ps a => delete a ps) (Discovery.pools c) l)) []).
  { intros a e. simpl. rewrite Discovery.lookup_delete_all. case_decide; [done|]. left. eauto. }
  destruct (0 <? length l)%nat; [|exact H1]. cbn [fst]. intros a e (e0 & H0 & Hid)%renormalise_identity.
  rewrite Hid. by apply H1.
Qed.

(** The operations of the service's tasks. *)
Inductive op : Type :=
| OnLog (env : Surroundings) (log : Log)
| OnPrune (env : Surroundings).

Fixpoint run (svc : Service) (entries : list FactoryEntry) (ops : list op) : outcome Service :=
  match ops with
  | [] => Ret svc
  | OnLog env log :: ops => ' (_, svc, _) ← process_logs svc entries [(env, log)]; run svc entries ops
  | OnPrune env :: ops => run (prune_tick svc env).1.1 entries ops
  end.

(** A pool some log announced, which passed validation when it did. *)
Definition admitted (cfg : DiscoveryConfig) (entries : list FactoryEntry) (ops : list op)
    (i : Discovery.PoolInfo) : Prop :=
  exists svc env log event swaps,
    OnLog env log ∈ ops /\ announced entries log = Ret (Some event) /\ config svc = cfg /\
    validate_pool svc env event = Ret (Valid, swaps) /\
    identity i = (pool event, token0 event, token1 event, protocol event, fee_bps event).

Definition provenance (cfg : DiscoveryConfig) (entries : list FactoryEntry) (ops : list op)
    (svc : Service) : Prop :=
  config svc = cfg /\ Discovery.inv (cache svc) /\
  forall a e, Discovery.pools (cache svc) !! a = Some e ->
    enabled (discovery cfg) = true /\ admitted cfg entries ops (Discovery.info e).

Lemma admitted_mono cfg entries ops ops' i :
  admitted cfg entries ops i -> ops ⊆ ops' -> admitted cfg entries ops' i.
Proof. intros (svc & env & log & event & sw & Hin & H) Hs. exists svc, env, log, event, sw. split; [by apply Hs|done]. Qed.

Lemma admitted_identity cfg entries ops i j : identity i = identity j ->
  admitted cfg entries ops j -> admitted cfg entries ops i.
Proof. intros Hid (svc & env & log & event & sw & H). exists svc, env, log, event, sw. by rewrite Hid. Qed.

Lemma ingest_provenance cfg entries ops svc env log event ok svc' events :
  provenance cfg entries ops svc -> OnLog env log ∈ ops -> announced entries log = Ret (Some event) ->
  ingest_pool_created svc env event = Ret (ok, svc', events) -> provenance cfg entries ops svc'.
Proof.
  intros Hprov Hin Han. pose proof Hprov as (Hc & Hi & Hp). unfold ingest_pool_created. rewrite Hc.
  destruct (enabled (discovery cfg)) eqn:Hen; cbn [negb]; [|by intros [= <- <- <-]].
  destruct (Discovery.contains (cache svc) (pool event)); [by intros [= <- <- <-]|].
  destruct (validate_pool svc env event) as [[v sw]|] eqn:Hv; [|done]. cbn [mbind outcome_bind].
  assert (Hsame : provenance cfg entries ops (mkService cfg (cache svc) sw))
    by (split; [done|]; split; [done|]; apply Hprov).
  destruct v; [|by intros [= <- <- <-]..].
  destruct (metrics_source env _ _ _ _) as [m|]; [|done]. cbn [mbind outcome_bind].
  unfold insert_validated. cbn [cache config].
  match goal with |- context [Discovery.upsert _ ?i ?m _] => set (info := i); set (inputs := m) end.
  pose proof (upsert_comes_from (cache svc) info inputs (now env)) as Hf.
  pose proof (Discovery.inv_upsert (cache svc) info inputs (now env) Hi) as Hi'.
  destruct (Discovery.upsert (cache svc) info inputs (now env)) as [[c i] evs]. intros [= <- <- <-].
  split; [done|]. split; [done|]. intros a e Ha. split; [done|].
  destruct (Hf a e Ha) as [(e0 & H0 & Hid)|(j & Hj & _ & Hid)].
  - apply (admitted_identity _ _ _ _ _ Hid). by apply (Hp a).
  - apply list_elem_of_singleton in Hj as ->. exists svc, env, log, event, sw. by rewrite Hid.
Qed.

Lemma run_provenance cfg entries all ops : forall svc svc', ops ⊆ all -> provenance cfg entries all svc ->
  run svc entries ops = Ret svc' -> provenance cfg entries all svc'.
Proof.
  induction ops as [|o ops IH]; intros svc svc' Hall Hp; [by intros [= <-]|].
  assert (Hin : o ∈ all) by (apply Hall; by left). assert (Hall' : ops ⊆ all) by (intros x Hx; apply Hall; by right).
  destruct o as [env log|env]; cbn [run].
  - cbn [process_logs]. destruct (announced entries log) as [created|] eqn:Han; [|done].
    cbn [mbind outcome_bind]. destruct created as [event|].
    + destruct (ingest_pool_created svc env event) as [[[ok svc1] ev]|] eqn:Hg; [|done].
      cbn [mbind outcome_bind]. apply IH; [done|].
      by apply (ingest_provenance cfg entries all svc env log event ok svc1 ev).
    + by apply IH.
  - apply IH; [done|]. destruct Hp as (Hc & Hi & Hp). unfold prune_tick, prune.
    pose proof (prune_comes_from (cache svc) (f64_of_ratio 1 100) (now env)) as Hf.
    pose proof (Discovery.inv_prune (cache svc) (f64_of_ratio 1 100) (now env) Hi) as Hi'.
    destruct (Discovery.prune (cache svc) (f64_of_ratio 1 100) (now env)) as [[c n] evs]. simpl in *.
    split; [done|]. split; [done|]. intros a e Ha.
    destruct (Hf a e Ha) as [(e0 & H0 & Hid)|(j & Hj & _)]; [|by apply not_elem_of_nil in Hj].
    destruct (Hp a e0 H0) as [He Had]. split; [done|]. by apply (admitted_identity _ _ _ _ _ Hid).
Qed.

(** ** The service goes on *)

(** Two legs in a row, whatever is decided on the amount that comes back. *)
Lemma two_legs_return pool tk tk' x reason (k : option Z -> outcome ValidationResult) :
  UniswapV2Pool.wf pool -> in_u 112 x -> (forall q, returns (k q)) ->
  returns (q ← UniswapV2Pool.get_amount_out pool tk x;
           non_zero q reason (fun o => back ← UniswapV2Pool.get_amount_out pool tk' o; k back)).
Proof.
  intros Hwf Hx Hk. destruct (UniswapV2Pool.v2_amount_out_bounded pool tk x Hwf Hx) as (q & -> & Hq).
  cbn [mbind outcome_bind]. unfold non_zero. destruct q as [o|]; [|by eexists].
  destruct (o =? 0); [by eexists|].
  destruct (UniswapV2Pool.v2_amount_out_bounded pool tk' o Hwf (Hq o eq_refl)) as (b & -> & _).
  cbn [mbind outcome_bind]. apply Hk.
Qed.

Lemma v2_reserves_returns t0 t1 pr fee r0 r1 swap_eth : in_u 32 fee -> in_u 112 r0 -> in_u 112 r1 ->
  in_u 112 (eth_to_u256 swap_eth) -> returns (validate_v2_reserves t0 t1 pr fee r0 r1 swap_eth).
Proof.
  intros Hf H0 H1 Hx. unfold validate_v2_reserves. destruct (negb _); [by eexists|].
  destruct (_ || _); [by eexists|]. destruct (f64_lt _ _); [by eexists|].
  destruct (_ =? 0); [by eexists|]. set (pool := UniswapV2Pool.update_state _ r0 r1).
  assert (Hwf : UniswapV2Pool.wf pool) by done. set (x := eth_to_u256 swap_eth) in *.
  assert (Hsim : forall tk, returns (simulate_round_trip pool addresses.WETH tk x)).
  { intros tk. apply two_legs_return; [done..|]. intros q. unfold non_zero.
    destruct q as [b|]; [|by eexists]. destruct (b =? 0); by eexists. }
  destruct (t0 =? _); [done|]. destruct (t1 =? _); [done|].
  apply two_legs_return; [done..|]. by eexists.
Qed.

Lemma offline_returns event swap_eth : in_u 32 (fee_bps event) -> in_u 112 (eth_to_u256 swap_eth) ->
  returns (offline_validate event swap_eth).
Proof.
  intros Hf Hx. unfold offline_validate.
  destruct (protocol event); try (by eexists); apply v2_reserves_returns; try done; range; lia.
Qed.

Context `{HD : !DistinctSignatures}.

Lemma decode_created_returns topics data source hint :
  head topics = Some pair_created_topic \/ head topics = Some pool_created_v3_topic ->
  returns (decode_log topics data source hint).
Proof.
  intros H. destruct topics as [|t0 topics]; [naive_solver|]. cbn [head] in H. unfold decode_log.
  pose proof distinct_topics as Hd. rewrite !NoDup_cons in Hd.
  assert (Hn : t0 <> sync_topic /\ t0 <> swap_v2_topic /\ t0 <> swap_v3_topic /\ t0 <> token_exchange_topic).
  { destruct H as [[= ->]|[= ->]]; repeat split; intros E'; rewrite E' in *; set_solver. }
  destruct Hn as (N1 & N2 & N3 & N4). apply Z.eqb_neq in N1, N2, N3, N4. rewrite N1, N2, N3, N4.
  set (tps := t0 :: topics). destruct (t0 =? pair_created_topic).
  - unfold decode_pair_created. destruct (Nat.ltb_spec (length tps) 3); [by eexists|].
    destruct (Nat.ltb_spec (length data) 64); [by eexists|].
    destruct (index_lt tps 1) as (? & -> & _); [lia|]. destruct (index_lt tps 2) as (? & -> & _); [lia|].
    rewrite slice_in by lia. by eexists.
  - destruct (t0 =? pool_created_v3_topic); [|by eexists]. unfold decode_pool_created_v3.
    destruct (Nat.ltb_spec (length tps) 4); [by eexists|].
    destruct (Nat.ltb_spec (length data) 64); [by eexists|].
    destruct (index_lt tps 1) as (? & -> & _); [lia|]. destruct (index_lt tps 2) as (? & -> & _); [lia|].
    rewrite slice_in by lia. by eexists.
Qed.

(** Decoding a factory log returns, with a 32-bit fee. *)
Lemma decode_factory_log_returns f pr fee ty topics data : in_u 32 fee ->
  exists r, decode_factory_log f pr fee ty topics data = Ret r /\
    forall event, r = Some event -> in_u 32 (fee_bps event).
Proof.
  intros Hf. unfold decode_factory_log. destruct topics as [|t0 topics]; [by eexists|].
  set (tps := t0 :: topics). destruct (Z.eqb_spec t0 (topic ty)) as [Et|]; cbn [negb]; [|by eexists].
  assert (Hor : forall v, in_u 32 (onchain_or (clamp_u32 v) fee)).
  { intros v. unfold onchain_or, clamp_u32. pose proof (Z.mod_pos_bound (v / 2 ^ (64 * 0)) (2 ^ 64) eq_refl).
    unfold limb. destruct (0 <? _); [|done]. range. lia. }
  assert (Hlog : topic ty = pair_created_topic \/ topic ty = pool_created_v3_topic -> forall ef, in_u 32 ef ->
    exists r, (r ← decode_log tps data f (Some pr);
               Ret match r with
                   | inl (PoolCreated token0 token1 pool) => Some (mkCreated f pr ef token0 token1 pool)
                   | _ => None
                   end) = Ret r /\ forall event, r = Some event -> in_u 32 (fee_bps event)).
  { intros Hty ef Hef. destruct (decode_created_returns tps data f (Some pr)) as [r ->].
    - change (head tps) with (Some t0). rewrite Et. destruct Hty as [-> | ->]; auto.
    - cbn [mbind outcome_bind]. eexists. split; [done|]. intros event.
      destruct r as [[]|]; try done. by intros [= <-]. }
  destruct ty.
  - apply Hlog; [by left|done].
  - apply Hlog; [by right|]. destruct (tps !! 3%nat); [|done].
    unfold v3_fee_bps_from_topic, as_u32. by apply Z.mod_pos_bound.
  - eexists. split; [done|]. intros event. unfold decode_plain_pool_deployed, tps. destruct (negb _); [done|].
    destruct (decode_PlainPoolDeployed _ data) as [[[p [|c0 [|c1 cs]]] v]|]; try done.
    intros [= <-]. apply Hor.
  - eexists. split; [done|]. intros event. unfold decode_pool_registered_v3, tps.
    destruct topics as [|b [|c l]]; try done. destruct (negb _); [done|].
    destruct (decode_PoolRegistered _ data) as [[[p [|c0 [|c1 cs]]] v]|]; try done.
    intros [= <-]. apply Hor.
Qed.

(** No provider, and metrics that can be fetched. *)
Definition calm (o : op) : Prop :=
  match o with
  | OnLog env _ => provider env = None /\ forall p t0 t1 pr, returns (metrics_source env p t0 t1 pr)
  | OnPrune _ => True
  end.

Lemma ingest_returns svc env event :
  provider env = None -> (forall p t0 t1 pr, returns (metrics_source env p t0 t1 pr)) ->
  in_u 32 (fee_bps event) -> in_u 112 (eth_to_u256 (validation_swap_eth (discovery (config svc)))) ->
  exists ok svc' events, ingest_pool_created svc env event = Ret (ok, svc', events) /\
    config svc' = config svc.
Proof.
  intros Hn Hm Hf Hx. unfold ingest_pool_created. destruct (negb _); [by eexists _, _, _|].
  destruct (Discovery.contains _ _); [by eexists _, _, _|]. unfold validate_pool. rewrite Hn.
  destruct (offline_returns event _ Hf Hx) as [v ->]. cbn [mbind outcome_bind].
  destruct v; [|by eexists _, _, _..].
  destruct (Hm (pool event) (token0 event) (token1 event) (protocol event)) as [m ->].
  cbn [mbind outcome_bind]. unfold insert_validated.
  destruct (Discovery.upsert _ _ _ _) as [[c i] evs]. by eexists _, _, _.
Qed.

Lemma run_returns entries ops : Forall (fun e => in_u 32 (fe_fee_bps e)) entries -> Forall calm ops ->
  forall svc, in_u 112 (eth_to_u256 (validation_swap_eth (discovery (config svc)))) ->
  returns (run svc entries ops).
Proof.
  intros He. induction ops as [|o ops IH]; intros Hc svc Hx; [by eexists|].
  apply Forall_cons in Hc as [Ho Hc]. specialize (IH Hc). destruct o as [env log|env]; cbn [run].
  - destruct Ho as [Hn Hm]. cbn [process_logs]. unfold announced.
    destruct (entry_for entries (log_address log)) as [entry|] eqn:Hent; cbn [mbind outcome_bind]; [|by apply IH].
    assert (Hf : in_u 32 (fe_fee_bps entry)).
    { rewrite Forall_forall in He. apply He, list_elem_of_In. by apply find_some in Hent as [? _]. }
    destruct (decode_factory_log_returns (log_address log) (fe_protocol entry) (fe_fee_bps entry)
      (event_type entry) (log_topics log) (log_data log) Hf) as (r & -> & Hr). cbn [mbind outcome_bind].
    destruct r as [event|]; cbn [mbind outcome_bind]; [|by apply IH].
    destruct (ingest_returns svc env event Hn Hm (Hr event eq_refl) Hx) as (ok & svc' & evs & -> & Hcfg).
    cbn [mbind outcome_bind]. apply IH. by rewrite Hcfg.
  - apply IH. unfold prune_tick, prune. by destruct (Discovery.prune _ _ _) as [[c n] evs].
Qed.

(** C14. Discovery admits only what it validated. Whatever logs arrive, from whatever
    nodes, with prunes in between, every cached pool was announced by a log of the
    first configured factory at the emitting address, passed the validation of the
    configured mode when it was, keeps the tokens, protocol and fee of that
    announcement, and sits in a cache within its bound with scores between 0 and
    1; with discovery disabled the cache stays empty. Without a provider no log
    stops the service. *)
Theorem discovery_admits_validated cfg entries ops :
  (forall svc, run (service_new cfg) entries ops = Ret svc -> provenance cfg entries ops svc) /\
  (Forall (fun e => in_u 32 (fe_fee_bps e)) entries -> Forall calm ops ->
   in_u 112 (eth_to_u256 (validation_swap_eth (discovery cfg))) ->
   returns (run (service_new cfg) entries ops)).
Proof.
  split.
  - intros svc. apply (run_provenance cfg entries ops ops); [done|]. split; [done|].
    split; [|by intros a e Ha; simpl in Ha; rewrite lookup_empty in Ha].
    split; simpl; [unfold Discovery.len; simpl; rewrite map_size_empty; lia|..];
      intros a e; by rewrite lookup_empty.
  - intros He Hc Hx. by apply run_returns.
Qed.

(** ** Polling covers every block once *)

(** The ranges the ticks request. *)
Fixpoint requested (pw : bool) (last_block : Z) (ticks : list Tick) : list (Z * Z) :=
  match ticks with
  | [] => []
  | t :: ticks =>
      match polled pw last_block t with
      | Some (from, current) => (from, current) :: requested pw current ticks
      | None => requested pw last_block ticks
      end
  end.

(** The logs the node serves for them. *)
Fixpoint served (pw : bool) (last_block : Z) (ticks : list Tick) : list op :=
  match ticks with
  | [] => []
  | t :: ticks =>
      match polled pw last_block t with
      | Some (from, current) =>
          (uncurry OnLog <$> default [] (get_logs t from current)) ++ served pw current ticks
      | None => served pw last_block ticks
      end
  end.

Definition blocks (r : Z * Z) : list Z := seqZ r.1 (r.2 - r.1 + 1).

(** The newest block number an unpaused tick saw. *)
Definition newest (pw : bool) (last_block : Z) (t : Tick) : Z :=
  if ws_healthy t && negb pw then last_block else from_option (Z.max last_block) last_block (tip t).

Lemma ops_app svc entries ops ops' :
  run svc entries (ops ++ ops') = (svc ← run svc entries ops; run svc entries ops').
Proof.
  revert svc. induction ops as [|[env log|env] ops IH]; intros svc; [done|..|apply IH].
  cbn [app run]. destruct (process_logs _ _ _) as [[[n svc'] evs]|]; [apply IH|done].
Qed.

Lemma process_logs_run svc entries logs :
  (' (_, svc, _) ← process_logs svc entries logs; Ret svc) = run svc entries (uncurry OnLog <$> logs).
Proof.
  revert svc. induction logs as [|[env log] logs IH]; intros svc; [done|]. cbn.
  destruct (announced entries log) as [created|]; [|done]. cbn.
  destruct (match created with Some _ => _ | None => _ end) as [[[ok svc1] evs]|]; [|done]. cbn.
  rewrite <-IH. by destruct (process_logs svc1 entries logs) as [[[n svc2] evs2]|].
Qed.

Lemma polled_newest pw last_block t :
  match polled pw last_block t with
  | Some (from, current) => from = last_block + 1 /\ last_block < current /\ newest pw last_block t = current
  | None => newest pw last_block t = last_block
  end.
Proof.
  unfold polled, newest. destruct (_ && _); [done|]. destruct (tip t) as [c|]; [|done]. cbn.
  destruct (Z.ltb_spec last_block c); [repeat split; lia|lia].
Qed.

Lemma requested_cover pw ticks : forall last_block,
  last_block <= foldl (newest pw) last_block ticks /\
  requested pw last_block ticks ≫= blocks =
    seqZ (last_block + 1) (foldl (newest pw) last_block ticks - last_block).
Proof.
  induction ticks as [|t ticks IH]; intros last_block; cbn [requested foldl].
  - split; [done|]. by rewrite Z.sub_diag.
  - pose proof (polled_newest pw last_block t) as H.
    destruct (polled pw last_block t) as [[from current]|]; [|rewrite H; apply IH].
    destruct H as (-> & Hlt & ->). destruct (IH current) as [Hle Hc]. split; [lia|].
    rewrite bind_cons, Hc. unfold blocks. cbn [fst snd].
    replace (foldl (newest pw) current ticks - last_block)
      with ((current - (last_block + 1) + 1) + (foldl (newest pw) current ticks - current)) by lia.
    rewrite (seqZ_app _ (current - (last_block + 1) + 1)) by lia. do 2 f_equal. lia.
Qed.

(** C32. The polling listener asks for every block exactly once: the ranges it
    requests, one after the other, are the blocks after the starting one up to the
    newest block number an unpaused tick saw; and what it does to the service is
    what handling the logs served for those ranges does, in that order, so the
    promises of the service hold of it. A range whose request fails is not
    requested again. *)
Theorem poll_covers_blocks entries pw svc last_block ticks :
  let last_block' := foldl (newest pw) last_block ticks in
  poll_loop entries pw svc last_block ticks =
    (svc ← run svc entries (served pw last_block ticks); Ret (svc, last_block')) /\
  requested pw last_block ticks ≫= blocks = seqZ (last_block + 1) (last_block' - last_block).
Proof.
  split; [|apply requested_cover].
  revert svc last_block. induction ticks as [|t ticks IH]; intros svc last_block; [done|].
  cbn [poll_loop served foldl]. unfold poll_tick. pose proof (polled_newest pw last_block t) as H.
  destruct (polled pw last_block t) as [[from current]|]; [|rewrite H; apply IH].
  destruct H as (_ & _ & ->). rewrite ops_app. destruct (get_logs t from current) as [logs|]; [|apply IH].
  cbn [default from_option id]. rewrite <-process_logs_run.
  destruct (process_logs svc entries logs) as [[[n svc'] evs]|]; [apply IH|done].
Qed.

(** The connections the subscription listener makes before it leaves. *)
Fixpoint connections (sessions : list Session) : list Session :=
  match sessions with
  | [] => []
  | s :: sessions => s :: if (subscribes s && shut_down s) || pause_cut s then [] else connections sessions
  end.

(** The logs a connection delivers. *)
Definition delivered (s : Session) : list op := if subscribes s then uncurry OnLog <$> stream s else [].

Lemma run_ws_subscription_run entries svc s :
  run_ws_subscription entries svc s =
    (svc ← run svc entries (delivered s); Ret (svc, subscribes s && shut_down s)).
Proof.
  unfold run_ws_subscription, delivered. destruct (subscribes s); [|done]. cbn [negb andb].
  generalize (stream s) as logs. intros logs. revert svc.
  induction logs as [|[env log] logs IH]; intros svc; [done|]. rewrite fmap_cons. cbn [run uncurry].
  destruct (process_logs svc entries [(env, log)]) as [[[n svc'] evs]|]; [apply IH|done].
Qed.

(** The subscription listener handles the logs of its connections, in order,
    and pauses at most 30 seconds after each, never shorter than before. *)
Theorem ws_listener_handles entries sessions svc attempt svc' pauses : in_u 32 attempt ->
  spawn_ws_listener entries svc attempt sessions = Ret (svc', pauses) ->
  run svc entries (connections sessions ≫= delivered) = Ret svc' /\
  Forall (fun p => ws_backoff attempt <= p <= 30) pauses /\ Sorted Z.le pauses.
Proof.
  assert (Hmono : forall a b, 0 <= a <= b -> ws_backoff a <= ws_backoff b).
  { intros a b Hab. unfold ws_backoff. rewrite !Z.shiftl_1_l. apply Z.min_le_compat_r, Z.pow_le_mono_r; lia. }
  revert svc attempt pauses. induction sessions as [|s sessions IH]; intros svc attempt pauses Ha.
  { intros [= <- <-]. done. }
  cbn [spawn_ws_listener connections]. rewrite bind_cons, ops_app, run_ws_subscription_run.
  destruct (run svc entries (delivered s)) as [svc1|]; [|done]. cbn [mbind outcome_bind].
  destruct (subscribes s && shut_down s); cbn [orb]; [by intros [= <- <-]|].
  assert (Hn : in_u 32 (next_attempt attempt) /\ attempt <= next_attempt attempt).
  { unfold next_attempt, saturate. range. split; [lia|]. destruct Ha. lia. }
  destruct Hn as [Hn Hle]. pose proof (Hmono attempt (next_attempt attempt) ltac:(split; [apply Ha|done])) as Hb.
  assert (Hmax : ws_backoff (next_attempt attempt) <= 30) by apply Z.le_min_r.
  destruct (pause_cut s); [intros [= <- <-]; repeat constructor; done|].
  destruct (spawn_ws_listener entries svc1 (next_attempt attempt) sessions) as [[svc2 ps]|] eqn:Hw; [|done].
  cbn [mbind outcome_bind]. intros [= <- <-]. destruct (IH _ _ _ Hn Hw) as (Hr & Hf & Hs).
  split; [done|]. split.
  - constructor; [done|]. eapply Forall_impl; [exact Hf|]. simpl. lia.
  - constructor; [done|]. destruct Hf; constructor; lia.
Qed.

(** ** Where the service stops *)

(** [Handle::block_on] panics in an asynchronous task, and the metrics of an
    admitted pool are fetched in one: with a provider, every pool that passes
    validation stops the task that announces it. *)
Theorem admission_panics_with_provider block_on svc node source time event swaps :
  (forall X (x : X), block_on X x = Panic) ->
  source = fetch_metrics block_on (Some node) (scoring (config svc))
             (validation_swap_eth (discovery (config svc))) ->
  let env := mkSurroundings (Some node) source time in
  enabled (discovery (config svc)) = true ->
  Discovery.contains (cache svc) (pool event) = false ->
  validate_pool svc env event = Ret (Valid, swaps) ->
  ingest_pool_created svc env event = Panic.
Proof.
  intros Hb -> env Hen Hc Hv. unfold ingest_pool_created. rewrite Hen, Hc. cbn [negb].
  rewrite Hv. cbn. by rewrite Hb.
Qed.

End Service.

(** ** Witnesses *)

(** No dynamic event is decoded. *)
Definition no_decoders : DynamicDecoders := {|
  decode_PlainPoolDeployed _ _ := None;
  decode_PoolRegistered _ _ := None |}.

Definition sample_config : DiscoveryConfig :=
  mkConfig (mkSettings true 10 3600 3600 300 (f64_of_ratio 1 1000) "auto" "" 12 true false "proxy" true
              (f64_of_Z (10 ^ 18)) "both") default_scoring [] default_balancer_v3.
Definition sample_entries : list FactoryEntry := [mkEntry 42 UniswapV2 30 PairCreated].

(** The pair [77] of USDC and WETH, announced by the factory [42]. *)
Definition sample_log : Log := mkLog 42 [5; addresses.USDC; addresses.WETH] (words [77; 1]).

Definition offline (time : Z) : Surroundings (E:=idle_evm) :=
  mkSurroundings (E:=idle_evm) None
    (fetch_metrics (E:=idle_evm) (K:=keccak_reference) (A:=abi_reference) (fun _ => Ret) None
       (scoring sample_config) (validation_swap_eth (discovery sample_config))) time.

Definition sample_ops : list (op (E:=idle_evm)) := [OnLog (offline 1000) sample_log; OnPrune (offline 2000)].

Definition sample_run : outcome Service :=
  run (B:=release) (E:=idle_evm) (K:=keccak_reference) (A:=abi_reference) (HO:=canonical_order)
    (Sg:=sample_signatures) (D:=no_decoders) (service_new sample_config) sample_entries sample_ops.

Lemma sample_run_caches :
  match sample_run with Ret svc => bool_decide (is_Some (Discovery.pools (cache svc) !! 77)) | Panic => false end
  = true.
Proof. vm_compute. reflexivity. Qed.

Lemma discovery_admits_validated_witness :
  exists svc e, sample_run = Ret svc /\ Discovery.pools (cache svc) !! 77 = Some e /\
    admitted (B:=release) (K:=keccak_reference) (A:=abi_reference) (Sg:=sample_signatures) (D:=no_decoders)
      sample_config sample_entries sample_ops (Discovery.info e).
Proof.
  destruct (discovery_admits_validated (B:=release) (E:=idle_evm) (K:=keccak_reference)
    (A:=abi_reference) (HO:=canonical_order) (Sg:=sample_signatures) (D:=no_decoders) (HD:=sample_distinct)
    sample_config sample_entries sample_ops) as [Hp Hr].
  destruct Hr as [svc Hsvc].
  - apply Forall_singleton. vm_compute. split; congruence.
  - apply Forall_cons. split; [split; [reflexivity|intros; eexists; reflexivity]|by apply Forall_singleton].
  - vm_compute. split; congruence.
  - exists svc. pose proof (Hp svc Hsvc) as (_ & _ & H). pose proof sample_run_caches as Hc.
    unfold sample_run in *. rewrite Hsvc in Hc. apply bool_decide_eq_true in Hc as [e He].
    exists e. split; [exact Hsvc|]. split; [exact He|]. exact (proj2 (H 77 e He)).
Defined.

End DiscoveryService.
