(* ===== verification/HotCache.v ===== *)
(** * The hot cache

    [crates/state/src/hot_cache/updater.rs]: the set of pools eligible for
    detection, refreshed from the top of the discovery ranking. The two cells
    of the cache are each swapped atomically, one after the other; the metrics
    are counters of the state. *)

From Stdlib Require Import ZArith Lia.
From S2P Require Import Prelude.
From S2P Require Import Machine.
From S2P Require Import F64.
From S2P Require Import Types.
From S2P Require Import Discovery.
From stdpp Require Import base option numbers gmap sets list.

Local Open Scope Z_scope.

Module HotCache.
Import Discovery.

Record HotCacheUpdaterConfig : Type := mkConfig {
  update_interval_secs : Z;
  top_n : nat;
}.

Definition default_config : HotCacheUpdaterConfig := mkConfig 5 500.

Record HotCache : Type := mkHot {
  hot_pools : gset Z;
  hot_infos : list PoolInfo;
  metric_size : nat;
  metric_added : nat;
  metric_removed : nat;
  metric_updates : nat;
}.

Definition hot_new : HotCache := mkHot ∅ [] 0 0 0 0.

Definition hot_len (h : HotCache) : nat := size (hot_pools h).
Definition hot_contains (h : HotCache) (a : Address) : bool := bool_decide (a ∈ hot_pools h).
Definition pool_addresses (h : HotCache) : gset Z := hot_pools h.
Definition pool_infos (h : HotCache) : list PoolInfo := hot_infos h.

Record HotCacheDiff : Type := mkDiff {
  new_addresses : gset Z;
  new_infos : list PoolInfo;
  added : nat;
  removed : nat;
  added_pools : list PoolInfo;
  removed_addresses : list Address;
}.

Section Updater.
Context `{HO : HashOrder}.

Definition compute (previous : gset Z) (top_pools : list PoolInfo) : HotCacheDiff :=
  let new_addresses := list_to_set (address <$> top_pools) in
  let added := filter (fun p => address p ∉ previous) top_pools in
  let removed_addresses := filter (fun a => a ∉ (new_addresses : gset Z)) (set_iter previous) in
  mkDiff new_addresses top_pools (length added) (length removed_addresses) added
    removed_addresses.

(** The stores of [apply_diff], in order. *)
Definition store_pools (d : HotCacheDiff) (h : HotCache) : HotCache :=
  mkHot (new_addresses d) (hot_infos h) (metric_size h) (metric_added h) (metric_removed h)
    (metric_updates h).
Definition store_infos (d : HotCacheDiff) (h : HotCache) : HotCache :=
  mkHot (hot_pools h) (new_infos d) (metric_size h) (metric_added h) (metric_removed h)
    (metric_updates h).
Definition store_metrics (d : HotCacheDiff) (h : HotCache) : HotCache :=
  mkHot (hot_pools h) (hot_infos h) (hot_len h)
    (metric_added h + (if (0 <? added d)%nat then added d else 0))%nat
    (metric_removed h + (if (0 <? removed d)%nat then removed d else 0))%nat
    (S (metric_updates h)).

Definition apply_diff (h : HotCache) (d : HotCacheDiff) : HotCache :=
  store_metrics d (store_infos d (store_pools d h)).

Definition refresh_once (cfg : HotCacheUpdaterConfig) (disc : DiscoveryCache) (h : HotCache)
    : HotCache * HotCacheDiff :=
  let previous := pool_addresses h in
  let top := get_top_n disc (top_n cfg) in
  let diff := compute previous top in
  (apply_diff h diff, diff).

(** ** A refresh *)

Lemma NoDup_filter_addresses (top : list PoolInfo) (previous : gset Z) :
  NoDup (address <$> top) ->
  NoDup (address <$> filter (fun p => address p ∉ previous) top).
Proof.
  intros H. eapply sublist_NoDup; [exact H|]. apply fmap_sublist, sublist_filter.
Qed.

(** The diff is exact: what is new, what is gone, and how many. *)
Lemma diff_exact previous top : NoDup (address <$> top) ->
  let d := compute previous top in
  list_to_set (address <$> added_pools d) = new_addresses d ∖ previous /\
  list_to_set (removed_addresses d) = previous ∖ new_addresses d /\
  added d = size (new_addresses d ∖ previous) /\
  removed d = size (previous ∖ new_addresses d).
Proof.
  intros Hn. simpl. set (new := list_to_set (address <$> top) : gset Z).
  assert (Ha : list_to_set (address <$> filter (fun p => address p ∉ previous) top)
               = new ∖ previous).
  { apply set_eq. intros a. rewrite elem_of_difference. unfold new.
    rewrite !elem_of_list_to_set, !list_elem_of_fmap.
    split; [intros (p & -> & [Hp H]%list_elem_of_filter); eauto|].
    intros [(p & -> & H) Hp]. exists p. split; [done|]. by apply list_elem_of_filter. }
  assert (Hr : list_to_set (filter (fun a => a ∉ new) (set_iter previous)) = previous ∖ new).
  { apply set_eq. intros a.
    rewrite elem_of_difference, elem_of_list_to_set, list_elem_of_filter, elem_of_set_iter.
    naive_solver. }
  split_and!; [done|done|..].
  - rewrite <- Ha, size_list_to_set by (by apply NoDup_filter_addresses). by rewrite length_fmap.
  - rewrite <- Hr, size_list_to_set; [done|]. apply NoDup_filter, NoDup_set_iter.
Qed.

Lemma top_n_addresses (disc : DiscoveryCache) n :
  (forall a e, pools disc !! a = Some e -> address (info e) = a) ->
  NoDup (address <$> get_top_n disc n).
Proof.
  intros Hk. unfold get_top_n.
  eapply sublist_NoDup; [|apply fmap_sublist, sublist_take].
  rewrite sort_by_perm, <- list_fmap_compose.
  change (NoDup ((fun e : Z * CachedPool => address (info e.2)) <$> map_iter (pools disc))).
  rewrite (Forall_fmap_ext_1 _ fst).
  - rewrite map_iter_perm. apply NoDup_fst_map_to_list.
  - apply Forall_forall. intros [a e] H%elem_of_map_iter. by apply Hk.
Qed.

(** A refresh installs the top of the ranking: the set and the pool list
    describe the same pools, at most [top_n] of them; the diff lists exactly
    the pools that came in and the addresses that dropped out; and the set is
    the previous one with the diff applied, so its size changes by their
    difference. *)
Theorem hot_cache_refresh_exact cfg disc h :
  (forall a e, pools disc !! a = Some e -> address (info e) = a) ->
  let '(h', d) := refresh_once cfg disc h in
  pool_infos h' = get_top_n disc (top_n cfg) /\
  hot_pools h' = list_to_set (address <$> pool_infos h') /\
  (hot_len h' <= top_n cfg)%nat /\ metric_size h' = hot_len h' /\
  hot_pools h' = hot_pools h ∖ list_to_set (removed_addresses d)
                 ∪ list_to_set (address <$> added_pools d) /\
  (hot_len h' + removed d = hot_len h + added d)%nat.
Proof.
  intros Hk. pose proof (top_n_addresses disc (top_n cfg) Hk) as Hn.
  pose proof (diff_exact (pool_addresses h) (get_top_n disc (top_n cfg)) Hn) as Hd.
  unfold refresh_once. cbn [compute new_addresses added removed added_pools removed_addresses] in Hd.
  unfold hot_len, pool_addresses in *.
  cbn [apply_diff store_metrics store_infos store_pools pool_infos hot_infos hot_pools metric_size
    compute new_addresses new_infos added removed added_pools removed_addresses].
  destruct Hd as (Ha & Hr & Hna & Hnr). rewrite Ha, Hr, Hna, Hnr.
  set (new := list_to_set (address <$> get_top_n disc (top_n cfg)) : gset Z) in *.
  split_and!; [done|done| |done|..].
  - unfold new. rewrite size_list_to_set by done. rewrite length_fmap. unfold get_top_n.
    rewrite length_take. lia.
  - apply set_eq. intros a. rewrite elem_of_union, !elem_of_difference.
    destruct (decide (a ∈ hot_pools h)), (decide (a ∈ new)); tauto.
  - rewrite <- (size_union_alt new (hot_pools h)), <- (size_union_alt (hot_pools h) new).
    by rewrite (comm_L (∪)).
Qed.
End Updater.

(** ** Concrete values *)

#[local] Existing Instance canonical_order.

Definition disc_3 : DiscoveryCache := filled 10 three.

Lemma disc_3_keys a e : pools disc_3 !! a = Some e -> address (info e) = a.
Proof.
  intros H. apply (inv_key disc_3); [|done]. unfold disc_3, filled. simpl. do 3 apply inv_upsert.
  split; simpl; [vm_compute; lia|..]; intros b x; by rewrite lookup_empty.
Qed.

Lemma hot_cache_refresh_exact_witness :
  let '(h', d) := refresh_once (mkConfig 5 2) disc_3 hot_new in
  hot_pools h' = list_to_set (address <$> pool_infos h') /\ (hot_len h' <= 2)%nat /\
  address <$> pool_infos h' = [2; 3].
Proof.
  pose proof (hot_cache_refresh_exact (mkConfig 5 2) disc_3 hot_new disc_3_keys) as H.
  destruct (refresh_once (mkConfig 5 2) disc_3 hot_new) as [h' d] eqn:E.
  destruct H as (H1 & H2 & H3 & _). split_and!; [done..|]. rewrite H1. vm_compute. reflexivity.
Defined.

(** The two cells are swapped one after the other: a reader between the
    two stores of a refresh sees the new set of addresses beside the pool
    list of the previous refresh. *)
Theorem hot_cache_torn_read :
  let d := compute (pool_addresses hot_new) (get_top_n disc_3 2) in
  let between := store_pools d hot_new in
  hot_contains between 2 = true /\ pool_infos between = [] /\
  address <$> pool_infos (apply_diff hot_new d) = [2; 3].
Proof. vm_compute. auto. Qed.

End HotCache.
