(* ===== verification/RouterSpec.v ===== *)
(** * Router calls and what the decoder finds in them

    The calls of the supported routers as values, the calldata a wallet sends
    for each and the swaps it stands for, and the theorem that
    [RouterDecoder.decode_pending_many] recovers those swaps from the calldata,
    with the nesting of multicalls bounded as the code bounds it. *)

From Stdlib Require Import ZArith Lia String.
From S2P Require Import Prelude.
From S2P Require Import Machine.
From S2P Require Import Types.
From S2P Require Import Bytes.
From S2P Require Import Keccak.
From S2P Require Import Abi.
From S2P Require Import RouterDecoder.
From stdpp Require Import base option numbers strings pretty list.

Local Open Scope Z_scope.

Module RouterSpec.
Import RouterDecoder.

(** ** Calls *)

(** One to three pools of a 1inch chain. *)
Inductive dexes : Type := Dex1 (d : Z) | Dex2 (d d2 : Z) | Dex3 (d d2 d3 : Z).
Definition dex_list (ds : dexes) : list Z :=
  match ds with Dex1 d => [d] | Dex2 d d2 => [d; d2] | Dex3 d d2 d3 => [d; d2; d3] end.

(** A command of the universal router: its flag bits and what it does. *)
Inductive ur_step : Type :=
| UrV3 (flags : Z) (exact_out : bool) (recipient : Address) (amount limit : Z)
    (first : Address) (hops : list (Z * Address)) (payer_is_user : bool)
| UrV2 (flags : Z) (exact_out : bool) (recipient : Address) (amount limit : Z)
    (path : list Address) (payer_is_user : bool)
| UrOther (command : Z) (input : list Z).

(** [amount] is the committed amount and [limit] the slippage bound. *)
#[warnings="-register-all"]
Inductive call : Type :=
| V2In (fot to_eth : bool) (amount limit : Z) (path : list Address) (to : Address) (deadline : Z)
| V2Out (to_eth : bool) (amount limit : Z) (path : list Address) (to : Address) (deadline : Z)
| V2EthIn (fot : bool) (limit : Z) (path : list Address) (to : Address) (deadline : Z)
| V2EthOut (amount : Z) (path : list Address) (to : Address) (deadline : Z)
| V3Single (exact_out : bool) (deadline : option Z) (tokenIn tokenOut : Address) (fee : Z)
    (recipient : Address) (amount limit sqrt_limit : Z)
| V3Path (exact_out : bool) (deadline : option Z) (first : Address) (hops : list (Z * Address))
    (recipient : Address) (amount limit : Z)
| VaultSwap (poolId kind : Z) (assetIn assetOut : Address) (amount : Z) (userData : list Z)
    (sender : Address) (fromInternal : bool) (recipient : Address) (toInternal : bool)
    (limit deadline : Z)
| CurveInt (underlying : bool) (i j dx min_dy : Z)
| CurveUint (i j dx min_dy : Z)
| BancorTrade (by_target : bool) (source target : Address) (amount limit deadline : Z)
    (beneficiary : Address)
| OneInchSwap (executor src dst srcReceiver dstReceiver : Address) (amount limit flags : Z)
    (data : list Z)
| Unoswap (to : option Z) (token amount limit : Z) (ds : dexes)
| EthUnoswap (to : option Z) (limit : Z) (ds : dexes)
| V3Swap (to : option Address) (amount limit : Z) (pools : list Z)
| Universal (deadline : option Z) (steps : list ur_step)
| Multicall (deadline : option Z) (inner : list call)
| Helper (f : SolFn) (args : params (fn_params f)).

(** ** Calldata *)

(** A function and its arguments. *)
Definition invocation : Type := {f : SolFn & params (fn_params f)}.
Definition invoke (f : SolFn) (v : params (fn_params f)) : invocation := existT f v.

(** [token | fee | token | ...]. *)
Definition pack_path (first : Address) (hops : list (Z * Address)) : list Z :=
  to_be 20 first ++ mjoin ((fun h => to_be 3 h.1 ++ to_be 20 h.2) <$> hops).

Definition ur_command (s : ur_step) : Z :=
  match s with
  | UrV3 flags exact_out _ _ _ _ _ _ => 64 * flags + (if exact_out then 0x01 else 0x00)
  | UrV2 flags exact_out _ _ _ _ _ => 64 * flags + (if exact_out then 0x09 else 0x08)
  | UrOther command _ => command
  end.

Definition ur_input (s : ur_step) : list Z :=
  match s with
  | UrV3 _ _ recipient amount limit first hops payer =>
      encode (STuple V3Tuple) (recipient, (amount, (limit, (pack_path first hops, (payer, tt)))))
  | UrV2 _ _ recipient amount limit path payer =>
      encode (STuple V2Tuple) (recipient, (amount, (limit, (path, (payer, tt)))))
  | UrOther _ input => input
  end.

Section Calldata.
Context {K : Keccak}.

Definition pack (c : invocation) : list Z :=
  fn_sel (projT1 c) ++ encode (STuple (fn_params (projT1 c))) (projT2 c).

Definition lower_unoswap (to : option Z) (token amount limit : Z) (ds : dexes) : invocation :=
  match to, ds with
  | None, Dex1 d => invoke unoswap (token, (amount, (limit, (d, tt))))
  | None, Dex2 d d2 => invoke unoswap2 (token, (amount, (limit, (d, (d2, tt)))))
  | None, Dex3 d d2 d3 => invoke unoswap3 (token, (amount, (limit, (d, (d2, (d3, tt))))))
  | Some to, Dex1 d => invoke unoswapTo (to, (token, (amount, (limit, (d, tt)))))
  | Some to, Dex2 d d2 => invoke unoswap2To (to, (token, (amount, (limit, (d, (d2, tt))))))
  | Some to, Dex3 d d2 d3 =>
      invoke unoswap3To (to, (token, (amount, (limit, (d, (d2, (d3, tt)))))))
  end.

Definition lower_eth_unoswap (to : option Z) (limit : Z) (ds : dexes) : invocation :=
  match to, ds with
  | None, Dex1 d => invoke ethUnoswap (limit, (d, tt))
  | None, Dex2 d d2 => invoke ethUnoswap2 (limit, (d, (d2, tt)))
  | None, Dex3 d d2 d3 => invoke ethUnoswap3 (limit, (d, (d2, (d3, tt))))
  | Some to, Dex1 d => invoke ethUnoswapTo (to, (limit, (d, tt)))
  | Some to, Dex2 d d2 => invoke ethUnoswap2To (to, (limit, (d, (d2, tt))))
  | Some to, Dex3 d d2 d3 => invoke ethUnoswap3To (to, (limit, (d, (d2, (d3, tt)))))
  end.

Definition lower_v3_single (exact_out : bool) (deadline : option Z) (tokenIn tokenOut : Address)
    (fee : Z) (recipient : Address) (amount limit sqrt_limit : Z) : invocation :=
  match deadline, exact_out with
  | Some d, false => invoke exactInputSingle_0
      ((tokenIn, (tokenOut, (fee, (recipient, (d, (amount, (limit, (sqrt_limit, tt)))))))), tt)
  | Some d, true => invoke exactOutputSingle_0
      ((tokenIn, (tokenOut, (fee, (recipient, (d, (amount, (limit, (sqrt_limit, tt)))))))), tt)
  | None, false => invoke exactInputSingle_1
      ((tokenIn, (tokenOut, (fee, (recipient, (amount, (limit, (sqrt_limit, tt))))))), tt)
  | None, true => invoke exactOutputSingle_1
      ((tokenIn, (tokenOut, (fee, (recipient, (amount, (limit, (sqrt_limit, tt))))))), tt)
  end.

Definition lower_v3_path (exact_out : bool) (deadline : option Z) (path : list Z)
    (recipient : Address) (amount limit : Z) : invocation :=
  match deadline, exact_out with
  | Some d, false => invoke exactInput_0 ((path, (recipient, (d, (amount, (limit, tt))))), tt)
  | Some d, true => invoke exactOutput_0 ((path, (recipient, (d, (amount, (limit, tt))))), tt)
  | None, false => invoke exactInput_1 ((path, (recipient, (amount, (limit, tt)))), tt)
  | None, true => invoke exactOutput_1 ((path, (recipient, (amount, (limit, tt)))), tt)
  end.

(** The function a call invokes and its arguments. *)
Fixpoint lower (c : call) : invocation :=
  match c with
  | V2In fot to_eth amount limit path to deadline =>
      let args := (amount, (limit, (path, (to, (deadline, tt))))) in
      match fot, to_eth with
      | false, false => invoke swapExactTokensForTokens args
      | false, true => invoke swapExactTokensForETH args
      | true, false => invoke swapExactTokensForTokensSupportingFeeOnTransferTokens args
      | true, true => invoke swapExactTokensForETHSupportingFeeOnTransferTokens args
      end
  | V2Out to_eth amount limit path to deadline =>
      let args := (amount, (limit, (path, (to, (deadline, tt))))) in
      if to_eth then invoke swapTokensForExactETH args else invoke swapTokensForExactTokens args
  | V2EthIn fot limit path to deadline =>
      let args := (limit, (path, (to, (deadline, tt)))) in
      if fot then invoke swapExactETHForTokensSupportingFeeOnTransferTokens args
      else invoke swapExactETHForTokens args
  | V2EthOut amount path to deadline =>
      invoke swapETHForExactTokens (amount, (path, (to, (deadline, tt))))
  | V3Single exact_out deadline tokenIn tokenOut fee recipient amount limit sqrt_limit =>
      lower_v3_single exact_out deadline tokenIn tokenOut fee recipient amount limit sqrt_limit
  | V3Path exact_out deadline first hops recipient amount limit =>
      lower_v3_path exact_out deadline (pack_path first hops) recipient amount limit
  | VaultSwap poolId kind assetIn assetOut amount userData sender fromInternal recipient
      toInternal limit deadline =>
      invoke vault_swap
        ((poolId, (kind, (assetIn, (assetOut, (amount, (userData, tt)))))),
         ((sender, (fromInternal, (recipient, (toInternal, tt)))), (limit, (deadline, tt))))
  | CurveInt underlying i j dx min_dy =>
      let args := (i, (j, (dx, (min_dy, tt)))) in
      if underlying then invoke exchange_underlying args else invoke exchange_int128 args
  | CurveUint i j dx min_dy => invoke exchange_uint256 (i, (j, (dx, (min_dy, tt))))
  | BancorTrade by_target source target amount limit deadline beneficiary =>
      let args := (source, (target, (amount, (limit, (deadline, (beneficiary, tt)))))) in
      if by_target then invoke tradeByTargetAmount args else invoke tradeBySourceAmount args
  | OneInchSwap executor src dst srcReceiver dstReceiver amount limit flags data =>
      invoke one_inch_swap
        (executor, ((src, (dst, (srcReceiver, (dstReceiver, (amount, (limit, (flags, tt))))))),
                    (data, tt)))
  | Unoswap to token amount limit ds => lower_unoswap to token amount limit ds
  | EthUnoswap to limit ds => lower_eth_unoswap to limit ds
  | V3Swap None amount limit pools => invoke uniswapV3Swap (amount, (limit, (pools, tt)))
  | V3Swap (Some to) amount limit pools =>
      invoke uniswapV3SwapTo (to, (amount, (limit, (pools, tt))))
  | Universal deadline steps =>
      match deadline with
      | None => invoke execute_0 (map ur_command steps, (map ur_input steps, tt))
      | Some d => invoke execute_1 (map ur_command steps, (map ur_input steps, (d, tt)))
      end
  | Multicall deadline inner =>
      let data := map (fun c => pack (lower c)) inner in
      match deadline with
      | None => invoke multicall (data, tt)
      | Some d => invoke multicall_deadline (d, (data, tt))
      end
  | Helper f args => invoke f args
  end.

Definition calldata (c : call) : list Z := pack (lower c).

(** ** Calls that can be sent *)

Definition path_ok (first : Address) (hops : list (Z * Address)) : Prop :=
  0 <= first < 2 ^ 160 /\ hops <> [] /\
  Forall (fun h => 0 <= h.1 < 2 ^ 24 /\ 0 <= h.2 < 2 ^ 160) hops.

Definition ur_ok (s : ur_step) : Prop :=
  match s with
  | UrV3 flags _ recipient amount limit first hops payer =>
      0 <= flags < 4 /\ path_ok first hops /\
      encodable (STuple V3Tuple) (recipient, (amount, (limit, (pack_path first hops, (payer, tt)))))
  | UrV2 flags _ recipient amount limit path payer =>
      0 <= flags < 4 /\
      encodable (STuple V2Tuple) (recipient, (amount, (limit, (path, (payer, tt)))))
  | UrOther command _ => Z.land command 0x3f ∉ [0x00; 0x01; 0x08; 0x09]
  end.

Fixpoint sendable (c : call) : Prop :=
  encodable (STuple (fn_params (projT1 (lower c)))) (projT2 (lower c)) /\
  match c with
  | V3Path _ _ first hops _ _ _ => path_ok first hops
  | Universal _ steps => Forall ur_ok steps
  | Multicall _ inner => foldr (fun c P => sendable c /\ P) True inner
  | Helper f _ => f ∈ non_swap_helpers
  | _ => True
  end.

(** ** The swaps of a call *)

Definition on_ok {A B} (f : A -> B) (r : DecodeError + A) : DecodeError + B :=
  match r with inl e => inl e | inr a => inr (f a) end.

Definition path_swap (tag : Protocol) (router : Address) (path : list Address) (amount limit : Z)
    (recipient : Address) : DecodeError + DecodedSwap :=
  match path with
  | a :: b :: extra =>
      inr (mkSwap tag router a b amount limit recipient 0 extra None None None)
  | _ => inl EmptyPath
  end.

(** The first hop of the packed path; an exact-output path is written from
    the output token, so its tokens are exchanged. *)
Definition hops_swap (router : Address) (exact_out : bool) (first : Address)
    (hops : list (Z * Address)) (amount limit : Z) (recipient : Address)
    : DecodeError + DecodedSwap :=
  match hops with
  | (fee, next) :: rest =>
      inr (mkSwap UniswapV3 router (if exact_out then next else first)
             (if exact_out then first else next) amount limit recipient fee (snd <$> rest)
             None None None)
  | [] => inl EmptyPath
  end.

Definition curve_swap (pool : Address) (i j dx : Z) : DecodeError + DecodedSwap :=
  let fits v := (0 <=? v) && (v <=? 255) in
  let refused v := inl (AbiDecode ("curve index out of u8 range: " +:+ pretty v)) in
  if fits i then
    if fits j then inr (mkSwap Curve pool 0 0 dx 0 0 0 [] (Some (i, j)) None None)
    else refused j
  else refused i.

(** One record of a 1inch chain: the pool in the low 160 bits of its word, the
    direction in bit 247. *)
Definition chain_hop (router : Address) (w : Z) (token amount limit : Z) (recipient : Address)
    : DecodedSwap :=
  mkSwap OneInchV6 router token 0 amount limit recipient 0 [] None
    (Some (w mod 2 ^ 160)) (Some (Z.testbit w 247)).

(** The token and the amount are those of the first hop, the bound that of the
    last. *)
Fixpoint chain_swaps (router token amount limit : Z) (pools : list Z) (recipient : Address)
    : list DecodedSwap :=
  match pools with
  | [] => []
  | [w] => [chain_hop router w token amount limit recipient]
  | w :: ws => chain_hop router w token amount 0 recipient :: chain_swaps router 0 0 limit ws recipient
  end.

Definition ur_swap (router : Address) (s : ur_step) : DecodeError + option DecodedSwap :=
  match s with
  | UrV3 _ exact_out recipient amount limit first hops _ =>
      on_ok Some (hops_swap router exact_out first hops amount limit recipient)
  | UrV2 _ _ recipient amount limit path _ =>
      on_ok Some (path_swap UniswapV2 router path amount limit recipient)
  | UrOther _ _ => inr None
  end.

(** The swaps of the commands in order, or the first error. *)
Fixpoint ur_swaps (router : Address) (steps : list ur_step) : DecodeError + list DecodedSwap :=
  match steps with
  | [] => inr []
  | s :: steps =>
      match ur_swap router s, ur_swaps router steps with
      | inl e, _ => inl e
      | inr _, inl e => inl e
      | inr o, inr l => inr (option_list o ++ l)
      end
  end.

Definition single (r : DecodeError + DecodedSwap) : DecodeError + list DecodedSwap :=
  on_ok (fun s => [s]) r.

Definition low_address (o : option Z) : Address :=
  match o with Some v => v mod 2 ^ 160 | None => 0 end.

(** What a call of [to] swaps when [budget] multicalls may still be opened. An
    inner call that does not decode contributes nothing. *)
Fixpoint meaning (budget : nat) (to : Address) (c : call) : DecodeError + list DecodedSwap :=
  match c with
  | V2In _ _ amount limit path recipient _ =>
      single (path_swap (router_to_v2_protocol to) to path amount limit recipient)
  | V2Out _ amount limit path recipient _ =>
      single (path_swap (router_to_v2_protocol to) to path limit amount recipient)
  | V2EthIn _ limit path recipient _ =>
      single (path_swap (router_to_v2_protocol to) to path 0 limit recipient)
  | V2EthOut amount path recipient _ =>
      single (path_swap (router_to_v2_protocol to) to path 0 amount recipient)
  | V3Single _ _ tokenIn tokenOut fee recipient amount limit _ =>
      inr [mkSwap UniswapV3 to tokenIn tokenOut amount limit recipient fee [] None None None]
  | V3Path exact_out _ first hops recipient amount limit =>
      single (hops_swap to exact_out first hops amount limit recipient)
  | VaultSwap _ _ assetIn assetOut amount _ _ _ recipient _ limit _ =>
      inr [mkSwap BalancerV2 to assetIn assetOut amount limit recipient 0 [] None None None]
  | CurveInt _ i j dx _ | CurveUint i j dx _ => single (curve_swap to i j dx)
  | BancorTrade _ source target amount limit _ beneficiary =>
      inr [mkSwap BancorV3 to source target amount limit beneficiary 0 [] None None None]
  | OneInchSwap _ src dst _ dstReceiver amount limit _ _ =>
      inr [mkSwap OneInchV6 to src dst amount limit dstReceiver 0 [] None None None]
  | Unoswap recipient token amount limit ds =>
      inr (chain_swaps to (token mod 2 ^ 160) amount limit (dex_list ds) (low_address recipient))
  | EthUnoswap recipient limit ds =>
      inr (chain_swaps to addresses.WETH 0 limit (dex_list ds) (low_address recipient))
  | V3Swap recipient amount limit pools =>
      match pools with
      | [] => inl EmptyPath
      | _ => inr (chain_swaps to 0 amount limit pools (default 0 recipient))
      end
  | Universal _ steps => ur_swaps to steps
  | Multicall _ inner =>
      match budget with
      | O => inl (UnknownSelector (fn_sel (projT1 (lower c))))
      | S budget =>
          inr (mjoin (map (fun c => match meaning budget to c with inr l => l | inl _ => [] end)
                        inner))
      end
  | Helper _ _ => inr []
  end.
End Calldata.

(** ** The decoders on their arguments *)

Section Decoded.
Context {K : Keccak} {A : SolAbi} {D : DistinctSelectors}.

Lemma abi_pack f v : encodable (STuple (fn_params f)) v -> abi f (pack (invoke f v)) = ok v.
Proof.
  intros Hv. unfold abi, pack, fn_sel, invoke. cbn [projT1 projT2]. by rewrite abi_call_inverse.
Qed.

Lemma abi_params_encode ts v : encodable (STuple ts) v ->
  abi_params ts (encode (STuple ts) v) = ok v.
Proof. intros Hv. unfold abi_params. by rewrite abi_params_inverse. Qed.

Lemma length_pack c : (4 <= length (pack c))%nat.
Proof. unfold pack. rewrite length_app. unfold fn_sel. rewrite length_selector. lia. Qed.

Lemma slice_pack c : slice (pack c) 0 4 = Ret (fn_sel (projT1 c)).
Proof.
  rewrite slice_in by apply length_pack. unfold pack. rewrite drop_0.
  by rewrite take_app_length' by (unfold fn_sel; by rewrite length_selector).
Qed.

Lemma decode_v2_call_eq router path amount limit to :
  decode_v2_call router path amount limit to
  = Ret (path_swap (router_to_v2_protocol router) router path amount limit to).
Proof. by destruct path as [|a [|b path]]. Qed.

Lemma ur_v2_swap_eq router path amount limit to :
  ur_v2_swap router path amount limit to
  = Ret (on_ok Some (path_swap UniswapV2 router path amount limit to)).
Proof. by destruct path as [|a [|b path]]. Qed.

Lemma low_address_eq v : u256_low_address v = v mod 2 ^ 160.
Proof.
  unfold u256_low_address. rewrite (drop_to_be 20 12), be_to_be.
  by change (256 ^ Z.of_nat 20) with (2 ^ 160).
Qed.

Lemma pool_word_eq w : pool_zero_for_one w = (w mod 2 ^ 160, Z.testbit w 247).
Proof.
  unfold pool_zero_for_one. rewrite (drop_to_be 20 12), be_to_be.
  change (256 ^ Z.of_nat 20) with (2 ^ 160). f_equal. unfold ZERO_FOR_ONE_BIT.
  rewrite Z.shiftl_1_l. destruct (Z.eqb_spec (Z.land w (2 ^ 247)) 0) as [E|E]; cbn [negb].
  - apply (f_equal (fun z => Z.testbit z 247)) in E.
    rewrite Z.land_spec, Z.pow2_bits_true, Z.bits_0, andb_true_r in E by lia. by rewrite E.
  - destruct (Z.testbit w 247) eqn:Hb; [done|]. destruct E. apply Z.bits_inj'. intros k Hk.
    rewrite Z.land_spec, Z.bits_0, Z.pow2_bits_eqb by lia.
    destruct (Z.eqb_spec 247 k) as [<-|]; [by rewrite Hb|apply andb_false_r].
Qed.

(** The record at position [k] of a chain of [n] more. *)
Lemma chain_imap router token amount limit recipient pools : forall k n,
  n = (k + length pools)%nat ->
  imap (fun idx w =>
    chain_hop router w (if (k + idx =? 0)%nat then token else 0)
      (if (k + idx =? 0)%nat then amount else 0)
      (if (k + idx + 1 =? n)%nat then limit else 0) recipient) pools
  = chain_swaps router (if (k =? 0)%nat then token else 0) (if (k =? 0)%nat then amount else 0)
      limit pools recipient.
Proof.
  induction pools as [|w pools IH]; intros k n Hn; [done|].
  cbn [imap]. rewrite Nat.add_0_r. simpl length in Hn.
  assert (Htail : imap ((fun idx w =>
            chain_hop router w (if (k + idx =? 0)%nat then token else 0)
              (if (k + idx =? 0)%nat then amount else 0)
              (if (k + idx + 1 =? n)%nat then limit else 0) recipient) ∘ S) pools
          = chain_swaps router 0 0 limit pools recipient).
  { etransitivity; [|apply (IH (S k) n); lia]. apply imap_ext. intros i w' _.
    cbn [compose]. by rewrite Nat.add_succ_r. }
  destruct pools as [|w' pools].
  - cbn [chain_swaps imap]. by rewrite (proj2 (Nat.eqb_eq (k + 1) n)) by (simpl in Hn; lia).
  - cbn [chain_swaps]. f_equal; [|exact Htail].
    by rewrite (proj2 (Nat.eqb_neq (k + 1) n)) by (simpl in Hn; lia).
Qed.

Lemma one_inch_chain_eq router token amount limit pools recipient :
  one_inch_chain router token amount limit pools recipient
  = chain_swaps router token amount limit pools recipient.
Proof.
  etransitivity; [|exact (chain_imap router token amount limit recipient pools 0 _ eq_refl)].
  unfold one_inch_chain. apply imap_ext. intros i w _. by rewrite pool_word_eq.
Qed.

(** ** Packed paths *)

Lemma to_be_bytes n : forall v, Forall is_byte (to_be n v).
Proof.
  induction n as [|n IH]; intros v; simpl; [constructor|].
  apply Forall_app. split; [apply IH|]. constructor; [|constructor].
  unfold is_byte. by apply Z.mod_pos_bound.
Qed.

Lemma pack_path_cons first fee next rest :
  pack_path first ((fee, next) :: rest) = to_be 20 first ++ to_be 3 fee ++ pack_path next rest.
Proof.
  unfold pack_path. rewrite fmap_cons. cbn [mjoin list_join fst snd]. by rewrite <- !app_assoc.
Qed.

Lemma length_pack_path hops : forall first, length (pack_path first hops) = (20 + 23 * length hops)%nat.
Proof.
  induction hops as [|[fee next] hops IH]; intros first.
  - unfold pack_path. cbn [fmap list_fmap mjoin list_join]. by rewrite app_nil_r, length_to_be.
  - rewrite pack_path_cons, !length_app, !length_to_be, IH. simpl length. lia.
Qed.

Lemma pack_path_bytes hops : forall first, Forall is_byte (pack_path first hops).
Proof.
  induction hops as [|[fee next] hops IH]; intros first.
  - unfold pack_path. cbn [fmap list_fmap mjoin list_join]. rewrite app_nil_r. apply to_be_bytes.
  - rewrite pack_path_cons, !Forall_app. split; [apply to_be_bytes|].
    split; [apply to_be_bytes|apply IH].
Qed.

Lemma pack_path_token hops : forall first i t, Forall (fun t => 0 <= t < 2 ^ 160) (first :: (snd <$> hops)) ->
  (first :: (snd <$> hops)) !! i = Some t -> path_token (pack_path first hops) i = t.
Proof.
  induction hops as [|[fee next] hops IH]; intros first i t Hr Hi.
  all: apply Forall_cons in Hr as [Hf Hr]; unfold path_token; destruct i as [|i].
  1, 3: injection Hi as <-; unfold pack_path; rewrite Nat.mul_0_r, drop_0.
  1, 2: rewrite take_app_length' by (by rewrite length_to_be); rewrite be_to_be;
    change (256 ^ Z.of_nat 20) with (2 ^ 160); by apply Z.mod_small.
  - done.
  - rewrite pack_path_cons, app_assoc, drop_app_ge by (rewrite length_app, !length_to_be; lia).
    rewrite length_app, !length_to_be.
    replace (23 * S i - (20 + 3))%nat with (23 * i)%nat by lia. by apply IH.
Qed.

Lemma parse_pack_path first hops : path_ok first hops ->
  exists fee next rest, hops = (fee, next) :: rest /\
    parse_v3_path (pack_path first hops) = ok (first, next, fee, snd <$> rest).
Proof.
  intros (Hf & Hne & Hh). destruct hops as [|[fee next] rest]; [done|].
  exists fee, next, rest. split; [done|].
  assert (Hr : Forall (fun t => 0 <= t < 2 ^ 160) (first :: (snd <$> (fee, next) :: rest))).
  { constructor; [done|]. apply Forall_fmap. eapply Forall_impl; [exact Hh|]. by intros [] []. }
  apply Forall_cons in Hh as [[Hfee _] _]. cbn [fst] in Hfee.
  rewrite parse_v3_path_exact by apply pack_path_bytes. rewrite length_pack_path.
  rewrite (proj2 (Nat.ltb_ge _ _)) by (simpl length; lia).
  rewrite (pack_path_token _ first 0 first Hr), (pack_path_token _ first 1 next Hr) by done.
  assert (Hlen : path_length (pack_path first ((fee, next) :: rest)) = (2 + length rest)%nat).
  { unfold path_length. rewrite length_pack_path. simpl length.
    replace (20 + 23 * S (length rest) + 3)%nat with ((2 + length rest) * 23)%nat by lia.
    by apply Nat.div_mul. }
  rewrite Hlen. do 3 f_equal; [f_equal|].
  - rewrite pack_path_cons, drop_app_length', take_app_length' by (by rewrite length_to_be).
    rewrite be_to_be. change (256 ^ Z.of_nat 3) with (2 ^ 24). by apply Z.mod_small.
  - apply list_eq. intros i. rewrite list_lookup_fmap.
    replace (2 + length rest - 2)%nat with (length rest) by lia.
    destruct ((snd <$> rest) !! i) as [t|] eqn:Ht.
    + rewrite lookup_seq_lt by (apply lookup_lt_Some in Ht; by rewrite length_fmap in Ht).
      simpl. f_equal. by apply (pack_path_token _ first (2 + i) t Hr).
    + rewrite lookup_seq_ge; [done|]. apply lookup_ge_None in Ht. by rewrite length_fmap in Ht.
Qed.

(** ** Commands of the universal router *)

Lemma opcode_flags flags op : 0 <= flags < 4 -> 0 <= op < 64 ->
  Z.land (64 * flags + op) COMMAND_TYPE_MASK = op.
Proof.
  intros Hf Ho. change COMMAND_TYPE_MASK with (Z.ones 6). rewrite Z.land_ones by lia.
  change (2 ^ 6) with 64. rewrite Z.add_comm, Z.mul_comm, Z_mod_plus_full. by apply Z.mod_small.
Qed.

Lemma ur_step_decoded router s : ur_ok s ->
  decode_ur_opcode (Z.land (ur_command s) COMMAND_TYPE_MASK) (ur_input s) router
  = Ret (ur_swap router s).
Proof.
  destruct s as [flags out recipient amount limit first hops payer
                |flags out recipient amount limit path payer|command input]; cbn [ur_ok].
  - intros (Hf & Hp & He). cbn [ur_command ur_input].
    rewrite opcode_flags by (destruct out; lia).
    destruct (parse_pack_path first hops Hp) as (fee & next & rest & -> & Hparse).
    unfold decode_ur_opcode. rewrite abi_params_encode by done. cbn [rbind ok].
    clear He. revert Hparse. generalize (pack_path first ((fee, next) :: rest)).
    intros path Hparse. destruct out; cbn -[parse_v3_path]; by rewrite Hparse.
  - intros (Hf & He). cbn [ur_command ur_input].
    rewrite opcode_flags by (destruct out; lia).
    unfold decode_ur_opcode. rewrite abi_params_encode by done.
    destruct out; cbn -[ur_v2_swap]; by rewrite ur_v2_swap_eq.
  - intros Hc. cbn [ur_command ur_input ur_swap]. unfold decode_ur_opcode.
    unfold V3_SWAP_EXACT_IN, V3_SWAP_EXACT_OUT, V2_SWAP_EXACT_IN, V2_SWAP_EXACT_OUT.
    change COMMAND_TYPE_MASK with 0x3f. rewrite !not_elem_of_cons in Hc.
    destruct Hc as (H0 & H1 & H8 & H9 & _).
    rewrite !(proj2 (Z.eqb_neq _ _)) by done. by destruct (_ =? V4_SWAP).
Qed.

Lemma ur_loop_decoded router steps : Forall ur_ok steps -> forall out,
  ur_commands_loop router (zip (map ur_command steps) (map ur_input steps)) out
  = Ret (on_ok (app out) (ur_swaps router steps)).
Proof.
  induction 1 as [|s steps Hs Hsteps IH]; intros out; cbn [map zip zip_with ur_commands_loop].
  { cbn. by rewrite app_nil_r. }
  rewrite ur_step_decoded by done. cbn [ur_swaps]. destruct (ur_swap router s) as [e|o]; [done|].
  cbn [rbind]. rewrite IH. destruct (ur_swaps router steps) as [e|l]; [done|].
  cbn [on_ok]. destruct o; [by rewrite <- app_assoc|done].
Qed.

(** ** Dispatch *)

(** Selector tests on the selector of a known function. *)
Ltac dispatch :=
  cbn [existsb]; rewrite ?sel_fn; cbn [fn_index Nat.eqb orb]; cbn [rbind ok].

Lemma no_multicall f data : f <> multicall -> f <> multicall_deadline ->
  try_extract_multicall (fn_sel f) data = ok None.
Proof.
  intros H1 H2. unfold try_extract_multicall. rewrite !sel_fn.
  rewrite !(proj2 (Nat.eqb_neq _ _)) by (intros E%fn_index_inj; done). done.
Qed.

Lemma decode_within_flat budget to (c : invocation) :
  projT1 c <> multicall -> projT1 c <> multicall_deadline ->
  decode_within budget to (pack c) = decode_flat to (fn_sel (projT1 c)) (pack c).
Proof.
  intros H1 H2. destruct budget as [|budget]; cbn [decode_within].
  all: rewrite (proj2 (Nat.ltb_ge _ _)) by apply length_pack;
    rewrite slice_pack; cbn [mbind outcome_bind].
  - done.
  - by rewrite no_multicall.
Qed.

(** A decoder on the calldata of [invoke f v]: resolve the selector tests and
    decode the arguments. *)
Ltac run_flat :=
  lazymatch goal with
  | He : encodable _ ?v |- decode_flat _ (fn_sel ?f) (pack (invoke ?f ?v)) = _ =>
      let E := fresh "E" in
      pose proof (abi_pack f v He) as E; clear He; revert E;
      generalize (pack (invoke f v)); intros ? E;
      unfold decode_flat, try_one_inch_v6; dispatch;
      unfold try_universal_router; dispatch;
      unfold try_decode_single, try_uni_v2_family; dispatch;
      unfold try_uni_v3_family; dispatch;
      unfold try_balancer, try_curve, try_bancor; dispatch;
      unfold try_is_known_non_swap_helper, non_swap_helpers; dispatch;
      rewrite ?E; cbn [rbind ok]
  end.

(** The call [c] on [to] decodes to its meaning without opening a multicall. *)
Definition decoded (to : Address) (c : call) : Prop :=
  encodable (STuple (fn_params (projT1 (lower c)))) (projT2 (lower c)) ->
  decode_flat to (fn_sel (projT1 (lower c))) (pack (lower c)) = Ret (meaning 0 to c).

Lemma decoded_v2 to c :
  match c with V2In _ _ _ _ _ _ _ | V2Out _ _ _ _ _ _ | V2EthIn _ _ _ _ _ | V2EthOut _ _ _ _ => True
             | _ => False end -> decoded to c.
Proof.
  intros Hc. unfold decoded.
  destruct c as [[] [] a l p r d|[] a l p r d|[] l p r d|a p r d| | | | | | | | | | | | |];
    try done; clear Hc; cbn [lower projT1 projT2 invoke meaning]; intros He; run_flat;
    rewrite decode_v2_call_eq; by destruct p as [|? [|??]].
Qed.

Lemma decoded_v3 to c :
  match c with
  | V3Single _ _ _ _ _ _ _ _ _ => True
  | V3Path _ _ first hops _ _ _ => path_ok first hops
  | _ => False
  end -> decoded to c.
Proof.
  intros Hc. unfold decoded.
  destruct c as [| | | |[] [d|] ti ot fee r a l sq|[] [d|] first hops r a l| | | | | | | | | | |];
    try done; cbn [lower lower_v3_single lower_v3_path projT1 projT2 invoke meaning]; intros He.
  1-4: by run_flat.
  all: destruct (parse_pack_path first hops Hc) as (fee & next & rest & -> & Hparse);
    run_flat; by rewrite Hparse.
Qed.

Lemma decoded_direct to c :
  match c with
  | VaultSwap _ _ _ _ _ _ _ _ _ _ _ _ | BancorTrade _ _ _ _ _ _ _ | Helper _ _
  | OneInchSwap _ _ _ _ _ _ _ _ _ => True
  | _ => False
  end -> match c with Helper f _ => f ∈ non_swap_helpers | _ => True end -> decoded to c.
Proof.
  intros Hc Hh. unfold decoded.
  destruct c as [| | | | | | | | |[]| | | | | | |f args]; try done; clear Hc;
    cbn [lower projT1 projT2 invoke meaning]; intros He; [by run_flat..|].
  revert args He. unfold non_swap_helpers in Hh. rewrite !elem_of_cons in Hh.
  repeat (destruct Hh as [->|Hh]; [intros args He; by run_flat|]). by apply elem_of_nil in Hh.
Qed.

Lemma int128_indices i j :
  curve_indices_from_int128 i j
  = Ret (on_ok (fun s => default (0, 0) (curve_indices s)) (curve_swap 0 i j 0)).
Proof.
  unfold curve_indices_from_int128, index_to_u8, curve_swap.
  destruct (Z.leb_spec 0 i), (Z.leb_spec i 255), (Z.ltb_spec i 0), (Z.ltb_spec 255 i); try lia;
    cbn; try done.
  destruct (Z.leb_spec 0 j), (Z.leb_spec j 255), (Z.ltb_spec j 0), (Z.ltb_spec 255 j); try lia;
    done.
Qed.

Lemma uint256_indices i j : 0 <= i -> 0 <= j ->
  curve_indices_from_uint256 i j
  = Ret (on_ok (fun s => default (0, 0) (curve_indices s)) (curve_swap 0 i j 0)).
Proof.
  intros Hi Hj. rewrite <- int128_indices.
  unfold curve_indices_from_uint256, curve_indices_from_int128, index_to_u8.
  by rewrite !(proj2 (Z.ltb_ge _ 0)) by done.
Qed.

Lemma decoded_curve to c :
  match c with CurveInt _ _ _ _ _ | CurveUint _ _ _ _ => True | _ => False end -> decoded to c.
Proof.
  intros Hc. unfold decoded.
  destruct c as [| | | | | | |[] i j dx m|i j dx m| | | | | | | |]; try done; clear Hc;
    cbn [lower projT1 projT2 invoke meaning]; intros He.
  3: assert (0 <= i /\ 0 <= j) as [Hi Hj] by (destruct He as [(Hi & Hj & _) _]; cbn in *; lia).
  all: run_flat; rewrite ?int128_indices, ?uint256_indices by done; unfold curve_swap;
    destruct ((0 <=? i) && (i <=? 255)); [|done]; by destruct ((0 <=? j) && (j <=? 255)).
Qed.

Lemma decoded_one_inch to c :
  match c with Unoswap _ _ _ _ _ | EthUnoswap _ _ _ | V3Swap _ _ _ _ => True | _ => False end ->
  decoded to c.
Proof.
  intros Hc. unfold decoded.
  destruct c as [| | | | | | | | | | |[r|] t a l []|[r|] l []|[r|] a l p| | |]; try done; clear Hc;
    cbn [lower lower_unoswap lower_eth_unoswap projT1 projT2 invoke meaning]; intros He; run_flat;
    cbn zeta; rewrite ?one_inch_chain_eq, ?low_address_eq; try done; by destruct p.
Qed.

Lemma decoded_universal to deadline steps : Forall ur_ok steps ->
  decoded to (Universal deadline steps).
Proof.
  intros Hs. unfold decoded.
  destruct deadline; cbn [lower projT1 projT2 invoke meaning]; intros He; run_flat;
    rewrite !length_map, Nat.eqb_refl; cbn [negb]; rewrite ur_loop_decoded by done;
    by destruct (ur_swaps to steps).
Qed.

(** ** Every call *)

Definition flat (c : call) : bool := match c with Multicall _ _ => false | _ => true end.

Lemma flat_meaning budget to c : flat c = true -> meaning budget to c = meaning 0 to c.
Proof. by destruct c, budget. Qed.

Lemma flat_decoded to c : flat c = true -> sendable c -> decoded to c.
Proof.
  intros Hc Hs. destruct c; try done; destruct Hs as [_ Hs].
  1-4: by apply decoded_v2.
  1-2: by apply decoded_v3.
  all: try (by apply decoded_direct); try (by apply decoded_curve); try (by apply decoded_one_inch).
  by apply decoded_universal.
Qed.

Lemma inner_loop_decoded decode inner f :
  (forall c, c ∈ inner -> decode (calldata c) = Ret (f c)) -> forall out,
  inner_calls_loop decode (map calldata inner) out
  = ok (out ++ mjoin (map (fun c => match f c with inr l => l | inl _ => [] end) inner)).
Proof.
  induction inner as [|c inner IH]; intros Hd out; cbn [map inner_calls_loop mjoin list_join].
  { by rewrite app_nil_r. }
  rewrite (proj2 (Nat.ltb_ge _ _)) by apply length_pack.
  rewrite Hd by left. destruct (f c) as [e|l]; rewrite IH by (intros; apply Hd; by right);
    by rewrite <- ?app_assoc.
Qed.

Lemma sendable_inner inner c :
  foldr (fun c P => sendable c /\ P) True inner -> c ∈ inner -> sendable c.
Proof.
  induction inner as [|c' inner IH]; cbn [foldr]; intros H Hin; [by apply elem_of_nil in Hin|].
  destruct H as [Hc H]. apply elem_of_cons in Hin as [->|Hin]; [done|by apply IH].
Qed.

Lemma flat_function c : flat c = true -> sendable c ->
  projT1 (lower c) <> multicall /\ projT1 (lower c) <> multicall_deadline.
Proof.
  intros Hf Hs. destruct c as [[] []|[]|[]| |[] []|[] []| |[]| |[]| |[] ? ? ? []|[] ? []|[]|[]| |f];
    try done.
  destruct Hs as [_ Hs]. cbn [lower invoke projT1].
  split; intros ->; revert Hs; apply (bool_decide_unpack _); by vm_compute.
Qed.

Lemma multicall_unknown to d inner : sendable (Multicall d inner) ->
  decode_within 0 to (calldata (Multicall d inner)) = Ret (meaning 0 to (Multicall d inner)).
Proof.
  intros [He _]. unfold calldata. cbn [decode_within].
  rewrite (proj2 (Nat.ltb_ge _ _)) by apply length_pack. rewrite slice_pack.
  cbn [mbind outcome_bind]. destruct d; cbn [lower projT1 projT2 invoke meaning] in *; by run_flat.
Qed.

Lemma multicall_opened budget to d inner : sendable (Multicall d inner) ->
  decode_within (S budget) to (calldata (Multicall d inner))
  = inner_calls_loop (decode_within budget to) (map calldata inner) [].
Proof.
  intros [He _]. unfold calldata at 1. cbn [decode_within].
  rewrite (proj2 (Nat.ltb_ge _ _)) by apply length_pack. rewrite slice_pack.
  cbn [mbind outcome_bind]. unfold try_extract_multicall.
  destruct d; cbn [lower projT1 projT2 invoke] in *;
    dispatch; match goal with |- context [abi ?f _] => rewrite (abi_pack f _ He) end; done.
Qed.

Lemma decode_within_exact budget : forall to c, sendable c ->
  decode_within budget to (calldata c) = Ret (meaning budget to c).
Proof.
  induction budget as [|budget IH]; intros to c Hs; destruct (flat c) eqn:Hf.
  1, 3: destruct (flat_function c Hf Hs); unfold calldata; rewrite decode_within_flat by done;
    (etransitivity; [apply flat_decoded; [done..|]|f_equal; symmetry; by apply flat_meaning]);
    by destruct c; destruct Hs.
  - destruct c; try done. by apply multicall_unknown.
  - destruct c as [| | | | | | | | | | | | | | |d inner|]; try done.
    rewrite multicall_opened by done. apply inner_loop_decoded with (out := []).
    intros c Hc. apply IH. by apply (sendable_inner inner); [destruct Hs|].
Qed.


(** [decode_pending] returns the first swap of the call or its error, and
    panics exactly when the call decodes to no swap at all. *)
Theorem decode_pending_exact to c : sendable c -> is_unsupported_curve_router to = false ->
  decode_pending to (calldata c)
  = match meaning MAX_MULTICALL_DEPTH to c with
    | inl e => err e
    | inr [] => Panic
    | inr (s :: _) => ok s
    end.
Proof.
  intros Hs Hto. unfold decode_pending, decode_pending_many, decode_at_depth. rewrite Hto.
  rewrite (proj2 (Nat.ltb_ge _ _)) by apply length_pack.
  rewrite (decode_within_exact _ to c Hs). by destruct (meaning _ _ _) as [|[]].
Qed.
End Decoded.

(** ** Examples *)

(** A permit, a V2 swap over two hops, and an exact-output V3 swap inside an
    inner multicall. *)
Definition sample_call : call :=
  Multicall (Some 1700000000)
    [Helper refundETH tt;
     V2In false false 1000 990 [11; 12; 13] 77 1700000000;
     Multicall None [V3Path true None 21 [(3000, 22)] 78 500 600]].

(** A closed value is encodable by computation. *)
Ltac encodable_value := apply encodableb_sound; vm_compute; reflexivity.

Lemma sample_sendable : sendable (K:=keccak_reference) sample_call.
Proof.
  unfold sample_call. cbn [sendable foldr].
  split; [encodable_value|split; [split; [encodable_value|]|]].
  { apply (bool_decide_unpack _). vm_compute. exact I. }
  split; [split; [encodable_value|done]|split; [|done]].
  split; [encodable_value|split; [|done]]. split; [encodable_value|].
  by repeat split; repeat constructor.
Qed.


(** Adding liquidity through the router: nothing to report, and a panic in the
    single-swap entry point. *)
Lemma decode_pending_exact_witness :
  decode_pending (K:=keccak_reference) (A:=abi_reference) 1000
    (calldata (K:=keccak_reference)
       (Helper addLiquidity (1, (2, (3, (4, (5, (6, (7, (8, tt)))))))))) = Panic.
Proof.
  etransitivity.
  - apply (decode_pending_exact (K:=keccak_reference) (A:=abi_reference)
             (D:=reference_selectors) 1000); [|reflexivity].
    split; [encodable_value|apply (bool_decide_unpack _); vm_compute; exact I].
  - reflexivity.
Defined.
End RouterSpec.
