(* ===== verification/Pipeline.v ===== *)
(** * Execution calldata and the message to the executor

    [crates/simulator/src/calldata.rs] builds the calldata of
    [AetherExecutor.executeArb]; [crates/grpc-server/src/pipeline.rs] assembles
    the [ValidatedArb] message the Go executor receives. The ABI encoder is the
    alloy crate's ([SolAbi]). What the receivers read back is what was sent. *)

From Stdlib Require Import ZArith Lia String.
From S2P Require Import Prelude.
From S2P Require Import Machine.
From S2P Require Import Types.
From S2P Require Import Bytes.
From S2P Require Import Keccak.
From S2P Require Import Abi.
From stdpp Require Import base option numbers strings list.

Local Open Scope Z_scope.

Module Pipeline.

(** ** Execution calldata *)

Definition SolSwapStep : list sol :=
  [SUint 8; SAddress; SAddress; SAddress; SUint 256; SUint 256; SBytes].
Definition executeArb_params : list sol :=
  [SArray (STuple SolSwapStep); SAddress; SUint 256; SUint 256; SUint 256; SUint 256].

(** One element of [sol_steps]. *)
Definition sol_step (s : SwapStep) : params SolSwapStep :=
  (protocol_code (step_protocol s), (step_pool_address s, (step_token_in s, (step_token_out s,
   (step_amount_in s, (step_min_amount_out s, (step_calldata s, tt))))))).

Definition executeArb_args (steps : list SwapStep) (flashloan_token : Address)
    (flashloan_amount deadline min_profit_out tip_bps : Z) : params executeArb_params :=
  (map sol_step steps, (flashloan_token, (flashloan_amount, (deadline, (min_profit_out,
   (tip_bps, tt)))))).

Section Calldata.
Context {K : Keccak} {A : SolAbi}.

Definition build_execute_arb_calldata (steps : list SwapStep) (flashloan_token : Address)
    (flashloan_amount deadline min_profit_out tip_bps : Z) : list Z :=
  abi_encode_call "executeArb" executeArb_params
    (executeArb_args steps flashloan_token flashloan_amount deadline min_profit_out tip_bps).

Definition build_univ2_swap_calldata (amount0_out amount1_out : Z) (to : Address) : list Z :=
  abi_encode_call "swap" [SUint 256; SUint 256; SAddress; SBytes]
    (amount0_out, (amount1_out, (to, ([], tt)))).

(** [amount_specified] is an [i128], which always fits the [I256]. *)
Definition build_univ3_swap_calldata (recipient : Address) (zero_for_one : bool)
    (amount_specified sqrt_price_limit_x96 : Z) : list Z :=
  let max_uint160 := 2 ^ 160 - 1 in
  let clamped := Z.min sqrt_price_limit_x96 max_uint160 in
  abi_encode_call "swap" [SAddress; SBool; SInt 256; SUint 160; SBytes]
    (recipient, (zero_for_one, (amount_specified, (clamped, ([], tt))))).

(** What the contract reads: the steps with their protocols, and the other
    arguments. An unknown protocol code is a failure. *)
Definition read_step (v : params SolSwapStep) : option SwapStep :=
  let '(code, (pool, (token_in, (token_out, (amount_in, (min_out, (data, _))))))) := v in
  p ← protocol_of_code code;
  Some (mkSwapStep p pool token_in token_out amount_in min_out data).

Definition read_execute_arb (calldata : list Z) : option (list SwapStep * (Address * Z * Z * Z * Z)) :=
  match abi_decode_call "executeArb" executeArb_params calldata with
  | inr (steps, (token, (amount, (deadline, (min_profit, (tip, _)))))) =>
      steps ← mapM read_step steps; Some (steps, (token, amount, deadline, min_profit, tip))
  | inl _ => None
  end.
End Calldata.

(** A step whose fields have the widths of their Rust types. *)
Definition step_ok (s : SwapStep) : Prop :=
  in_u 160 (step_pool_address s) /\ in_u 160 (step_token_in s) /\ in_u 160 (step_token_out s) /\
  in_u 256 (step_amount_in s) /\ in_u 256 (step_min_amount_out s) /\
  Forall is_byte (step_calldata s).

Lemma sol_step_in_range s : step_ok s -> in_range (STuple SolSwapStep) (sol_step s).
Proof.
  intros (H1 & H2 & H3 & H4 & H5 & H6). unfold in_u in *. cbn.
  assert (0 <= protocol_code (step_protocol s) < 2 ^ 8) by (destruct (step_protocol s); simpl; lia).
  repeat split; try lia; try done.
Qed.

Lemma read_sol_step s : read_step (sol_step s) = Some s.
Proof. destruct s as [p ? ? ? ? ? ?]. unfold read_step, sol_step. cbn. by destruct p. Qed.

Lemma read_sol_steps steps : mapM read_step (map sol_step steps) = Some steps.
Proof.
  induction steps as [|s steps IH]; [done|]. cbn [map mapM]. rewrite read_sol_step, IH. done.
Qed.


(** ** The message *)

Record ProtoArbHop : Type := mkProtoHop {
  ph_protocol : Z;
  ph_pool_address : list Z;
  ph_token_in : list Z;
  ph_token_out : list Z;
  ph_amount_in : list Z;
  ph_expected_out : list Z;
  ph_estimated_gas : Z;
}.

Record ProtoSwapStep : Type := mkProtoStep {
  ps_protocol : Z;
  ps_pool_address : list Z;
  ps_token_in : list Z;
  ps_token_out : list Z;
  ps_amount_in : list Z;
  ps_min_amount_out : list Z;
  ps_calldata : list Z;
}.

Record ProtoValidatedArb : Type := mkProtoArb {
  pa_id : string;
  pa_hops : list ProtoArbHop;
  pa_total_profit_wei : list Z;
  pa_total_gas : Z;
  pa_gas_cost_wei : list Z;
  pa_net_profit_wei : list Z;
  pa_block_number : Z;
  pa_timestamp_ns : Z;
  pa_flashloan_token : list Z;
  pa_flashloan_amount : list Z;
  pa_steps : list ProtoSwapStep;
  pa_calldata : list Z;
  pa_source : Z;
  pa_victim_tx_hash : list Z;
  pa_target_block : Z;
  pa_victim_raw_tx : list Z;
}.

Definition BLOCK_DRIVEN : Z := 1.

Definition address_to_bytes (a : Address) : list Z := to_be 20 a.
Definition u256_to_bytes (v : Z) : list Z := to_be 32 v.

(** The numbers of the proto enum. *)
Definition protocol_to_proto (p : ProtocolType) : Z :=
  match p with
  | UniswapV2 => 1
  | UniswapV3 => 2
  | SushiSwap => 3
  | Curve => 4
  | BalancerV2 => 5
  | BalancerV3 => 7
  | BancorV3 => 6
  end.

Definition arb_hop_to_proto (h : ArbHop) : ProtoArbHop :=
  mkProtoHop (protocol_to_proto (hop_protocol h)) (address_to_bytes (hop_pool_address h))
    (address_to_bytes (hop_token_in h)) (address_to_bytes (hop_token_out h))
    (u256_to_bytes (hop_amount_in h)) (u256_to_bytes (hop_expected_out h)) (hop_estimated_gas h).

Definition swap_step_to_proto (s : SwapStep) : ProtoSwapStep :=
  mkProtoStep (protocol_to_proto (step_protocol s)) (address_to_bytes (step_pool_address s))
    (address_to_bytes (step_token_in s)) (address_to_bytes (step_token_out s))
    (u256_to_bytes (step_amount_in s)) (u256_to_bytes (step_min_amount_out s)) (step_calldata s).

(** By value; the buffer is moved. *)
Definition swap_step_into_proto (s : SwapStep) : ProtoSwapStep := swap_step_to_proto s.

Definition validated_arb_to_proto (a : ValidatedArb) : ProtoValidatedArb :=
  mkProtoArb (arb_id a) (arb_hop_to_proto <$> arb_hops a) (u256_to_bytes (arb_total_profit_wei a))
    (arb_total_gas a) (u256_to_bytes (arb_gas_cost_wei a)) (u256_to_bytes (arb_net_profit_wei a))
    (arb_block_number a) (arb_timestamp_ns a) (address_to_bytes (arb_flashloan_token a))
    (u256_to_bytes (arb_flashloan_amount a)) (swap_step_to_proto <$> arb_steps a) (arb_calldata a)
    BLOCK_DRIVEN [] (u64_saturating_add (arb_block_number a) 1) [].

Definition build_validated_arb (opportunity : ArbOpportunity) (sim_result : SimulationResult)
    (flashloan_token : Address) (flashloan_amount : Z) (steps : list SwapStep)
    (calldata : list Z) : ProtoValidatedArb :=
  let total_gas :=
    if 0 <? sim_gas_used sim_result then sim_gas_used sim_result else opp_total_gas opportunity in
  let net_profit_wei :=
    if 0 <? sim_profit_wei sim_result then sim_profit_wei sim_result
    else opp_net_profit_wei opportunity in
  mkProtoArb (opp_id opportunity) (arb_hop_to_proto <$> opp_hops opportunity)
    (u256_to_bytes (opp_total_profit_wei opportunity)) total_gas
    (u256_to_bytes (opp_gas_cost_wei opportunity)) (u256_to_bytes net_profit_wei)
    (opp_block_number opportunity) (opp_timestamp_ns opportunity)
    (address_to_bytes flashloan_token) (u256_to_bytes flashloan_amount)
    (swap_step_into_proto <$> steps) calldata BLOCK_DRIVEN []
    (u64_saturating_add (opp_block_number opportunity) 1) [].

(** What the receiver reads: big-endian numbers and enum numbers. *)
Definition read_proto_step (s : ProtoSwapStep) : option SwapStep :=
  p ← protocol_of_code (ps_protocol s);
  Some (mkSwapStep p (be (ps_pool_address s)) (be (ps_token_in s)) (be (ps_token_out s))
          (be (ps_amount_in s)) (be (ps_min_amount_out s)) (ps_calldata s)).

Definition read_proto_hop (h : ProtoArbHop) : option ArbHop :=
  p ← protocol_of_code (ph_protocol h);
  Some (mkArbHop p (be (ph_pool_address h)) (be (ph_token_in h)) (be (ph_token_out h))
          (be (ph_amount_in h)) (be (ph_expected_out h)) (ph_estimated_gas h)).

Definition hop_ok (h : ArbHop) : Prop :=
  in_u 160 (hop_pool_address h) /\ in_u 160 (hop_token_in h) /\ in_u 160 (hop_token_out h) /\
  in_u 256 (hop_amount_in h) /\ in_u 256 (hop_expected_out h).

(** The proto enum and the contract's codes are the same numbers. *)
Lemma protocol_codes_agree p : protocol_of_code (protocol_to_proto p) = Some p.
Proof. by destruct p. Qed.

Lemma be_address a : in_u 160 a -> be (address_to_bytes a) = a.
Proof.
  intros H. unfold address_to_bytes. rewrite be_to_be. change (256 ^ Z.of_nat 20) with (2 ^ 160).
  by apply Z.mod_small.
Qed.
Lemma be_u256 v : in_u 256 v -> be (u256_to_bytes v) = v.
Proof.
  intros H. unfold u256_to_bytes. rewrite be_to_be. change (256 ^ Z.of_nat 32) with (2 ^ 256).
  by apply Z.mod_small.
Qed.

Lemma read_step_to_proto s : step_ok s -> read_proto_step (swap_step_to_proto s) = Some s.
Proof.
  intros (H1 & H2 & H3 & H4 & H5 & _). unfold read_proto_step, swap_step_to_proto.
  cbn [ps_protocol ps_pool_address ps_token_in ps_token_out ps_amount_in ps_min_amount_out ps_calldata].
  rewrite protocol_codes_agree. simpl mbind. rewrite !be_address, !be_u256 by done. by destruct s.
Qed.

Lemma read_hop_to_proto h : hop_ok h -> read_proto_hop (arb_hop_to_proto h) = Some h.
Proof.
  intros (H1 & H2 & H3 & H4 & H5). unfold read_proto_hop, arb_hop_to_proto.
  cbn [ph_protocol ph_pool_address ph_token_in ph_token_out ph_amount_in ph_expected_out
       ph_estimated_gas].
  rewrite protocol_codes_agree. simpl mbind. rewrite !be_address, !be_u256 by done. by destruct h.
Qed.

Lemma mapM_round_trip {X Y} (f : X -> Y) (g : Y -> option X) (P : X -> Prop) l :
  (forall x, P x -> g (f x) = Some x) -> Forall P l -> mapM g (f <$> l) = Some l.
Proof.
  intros Hfg. induction 1 as [|x l Hx Hl IH]; [done|].
  rewrite fmap_cons. cbn [mapM]. rewrite Hfg by done. by rewrite IH.
Qed.

(** The message built from an opportunity and its simulation: the receiver
    reads back the hops, the steps, the loan and the calldata; gas and profit
    are the simulated ones when the simulation reports them; the bundle targets
    the block after the one the opportunity was seen at. *)
Theorem validated_arb_round_trip opp sim token amount steps calldata :
  Forall hop_ok (opp_hops opp) -> Forall step_ok steps -> in_u 160 token -> in_u 256 amount ->
  in_u 256 (opp_net_profit_wei opp) -> in_u 256 (sim_profit_wei sim) ->
  in_u 64 (opp_block_number opp) ->
  let m := build_validated_arb opp sim token amount steps calldata in
  mapM read_proto_hop (pa_hops m) = Some (opp_hops opp) /\
  mapM read_proto_step (pa_steps m) = Some steps /\
  be (pa_flashloan_token m) = token /\ be (pa_flashloan_amount m) = amount /\
  pa_calldata m = calldata /\
  be (pa_net_profit_wei m)
    = (if decide (sim_profit_wei sim = 0) then opp_net_profit_wei opp else sim_profit_wei sim) /\
  pa_target_block m = Z.min (opp_block_number opp + 1) u64_max.
Proof.
  intros Hh Hs Ht Ha Hn Hp Hb. cbn zeta. unfold build_validated_arb.
  cbn [pa_hops pa_steps pa_flashloan_token pa_flashloan_amount pa_calldata pa_net_profit_wei
       pa_target_block].
  split; [by apply (mapM_round_trip _ _ hop_ok), Hh; apply read_hop_to_proto|].
  split; [by apply (mapM_round_trip _ _ step_ok), Hs; apply read_step_to_proto|].
  rewrite be_address, be_u256 by done. do 3 (split; [done|]). split.
  - rewrite be_u256 by (by destruct (0 <? sim_profit_wei sim)).
    unfold in_u in Hp. destruct (Z.ltb_spec 0 (sim_profit_wei sim)), (decide (sim_profit_wei sim = 0));
      try done; lia.
  - unfold u64_saturating_add, saturate, u64_max. unfold in_u in Hb. lia.
Qed.

(** ** Examples *)

Definition sample_steps : list SwapStep :=
  [mkSwapStep UniswapV2 7 addresses.WETH addresses.USDC (10 ^ 18) 1980000000 [];
   mkSwapStep SushiSwap 8 addresses.USDC addresses.WETH 1980000000 (10 ^ 18 + 5) [1; 2; 255]].

Lemma sample_steps_ok : Forall step_ok sample_steps.
Proof. repeat constructor; unfold is_byte; vm_compute; done. Qed.


Definition sample_opp : ArbOpportunity :=
  mkArbOpportunity "arb-5-0-1-0"
    [mkArbHop UniswapV2 7 addresses.WETH addresses.USDC (10 ^ 18) 2000000000 60000]
    (10 ^ 15) 191000 (10 ^ 14) (9 * 10 ^ 14) u64_max 0.

(** At the last block number the target saturates. *)
Lemma validated_arb_round_trip_witness :
  let m := build_validated_arb sample_opp (mkSimulationResult true 0 0 None) addresses.WETH (10 ^ 18)
             sample_steps [1; 2] in
  be (pa_net_profit_wei m) = 9 * 10 ^ 14 /\ pa_target_block m = u64_max.
Proof.
  destruct (validated_arb_round_trip sample_opp (mkSimulationResult true 0 0 None) addresses.WETH
              (10 ^ 18) sample_steps [1; 2]) as (_ & _ & _ & _ & _ & Hn & Ht).
  - repeat constructor; vm_compute; done.
  - apply sample_steps_ok.
  - vm_compute. done.
  - vm_compute. done.
  - vm_compute. done.
  - vm_compute. done.
  - vm_compute. done.
  - split; [rewrite Hn; reflexivity|rewrite Ht; reflexivity].
Defined.
End Pipeline.
