(* ===== verification/Engine.v ===== *)
(** * The engine: state and event handlers

    [crates/grpc-server/src/engine.rs]: the state the engine keeps (working
    graph, published snapshots, token index, pool registry, pool states,
    reserves cache, hot cache) and the handlers that change it. Reserve
    fetching is in [Bootstrap], the detection cycle in [Detection].
    The operations run to completion one after the other, as on the event loop;
    readers of the snapshots are in [Snapshot]. The trade ledger and the
    metrics are sinks and are left out. *)

From Stdlib Require Import ZArith Lia String.
From S2P Require Import Prelude.
From S2P Require Import Machine.
From S2P Require Import F64.
From S2P Require Import Types.
From S2P Require Import UniswapV2.
From S2P Require Import UniswapV3.
From S2P Require Import PoolState.
From S2P Require Import TokenIndex.
From S2P Require Import PriceGraph.
From S2P Require Import Snapshot.
From S2P Require Import EventDecoder.
From S2P Require Import CycleGating.
From S2P Require Import V2ReservesCache.
From S2P Require Import Discovery.
From S2P Require Import HotCache.
From stdpp Require Import base option numbers strings gmap sets list.

Local Open Scope Z_scope.

Module Engine.

(** ** Configuration and state *)

Definition normalize_to_http_scheme (url : string) : string :=
  if String.prefix "wss://" url
  then "https://" +:+ String.substring 6 (String.length url - 6) url
  else if String.prefix "ws://" url
  then "http://" +:+ String.substring 5 (String.length url - 5) url
  else url.

Record EngineConfig : Type := mkConfig {
  max_hops : nat;
  detection_time_budget_us : Z;
  min_profit_threshold_wei : Z;
  gas_price_gwei : f64;
  rpc_url : option string;
  executor_address : Address;
  tip_bps : Z;
  slippage_bps : Z;
  max_parallel_sims : nat;
  gating : GatingConfig;
  min_liquidity_weth : f64;
}.

Definition default_config : EngineConfig :=
  mkConfig 4 3000 5000000000000000 (f64_of_Z 30) None zero_address 9000 100 4 default_gating
    f64_one.

Record PoolMetadata : Type := mkMeta {
  token0_idx : nat;
  token1_idx : nat;
  meta_token0 : Address;
  meta_token1 : Address;
  meta_pool_id : PoolId;
  meta_protocol : ProtocolType;
  meta_fee_bps : Z;
  tick_spacing : option Z;
  bytecode_warmed : bool;
}.

Record BlockInfo : Type := mkBlock { number : Z; timestamp : Z; base_fee : Z }.

Record t : Type := mkEngine {
  config : EngineConfig;
  working_graph : PriceGraph.t;
  snapshot_manager : SnapshotManager (G:=PriceGraph.t);
  current_block : BlockInfo;
  token_index : TokenIndex.t;
  pool_registry : gmap Z PoolMetadata;
  pool_states : PoolStateCache;
  has_rpc : bool;
  has_bytecode_cache : bool;
  v2_reserves_cache : V2ReservesCache.V2ReservesCache;
  hot_cache : option HotCache.HotCache;
}.

(** Assignments to the fields the handlers store. *)
Definition set_graph (e : t) (g : PriceGraph.t) : t :=
  mkEngine (config e) g (snapshot_manager e) (current_block e) (token_index e) (pool_registry e)
    (pool_states e) (has_rpc e) (has_bytecode_cache e) (v2_reserves_cache e) (hot_cache e).
Definition set_snapshots (e : t) (s : SnapshotManager (G:=PriceGraph.t)) : t :=
  mkEngine (config e) (working_graph e) s (current_block e) (token_index e) (pool_registry e)
    (pool_states e) (has_rpc e) (has_bytecode_cache e) (v2_reserves_cache e) (hot_cache e).
Definition set_block (e : t) (b : BlockInfo) : t :=
  mkEngine (config e) (working_graph e) (snapshot_manager e) b (token_index e) (pool_registry e)
    (pool_states e) (has_rpc e) (has_bytecode_cache e) (v2_reserves_cache e) (hot_cache e).
Definition set_index (e : t) (ti : TokenIndex.t) : t :=
  mkEngine (config e) (working_graph e) (snapshot_manager e) (current_block e) ti (pool_registry e)
    (pool_states e) (has_rpc e) (has_bytecode_cache e) (v2_reserves_cache e) (hot_cache e).
Definition set_registry (e : t) (r : gmap Z PoolMetadata) : t :=
  mkEngine (config e) (working_graph e) (snapshot_manager e) (current_block e) (token_index e) r
    (pool_states e) (has_rpc e) (has_bytecode_cache e) (v2_reserves_cache e) (hot_cache e).
Definition set_states (e : t) (s : PoolStateCache) : t :=
  mkEngine (config e) (working_graph e) (snapshot_manager e) (current_block e) (token_index e)
    (pool_registry e) s (has_rpc e) (has_bytecode_cache e) (v2_reserves_cache e) (hot_cache e).
Definition set_reserves_cache (e : t) (c : V2ReservesCache.V2ReservesCache) : t :=
  mkEngine (config e) (working_graph e) (snapshot_manager e) (current_block e) (token_index e)
    (pool_registry e) (pool_states e) (has_rpc e) (has_bytecode_cache e) c (hot_cache e).
Definition set_hot_cache (e : t) (c : HotCache.HotCache) : t :=
  mkEngine (config e) (working_graph e) (snapshot_manager e) (current_block e) (token_index e)
    (pool_registry e) (pool_states e) (has_rpc e) (has_bytecode_cache e) (v2_reserves_cache e)
    (Some c).

(** [new_with_metrics_and_ledger]: whether a provider and a bytecode cache could
    be set up is decided by the environment. *)
Definition new (cfg : EngineConfig) (rpc bytecode : bool) : t :=
  let initial_graph := PriceGraph.new 100 in
  mkEngine cfg initial_graph (manager_new initial_graph) (mkBlock 0 0 0) TokenIndex.new ∅
    new_pool_state_cache rpc bytecode V2ReservesCache.new None.

Definition token_identity_matches (meta_t0 meta_t1 chain_t0 chain_t1 : Address) : bool :=
  (meta_t0 =? chain_t0) && (meta_t1 =? chain_t1).

Definition edge_caps_optimizer_input (edge : PriceEdge) : bool :=
  negb (bool_decide (edge_protocol edge = UniswapV3)) && negb (liquidity edge =? 0).

Section Handlers.
Context `{B : Build} `{M : Libm}.

(** [10000 - self.fee_bps] is a [u32] subtraction. *)
Definition fee_factor (m : PoolMetadata) : outcome f64 :=
  d ← u32_sub 10000 (meta_fee_bps m);
  Ret (f64_div (f64_of_Z d) (f64_of_Z 10000)).

(** ** Registration *)

Definition graph_integrated (p : ProtocolType) : bool :=
  match p with UniswapV2 | UniswapV3 | SushiSwap => true | _ => false end.

(** The block that holds the graph lock. *)
Definition register_in_graph (cfg : EngineConfig) (g : PriceGraph.t) (num_tokens t0_idx t1_idx : nat)
    (token0 token1 : Address) (pool_id : PoolId) (pool_addr : Address) (protocol : ProtocolType)
    : outcome PriceGraph.t :=
  let g := PriceGraph.resize g num_tokens in
  let g := PriceGraph.set_token_decimals g t0_idx (default 18 (known_token_decimals token0)) in
  let g := PriceGraph.set_token_decimals g t1_idx (default 18 (known_token_decimals token1)) in
  let g :=
    if token0 =? addresses.WETH then
      PriceGraph.set_min_liquidity_weth (PriceGraph.set_weth_vertex g t0_idx)
        (min_liquidity_weth cfg)
    else if token1 =? addresses.WETH then
      PriceGraph.set_min_liquidity_weth (PriceGraph.set_weth_vertex g t1_idx)
        (min_liquidity_weth cfg)
    else g in
  if graph_integrated protocol then
    g ← PriceGraph.add_edge g t0_idx t1_idx f64_one pool_id pool_addr protocol 0;
    PriceGraph.add_edge g t1_idx t0_idx f64_one pool_id pool_addr protocol 0
  else Ret g.

Definition register_pool_with_tick_spacing (e : t) (pool_addr token0 token1 : Address)
    (protocol : ProtocolType) (fee_bps : Z) (tick_spacing : option Z) : outcome t :=
  let '(t0_idx, ti) := TokenIndex.get_or_insert (token_index e) token0 in
  let '(t1_idx, ti) := TokenIndex.get_or_insert ti token1 in
  let num_tokens := TokenIndex.len ti in
  let e := set_index e ti in
  let pool_id := mkPoolId pool_addr protocol in
  let metadata :=
    mkMeta t0_idx t1_idx token0 token1 pool_id protocol fee_bps tick_spacing
      (negb (has_bytecode_cache e)) in
  let e := set_registry e (<[pool_addr := metadata]> (pool_registry e)) in
  g ← register_in_graph (config e) (working_graph e) num_tokens t0_idx t1_idx token0 token1
        pool_id pool_addr protocol;
  Ret (set_graph e g).

Definition register_pool (e : t) (pool_addr token0 token1 : Address) (protocol : ProtocolType)
    (fee_bps : Z) : outcome t :=
  register_pool_with_tick_spacing e pool_addr token0 token1 protocol fee_bps None.

Definition mark_pool_bytecode_warmed (e : t) (pool_addr : Address) : t :=
  match pool_registry e !! pool_addr with
  | Some m =>
      set_registry e (<[pool_addr :=
        mkMeta (token0_idx m) (token1_idx m) (meta_token0 m) (meta_token1 m) (meta_pool_id m)
          (meta_protocol m) (meta_fee_bps m) (tick_spacing m) true]> (pool_registry e))
  | None => e
  end.

Definition pool_ready_for_simulation (e : t) (pool_addr : Address) : bool :=
  match pool_registry e !! pool_addr with
  | Some m => bytecode_warmed m || negb (has_bytecode_cache e)
  | None => false
  end.

Definition remove_pool (e : t) (pool_addr : Address) : outcome t :=
  match pool_registry e !! pool_addr with
  | None => Ret e
  | Some m =>
      let pool_id := meta_pool_id m in
      let e := set_registry e (delete pool_addr (pool_registry e)) in
      let graph := PriceGraph.remove_pool_edges (working_graph e) pool_id in
      let e := set_graph e graph in
      s ← publish (snapshot_manager e) graph (number (current_block e)) 0;
      let e := set_snapshots e s in
      Ret (set_states e (delete pool_addr (pool_states e)))
  end.

(** ** Pool updates *)

Definition build_v2_pool_state (pool_addr : Address) (m : PoolMetadata) (reserve0 reserve1 : Z)
    : PoolState :=
  let p := UniswapV2Pool.new pool_addr (meta_token0 m) (meta_token1 m) (meta_fee_bps m) in
  let p := UniswapV2Pool.update_state p reserve0 reserve1 in
  match meta_protocol m with
  | SushiSwap => StSushiSwap p
  | _ => StUniswapV2 p
  end.

Definition v2_family (p : ProtocolType) : bool :=
  match p with UniswapV2 | SushiSwap => true | _ => false end.

(** Both directions of a pool get the reserves. *)
Definition seed_reserves (g : PriceGraph.t) (m : PoolMetadata) (r0 r1 fee : f64)
    : outcome PriceGraph.t :=
  g ← PriceGraph.update_edge_from_reserves g (token0_idx m) (token1_idx m) (meta_pool_id m) r0 r1 fee;
  PriceGraph.update_edge_from_reserves g (token1_idx m) (token0_idx m) (meta_pool_id m) r1 r0 fee.

(** [(sqrt_f64 / TWO_POW_96).powi(2)]. *)
Definition v3_price (sqrt_price_x96 : Z) : f64 :=
  f64_powi (f64_div (u256_to_f64 sqrt_price_x96) TWO_POW_96_F64) 2.

(** The graph part of a V3 update: marginal rates, then virtual reserves. *)
Definition seed_v3 (g : PriceGraph.t) (m : PoolMetadata) (pool : Address)
    (sqrt_price_x96 liquidity : Z) (price fee : f64) : outcome PriceGraph.t :=
  g ← PriceGraph.add_edge g (token0_idx m) (token1_idx m) (f64_mul price fee) (meta_pool_id m) pool
        (meta_protocol m) liquidity;
  g ← PriceGraph.add_edge g (token1_idx m) (token0_idx m) (f64_mul (f64_div f64_one price) fee)
        (meta_pool_id m) pool (meta_protocol m) liquidity;
  match virtual_reserves sqrt_price_x96 liquidity with
  | Some (x_v, y_v) => seed_reserves g m x_v y_v fee
  | None => Ret g
  end.

Definition build_v3_pool_state (pool : Address) (m : PoolMetadata)
    (sqrt_price_x96 liquidity tick : Z) : PoolState :=
  let v3 := UniswapV3Pool.new pool (meta_token0 m) (meta_token1 m) (meta_fee_bps m)
              (default 0 (tick_spacing m)) in
  StUniswapV3 (UniswapV3Pool.update_sqrt_price v3 sqrt_price_x96 liquidity tick).

Definition handle_reserve_update (e : t) (pool : Address) (protocol : ProtocolType)
    (reserve0 reserve1 : Z) : outcome t :=
  let e :=
    if v2_family protocol then
      let block := number (current_block e) in
      set_reserves_cache e (V2ReservesCache.record (v2_reserves_cache e) pool reserve0 reserve1 block)
    else e in
  match pool_registry e !! pool with
  | None => Ret e
  | Some m =>
      let r0 := u256_to_f64 reserve0 in
      let r1 := u256_to_f64 reserve1 in
      if f64_gt r0 f64_zero && f64_gt r1 f64_zero then
        fee ← fee_factor m;
        g ← seed_reserves (working_graph e) m r0 r1 fee;
        let e := set_graph e g in
        Ret (if v2_family (meta_protocol m) then
               set_states e
                 (<[pool := build_v2_pool_state pool m reserve0 reserve1]> (pool_states e))
             else e)
      else Ret e
  end.

Definition handle_v3_update (e : t) (pool : Address) (sqrt_price_x96 liquidity tick : Z)
    : outcome t :=
  match pool_registry e !! pool with
  | None => Ret e
  | Some m =>
      let price := v3_price sqrt_price_x96 in
      if f64_gt price f64_zero then
        fee ← fee_factor m;
        g ← seed_v3 (working_graph e) m pool sqrt_price_x96 liquidity price fee;
        let e := set_graph e g in
        Ret (set_states e
               (<[pool := build_v3_pool_state pool m sqrt_price_x96 liquidity tick]> (pool_states e)))
      else Ret e
  end.

Definition handle_pool_update (e : t) (event : PoolEvent) : outcome t :=
  match event with
  | ReserveUpdate pool protocol reserve0 reserve1 =>
      handle_reserve_update e pool protocol reserve0 reserve1
  | V2Swap _ _ _ _ _ _ _ => Ret e
  | V3Update pool sqrt_price_x96 liquidity tick =>
      handle_v3_update e pool sqrt_price_x96 liquidity tick
  | PoolCreated token0 token1 pool => register_pool e pool token0 token1 UniswapV2 30
  end.

(** ** Invariant *)

(** An edge between known tokens that carries the address and protocol of its
    pool. *)
Definition edge_ok (n : nat) (ed : PriceEdge) : Prop :=
  pool_address ed = pid_address (pool_id ed) /\ edge_protocol ed = pid_protocol (pool_id ed) /\
  (from ed < n)%nat /\ (to ed < n)%nat.

Definition edges_ok (n : nat) (s : PriceGraph.spec) : Prop :=
  forall k ed d, PriceGraph.s_edges s !! k = Some (ed, d) -> edge_ok n ed.

Definition meta_ok (ti : TokenIndex.t) (a : Address) (m : PoolMetadata) : Prop :=
  meta_pool_id m = mkPoolId a (meta_protocol m) /\
  TokenIndex.get_index ti (meta_token0 m) = Some (token0_idx m) /\
  TokenIndex.get_index ti (meta_token1 m) = Some (token1_idx m) /\
  0 <= meta_fee_bps m <= 10000.

(** Both directions of a pool are in the graph. *)
Definition present (s : PriceGraph.spec) (m : PoolMetadata) : Prop :=
  is_Some (PriceGraph.s_edges s !! (token0_idx m, token1_idx m, meta_pool_id m)) /\
  is_Some (PriceGraph.s_edges s !! (token1_idx m, token0_idx m, meta_pool_id m)).

Record inv (e : t) : Prop := {
  inv_graph : PriceGraph.inv (working_graph e);
  inv_index : TokenIndex.inverse (token_index e);
  inv_size : (TokenIndex.len (token_index e) <= PriceGraph.num_vertices (working_graph e))%nat;
  inv_edges : edges_ok (TokenIndex.len (token_index e)) (PriceGraph.abs (working_graph e));
  inv_registry : map_Forall (meta_ok (token_index e)) (pool_registry e);
  inv_present : map_Forall (fun _ m => graph_integrated (meta_protocol m) = true ->
                  present (PriceGraph.abs (working_graph e)) m) (pool_registry e);
  inv_states : map_Forall (fun a s => state_address s = a) (pool_states e);
  inv_snapshot : PriceGraph.inv (graph (load (snapshot_manager e)));
  inv_version : 0 <= version_counter (snapshot_manager e);
}.

(** A publication that does not exhaust the version counter. *)
Definition room (e : t) (k : nat) : Prop :=
  version_counter (snapshot_manager e) + Z.of_nat k < 2 ^ 64.

Lemma engine_inv_new cfg rpc bytecode : inv (new cfg rpc bytecode).
Proof.
  split; cbn -[PriceGraph.abs Nat.le]; try apply PriceGraph.graph_inv_new; try done; lia.
Qed.

(** *** Graph operations on known tokens *)

Definition op_ok (n : nat) (o : PriceGraph.op) : Prop :=
  match o with
  | PriceGraph.AddEdge v w _ pid a p _ =>
      (v < n)%nat /\ (w < n)%nat /\ a = pid_address pid /\ p = pid_protocol pid
  | PriceGraph.UpdateReserves v _ _ _ _ _ | PriceGraph.SetFiltered v _ _ _ => (v < n)%nat
  | PriceGraph.RemovePool _ => False
  | _ => True
  end.

Lemma spec_exec_ok n s o : edges_ok n s -> op_ok n o -> edges_ok n (PriceGraph.spec_exec s o).
Proof.
  intros Hs Ho.
  assert (Halter : forall f k, (forall ed, edge_ok n ed -> edge_ok n (f ed)) ->
    edges_ok n (PriceGraph.with_map s (alter (PriceGraph.touch f) k (PriceGraph.s_edges s)))).
  { intros f k Hf k' ed d H. simpl in H. apply lookup_alter_Some in H
      as [(-> & [ed' d'] & Hk & [= -> _])|[_ H]]; [apply Hf|]; by eapply Hs. }
  destruct o; simpl in *.
  - intros k ed d H. simpl in H. apply lookup_insert_Some in H as [[<- [= <- _]]|[_ H]];
      [|by eapply Hs]. destruct Ho as (Hv & Hw & -> & ->).
    destruct (PriceGraph.s_edges s !! _) as [[ed' d']|] eqn:E; [|done]. by apply Hs in E.
  - destruct (_ || _); [done|]. by apply Halter.
  - by apply Halter.
  - done.
  - intros k ed d H. simpl in H. apply lookup_fmap_Some in H as ([ed' d'] & [= <- _] & H).
    by eapply Hs.
  - by destruct (_ <? _)%nat.
  - done.
  - done.
  - done.
Qed.

Lemma spec_exec_vertices s o :
  (PriceGraph.s_vertices s <= PriceGraph.s_vertices (PriceGraph.spec_exec s o))%nat.
Proof.
  destruct o; simpl; try lia.
  - by destruct (_ || _).
  - destruct (Nat.ltb_spec (PriceGraph.s_vertices s) n); simpl; lia.
Qed.

(** Only the removal of its pool takes an edge away. *)
Lemma spec_exec_keeps s o k : is_Some (PriceGraph.s_edges s !! k) ->
  (forall pid, o = PriceGraph.RemovePool pid -> k.2 <> pid) ->
  is_Some (PriceGraph.s_edges (PriceGraph.spec_exec s o) !! k).
Proof.
  intros Hk Hr. destruct o; simpl; try done.
  - destruct (decide (k = (v, w, pid))) as [->|]; [by rewrite lookup_insert_eq|].
    by rewrite lookup_insert_ne by done.
  - destruct (_ || _); [done|]. simpl. by apply lookup_alter_is_Some.
  - by apply lookup_alter_is_Some.
  - destruct Hk as [p Hk]. exists p. apply map_lookup_filter_Some. split; [done|]. by apply Hr.
  - by rewrite lookup_fmap, fmap_is_Some.
  - by destruct (_ <? _)%nat.
Qed.

Lemma remove_keeps s pid m : present s m -> meta_pool_id m <> pid ->
  present (PriceGraph.spec_exec s (PriceGraph.RemovePool pid)) m.
Proof. intros [H1 H2] Hne. split; apply spec_exec_keeps; naive_solver. Qed.

Lemma remove_edges_ok n s pid : edges_ok n s ->
  edges_ok n (PriceGraph.spec_exec s (PriceGraph.RemovePool pid)).
Proof.
  intros Hs k ed d H. simpl in H. apply map_lookup_filter_Some in H as [H _]. by eapply Hs.
Qed.

Lemma foldl_keeps n os k : Forall (op_ok n) os -> forall s, is_Some (PriceGraph.s_edges s !! k) ->
  is_Some (PriceGraph.s_edges (foldl PriceGraph.spec_exec s os) !! k).
Proof.
  induction 1 as [|o os Ho Hos IH]; intros s Hs; simpl; [done|].
  apply IH. apply spec_exec_keeps; [done|]. by intros pid ->.
Qed.

Lemma foldl_present n os s m : Forall (op_ok n) os -> present s m ->
  present (foldl PriceGraph.spec_exec s os) m.
Proof. intros Ho [H1 H2]. split; by eapply foldl_keeps. Qed.

Lemma op_ok_valid n s o : (n <= PriceGraph.s_vertices s)%nat -> op_ok n o -> PriceGraph.valid s o.
Proof. destruct o; simpl; lia. Qed.

(** What a handler's graph operations leave: a graph of the same kind, with the
    effect of the operations on the edge map. *)
Lemma run_ok n os : forall g, PriceGraph.inv g -> (n <= PriceGraph.num_vertices g)%nat ->
  edges_ok n (PriceGraph.abs g) -> Forall (op_ok n) os ->
  exists g', PriceGraph.run g os = Ret g' /\ PriceGraph.inv g' /\
    PriceGraph.abs g' = foldl PriceGraph.spec_exec (PriceGraph.abs g) os /\
    (n <= PriceGraph.num_vertices g')%nat /\ edges_ok n (PriceGraph.abs g').
Proof.
  induction os as [|o os IH]; intros g Hi Hn He Ho; simpl; [by eauto 6|].
  apply Forall_cons in Ho as [Ho Hos].
  destruct (PriceGraph.exec_refines g o Hi) as (g1 & -> & Hi1 & Ha1); [by eapply op_ok_valid|].
  cbn [mbind outcome_bind]. rewrite <- Ha1.
  pose proof (spec_exec_vertices (PriceGraph.abs g) o) as Hv. rewrite <- Ha1 in Hv. simpl in Hv.
  apply IH; [done|lia| |done]. rewrite Ha1. by apply spec_exec_ok.
Qed.

Lemma edges_ok_mono n n' s : (n <= n')%nat -> edges_ok n s -> edges_ok n' s.
Proof. intros Hn H k ed d Hk. destruct (H k ed d Hk) as (? & ? & ? & ?). repeat split; try done; lia. Qed.

Definition register_ops (cfg : EngineConfig) (num_tokens t0_idx t1_idx : nat)
    (token0 token1 : Address) (pool_id : PoolId) (pool_addr : Address) (protocol : ProtocolType)
    : list PriceGraph.op :=
  [PriceGraph.Resize num_tokens;
   PriceGraph.SetTokenDecimals t0_idx (default 18 (known_token_decimals token0));
   PriceGraph.SetTokenDecimals t1_idx (default 18 (known_token_decimals token1))] ++
  (if token0 =? addresses.WETH then
     [PriceGraph.SetWethVertex t0_idx; PriceGraph.SetMinLiquidity (min_liquidity_weth cfg)]
   else if token1 =? addresses.WETH then
     [PriceGraph.SetWethVertex t1_idx; PriceGraph.SetMinLiquidity (min_liquidity_weth cfg)]
   else []) ++
  (if graph_integrated protocol then
     [PriceGraph.AddEdge t0_idx t1_idx f64_one pool_id pool_addr protocol 0;
      PriceGraph.AddEdge t1_idx t0_idx f64_one pool_id pool_addr protocol 0]
   else []).

Lemma bind_Ret_r {X} (m : outcome X) : (x ← m; Ret x) = m.
Proof. by destruct m. Qed.

Lemma register_in_graph_run cfg g n t0 t1 token0 token1 pid a p :
  register_in_graph cfg g n t0 t1 token0 token1 pid a p
  = PriceGraph.run g (register_ops cfg n t0 t1 token0 token1 pid a p).
Proof.
  unfold register_in_graph, register_ops.
  destruct (token0 =? addresses.WETH), (token1 =? addresses.WETH), (graph_integrated p);
    cbn [app PriceGraph.run PriceGraph.exec mbind outcome_bind]; try done;
    destruct (PriceGraph.add_edge _ t0 t1 _ _ _ _ _); cbn [mbind outcome_bind]; try done;
    symmetry; apply bind_Ret_r.
Qed.

Definition reserve_ops (m : PoolMetadata) (r0 r1 fee : f64) : list PriceGraph.op :=
  [PriceGraph.UpdateReserves (token0_idx m) (token1_idx m) (meta_pool_id m) r0 r1 fee;
   PriceGraph.UpdateReserves (token1_idx m) (token0_idx m) (meta_pool_id m) r1 r0 fee].

Lemma seed_reserves_run g m r0 r1 fee :
  seed_reserves g m r0 r1 fee = PriceGraph.run g (reserve_ops m r0 r1 fee).
Proof.
  unfold seed_reserves. cbn [reserve_ops PriceGraph.run PriceGraph.exec].
  destruct (PriceGraph.update_edge_from_reserves g _ _ _ _ _ _); cbn [mbind outcome_bind]; [|done].
  symmetry; apply bind_Ret_r.
Qed.

Definition v3_ops (m : PoolMetadata) (pool : Address) (sqrt_price_x96 liquidity : Z)
    (price fee : f64) : list PriceGraph.op :=
  [PriceGraph.AddEdge (token0_idx m) (token1_idx m) (f64_mul price fee) (meta_pool_id m) pool
     (meta_protocol m) liquidity;
   PriceGraph.AddEdge (token1_idx m) (token0_idx m) (f64_mul (f64_div f64_one price) fee)
     (meta_pool_id m) pool (meta_protocol m) liquidity] ++
  match virtual_reserves sqrt_price_x96 liquidity with
  | Some (x_v, y_v) => reserve_ops m x_v y_v fee
  | None => []
  end.

Lemma seed_v3_run g m pool sp l price fee :
  seed_v3 g m pool sp l price fee = PriceGraph.run g (v3_ops m pool sp l price fee).
Proof.
  unfold seed_v3, v3_ops. cbn [app PriceGraph.run PriceGraph.exec].
  destruct (PriceGraph.add_edge g _ _ _ _ _ _ _); cbn [mbind outcome_bind]; [|done].
  destruct (PriceGraph.add_edge _ _ _ _ _ _ _ _); cbn [mbind outcome_bind]; [|done].
  destruct (virtual_reserves sp l) as [[x y]|]; [apply seed_reserves_run|done].
Qed.

(** *** The token index grows *)

Lemma index_stable ti a b i : TokenIndex.inverse ti ->
  TokenIndex.get_index ti b = Some i ->
  TokenIndex.get_index (TokenIndex.get_or_insert ti a).2 b = Some i.
Proof.
  intros Hi Hb. apply (TokenIndex.get_or_insert_inverse ti a Hi).
  apply Hi in Hb. eapply prefix_lookup_Some; [exact Hb|apply TokenIndex.get_or_insert_prefix].
Qed.

Lemma index_len ti a : (TokenIndex.len ti <= TokenIndex.len (TokenIndex.get_or_insert ti a).2)%nat.
Proof. apply prefix_length, TokenIndex.get_or_insert_prefix. Qed.

Lemma index_bound ti a i : TokenIndex.inverse ti -> TokenIndex.get_index ti a = Some i ->
  (i < TokenIndex.len ti)%nat.
Proof. intros Hi H. apply Hi in H. by eapply lookup_lt_Some. Qed.

Lemma meta_ok_grow ti a b m : TokenIndex.inverse ti -> meta_ok ti b m ->
  meta_ok (TokenIndex.get_or_insert ti a).2 b m.
Proof.
  intros Hi (H1 & H2 & H3 & H4). split; [done|]. split; [by apply index_stable|].
  split; [by apply index_stable|done].
Qed.

Lemma meta_bounds ti a m : TokenIndex.inverse ti -> meta_ok ti a m ->
  (token0_idx m < TokenIndex.len ti)%nat /\ (token1_idx m < TokenIndex.len ti)%nat.
Proof. intros Hi (_ & H0 & H1 & _). split; by eapply index_bound. Qed.

(** *** Handlers preserve the invariant *)

Lemma register_ops_ok cfg n t0 t1 token0 token1 a p : (t0 < n)%nat -> (t1 < n)%nat ->
  Forall (op_ok n) (register_ops cfg n t0 t1 token0 token1 (mkPoolId a p) a p).
Proof.
  intros H0 H1. unfold register_ops. cbn [app]. do 3 (apply Forall_cons; split; [done|]).
  rewrite Forall_app. split.
  - by destruct (token0 =? _); [|destruct (token1 =? _)]; repeat constructor.
  - destruct (graph_integrated p); repeat constructor; done.
Qed.

(** The two placeholder edges are there once registered. *)
Lemma register_present s cfg n t0 t1 token0 token1 a p : graph_integrated p = true ->
  let s' := foldl PriceGraph.spec_exec s (register_ops cfg n t0 t1 token0 token1 (mkPoolId a p) a p) in
  is_Some (PriceGraph.s_edges s' !! (t0, t1, mkPoolId a p)) /\
  is_Some (PriceGraph.s_edges s' !! (t1, t0, mkPoolId a p)).
Proof.
  intros Hp. cbn zeta. unfold register_ops. rewrite Hp, !foldl_app. set (s1 := foldl _ _ _). cbn [foldl].
  split.
  - apply spec_exec_keeps; [|done]. simpl. by rewrite lookup_insert_eq.
  - simpl. by rewrite lookup_insert_eq.
Qed.

Lemma register_graph_ok cfg g n0 n t0 t1 token0 token1 a p : PriceGraph.inv g ->
  edges_ok n0 (PriceGraph.abs g) -> (n0 <= n)%nat -> (t0 < n)%nat -> (t1 < n)%nat ->
  exists g', register_in_graph cfg g n t0 t1 token0 token1 (mkPoolId a p) a p = Ret g' /\
    PriceGraph.inv g' /\ (n <= PriceGraph.num_vertices g')%nat /\ edges_ok n (PriceGraph.abs g') /\
    PriceGraph.abs g' = foldl PriceGraph.spec_exec (PriceGraph.abs g)
                          (register_ops cfg n t0 t1 token0 token1 (mkPoolId a p) a p).
Proof.
  intros Hi He Hn Ht0 Ht1. rewrite register_in_graph_run.
  pose proof (register_ops_ok cfg n t0 t1 token0 token1 a p Ht0 Ht1) as Hok. unfold register_ops in *.
  cbn [app] in *. set (os := PriceGraph.SetTokenDecimals t0 _ :: _) in *. cbn [PriceGraph.run].
  apply Forall_cons in Hok as [_ Hok].
  destruct (PriceGraph.exec_refines g (PriceGraph.Resize n) Hi I) as (g1 & -> & Hi1 & Ha1).
  cbn [mbind outcome_bind foldl]. rewrite <- Ha1.
  assert (Hn1 : (n <= PriceGraph.num_vertices g1)%nat).
  { apply (f_equal PriceGraph.s_vertices) in Ha1. simpl in Ha1.
    destruct (Nat.ltb_spec (PriceGraph.num_vertices g) n); simpl in Ha1; lia. }
  destruct (run_ok n os g1) as (g2 & Hr & Hi2 & Ha2 & Hn2 & He2); [done|done| |done|by exists g2].
  rewrite Ha1. apply (edges_ok_mono n0); [done|]. by apply spec_exec_ok.
Qed.

Lemma register_returns e a token0 token1 p fee ts : inv e -> 0 <= fee <= 10000 ->
  exists e', register_pool_with_tick_spacing e a token0 token1 p fee ts = Ret e' /\ inv e' /\
    snapshot_manager e' = snapshot_manager e.
Proof.
  intros [] Hfee. unfold register_pool_with_tick_spacing.
  pose proof (TokenIndex.get_or_insert_inverse (token_index e) token0 inv_index0) as Hi0.
  pose proof (TokenIndex.get_or_insert_result (token_index e) token0 inv_index0) as Hr0.
  pose proof (index_len (token_index e) token0) as Hl0.
  assert (Hm0 : forall b m, meta_ok (token_index e) b m ->
            meta_ok (TokenIndex.get_or_insert (token_index e) token0).2 b m)
    by (intros; by apply meta_ok_grow).
  destruct (TokenIndex.get_or_insert (token_index e) token0) as [t0 ti0]. cbn [fst snd] in *.
  pose proof (TokenIndex.get_or_insert_inverse ti0 token1 Hi0) as Hi1.
  pose proof (TokenIndex.get_or_insert_result ti0 token1 Hi0) as Hr1.
  pose proof (index_len ti0 token1) as Hl1.
  pose proof (index_stable ti0 token1 token0 t0 Hi0 Hr0) as Hr0'.
  assert (Hm1 : forall b m, meta_ok ti0 b m -> meta_ok (TokenIndex.get_or_insert ti0 token1).2 b m)
    by (intros; by apply meta_ok_grow).
  destruct (TokenIndex.get_or_insert ti0 token1) as [t1 ti1]. cbn [fst snd] in *.
  cbn [config working_graph set_registry set_index].
  destruct (register_graph_ok (config e) (working_graph e) (TokenIndex.len (token_index e))
    (TokenIndex.len ti1) t0 t1 token0 token1 a p) as (g' & -> & Hg & Hn & He & Ha);
    [done|done|lia|by eapply index_bound|by eapply index_bound|].
  cbn [mbind outcome_bind]. eexists. split; [done|]. split; [|done]. split; try done;
    cbn [pool_registry set_graph set_registry set_index token_index working_graph].
  - apply map_Forall_insert_2; [done|]. intros b m Hb. apply Hm1, Hm0. by apply (inv_registry0 b m).
  - rewrite Ha. apply map_Forall_insert_2; [intros Hp; by apply register_present|].
    intros b m Hb Hp. eapply foldl_present; [|by apply (inv_present0 b m)].
    apply register_ops_ok; by eapply index_bound.
Qed.

Lemma publish_ret (m : SnapshotManager (G:=PriceGraph.t)) g b ts :
  0 <= version_counter m -> version_counter m + 1 < 2 ^ 64 ->
  exists m', publish m g b ts = Ret m' /\ version_counter m' = version_counter m + 1 /\
    graph (load m') = g.
Proof.
  intros H0 H1. unfold publish, publish_begin. rewrite u64_add_exact by (unfold in_u; lia).
  cbn [mbind outcome_bind]. eexists. split; [done|]. split; [|done]. simpl.
  rewrite Z.mod_small; lia.
Qed.

Lemma remove_returns e a : inv e -> room e 1 ->
  exists e', remove_pool e a = Ret e' /\ inv e' /\
    version_counter (snapshot_manager e') <= version_counter (snapshot_manager e) + 1.
Proof.
  intros Hinv Hroom. unfold remove_pool. destruct (pool_registry e !! a) as [m|] eqn:E.
  2: { exists e. split; [done|]. split; [done|lia]. }
  pose proof Hinv as []. unfold room in Hroom.
  destruct (PriceGraph.exec_refines (working_graph e) (PriceGraph.RemovePool (meta_pool_id m)) inv_graph0 I)
    as (g & [= <-] & Hg & Ha).
  destruct (publish_ret (snapshot_manager e) (PriceGraph.remove_pool_edges (working_graph e) (meta_pool_id m))
              (number (current_block e)) 0) as (s & Hs & Hv & Hgr); [done|lia|].
  cbn [snapshot_manager set_graph set_registry current_block working_graph].
  rewrite Hs. cbn [mbind outcome_bind]. eexists. split; [done|].
  split; [|cbn; lia]. split; cbn; try done.
  - rewrite Ha. by apply remove_edges_ok.
  - by apply map_Forall_delete.
  - intros b m' Hb Hp. rewrite Ha. apply lookup_delete_Some in Hb as [Hne Hb].
    apply remove_keeps; [by apply (inv_present0 b m')|].
    destruct (inv_registry0 a m E) as [-> _], (inv_registry0 b m' Hb) as [-> _]. congruence.
  - by apply map_Forall_delete.
  - by rewrite Hgr.
  - lia.
Qed.

Lemma mark_warmed_inv e a : inv e -> inv (mark_pool_bytecode_warmed e a).
Proof.
  intros Hinv. unfold mark_pool_bytecode_warmed.
  destruct (pool_registry e !! a) as [m|] eqn:E; [|done]. pose proof Hinv as [].
  split; try done; cbn; apply map_Forall_insert_2; try done.
  - apply (inv_registry0 a m E).
  - apply (inv_present0 a m E).
Qed.

Lemma fee_factor_returns m : 0 <= meta_fee_bps m <= 10000 ->
  fee_factor m = Ret (f64_div (f64_of_Z (10000 - meta_fee_bps m)) (f64_of_Z 10000)).
Proof. intros H. unfold fee_factor. rewrite u32_sub_exact by (unfold in_u; lia). done. Qed.

(** Operations on a registered pool keep the graph good. *)
Lemma run_registered e os : inv e ->
  Forall (op_ok (TokenIndex.len (token_index e))) os ->
  exists g, PriceGraph.run (working_graph e) os = Ret g /\ inv (set_graph e g) /\
    PriceGraph.abs g = foldl PriceGraph.spec_exec (PriceGraph.abs (working_graph e)) os.
Proof.
  intros [] Ho. destruct (run_ok _ os (working_graph e) inv_graph0 inv_size0 inv_edges0 Ho)
    as (g & Hr & Hg & Ha & Hn & He).
  exists g. split; [done|]. split; [|done]. split; try done. cbn.
  intros b m Hb Hp. rewrite Ha. eapply foldl_present; [done|by apply (inv_present0 b m)].
Qed.

Lemma reserve_ops_ok e a m r0 r1 fee : inv e -> pool_registry e !! a = Some m ->
  Forall (op_ok (TokenIndex.len (token_index e))) (reserve_ops m r0 r1 fee).
Proof.
  intros [] Hm. destruct (meta_bounds _ a m inv_index0 (inv_registry0 a m Hm)).
  by repeat constructor.
Qed.

Lemma v3_ops_ok e a m sp l price fee : inv e -> pool_registry e !! a = Some m ->
  Forall (op_ok (TokenIndex.len (token_index e))) (v3_ops m a sp l price fee).
Proof.
  intros Hinv Hm. pose proof Hinv as []. pose proof (inv_registry0 a m Hm) as Hok.
  destruct (meta_bounds _ a m inv_index0 Hok). destruct Hok as (Hid & _).
  unfold v3_ops. apply Forall_app. split.
  - repeat constructor; cbn; rewrite ?Hid; done.
  - destruct (virtual_reserves sp l) as [[x y]|]; [by eapply reserve_ops_ok|constructor].
Qed.

Lemma set_states_inv e a s : inv e -> state_address s = a ->
  inv (set_states e (<[a := s]> (pool_states e))).
Proof. intros [] Hs. split; try done. cbn. by apply map_Forall_insert_2. Qed.

Lemma record_inv e c : inv e -> inv (set_reserves_cache e c).
Proof. intros []. by split. Qed.

Lemma build_v2_address pool m r0 r1 : state_address (build_v2_pool_state pool m r0 r1) = pool.
Proof. unfold build_v2_pool_state. by destruct (meta_protocol m). Qed.

Lemma reserve_update_returns e pool p r0 r1 : inv e ->
  exists e', handle_reserve_update e pool p r0 r1 = Ret e' /\ inv e' /\
    snapshot_manager e' = snapshot_manager e.
Proof.
  intros Hinv. unfold handle_reserve_update. set (e1 := if v2_family p then _ else e).
  assert (Hinv1 : inv e1) by (unfold e1; destruct (v2_family p); [by apply record_inv|done]).
  assert (Hs : snapshot_manager e1 = snapshot_manager e) by (unfold e1; by destruct (v2_family p)).
  clearbody e1. cbn zeta. destruct (pool_registry e1 !! pool) as [m|] eqn:E; [|eauto].
  destruct (f64_gt _ _ && _); [|eauto].
  pose proof (inv_registry e1 Hinv1 pool m E) as Hok.
  rewrite fee_factor_returns by apply Hok. cbn [mbind outcome_bind]. rewrite seed_reserves_run.
  destruct (run_registered e1 (reserve_ops m (u256_to_f64 r0) (u256_to_f64 r1)
    (f64_div (f64_of_Z (10000 - meta_fee_bps m)) (f64_of_Z 10000)))) as (g & -> & Hg & _);
    [done|by eapply reserve_ops_ok|].
  cbn [mbind outcome_bind]. eexists. split; [done|].
  destruct (v2_family (meta_protocol m)); [|done].
  split; [|done]. apply set_states_inv; [done|apply build_v2_address].
Qed.

Lemma v3_update_returns e pool sp l tk : inv e ->
  exists e', handle_v3_update e pool sp l tk = Ret e' /\ inv e' /\
    snapshot_manager e' = snapshot_manager e.
Proof.
  intros Hinv. unfold handle_v3_update.
  destruct (pool_registry e !! pool) as [m|] eqn:E; [|eauto].
  destruct (f64_gt _ _); [|eauto].
  rewrite fee_factor_returns by apply (inv_registry e Hinv pool m E). cbn [mbind outcome_bind].
  rewrite seed_v3_run.
  destruct (run_registered e (v3_ops m pool sp l (v3_price sp)
    (f64_div (f64_of_Z (10000 - meta_fee_bps m)) (f64_of_Z 10000)))) as (g & -> & Hg & _);
    [done|by eapply v3_ops_ok|].
  cbn [mbind outcome_bind]. eexists. split; [done|]. split; [|done]. by apply set_states_inv.
Qed.

Lemma handle_update_returns e ev : inv e ->
  exists e', handle_pool_update e ev = Ret e' /\ inv e' /\ snapshot_manager e' = snapshot_manager e.
Proof.
  intros Hinv. destruct ev as [pool p r0 r1|? ? ? ? ? ? ?|pool sp l tk|tok0 tok1 pool]; cbn.
  - by apply reserve_update_returns.
  - eauto.
  - by apply v3_update_returns.
  - by apply register_returns.
Qed.

(** ** What an update changes *)

(** The edge from [i] to [j] of the pool of [m] after the reserves [rin], [rout]
    were seen: priced from them, net of the fee and of the decimals, and
    flagged for the next scan. *)
Definition priced_edge (s : PriceGraph.spec) (m : PoolMetadata) (i j : nat) (rin rout fee : f64)
    : Prop :=
  exists ed, PriceGraph.s_edges s !! (i, j, meta_pool_id m) = Some (ed, true) /\
    reserve_in ed = rin /\ reserve_out ed = rout /\
    weight ed = f64_neg (f64_ln (PriceGraph.reserve_rate (PriceGraph.config s) i j rin rout fee)).

Lemma gt_zero_not_le r : f64_gt r f64_zero = true -> f64_le r f64_zero = false.
Proof. by destruct r as [[]|[]| |[] ? ?]. Qed.

(** One positive update: its edge is priced, every other edge is as it was. *)
Lemma update_priced s m i j rin rout fee :
  is_Some (PriceGraph.s_edges s !! (i, j, meta_pool_id m)) ->
  f64_gt rin f64_zero = true -> f64_gt rout f64_zero = true ->
  let s' := PriceGraph.spec_exec s (PriceGraph.UpdateReserves i j (meta_pool_id m) rin rout fee) in
  priced_edge s' m i j rin rout fee /\ PriceGraph.config s' = PriceGraph.config s /\
  (forall k, k <> (i, j, meta_pool_id m) -> PriceGraph.s_edges s' !! k = PriceGraph.s_edges s !! k).
Proof.
  intros [[ed d] Hk] Hin Hout. cbn zeta. unfold PriceGraph.spec_exec.
  rewrite (gt_zero_not_le rin Hin), (gt_zero_not_le rout Hout). cbn [orb].
  split; [|split; [done|intros k Hne; simpl; by rewrite lookup_alter_ne by done]].
  eexists. split; [simpl; by rewrite lookup_alter_eq, Hk|]. done.
Qed.

Lemma reserve_ops_priced s m r0 r1 fee : present s m -> token0_idx m <> token1_idx m ->
  f64_gt r0 f64_zero = true -> f64_gt r1 f64_zero = true ->
  let s' := foldl PriceGraph.spec_exec s (reserve_ops m r0 r1 fee) in
  priced_edge s' m (token0_idx m) (token1_idx m) r0 r1 fee /\
  priced_edge s' m (token1_idx m) (token0_idx m) r1 r0 fee /\
  (forall k, k.2 <> meta_pool_id m -> PriceGraph.s_edges s' !! k = PriceGraph.s_edges s !! k).
Proof.
  intros [H0 H1] Hne G0 G1. cbn zeta. unfold reserve_ops. cbn [foldl].
  destruct (update_priced s m _ _ r0 r1 fee H0 G0 G1) as (P0 & C0 & O0).
  set (s1 := PriceGraph.spec_exec s _) in *. clearbody s1.
  destruct (update_priced s1 m (token1_idx m) (token0_idx m) r1 r0 fee) as (P1 & C1 & O1);
    [rewrite O0 by congruence; done|done|done|].
  set (s2 := PriceGraph.spec_exec s1 _) in *. clearbody s2.
  split; [|split; [done|]].
  - destruct P0 as (ed & Hk & Hin & Hout & Hw). exists ed. rewrite O1 by congruence.
    split; [done|]. split; [done|]. split; [done|]. by rewrite C1.
  - intros k Hk. by rewrite O1, O0 by (intros ->; done).
Qed.

(** A reserve update of a registered V2-family pool reaches the detector and the
    post-state simulator alike: both edges of the pool are priced from the
    reported reserves and flagged dirty, the pool-state cache holds a pool with
    exactly those reserves, and no other pool's edges or state change. *)
Theorem reserve_update_in_lockstep e pool r0 r1 m : inv e -> pool_registry e !! pool = Some m ->
  v2_family (meta_protocol m) = true -> token0_idx m <> token1_idx m ->
  f64_gt (u256_to_f64 r0) f64_zero = true -> f64_gt (u256_to_f64 r1) f64_zero = true ->
  exists e', handle_pool_update e (ReserveUpdate pool (meta_protocol m) r0 r1) = Ret e' /\ inv e' /\
    (exists fee, fee_factor m = Ret fee /\
       priced_edge (PriceGraph.abs (working_graph e')) m (token0_idx m) (token1_idx m)
         (u256_to_f64 r0) (u256_to_f64 r1) fee /\
       priced_edge (PriceGraph.abs (working_graph e')) m (token1_idx m) (token0_idx m)
         (u256_to_f64 r1) (u256_to_f64 r0) fee) /\
    (forall k, k.2 <> meta_pool_id m ->
       PriceGraph.s_edges (PriceGraph.abs (working_graph e')) !! k
       = PriceGraph.s_edges (PriceGraph.abs (working_graph e)) !! k) /\
    pool_states e' = <[pool := build_v2_pool_state pool m r0 r1]> (pool_states e) /\
    v2_reserves_cache e'
    = V2ReservesCache.record (v2_reserves_cache e) pool r0 r1 (number (current_block e)).
Proof.
  intros Hinv Hm Hf Hne G0 G1. cbn [handle_pool_update].
  destruct (reserve_update_returns e pool (meta_protocol m) r0 r1 Hinv) as (e' & He & Hinv' & _).
  exists e'. split; [done|]. split; [done|]. revert He. unfold handle_reserve_update.
  rewrite Hf. cbn zeta. cbn [pool_registry set_reserves_cache]. rewrite Hm, G0, G1. cbn [andb].
  pose proof (inv_registry e Hinv pool m Hm) as Hok.
  rewrite fee_factor_returns by apply Hok. cbn [mbind outcome_bind]. rewrite seed_reserves_run.
  cbn [working_graph set_reserves_cache]. set (fee := f64_div _ _).
  destruct (run_registered e (reserve_ops m (u256_to_f64 r0) (u256_to_f64 r1) fee))
    as (g & -> & Hg & Ha); [done|by eapply reserve_ops_ok|].
  cbn [mbind outcome_bind]. rewrite ?Hf. intros [= <-].
  cbn [working_graph set_graph set_states pool_states].
  assert (Hp : present (PriceGraph.abs (working_graph e)) m).
  { apply (inv_present e Hinv pool m Hm). by destruct (meta_protocol m). }
  destruct (reserve_ops_priced _ m _ _ fee Hp Hne G0 G1) as (P0 & P1 & O). rewrite <- Ha in *.
  split; [by exists fee|]. done.
Qed.
End Handlers.

(** ** A running engine *)

Definition outcome_or {A} (d : A) (m : outcome A) : A := match m with Ret a => a | Panic => d end.

(** An engine with one Uniswap V2 pool. *)
Definition sample : t :=
  let e := new default_config true false in
  outcome_or e (register_pool (M:=PriceGraph.sample_libm) e 77 11 12 UniswapV2 30).

Lemma sample_inv : inv sample.
Proof.
  unfold sample.
  destruct (register_returns (M:=PriceGraph.sample_libm) (new default_config true false) 77 11 12
    UniswapV2 30 None (engine_inv_new _ _ _)) as (e & He & Hi & _); [lia|].
  unfold register_pool. by rewrite He.
Qed.

Definition sample_meta : PoolMetadata :=
  mkMeta 0 1 11 12 (mkPoolId 77 UniswapV2) UniswapV2 30 None true.

Lemma sample_registered : pool_registry sample !! 77 = Some sample_meta.
Proof. vm_compute. reflexivity. Qed.

Lemma reserve_update_in_lockstep_witness :
  exists e', handle_pool_update (B:=release) (M:=PriceGraph.sample_libm) sample
      (ReserveUpdate 77 UniswapV2 1000 2000) = Ret e' /\ inv e' /\
    pool_states e' = <[77 := build_v2_pool_state 77 sample_meta 1000 2000]> (pool_states sample).
Proof.
  destruct (reserve_update_in_lockstep (B:=release) (M:=PriceGraph.sample_libm) sample 77 1000 2000
    sample_meta sample_inv sample_registered) as (e' & He & Hi & _ & _ & Hs & _);
    try (vm_compute; congruence).
  exists e'. exact (conj He (conj Hi Hs)).
Defined.
End Engine.
