(* ===== verification/Bootstrap.v ===== *)
(** * The engine: start-up and reserve fetching

    The parts of [crates/grpc-server/src/engine.rs] that read the chain:
    pools from the configuration file, token decimals, the token identity
    check, the initial reserves and the registration of hot-cache pools. The
    answers of the RPC provider are an argument: [rpc to calldata] is the output
    of the call, [None] a transport error. The calls run as concurrent tasks
    whose results are joined in any order, and a task that panics is dropped:
    [JoinSet]. *)

From Stdlib Require Import ZArith Lia String.
From S2P Require Import Prelude.
From S2P Require Import Machine.
From S2P Require Import F64.
From S2P Require Import Types.
From S2P Require Import Bytes.
From S2P Require Import Keccak.
From S2P Require Import Abi.
From S2P Require Import UniswapV2.
From S2P Require Import UniswapV3.
From S2P Require Import Curve.
From S2P Require Import Balancer.
From S2P Require Import PoolState.
From S2P Require Import TokenIndex.
From S2P Require Import PriceGraph.
From S2P Require Import Snapshot.
From S2P Require Import Discovery.
From S2P Require Import Engine.
From stdpp Require Import base option numbers strings gmap sets list.

Local Open Scope Z_scope.

(** The results of spawned tasks as they are joined. *)
Class JoinSet : Type := {
  join_all : forall {A}, list A -> list A;
  join_all_submseteq : forall {A} (l : list A), join_all l ⊆+ l;
}.

Definition join_in_order : JoinSet :=
  {| join_all A l := l; join_all_submseteq A l := reflexivity l |}.

Lemma elem_of_join_all `{JoinSet} {A} (x : A) l : x ∈ join_all l -> x ∈ l.
Proof. intros Hx. eapply elem_of_submseteq; [exact Hx|apply join_all_submseteq]. Qed.

Module Bootstrap.
Import Engine.

(** ** Pools of the configuration file *)

Record PoolEntry : Type := mkEntry {
  entry_protocol : string;
  entry_address : string;
  entry_token0 : string;
  entry_token1 : string;
  entry_fee_bps : Z;
  entry_tier : string;
  entry_tick_spacing : option Z;
}.

Definition protocol_of_name (s : string) : option ProtocolType :=
  if decide (s = "uniswap_v2") then Some UniswapV2
  else if decide (s = "uniswap_v3") then Some UniswapV3
  else if decide (s = "sushiswap") then Some SushiSwap
  else if decide (s = "curve") then Some Types.Curve
  else if decide (s = "balancer_v2") then Some BalancerV2
  else if decide (s = "balancer_v3") then Some BalancerV3
  else if decide (s = "bancor_v3") then Some BancorV3
  else None.

Section Boot.
Context `{B : Build} `{M : Libm} (parse_address : string -> option Address).

(** [Ok(a) if a != Address::ZERO => a]. *)
Definition nonzero_address (s : string) : option Address :=
  a ← parse_address s; if a =? zero_address then None else Some a.

(** One entry: a pool to register, or [None] when it is skipped. *)
Definition valid_entry (entry : PoolEntry) : option (ProtocolType * Address * Address * Address) :=
  p ← protocol_of_name (entry_protocol entry);
  a ← nonzero_address (entry_address entry);
  t0 ← nonzero_address (entry_token0 entry);
  t1 ← nonzero_address (entry_token1 entry);
  Some (p, a, t0, t1).

(** The loop over the parsed entries; the count is a [u32]. *)
Fixpoint bootstrap_loop (e : Engine.t) (loaded : Z) (entries : list PoolEntry)
    : outcome (Z * Engine.t) :=
  match entries with
  | [] => Ret (loaded, e)
  | entry :: entries =>
      match valid_entry entry with
      | None => bootstrap_loop e loaded entries
      | Some (p, a, t0, t1) =>
          match pool_registry e !! a with
          | Some _ => bootstrap_loop e loaded entries
          | None =>
              e ← register_pool_with_tick_spacing e a t0 t1 p (entry_fee_bps entry)
                    (entry_tick_spacing entry);
              loaded ← u32_add loaded 1;
              bootstrap_loop e loaded entries
          end
      end
  end.

(** [None]: the file cannot be read or is not a pool configuration. *)
Definition bootstrap_pools (e : Engine.t) (config : option (list PoolEntry))
    : outcome (Z * Engine.t) :=
  match config with
  | None | Some [] => Ret (0, e)
  | Some entries => bootstrap_loop e 0 entries
  end.
End Boot.

(** ** Reading the chain *)

Inductive ReserveResult : Type :=
| RV2 (pool_addr : Address) (m : PoolMetadata) (r0 r1 : Z)
| RV3 (pool_addr : Address) (m : PoolMetadata) (sqrt_price_x96 tick liquidity : Z)
| RCurve (pool_addr : Address) (m : PoolMetadata) (a b0 b1 : Z)
| RBalancer (pool_addr : Address) (m : PoolMetadata) (b0 b1 w0 w1 : Z)
| RSkipped (m : option PoolMetadata).

Definition BALANCER_V2_VAULT : Address := 0xBA12222222228d8Ba445958a75a0704d566BF2C8.

Section Chain.
Context {K : Keccak} {A : SolAbi} (rpc : Address -> list Z -> option (list Z)).

(** [fCall { .. }.abi_encode()] for the accessors the fetch declares. *)
Definition call0 (name : string) : list Z := abi_encode_call name [] tt.

(** The first 32 bytes of an answer of at least [n], as a number. *)
Definition first_word (n : nat) (output : option (list Z)) : option Z :=
  out ← output; if (n <=? length out)%nat then Some (be (take 32 out)) else None.

Definition call_token_accessor (pool_addr : Address) (calldata : list Z) : option Address :=
  out ← rpc pool_addr calldata;
  if (32 <=? length out)%nat then Some (be (take 20 (drop 12 out))) else None.

(** The task of [fetch_and_apply_token_decimals]: the last byte of the answer. *)
Definition fetch_decimals (token : Address) (vertex : nat) : option (nat * Z) :=
  out ← rpc token (call0 "decimals");
  d ← last out; Some (vertex, d).

(** The task of [fetch_token_identity_quarantine]. *)
Definition check_identity (pool_addr : Address) (m : PoolMetadata) : option Address :=
  chain_t0 ← call_token_accessor pool_addr (call0 "token0");
  chain_t1 ← call_token_accessor pool_addr (call0 "token1");
  if token_identity_matches (meta_token0 m) (meta_token1 m) chain_t0 chain_t1 then None
  else Some pool_addr.

(** [int24] in a sign-extended word: the low three bytes, negative when the
    first byte is not zero. *)
Definition slot0_tick (raw : list Z) : Z :=
  let low := Z.lor (Z.lor (Z.shiftl (nth 29 raw 0) 16) (Z.shiftl (nth 30 raw 0) 8)) (nth 31 raw 0) in
  if nth 0 raw 0 =? 0 then low else low - 2 ^ 24.

(** [try_into().unwrap_or(0u128)]. *)
Definition liquidity_of (w : option Z) : Z :=
  match w with Some v => if in_ub 128 v then v else 0 | None => 0 end.

Definition fetch_pool (pool_addr : Address) (m : PoolMetadata) : ReserveResult :=
  let skipped := RSkipped (Some m) in
  match meta_protocol m with
  | UniswapV2 | SushiSwap =>
      match rpc pool_addr (call0 "getReserves") with
      | Some out =>
          if (96 <=? length out)%nat
          then RV2 pool_addr m (be (take 32 out)) (be (take 32 (drop 32 out)))
          else skipped
      | None => skipped
      end
  | UniswapV3 =>
      match rpc pool_addr (call0 "slot0") with
      | Some out =>
          if (64 <=? length out)%nat then
            RV3 pool_addr m (be (take 32 out)) (slot0_tick (take 32 (drop 32 out)))
              (liquidity_of (first_word 32 (rpc pool_addr (call0 "liquidity"))))
          else skipped
      | None => skipped
      end
  | Types.Curve =>
      let balance i := first_word 32 (rpc pool_addr (abi_encode_call "balances" [SUint 256] (i, tt))) in
      match first_word 32 (rpc pool_addr (call0 "A")), balance 0, balance 1 with
      | Some a, Some b0, Some b1 => RCurve pool_addr m a b0 b1
      | _, _, _ => skipped
      end
  | BalancerV2 =>
      let answer :=
        id ← first_word 32 (rpc pool_addr (call0 "getPoolId"));
        tokens_out ← rpc BALANCER_V2_VAULT (abi_encode_call "getPoolTokens" [SBytes32] (id, tt));
        balances ← match abi_decode_params [SArray SAddress; SArray (SUint 256); SUint 256] tokens_out with
                   | inr (_, (b0 :: b1 :: _, _)) => Some (b0, b1)
                   | _ => None
                   end;
        weights_out ← rpc pool_addr (call0 "getNormalizedWeights");
        weights ← match abi_decode_params [SArray (SUint 256)] weights_out with
                  | inr (w0 :: w1 :: _, _) => Some (w0, w1)
                  | _ => None
                  end;
        Some (balances, weights) in
      match answer with
      | Some ((b0, b1), (w0, w1)) => RBalancer pool_addr m b0 b1 w0 w1
      | None => skipped
      end
  | _ => skipped
  end.
End Chain.

(** ** Applying what was read *)

Section Apply.
Context `{B : Build} `{M : Libm}.

Definition to_u64 (x : Z) : Z := if in_ub 64 x then x else u64_max.

(** One result, with the graph and the pool-state cache it changes. *)
Definition apply_result (quarantined : gset Z) (g : PriceGraph.t) (states : PoolStateCache)
    (r : ReserveResult) : outcome (PriceGraph.t * PoolStateCache) :=
  match r with
  | RV2 pool_addr m r0 r1 =>
      if decide (pool_addr ∈ quarantined) then Ret (g, states)
      else
        let r0_f := u256_to_f64 r0 in
        let r1_f := u256_to_f64 r1 in
        if f64_gt r0_f f64_zero && f64_gt r1_f f64_zero then
          fee ← fee_factor m;
          g ← seed_reserves g m r0_f r1_f fee;
          Ret (g, <[pool_addr := build_v2_pool_state pool_addr m r0 r1]> states)
        else Ret (g, states)
  | RV3 pool_addr m sqrt_price_x96 tick liquidity =>
      if decide (pool_addr ∈ quarantined) then Ret (g, states)
      else
        let price := v3_price sqrt_price_x96 in
        if f64_gt price f64_zero then
          fee ← fee_factor m;
          g ← seed_v3 g m pool_addr sqrt_price_x96 liquidity price fee;
          Ret (g, <[pool_addr := build_v3_pool_state pool_addr m sqrt_price_x96 liquidity tick]> states)
        else Ret (g, states)
  | RCurve pool_addr m a b0 b1 =>
      let curve := CurvePool.new pool_addr [meta_token0 m; meta_token1 m] (to_u64 a) (meta_fee_bps m) in
      let curve := CurvePool.mk (CurvePool.address curve) (CurvePool.tokens curve) [b0; b1]
                     (CurvePool.amplification curve) (CurvePool.fee_bps curve) in
      Ret (g, <[pool_addr := StCurve curve]> states)
  | RBalancer pool_addr m b0 b1 w0 w1 =>
      let bal := BalancerPool.new pool_addr (meta_token0 m) (meta_token1 m) (to_u64 w0) (to_u64 w1)
                   (meta_fee_bps m) in
      Ret (g, <[pool_addr := StBalancer (BalancerPool.update_state bal b0 b1)]> states)
  | RSkipped (Some m) =>
      g ← PriceGraph.set_edge_filtered g (token0_idx m) (token1_idx m) (meta_pool_id m) true;
      g ← PriceGraph.set_edge_filtered g (token1_idx m) (token0_idx m) (meta_pool_id m) true;
      Ret (g, states)
  | RSkipped None => Ret (g, states)
  end.

Fixpoint apply_results (quarantined : gset Z) (g : PriceGraph.t) (states : PoolStateCache)
    (rs : list ReserveResult) : outcome (PriceGraph.t * PoolStateCache) :=
  match rs with
  | [] => Ret (g, states)
  | r :: rs =>
      ' (g, states) ← apply_result quarantined g states r;
      apply_results quarantined g states rs
  end.

Context {K : Keccak} {A : SolAbi} `{HO : HashOrder} `{J : JoinSet}.

(** Tokens once each, with their vertex: [entry(..).or_insert(..)]. *)
Definition unique_tokens (pools : list (Address * PoolMetadata)) : gmap Z nat :=
  foldl (fun u (p : Address * PoolMetadata) =>
           let add u a i := match u !! a with Some _ => u | None => <[a := i]> u end in
           add (add u (meta_token0 p.2) (token0_idx p.2)) (meta_token1 p.2) (token1_idx p.2))
    (∅ : gmap Z nat) pools.

Definition fetch_and_apply_token_decimals (rpc : Address -> list Z -> option (list Z))
    (pools : list (Address * PoolMetadata)) (g : PriceGraph.t) : PriceGraph.t :=
  let results :=
    omap id (join_all ((fun tv => fetch_decimals rpc tv.1 tv.2) <$> map_iter (unique_tokens pools))) in
  foldl (fun g r => PriceGraph.set_token_decimals g r.1 r.2) g results.

Definition pair_pool (p : ProtocolType) : bool :=
  match p with UniswapV2 | SushiSwap | UniswapV3 => true | _ => false end.

Definition fetch_token_identity_quarantine (rpc : Address -> list Z -> option (list Z))
    (pools : list (Address * PoolMetadata)) : gset Z :=
  list_to_set (omap id (join_all
    ((fun p : Address * PoolMetadata => check_identity rpc p.1 p.2)
       <$> filter (fun p => pair_pool (meta_protocol p.2) = true) pools))).

Definition selected (only_addresses : option (gset Z)) (a : Address) : bool :=
  match only_addresses with Some set => bool_decide (a ∈ set) | None => true end.

Definition pools_to_fetch (only_addresses : option (gset Z)) (e : Engine.t)
    : list (Address * PoolMetadata) :=
  filter (fun p => selected only_addresses p.1 = true) (map_iter (pool_registry e)).

Definition fetch_initial_reserves_filtered (rpc : Address -> list Z -> option (list Z))
    (only_addresses : option (gset Z)) (e : Engine.t) : outcome Engine.t :=
  if negb (has_rpc e) then Ret e
  else
    let pools := pools_to_fetch only_addresses e in
    if (length pools =? 0)%nat then Ret e
    else
      let e := set_graph e (fetch_and_apply_token_decimals rpc pools (working_graph e)) in
      let quarantined := fetch_token_identity_quarantine rpc pools in
      let all_results := join_all ((fun p => fetch_pool rpc p.1 p.2) <$> pools) in
      ' (g, states) ← apply_results quarantined (working_graph e) (pool_states e) all_results;
      let e := set_states (set_graph e g) states in
      s ← publish (snapshot_manager e) g (number (current_block e))
             (to_signed 64 (timestamp (current_block e)));
      Ret (set_snapshots e s).

Definition fetch_initial_reserves (rpc : Address -> list Z -> option (list Z)) (e : Engine.t)
    : outcome Engine.t :=
  fetch_initial_reserves_filtered rpc None e.

Definition fetch_reserves_for_addresses (rpc : Address -> list Z -> option (list Z))
    (addresses : list Address) (e : Engine.t) : outcome Engine.t :=
  if (length addresses =? 0)%nat then Ret e
  else fetch_initial_reserves_filtered rpc (Some (list_to_set addresses)) e.

(** ** Hot-cache pools *)

Fixpoint remove_all (e : Engine.t) (removed : list Address) : outcome Engine.t :=
  match removed with
  | [] => Ret e
  | a :: removed => e ← remove_pool e a; remove_all e removed
  end.

(** The addresses whose bytecode was fetched: none when the prewarm timed
    out ([prewarm] is [None]). *)
Definition warmed_addrs (prewarm : option (Address -> bool)) (added : list Discovery.PoolInfo) : gset Z :=
  match prewarm with
  | Some ok => list_to_set (filter (fun a => ok a = true) (Discovery.address <$> added))
  | None => ∅
  end.

Fixpoint register_added (require_prewarm : bool) (warmed : gset Z) (e : Engine.t)
    (added : list Discovery.PoolInfo) : outcome Engine.t :=
  match added with
  | [] => Ret e
  | pool :: added =>
      if bool_decide (is_Some (pool_registry e !! Discovery.address pool)) then
        register_added require_prewarm warmed e added
      else if require_prewarm && negb (bool_decide (Discovery.address pool ∈ warmed)) then
        register_added require_prewarm warmed e added
      else
        e ← register_pool e (Discovery.address pool) (Discovery.token0 pool) (Discovery.token1 pool) (Discovery.protocol pool) (Discovery.fee_bps pool);
        register_added require_prewarm warmed
          (if require_prewarm then mark_pool_bytecode_warmed e (Discovery.address pool) else e) added
  end.

Definition sync_hot_cache_pools (rpc : Address -> list Z -> option (list Z))
    (prewarm : option (Address -> bool)) (added : list Discovery.PoolInfo) (removed : list Address)
    (e : Engine.t) : outcome Engine.t :=
  e ← remove_all e removed;
  let require_prewarm := has_rpc e && has_bytecode_cache e in
  let warmed := if require_prewarm then warmed_addrs prewarm added else ∅ in
  e ← register_added require_prewarm warmed e added;
  if negb (length added =? 0)%nat && has_rpc e then
    let addrs :=
      Discovery.address <$> filter (fun p => negb require_prewarm || bool_decide (Discovery.address p ∈ warmed) = true) added in
    fetch_reserves_for_addresses rpc addrs e
  else Ret e.

(** ** The effect of a fetch *)

Definition fee_of (m : PoolMetadata) : f64 :=
  f64_div (f64_of_Z (10000 - meta_fee_bps m)) (f64_of_Z 10000).

Definition result_meta (r : ReserveResult) : option PoolMetadata :=
  match r with
  | RV2 _ m _ _ | RV3 _ m _ _ _ | RCurve _ m _ _ _ | RBalancer _ m _ _ _ _ => Some m
  | RSkipped o => o
  end.

(** What a result does to the graph. *)
Definition result_ops (quarantined : gset Z) (r : ReserveResult) : list PriceGraph.op :=
  match r with
  | RV2 a m r0 r1 =>
      if bool_decide (a ∈ quarantined) then []
      else if f64_gt (u256_to_f64 r0) f64_zero && f64_gt (u256_to_f64 r1) f64_zero
      then reserve_ops m (u256_to_f64 r0) (u256_to_f64 r1) (fee_of m) else []
  | RV3 a m sp tick l =>
      if bool_decide (a ∈ quarantined) then []
      else if f64_gt (v3_price sp) f64_zero then v3_ops m a sp l (v3_price sp) (fee_of m) else []
  | RCurve _ _ _ _ _ | RBalancer _ _ _ _ _ _ | RSkipped None => []
  | RSkipped (Some m) =>
      [PriceGraph.SetFiltered (token0_idx m) (token1_idx m) (meta_pool_id m) true;
       PriceGraph.SetFiltered (token1_idx m) (token0_idx m) (meta_pool_id m) true]
  end.

(** And to the pool-state cache. *)
Definition result_state (quarantined : gset Z) (r : ReserveResult) : option (Address * PoolState) :=
  match r with
  | RV2 a m r0 r1 =>
      if negb (bool_decide (a ∈ quarantined)) &&
         (f64_gt (u256_to_f64 r0) f64_zero && f64_gt (u256_to_f64 r1) f64_zero)
      then Some (a, build_v2_pool_state a m r0 r1) else None
  | RV3 a m sp tick l =>
      if negb (bool_decide (a ∈ quarantined)) && f64_gt (v3_price sp) f64_zero
      then Some (a, build_v3_pool_state a m sp l tick) else None
  | RCurve a m amp b0 b1 =>
      Some (a, StCurve (CurvePool.mk a [meta_token0 m; meta_token1 m] [b0; b1] (to_u64 amp)
                          (meta_fee_bps m)))
  | RBalancer a m b0 b1 w0 w1 =>
      Some (a, StBalancer (BalancerPool.update_state
              (BalancerPool.new a (meta_token0 m) (meta_token1 m) (to_u64 w0) (to_u64 w1)
                 (meta_fee_bps m)) b0 b1))
  | RSkipped _ => None
  end.

Definition store_state (states : PoolStateCache) (o : option (Address * PoolState)) : PoolStateCache :=
  match o with Some (a, s) => <[a := s]> states | None => states end.

Definition fee_ok (r : ReserveResult) : Prop :=
  forall m, result_meta r = Some m -> 0 <= meta_fee_bps m <= 10000.

Lemma apply_result_eq q g states r : fee_ok r ->
  apply_result q g states r
  = (g ← PriceGraph.run g (result_ops q r); Ret (g, store_state states (result_state q r))).
Proof.
  intros Hf. destruct r as [a m r0 r1|a m sp tk l|a m amp b0 b1|a m b0 b1 w0 w1|[m|]]; try done.
  - cbn [apply_result result_ops result_state]. rewrite bool_decide_decide.
    destruct (decide (a ∈ q)); [done|]. cbn [negb andb].
    destruct (_ && _); [|done]. rewrite fee_factor_returns by (by apply Hf).
    cbn [mbind outcome_bind]. by rewrite seed_reserves_run.
  - cbn [apply_result result_ops result_state]. rewrite bool_decide_decide.
    destruct (decide (a ∈ q)); [done|]. cbn [negb andb].
    destruct (f64_gt _ _); [|done]. rewrite fee_factor_returns by (by apply Hf).
    cbn [mbind outcome_bind]. by rewrite seed_v3_run.
  - cbn [apply_result result_ops result_state PriceGraph.run PriceGraph.exec].
    destruct (PriceGraph.set_edge_filtered g _ _ _ _); cbn [mbind outcome_bind]; [|done].
    by destruct (PriceGraph.set_edge_filtered _ _ _ _ _).
Qed.

Lemma run_app g os os' :
  PriceGraph.run g (os ++ os') = (g ← PriceGraph.run g os; PriceGraph.run g os').
Proof.
  revert g. induction os as [|o os IH]; intros g; [done|]. cbn [app PriceGraph.run].
  destruct (PriceGraph.exec g o); cbn [mbind outcome_bind]; [apply IH|done].
Qed.

Lemma apply_results_eq q rs : Forall fee_ok rs -> forall g states,
  apply_results q g states rs
  = (g ← PriceGraph.run g (concat (result_ops q <$> rs));
     Ret (g, foldl store_state states (result_state q <$> rs))).
Proof.
  induction 1 as [|r rs Hr _ IH]; intros g states; [done|].
  cbn [apply_results]. rewrite apply_result_eq by done.
  rewrite !fmap_cons. cbn [concat foldl]. rewrite run_app.
  destruct (PriceGraph.run g (result_ops q r)); cbn [mbind outcome_bind]; [apply IH|done].
Qed.

(** *** Results belong to the pool they were asked for *)

Definition result_for (a : Address) (m : PoolMetadata) (r : ReserveResult) : Prop :=
  match r with
  | RV2 a' m' _ _ | RV3 a' m' _ _ _ | RCurve a' m' _ _ _ | RBalancer a' m' _ _ _ _ =>
      a' = a /\ m' = m
  | RSkipped o => o = Some m
  end.

Lemma fetch_pool_for rpc a m : result_for a m (fetch_pool rpc a m).
Proof.
  unfold fetch_pool. destruct (meta_protocol m); try done; repeat case_match; done.
Qed.

Lemma result_for_fee a m r : result_for a m r -> 0 <= meta_fee_bps m <= 10000 -> fee_ok r.
Proof. destruct r; cbn; intros Hr Hm m' Hm'; naive_solver. Qed.

(** The pool an operation is about, when it changes edges only. *)
Definition op_pool (o : PriceGraph.op) : option PoolId :=
  match o with
  | PriceGraph.AddEdge _ _ _ pid _ _ _ | PriceGraph.UpdateReserves _ _ pid _ _ _
  | PriceGraph.SetFiltered _ _ pid _ => Some pid
  | _ => None
  end.

Lemma reserve_ops_pool m r0 r1 fee :
  Forall (fun o => op_pool o = Some (meta_pool_id m)) (reserve_ops m r0 r1 fee).
Proof. by repeat constructor. Qed.

Lemma v3_ops_pool m a sp l price fee :
  Forall (fun o => op_pool o = Some (meta_pool_id m)) (v3_ops m a sp l price fee).
Proof.
  unfold v3_ops. apply Forall_app. split; [by repeat constructor|].
  destruct (virtual_reserves sp l) as [[]|]; [apply reserve_ops_pool|constructor].
Qed.

Lemma result_ops_pool q a m r : result_for a m r ->
  Forall (fun o => op_pool o = Some (meta_pool_id m)) (result_ops q r).
Proof.
  destruct r as [a' m' r0 r1|a' m' sp tk l| | |[m'|]]; cbn [result_for result_ops];
    try (intros [-> ->]); try (intros [= ->]); try done.
  - repeat case_match; try done. apply reserve_ops_pool.
  - repeat case_match; try done. apply v3_ops_pool.
  - by repeat constructor.
Qed.

Lemma result_ops_ok e q a m r : inv e -> pool_registry e !! a = Some m -> result_for a m r ->
  Forall (op_ok (TokenIndex.len (token_index e))) (result_ops q r).
Proof.
  intros Hi Hm. destruct r as [a' m' r0 r1|a' m' sp tk l| | |[m'|]]; cbn [result_for result_ops];
    try (intros [-> ->]); try (intros [= ->]); try done.
  - repeat case_match; try done. by eapply reserve_ops_ok.
  - repeat case_match; try done. by eapply v3_ops_ok.
  - destruct (meta_bounds _ a m (inv_index e Hi) (inv_registry e Hi a m Hm)).
    by repeat constructor.
Qed.

(** Operations on one pool leave the configuration and every other pool alone. *)
Lemma spec_exec_local s o pid : op_pool o = Some pid ->
  PriceGraph.config (PriceGraph.spec_exec s o) = PriceGraph.config s /\
  (forall k, k.2 <> pid ->
     PriceGraph.s_edges (PriceGraph.spec_exec s o) !! k = PriceGraph.s_edges s !! k).
Proof.
  destruct o; intros [= <-]; simpl.
  - split; [done|]. intros k Hk. by rewrite lookup_insert_ne by (intros <-; done).
  - destruct (_ || _); [done|]. split; [done|]. intros k Hk. simpl.
    by rewrite lookup_alter_ne by (intros <-; done).
  - split; [done|]. intros k Hk. by rewrite lookup_alter_ne by (intros <-; done).
Qed.

Lemma foldl_local os pid (P : PoolId -> Prop) :
  Forall (fun o => exists p, op_pool o = Some p /\ P p) os -> ~ P pid -> forall s,
  let s' := foldl PriceGraph.spec_exec s os in
  PriceGraph.config s' = PriceGraph.config s /\
  (forall k, k.2 = pid -> PriceGraph.s_edges s' !! k = PriceGraph.s_edges s !! k).
Proof.
  intros Hos Hp. induction Hos as [|o os (p & Ho & HP) _ IH]; intros s; [done|].
  destruct (IH (PriceGraph.spec_exec s o)) as [Hc Hk].
  destruct (spec_exec_local s o p Ho) as [Hc' Hk']. cbn zeta in *. cbn [foldl]. split; [congruence|].
  intros k <-. rewrite Hk by done. apply Hk'. by intros <-.
Qed.

(** *** Decimals *)

Definition decimals_ops (l : list (nat * Z)) : list PriceGraph.op :=
  (fun r => PriceGraph.SetTokenDecimals r.1 r.2) <$> l.

Lemma decimals_run l : forall g,
  PriceGraph.run g (decimals_ops l)
  = Ret (foldl (fun g r => PriceGraph.set_token_decimals g r.1 r.2) g l).
Proof. induction l as [|r l IH]; intros g; [done|]. apply IH. Qed.

Lemma decimals_edges l : forall s,
  PriceGraph.s_edges (foldl PriceGraph.spec_exec s (decimals_ops l)) = PriceGraph.s_edges s.
Proof. induction l as [|r l IH]; intros s; [done|]. cbn. by rewrite IH. Qed.

(** The table keeps the last entry written for a vertex; entries that agree
    leave theirs. *)
Lemma decimals_written l v d s : (v, d) ∈ l -> (forall d', (v, d') ∈ l -> d' = d) ->
  PriceGraph.s_decimals (foldl PriceGraph.spec_exec s (decimals_ops l)) !! v = Some d.
Proof.
  induction l as [|[w d0] l IH] using rev_ind; [by intros ?%elem_of_nil|].
  intros Hin Huniq. unfold decimals_ops. rewrite fmap_app, foldl_app. cbn.
  set (s1 := foldl _ _ _) in *. set (table := if (_ <=? w)%nat then _ else _).
  assert (Hw : (w < length table)%nat).
  { subst table. destruct (Nat.leb_spec (length (PriceGraph.s_decimals s1)) w);
      rewrite ?length_resize; lia. }
  destruct (decide (w = v)) as [->|Hne].
  - rewrite list_lookup_insert_eq by done. f_equal. apply Huniq. set_solver.
  - rewrite list_lookup_insert_ne by done.
    assert (Hd : PriceGraph.s_decimals s1 !! v = Some d).
    { apply IH; [|intros; apply Huniq; set_solver].
      apply elem_of_app in Hin as [|Hin]; [done|]. apply list_elem_of_singleton in Hin. congruence. }
    subst table. destruct (Nat.leb_spec (length (PriceGraph.s_decimals s1)) w); [|done].
    apply lookup_lt_Some in Hd as Hlt. by rewrite lookup_resize by lia.
Qed.

(** Each token of the pools is asked for once, with its own vertex. *)
Lemma unique_tokens_index (ti : TokenIndex.t) pools :
  Forall (fun p => meta_ok ti p.1 p.2) pools ->
  (forall a i, unique_tokens pools !! a = Some i -> TokenIndex.get_index ti a = Some i) /\
  (forall p, p ∈ pools -> is_Some (unique_tokens pools !! meta_token0 p.2) /\
                          is_Some (unique_tokens pools !! meta_token1 p.2)).
Proof.
  unfold unique_tokens. induction pools as [|p pools IH] using rev_ind.
  { intros _. cbn [foldl]. split; [intros a i; by rewrite lookup_empty|by intros ? ?%elem_of_nil]. }
  rewrite Forall_app, Forall_singleton. intros [Hps (_ & H0 & H1 & _)].
  rewrite foldl_app. cbn [foldl]. destruct (IH Hps) as [Hi Hin]. clear IH. set (u := foldl _ _ _) in *.
  clearbody u. set (u0 := match u !! meta_token0 p.2 with Some _ => u | None => _ end).
  assert (Hu0 : (forall a i, u0 !! a = Some i -> TokenIndex.get_index ti a = Some i) /\
                is_Some (u0 !! meta_token0 p.2) /\ (forall a, is_Some (u !! a) -> is_Some (u0 !! a))).
  { subst u0. destruct (u !! meta_token0 p.2) eqn:E; [done|].
    split; [|split; [by rewrite lookup_insert_eq|intros a Ha; apply lookup_insert_is_Some'; auto]].
    intros a i [[<- <-]|[_ H]]%lookup_insert_Some; [done|by apply Hi]. }
  clearbody u0. destruct Hu0 as (Hu0 & Hs0 & Hk0). cbn beta.
  destruct (u0 !! meta_token1 p.2) eqn:E.
  - split; [done|]. intros p' [Hp|Hp%list_elem_of_singleton]%elem_of_app; [|by subst p'].
    destruct (Hin p' Hp). auto.
  - split.
    + intros a i [[<- <-]|[_ H]]%lookup_insert_Some; [done|by apply Hu0].
    + intros p' [Hp|Hp%list_elem_of_singleton]%elem_of_app; [|subst p'].
      * destruct (Hin p' Hp). split; apply lookup_insert_is_Some'; auto.
      * split; [by apply lookup_insert_is_Some'; auto|by rewrite lookup_insert_eq].
Qed.

Definition decimals_found (rpc : Address -> list Z -> option (list Z))
    (pools : list (Address * PoolMetadata)) : list (nat * Z) :=
  omap id (join_all ((fun tv => fetch_decimals rpc tv.1 tv.2) <$> map_iter (unique_tokens pools))).

Lemma decimals_found_token rpc pools v d : (v, d) ∈ decimals_found rpc pools ->
  exists a, unique_tokens pools !! a = Some v /\ fetch_decimals rpc a v = Some (v, d).
Proof.
  unfold decimals_found. intros (o & Ho & Heq)%list_elem_of_omap. simpl in Heq. subst o.
  apply elem_of_join_all, list_elem_of_fmap in Ho as ([a i] & Heq & Hi%elem_of_map_iter).
  cbn [fst snd] in Heq. exists a.
  assert (i = v) as ->; [|done].
  unfold fetch_decimals in Heq. destruct (rpc a _); [|done]. cbn in Heq.
  destruct (last l); simpl in Heq; congruence.
Qed.

(** With every task joined, a token that answers gets the decimals it reports. *)
Lemma decimals_applied (ti : TokenIndex.t) rpc pools s p a v d :
  (forall A (l : list A), join_all l ≡ₚ l) ->
  TokenIndex.inverse ti -> Forall (fun p => meta_ok ti p.1 p.2) pools -> p ∈ pools ->
  (a, v) = (meta_token0 p.2, token0_idx p.2) \/ (a, v) = (meta_token1 p.2, token1_idx p.2) ->
  fetch_decimals rpc a v = Some (v, d) ->
  PriceGraph.s_decimals (foldl PriceGraph.spec_exec s (decimals_ops (decimals_found rpc pools))) !! v
  = Some d.
Proof.
  intros Hj Hinv Hps Hp Hav Hd. destruct (unique_tokens_index ti pools Hps) as [Hu Hs].
  assert (Ha : TokenIndex.get_index ti a = Some v).
  { rewrite Forall_forall in Hps. destruct (Hps p Hp) as (_ & H0 & H1 & _).
    by destruct Hav as [[= -> ->]|[= -> ->]]. }
  assert (Hua : unique_tokens pools !! a = Some v).
  { assert (is_Some (unique_tokens pools !! a)) as [v' Hv'].
    { destruct (Hs p Hp). by destruct Hav as [[= -> ->]|[= -> ->]]. }
    rewrite Hv'. apply Hu in Hv'. congruence. }
  apply decimals_written.
  - unfold decimals_found. apply list_elem_of_omap. exists (Some (v, d)). split; [|done].
    rewrite Hj. apply list_elem_of_fmap. exists (a, v). split; [done|by apply elem_of_map_iter].
  - intros d' (b & Hb & Hd')%decimals_found_token.
    assert (b = a) as ->; [|congruence].
    apply Hu, Hinv in Hb. apply Hinv in Ha. congruence.
Qed.

(** *** A whole fetch *)

Lemma elem_of_pools_to_fetch only e a m : (a, m) ∈ pools_to_fetch only e <->
  selected only a = true /\ pool_registry e !! a = Some m.
Proof. unfold pools_to_fetch. by rewrite list_elem_of_filter, elem_of_map_iter. Qed.

Lemma result_state_address q r a s : result_state q r = Some (a, s) -> state_address s = a.
Proof.
  destruct r as [a' m r0 r1|a' m sp tk l|a' m amp b0 b1|a' m b0 b1 w0 w1|]; cbn [result_state];
    try case_match; intros [= <- <-]; try done. apply build_v2_address.
Qed.

Lemma store_states_inv e os : inv e ->
  Forall (fun o => forall a s, o = Some (a, s) -> state_address s = a) os ->
  inv (set_states e (foldl store_state (pool_states e) os)).
Proof.
  intros Hi Hos. revert e Hi. induction Hos as [|o os Ho _ IH]; intros e Hi; cbn [foldl].
  - by destruct Hi.
  - destruct o as [[a s]|]; [|by apply IH]. cbn [store_state].
    exact (IH (set_states e (<[a := s]> (pool_states e))) (set_states_inv e a s Hi (Ho a s eq_refl))).
Qed.

Definition fetch_results (rpc : Address -> list Z -> option (list Z))
    (pools : list (Address * PoolMetadata)) : list ReserveResult :=
  join_all ((fun p => fetch_pool rpc p.1 p.2) <$> pools).

Lemma elem_of_fetch_results rpc only e r : r ∈ fetch_results rpc (pools_to_fetch only e) ->
  exists a m, pool_registry e !! a = Some m /\ r = fetch_pool rpc a m.
Proof.
  intros ([a m] & -> & Hp)%elem_of_join_all%list_elem_of_fmap.
  apply elem_of_pools_to_fetch in Hp as [_ Hm]. by exists a, m.
Qed.

Lemma fetch_effect rpc only e : inv e -> room e 1 -> has_rpc e = true ->
  pools_to_fetch only e <> [] ->
  let pools := pools_to_fetch only e in
  let q := fetch_token_identity_quarantine rpc pools in
  exists e', fetch_initial_reserves_filtered rpc only e = Ret e' /\ inv e' /\
    pool_registry e' = pool_registry e /\ token_index e' = token_index e /\
    graph (load (snapshot_manager e')) = working_graph e' /\
    version_counter (snapshot_manager e') = version_counter (snapshot_manager e) + 1 /\
    PriceGraph.abs (working_graph e')
    = foldl PriceGraph.spec_exec
        (foldl PriceGraph.spec_exec (PriceGraph.abs (working_graph e))
           (decimals_ops (decimals_found rpc pools)))
        (concat (result_ops q <$> fetch_results rpc pools)) /\
    pool_states e' = foldl store_state (pool_states e) (result_state q <$> fetch_results rpc pools).
Proof.
  intros Hi Hroom Hrpc Hne. cbn zeta. unfold fetch_initial_reserves_filtered. rewrite Hrpc. cbn [negb].
  set (pools := pools_to_fetch only e) in *.
  destruct (Nat.eqb_spec (length pools) 0) as [H0|_]; [by apply nil_length_inv in H0|].
  set (q := fetch_token_identity_quarantine rpc pools).
  destruct (run_registered e (decimals_ops (decimals_found rpc pools)) Hi) as (g1 & Hr1 & Hi1 & Ha1).
  { by apply Forall_fmap, Forall_forall. }
  rewrite decimals_run in Hr1. injection Hr1 as Hr1.
  change (fetch_and_apply_token_decimals rpc pools (working_graph e))
    with (foldl (fun g r => PriceGraph.set_token_decimals g r.1 r.2) (working_graph e)
            (decimals_found rpc pools)). rewrite Hr1. cbn [working_graph set_graph pool_states].
  change (join_all _) with (fetch_results rpc pools). set (rs := fetch_results rpc pools).
  assert (Hrs : forall r, r ∈ rs -> exists a m, pool_registry e !! a = Some m /\ result_for a m r).
  { intros r (a & m & Hm & ->)%elem_of_fetch_results. exists a, m. split; [done|]. apply fetch_pool_for. }
  clearbody rs. rewrite apply_results_eq.
  2: { apply Forall_forall. intros r (a & m & Hm & Hf)%Hrs. eapply result_for_fee; [done|].
       apply (inv_registry e Hi a m Hm). }
  destruct (run_registered (set_graph e g1) (concat (result_ops q <$> rs)) Hi1) as (g2 & Hr2 & Hi2 & Ha2).
  { apply Forall_concat, Forall_fmap, Forall_forall. intros r (a & m & Hm & Hf)%Hrs.
    by apply (result_ops_ok (set_graph e g1) q a m). }
  cbn [working_graph set_graph] in Hr2, Ha2. rewrite Hr2. cbn [mbind outcome_bind].
  unfold room in Hroom. cbn [snapshot_manager set_states set_graph current_block].
  destruct (publish_ret (snapshot_manager e) g2 (number (current_block e))
    (to_signed 64 (timestamp (current_block e)))) as (sm & -> & Hv & Hg); [apply Hi|lia|].
  cbn [mbind outcome_bind]. eexists. split; [done|]. split.
  - pose proof (store_states_inv (set_graph e g2) (result_state q <$> rs) Hi2) as [];
      [apply Forall_fmap, Forall_forall; intros r _ a s; apply result_state_address|].
    split; try done; cbn; [by rewrite Hg|]. rewrite Hv. pose proof (inv_version e Hi). lia.
  - cbn. rewrite Ha2, Ha1. by rewrite Hg, Hv.
Qed.

Lemma results_decimals q l : forall s,
  PriceGraph.s_decimals (foldl PriceGraph.spec_exec s (concat (result_ops q <$> l)))
  = PriceGraph.s_decimals s.
Proof.
  assert (Hos : forall os, Forall (fun o => is_Some (op_pool o)) os -> forall s,
    PriceGraph.s_decimals (foldl PriceGraph.spec_exec s os) = PriceGraph.s_decimals s).
  { induction 1 as [|o os Ho _ IH]; intros s; [done|]. cbn [foldl]. rewrite IH.
    destruct o; simpl; try done; try by destruct Ho. by destruct (_ || _). }
  apply Hos, Forall_concat, Forall_fmap, Forall_forall. intros r _. cbn [compose].
  assert (Hr : (exists a m, result_for a m r) \/ result_ops q r = []).
  { destruct r as [| | | |[|]]; [left|left|left|left|left|by right]; cbn; eauto. by exists 0, p. }
  destruct Hr as [(a & m & Hr)| ->]; [|done].
  eapply Forall_impl; [by apply (result_ops_pool q a m)|]. cbn. by intros o ->.
Qed.

(** *** Each pool on its own *)

Section Complete.
(** Every task is joined: none panics. *)
Hypothesis joined : forall X (l : list X), join_all l ≡ₚ l.

(** The result of a pool among the others, which are about other addresses. *)
Lemma results_split rpc only e a m : pool_registry e !! a = Some m -> selected only a = true ->
  exists l1 l2, fetch_results rpc (pools_to_fetch only e) = l1 ++ fetch_pool rpc a m :: l2 /\
    forall r, r ∈ l1 ++ l2 ->
      exists a' m', a' <> a /\ pool_registry e !! a' = Some m' /\ r = fetch_pool rpc a' m'.
Proof.
  intros Hm Hs. pose proof (joined _ ((fun p => fetch_pool rpc p.1 p.2) <$> pools_to_fetch only e)) as Hj.
  change (join_all _) with (fetch_results rpc (pools_to_fetch only e)) in Hj.
  assert (Hp : (a, m) ∈ pools_to_fetch only e) by (by apply elem_of_pools_to_fetch).
  assert (Hnd : NoDup (pools_to_fetch only e).*1).
  { unfold pools_to_fetch. eapply sublist_NoDup; [|apply fmap_sublist, sublist_filter].
    rewrite map_iter_perm. apply NoDup_fst_map_to_list. }
  assert (Hin : forall p, p ∈ pools_to_fetch only e -> pool_registry e !! p.1 = Some p.2).
  { intros [b n] Hb. by apply elem_of_pools_to_fetch in Hb as [_ ?]. }
  apply list_elem_of_split in Hp as (k1 & k2 & Hk). rewrite Hk in Hj, Hnd, Hin |- *.
  set (rs := fetch_results rpc _) in *. clearbody rs. rewrite fmap_app, fmap_cons in Hj. cbn [fst snd] in Hj.
  assert (Hr : fetch_pool rpc a m ∈ rs) by (rewrite Hj; set_solver).
  apply list_elem_of_split in Hr as (l1 & l2 & ->). exists l1, l2. split; [done|].
  apply Permutation_app_inv in Hj. intros r. rewrite Hj, <- fmap_app.
  intros ([a' m'] & -> & Hp')%list_elem_of_fmap. exists a', m'. split; [|split; [|done]].
  - rewrite fmap_app, fmap_cons in Hnd. apply NoDup_app in Hnd as (_ & Hd & [Hn _]%NoDup_cons).
    intros ->. apply elem_of_app in Hp' as [H|H]; apply (list_elem_of_fmap_2 fst) in H; cbn [fst] in H.
    + apply (Hd _ H). by left.
    + done.
  - apply (Hin (a', m')). set_solver.
Qed.

Lemma foldl_results_local e q rpc l a m s : inv e -> pool_registry e !! a = Some m ->
  (forall r, r ∈ l -> exists a' m', a' <> a /\ pool_registry e !! a' = Some m' /\ r = fetch_pool rpc a' m') ->
  let s' := foldl PriceGraph.spec_exec s (concat (result_ops q <$> l)) in
  PriceGraph.config s' = PriceGraph.config s /\
  (forall k, k.2 = meta_pool_id m -> PriceGraph.s_edges s' !! k = PriceGraph.s_edges s !! k).
Proof.
  intros Hi Hm Hl. apply (foldl_local _ _ (fun p => p <> meta_pool_id m)); [|by intros []].
  apply Forall_concat, Forall_fmap, Forall_forall. intros r (a' & m' & Hne & Hm' & ->)%Hl. cbn.
  eapply Forall_impl; [apply (result_ops_pool q a' m'), fetch_pool_for|].
  intros o Ho. exists (meta_pool_id m'). split; [done|].
  destruct (inv_registry e Hi a m Hm) as [-> _], (inv_registry e Hi a' m' Hm') as [-> _]. congruence.
Qed.

Lemma result_state_for q a m r b s : result_for a m r -> result_state q r = Some (b, s) -> b = a.
Proof.
  destruct r; cbn [result_for result_state]; [| | | |done]; intros [-> ->]; try case_match;
    by intros [= <- _].
Qed.

Lemma foldl_states_local q rpc l a (states : PoolStateCache) :
  (forall r, r ∈ l -> exists a' m', a' <> a /\ r = fetch_pool rpc a' m') ->
  foldl store_state states (result_state q <$> l) !! a = states !! a.
Proof.
  revert states. induction l as [|r l IH]; intros states Hl; [done|]. rewrite fmap_cons. cbn [foldl].
  rewrite IH by (intros; apply Hl; by right).
  destruct (Hl r) as (a' & m' & Hne & ->); [by left|].
  destruct (result_state q _) as [[b s]|] eqn:E; [|done]. cbn [store_state].
  rewrite (result_state_for q a' m' _ b s (fetch_pool_for rpc a' m') E).
  by rewrite lookup_insert_ne.
Qed.

Lemma quarantine_spec rpc only e a m : pool_registry e !! a = Some m -> selected only a = true ->
  pair_pool (meta_protocol m) = true ->
  a ∈ fetch_token_identity_quarantine rpc (pools_to_fetch only e) <-> is_Some (check_identity rpc a m).
Proof.
  intros Hm Hs Hp. unfold fetch_token_identity_quarantine.
  assert (Hself : forall b n c, check_identity rpc b n = Some c -> c = b).
  { intros b n c. unfold check_identity, mbind, option_bind. destruct (call_token_accessor rpc b _); [cbn|done].
    destruct (call_token_accessor rpc b _); [cbn|done]. case_match; congruence. }
  rewrite elem_of_list_to_set, list_elem_of_omap. setoid_rewrite joined.
  setoid_rewrite list_elem_of_fmap. setoid_rewrite list_elem_of_filter. split.
  - intros (o & ([b n] & -> & _ & Hb) & Ho). cbn [fst snd id] in Ho.
    pose proof (Hself _ _ _ Ho) as <-. apply elem_of_pools_to_fetch in Hb as [_ Hb].
    assert (n = m) as -> by congruence. by exists a.
  - intros [c Hc]. pose proof (Hself _ _ _ Hc) as ->. exists (Some a). split; [|done].
    exists (a, m). split; [done|]. split; [done|]. by apply elem_of_pools_to_fetch.
Qed.
End Complete.

(** *** What a fetch leaves for one pool *)

(** Both directions priced from reserves. *)
Definition priced_pair (s : PriceGraph.spec) (m : PoolMetadata) (r0 r1 : f64) : Prop :=
  priced_edge s m (token0_idx m) (token1_idx m) r0 r1 (fee_of m) /\
  priced_edge s m (token1_idx m) (token0_idx m) r1 r0 (fee_of m).

Definition edge_filtered (s : PriceGraph.spec) (k : edge_key) : Prop :=
  forall ed d, PriceGraph.s_edges s !! k = Some (ed, d) -> filtered ed = true.

(** The graph's edges and the cached state of a pool are as they were. *)
Definition untouched (e e' : Engine.t) (a : Address) (m : PoolMetadata) : Prop :=
  (forall k, k.2 = meta_pool_id m ->
     PriceGraph.s_edges (PriceGraph.abs (working_graph e')) !! k
     = PriceGraph.s_edges (PriceGraph.abs (working_graph e)) !! k) /\
  pool_states e' !! a = pool_states e !! a.

Definition seeded (rpc : Address -> list Z -> option (list Z)) (e e' : Engine.t) (a : Address)
    (m : PoolMetadata) : Prop :=
  let s' := PriceGraph.abs (working_graph e') in
  let mismatch := is_Some (check_identity rpc a m) in
  match fetch_pool rpc a m with
  | RV2 _ _ r0 r1 =>
      let positive := f64_gt (u256_to_f64 r0) f64_zero && f64_gt (u256_to_f64 r1) f64_zero = true in
      (mismatch \/ ~ positive -> untouched e e' a m) /\
      (~ mismatch -> positive ->
         priced_pair s' m (u256_to_f64 r0) (u256_to_f64 r1) /\
         pool_states e' !! a = Some (build_v2_pool_state a m r0 r1))
  | RV3 _ _ sp tick l =>
      let positive := f64_gt (v3_price sp) f64_zero = true in
      (mismatch \/ ~ positive -> untouched e e' a m) /\
      (~ mismatch -> positive ->
         (forall x y, virtual_reserves sp l = Some (x, y) -> priced_pair s' m x y) /\
         pool_states e' !! a = Some (build_v3_pool_state a m sp l tick))
  | RCurve _ _ _ _ _ as r | RBalancer _ _ _ _ _ _ as r =>
      (fun st => (a, st)) <$> pool_states e' !! a = result_state ∅ r
  | RSkipped _ =>
      edge_filtered s' (token0_idx m, token1_idx m, meta_pool_id m) /\
      edge_filtered s' (token1_idx m, token0_idx m, meta_pool_id m) /\
      pool_states e' !! a = pool_states e !! a
  end.

Lemma priced_pair_transfer s s' m r0 r1 : PriceGraph.config s' = PriceGraph.config s ->
  (forall k, k.2 = meta_pool_id m -> PriceGraph.s_edges s' !! k = PriceGraph.s_edges s !! k) ->
  priced_pair s m r0 r1 -> priced_pair s' m r0 r1.
Proof.
  intros Hc Hk [(ed & H1 & H2) (ed' & H3 & H4)].
  split; [exists ed|exists ed']; rewrite Hk, Hc by done; done.
Qed.

Lemma virtual_reserves_positive sp l x y : virtual_reserves sp l = Some (x, y) ->
  f64_gt x f64_zero = true /\ f64_gt y f64_zero = true.
Proof.
  assert (Hpos : forall z, is_finite z = true -> f64_le z f64_zero = false -> f64_gt z f64_zero = true)
    by (by intros [[]|[]| |[] ? ?]).
  unfold virtual_reserves. repeat case_match; try done. intros [= <- <-].
  repeat match goal with H : _ || _ = false |- _ => apply orb_false_iff in H as [? ?] end.
  repeat match goal with H : negb _ = false |- _ => apply negb_false_iff in H end. auto.
Qed.

Lemma v3_ops_priced s m a sp l price x y : present s m -> token0_idx m <> token1_idx m ->
  virtual_reserves sp l = Some (x, y) ->
  priced_pair (foldl PriceGraph.spec_exec s (v3_ops m a sp l price (fee_of m))) m x y.
Proof.
  intros [H0 H1] Hne Hv. unfold v3_ops. rewrite Hv, foldl_app.
  destruct (virtual_reserves_positive sp l x y Hv).
  edestruct (reserve_ops_priced (foldl PriceGraph.spec_exec s
    [PriceGraph.AddEdge (token0_idx m) (token1_idx m) (f64_mul price (fee_of m)) (meta_pool_id m) a
       (meta_protocol m) l;
     PriceGraph.AddEdge (token1_idx m) (token0_idx m) (f64_mul (f64_div f64_one price) (fee_of m))
       (meta_pool_id m) a (meta_protocol m) l]) m x y (fee_of m)) as (P0 & P1 & _);
    [|done|done|done|by split].
  split; cbn [foldl]; do 2 (apply spec_exec_keeps; [|done]); done.
Qed.

Lemma skipped_filtered s m :
  let s' := foldl PriceGraph.spec_exec s (result_ops ∅ (RSkipped (Some m))) in
  edge_filtered s' (token0_idx m, token1_idx m, meta_pool_id m) /\
  edge_filtered s' (token1_idx m, token0_idx m, meta_pool_id m).
Proof.
  cbn. split; intros ed d H; simpl in H;
    repeat (apply lookup_alter_Some in H as [(? & [? ?] & H & [= -> ->])|[? H]]; [done|]); done.
Qed.

(** One pool's own result, applied to a graph with its old edges. *)
Record own_result (rpc : Address -> list Z -> option (list Z)) (e e' : Engine.t) (a : Address)
    (m : PoolMetadata) (q : gset Z) : Prop := {
  own_edges : exists s1,
    let s2 := foldl PriceGraph.spec_exec s1 (result_ops q (fetch_pool rpc a m)) in
    (forall k, k.2 = meta_pool_id m ->
       PriceGraph.s_edges s1 !! k = PriceGraph.s_edges (PriceGraph.abs (working_graph e)) !! k) /\
    PriceGraph.config (PriceGraph.abs (working_graph e')) = PriceGraph.config s2 /\
    (forall k, k.2 = meta_pool_id m ->
       PriceGraph.s_edges (PriceGraph.abs (working_graph e')) !! k = PriceGraph.s_edges s2 !! k);
  own_state : pool_states e' !! a
    = match result_state q (fetch_pool rpc a m) with Some (_, st) => Some st | None => pool_states e !! a end;
  own_quarantine : pair_pool (meta_protocol m) = true ->
    a ∈ q <-> is_Some (check_identity rpc a m);
}.

Lemma fetch_own_result rpc only e e' : (forall X (l : list X), join_all l ≡ₚ l) -> inv e ->
  let pools := pools_to_fetch only e in
  let q := fetch_token_identity_quarantine rpc pools in
  PriceGraph.abs (working_graph e')
  = foldl PriceGraph.spec_exec
      (foldl PriceGraph.spec_exec (PriceGraph.abs (working_graph e))
         (decimals_ops (decimals_found rpc pools)))
      (concat (result_ops q <$> fetch_results rpc pools)) ->
  pool_states e' = foldl store_state (pool_states e) (result_state q <$> fetch_results rpc pools) ->
  forall a m, pool_registry e !! a = Some m -> selected only a = true -> own_result rpc e e' a m q.
Proof.
  intros Hj Hi. cbn zeta. set (pools := pools_to_fetch only e). intros Ha Hst a m Hm Hs.
  set (q := fetch_token_identity_quarantine rpc pools) in *.
  destruct (results_split Hj rpc only e a m Hm Hs) as (l1 & l2 & Hrs & Hother).
  change (pools_to_fetch only e) with pools in Hrs. rewrite Hrs in Ha, Hst.
  rewrite fmap_app, fmap_cons, concat_app, concat_cons, !foldl_app in Ha.
  rewrite fmap_app, fmap_cons, foldl_app in Hst. cbn [foldl] in Hst.
  assert (H1 : forall r, r ∈ l1 -> exists a' m', a' <> a /\ pool_registry e !! a' = Some m' /\
                 r = fetch_pool rpc a' m') by (intros; apply Hother; set_solver).
  assert (H2 : forall r, r ∈ l2 -> exists a' m', a' <> a /\ pool_registry e !! a' = Some m' /\
                 r = fetch_pool rpc a' m') by (intros; apply Hother; set_solver).
  split.
  - set (sd := foldl _ (PriceGraph.abs (working_graph e)) (decimals_ops _)) in Ha.
    destruct (foldl_results_local e q rpc l1 a m sd Hi Hm H1) as [Hc1 Hk1].
    set (s1 := foldl _ sd _) in *. exists s1. cbn zeta. split; [|rewrite Ha; by eapply foldl_results_local].
    intros k Hk. rewrite Hk1 by done. unfold sd. by rewrite decimals_edges.
  - rewrite Hst, (foldl_states_local q rpc l2 a) by naive_solver.
    destruct (result_state q (fetch_pool rpc a m)) as [[b st]|] eqn:E; cbn [store_state].
    + rewrite (result_state_for q a m _ b st (fetch_pool_for rpc a m) E). apply lookup_insert_eq.
    + apply (foldl_states_local q rpc l1 a). naive_solver.
  - by apply quarantine_spec.
Qed.

Lemma own_untouched rpc e e' a m q : own_result rpc e e' a m q ->
  result_ops q (fetch_pool rpc a m) = [] -> result_state q (fetch_pool rpc a m) = None ->
  untouched e e' a m.
Proof.
  intros [(s1 & He & _ & Hk) Hst _] Hops Hs. split.
  - intros k Hp. rewrite Hk, Hops by done. by apply He.
  - by rewrite Hst, Hs.
Qed.

Lemma own_seeded rpc e e' a m q : inv e -> pool_registry e !! a = Some m ->
  token0_idx m <> token1_idx m -> own_result rpc e e' a m q -> seeded rpc e e' a m.
Proof.
  intros Hi Hm Hne Hown. pose proof (own_untouched rpc e e' a m q Hown) as Hun.
  destruct Hown as [(s1 & He & Hc & Hk) Hst Hq]. unfold seeded.
  assert (Hpres : graph_integrated (meta_protocol m) = true -> present s1 m).
  { intros Hp. destruct (inv_present e Hi a m Hm Hp). split; by rewrite He. }
  assert (Hproto : match fetch_pool rpc a m with
            | RV2 _ _ _ _ | RV3 _ _ _ _ _ => pair_pool (meta_protocol m) = true
            | _ => True end).
  { unfold fetch_pool. destruct (meta_protocol m); try done; repeat case_match; done. }
  assert (Hint : pair_pool (meta_protocol m) = true -> graph_integrated (meta_protocol m) = true)
    by (by destruct (meta_protocol m)).
  pose proof (fetch_pool_for rpc a m) as Hfor.
  destruct (fetch_pool rpc a m) as [a' m' r0 r1|a' m' sp tk l|a' m' amp b0 b1|a' m' b0 b1 w0 w1|o];
    cbn [result_for] in Hfor; [destruct Hfor as [-> ->]..|subst o];
    cbn [result_ops result_state] in Hun, Hst, Hc, Hk.
  - specialize (Hq Hproto). specialize (Hpres (Hint Hproto)).
    destruct (f64_gt (u256_to_f64 r0) f64_zero) eqn:G0, (f64_gt (u256_to_f64 r1) f64_zero) eqn:G1;
      cbn [andb] in *; case_bool_decide as Hd; cbn [negb andb] in *;
      (split; [intros [|]; try (by apply Hun); tauto|intros ? ?; try (by exfalso; tauto)]); try done.
    split; [|done]. apply (priced_pair_transfer _ _ m _ _ Hc Hk).
    destruct (reserve_ops_priced s1 m _ _ (fee_of m) Hpres Hne G0 G1) as (P0 & P1 & _). by split.
  - specialize (Hq Hproto). specialize (Hpres (Hint Hproto)).
    destruct (f64_gt (v3_price sp) f64_zero) eqn:G; case_bool_decide as Hd; cbn [negb andb] in *;
      (split; [intros [|]; try (by apply Hun); tauto|intros ? ?; try (by exfalso; tauto)]); try done.
    split; [|done]. intros x y Hv. apply (priced_pair_transfer _ _ m _ _ Hc Hk).
    by apply v3_ops_priced.
  - by rewrite Hst.
  - by rewrite Hst.
  - destruct (skipped_filtered s1 m) as [F0 F1].
    split; [intros ed d; rewrite Hk by done; apply F0|].
    split; [intros ed d; rewrite Hk by done; apply F1|done].
Qed.

(** C17. The start-up fetch, with every task joined in whatever order, gives each
    registered pool exactly what the chain answered for it: both edges priced from
    its reserves and its state cached; both edges filtered when a call failed;
    nothing touched when the chain disagrees on the pool's tokens. The decimals
    are the ones the tokens report, and the graph is published. *)
Theorem fetch_seeds_exactly rpc e : (forall X (l : list X), join_all l ≡ₚ l) ->
  inv e -> room e 1 -> has_rpc e = true -> pool_registry e <> ∅ ->
  exists e', fetch_initial_reserves rpc e = Ret e' /\ inv e' /\
    graph (load (snapshot_manager e')) = working_graph e' /\
    (forall a m, pool_registry e !! a = Some m ->
       (forall d, fetch_decimals rpc (meta_token0 m) (token0_idx m) = Some (token0_idx m, d) ->
          PriceGraph.token_decimals (working_graph e') (token0_idx m) = d) /\
       (forall d, fetch_decimals rpc (meta_token1 m) (token1_idx m) = Some (token1_idx m, d) ->
          PriceGraph.token_decimals (working_graph e') (token1_idx m) = d) /\
       (token0_idx m <> token1_idx m -> seeded rpc e e' a m)).
Proof.
  intros Hj Hi Hroom Hrpc Hne.
  destruct (fetch_effect rpc None e Hi Hroom Hrpc) as (e' & He & Hi' & _ & _ & Hg & _ & Ha & Hst).
  { intros Hnil. apply Hne, map_eq. intros a. rewrite lookup_empty.
    destruct (pool_registry e !! a) as [m|] eqn:E; [|done].
    assert (H : (a, m) ∈ pools_to_fetch None e) by (by apply elem_of_pools_to_fetch).
    rewrite Hnil in H. by apply elem_of_nil in H. }
  exists e'. split; [done|]. split; [done|]. split; [done|]. intros a m Hm.
  pose proof (fetch_own_result rpc None e e' Hj Hi Ha Hst a m Hm eq_refl) as Hown.
  assert (Hdec : forall b v d, (b, v) = (meta_token0 m, token0_idx m) \/ (b, v) = (meta_token1 m, token1_idx m) ->
            fetch_decimals rpc b v = Some (v, d) ->
            PriceGraph.token_decimals (working_graph e') v = d).
  { intros b v d Hbv Hd. unfold PriceGraph.token_decimals.
    change (PriceGraph.decimals_table (working_graph e'))
      with (PriceGraph.s_decimals (PriceGraph.abs (working_graph e'))).
    rewrite Ha, results_decimals.
    rewrite (decimals_applied (token_index e) rpc _ _ (a, m) b v d Hj (inv_index e Hi)); try done.
    - apply Forall_forall. intros [b' n] [_ Hn]%elem_of_pools_to_fetch. by apply (inv_registry e Hi).
    - by apply elem_of_pools_to_fetch. }
  split; [intros d; apply Hdec; by left|]. split; [intros d; apply Hdec; by right|].
  intros Hd. by eapply own_seeded.
Qed.

(** ** Hot-cache synchronisation *)

(** The provider and the bytecode cache are fixed at start-up. *)
Definition same_setup (e e' : Engine.t) : Prop :=
  has_rpc e' = has_rpc e /\ has_bytecode_cache e' = has_bytecode_cache e.

Lemma remove_registry e a e' : remove_pool e a = Ret e' ->
  pool_registry e' = delete a (pool_registry e) /\ same_setup e e'.
Proof.
  unfold remove_pool. destruct (pool_registry e !! a) as [m|] eqn:E.
  - intros (s & _ & [= <-])%bind_Ret. done.
  - intros [= <-]. by rewrite delete_id.
Qed.

Lemma register_registry e a t0 t1 p fee ts e' :
  register_pool_with_tick_spacing e a t0 t1 p fee ts = Ret e' -> same_setup e e' /\
  exists m, pool_registry e' = <[a := m]> (pool_registry e) /\
    bytecode_warmed m = negb (has_bytecode_cache e).
Proof.
  unfold register_pool_with_tick_spacing.
  destruct (TokenIndex.get_or_insert _ t0) as [i0 ti0], (TokenIndex.get_or_insert ti0 t1) as [i1 ti1].
  intros (g & _ & [= <-])%bind_Ret. split; [done|]. eexists. by split.
Qed.

Lemma mark_warmed_registry e a : same_setup e (mark_pool_bytecode_warmed e a) /\
  (forall b, is_Some (pool_registry (mark_pool_bytecode_warmed e a) !! b) <-> is_Some (pool_registry e !! b)) /\
  (forall b, pool_ready_for_simulation e b = true ->
     pool_ready_for_simulation (mark_pool_bytecode_warmed e a) b = true) /\
  (is_Some (pool_registry e !! a) -> pool_ready_for_simulation (mark_pool_bytecode_warmed e a) a = true).
Proof.
  unfold mark_pool_bytecode_warmed, pool_ready_for_simulation.
  destruct (pool_registry e !! a) as [m|] eqn:E; cbn.
  - split; [done|]. split; [|split; [|by rewrite lookup_insert_eq]].
    + intros b. rewrite lookup_insert_is_Some'. naive_solver.
    + intros b. destruct (decide (b = a)) as [->|]; [by rewrite lookup_insert_eq|].
      by rewrite lookup_insert_ne.
  - split; [done|]. split; [done|]. split; [done|]. by intros [? ?].
Qed.

Lemma remove_all_returns removed : forall e, inv e -> room e (length removed) ->
  exists e', remove_all e removed = Ret e' /\ inv e' /\ same_setup e e' /\
    version_counter (snapshot_manager e')
    <= version_counter (snapshot_manager e) + Z.of_nat (length removed) /\
    (forall a, pool_registry e' !! a = if bool_decide (a ∈ removed) then None else pool_registry e !! a).
Proof.
  induction removed as [|b removed IH]; intros e Hi Hroom; cbn [remove_all length] in *.
  { exists e. split; [done|]. split; [done|]. split; [done|]. split; [lia|].
    intros a. by rewrite bool_decide_eq_false_2 by apply not_elem_of_nil. }
  unfold room in Hroom.
  destruct (remove_returns e b Hi) as (e1 & He & Hi1 & Hv1); [unfold room; lia|].
  destruct (remove_registry e b e1 He) as [Hr1 [Hs1 Hs1']]. rewrite He. cbn [mbind outcome_bind].
  destruct (IH e1 Hi1) as (e' & -> & Hi' & [Hs Hs'] & Hv & Hr); [unfold room; lia|].
  exists e'. split; [done|]. split; [done|]. split; [split; congruence|]. split; [lia|].
  intros a. rewrite Hr, Hr1. destruct (decide (a = b)) as [->|Hne].
  - rewrite lookup_delete_eq, (bool_decide_eq_true_2 (b ∈ b :: _)) by (by left). by case_match.
  - rewrite lookup_delete_ne by done. by rewrite (bool_decide_ext (a ∈ b :: removed) (a ∈ removed)) by set_solver.
Qed.

(** The pools a synchronisation may register. *)
Definition admitted (require_prewarm : bool) (warmed : gset Z) (added : list Discovery.PoolInfo)
    (a : Address) : Prop :=
  a ∈ Discovery.address <$> added /\ (require_prewarm = true -> a ∈ warmed).

Definition fees_ok (added : list Discovery.PoolInfo) : Prop :=
  Forall (fun p => 0 <= Discovery.fee_bps p <= 10000) added.

Lemma register_one (req : bool) (e : Engine.t) (p : Discovery.PoolInfo) : inv e -> 0 <= Discovery.fee_bps p <= 10000 ->
  pool_registry e !! Discovery.address p = None ->
  exists e1, register_pool e (Discovery.address p) (Discovery.token0 p) (Discovery.token1 p)
               (Discovery.protocol p) (Discovery.fee_bps p) = Ret e1 /\
    let e2 := if req then mark_pool_bytecode_warmed e1 (Discovery.address p) else e1 in
    inv e2 /\ same_setup e e2 /\ snapshot_manager e2 = snapshot_manager e /\
    (forall b, is_Some (pool_registry e2 !! b) <-> b = Discovery.address p \/ is_Some (pool_registry e !! b)) /\
    (forall b, pool_ready_for_simulation e b = true -> pool_ready_for_simulation e2 b = true) /\
    (req = has_bytecode_cache e -> pool_ready_for_simulation e2 (Discovery.address p) = true).
Proof.
  intros Hi Hp Hn. unfold register_pool.
  destruct (register_returns e (Discovery.address p) (Discovery.token0 p) (Discovery.token1 p)
    (Discovery.protocol p) (Discovery.fee_bps p) None Hi Hp) as (e1 & He & Hi1 & Hsm).
  destruct (register_registry _ _ _ _ _ _ _ _ He) as ([Hs1 Hs2] & m & Hr & Hw).
  exists e1. split; [done|]. cbn zeta.
  assert (Hreg : forall b, is_Some (pool_registry e1 !! b) <->
            b = Discovery.address p \/ is_Some (pool_registry e !! b)).
  { intros b. rewrite Hr, lookup_insert_is_Some'. naive_solver. }
  assert (Hm1 : forall b, pool_ready_for_simulation e b = true -> pool_ready_for_simulation e1 b = true).
  { intros b. unfold pool_ready_for_simulation. rewrite Hr, Hs2.
    destruct (decide (b = Discovery.address p)) as [->|]; [by rewrite Hn|by rewrite lookup_insert_ne]. }
  destruct req.
  - destruct (mark_warmed_registry e1 (Discovery.address p)) as ([Hs3 Hs4] & Hr' & Hm2 & Hw2).
    split; [by apply mark_warmed_inv|]. split; [split; congruence|].
    split; [by unfold mark_pool_bytecode_warmed; case_match|].
    split; [intros b; by rewrite Hr', Hreg|]. split; [auto|]. intros _. apply Hw2, Hreg. by left.
  - split; [done|]. split; [done|]. split; [done|]. split; [done|]. split; [done|].
    intros Hb. unfold pool_ready_for_simulation. by rewrite Hr, lookup_insert_eq, Hw, <- Hb.
Qed.

Lemma register_added_returns (req : bool) warmed added : fees_ok added -> forall e, inv e ->
  req = has_rpc e && has_bytecode_cache e ->
  exists e', register_added req warmed e added = Ret e' /\ inv e' /\ same_setup e e' /\
    snapshot_manager e' = snapshot_manager e /\
    (forall a, is_Some (pool_registry e' !! a) <->
               is_Some (pool_registry e !! a) \/ admitted req warmed added a) /\
    (forall a, pool_ready_for_simulation e a = true -> pool_ready_for_simulation e' a = true) /\
    (req = has_bytecode_cache e -> forall a, pool_registry e !! a = None ->
       is_Some (pool_registry e' !! a) -> pool_ready_for_simulation e' a = true).
Proof.
  unfold admitted. induction 1 as [|p added Hp _ IH]; intros e Hi Hreq; cbn [register_added].
  { exists e. do 4 (split; [done|]). split; [set_solver|]. split; [done|].
    intros _ a -> H. by apply is_Some_None in H. }
  rewrite fmap_cons. case_bool_decide as Hreg.
  { destruct (IH e Hi Hreq) as (e' & -> & Hi' & Hs & Hsm & Hr & Hrest). exists e'.
    do 4 (split; [done|]). split; [|done]. intros a. rewrite Hr, elem_of_cons. naive_solver. }
  destruct (req && _) eqn:Hskip.
  { apply andb_true_iff in Hskip as [-> Hw%negb_true_iff%bool_decide_eq_false].
    destruct (IH e Hi Hreq) as (e' & -> & Hi' & Hs & Hsm & Hr & Hrest). exists e'.
    do 4 (split; [done|]). split; [|done]. intros a. rewrite Hr, elem_of_cons. naive_solver. }
  destruct (register_one req e p Hi Hp (proj2 (eq_None_not_Some _) Hreg)) as (e1 & -> & H1).
  cbn [mbind outcome_bind]. set (e2 := if req then _ else e1) in *.
  destruct H1 as (Hi2 & [Hs1 Hs2] & Hsm2 & Hr2 & Hm2 & Hw2).
  destruct (IH e2 Hi2) as (e' & -> & Hi' & [Hs3 Hs4] & Hsm & Hr & Hm & Hw); [congruence|].
  exists e'. split; [done|]. split; [done|]. split; [split; congruence|]. split; [congruence|].
  assert (Hadm : req = true -> Discovery.address p ∈ warmed).
  { intros ->. by apply andb_false_iff in Hskip as [|?%negb_false_iff%bool_decide_eq_true]. }
  split; [intros a; rewrite Hr, Hr2, elem_of_cons; naive_solver|]. split; [auto|].
  intros Hq a Hn Hin. destruct (decide (a = Discovery.address p)) as [->|Hne]; [auto|].
  apply Hw; [congruence| |done]. apply eq_None_not_Some. rewrite Hr2. intros [?|[? ?]]; [done|congruence].
Qed.

Lemma fetch_setup rpc only e e' : fetch_initial_reserves_filtered rpc only e = Ret e' ->
  pool_registry e' = pool_registry e /\ same_setup e e'.
Proof.
  unfold fetch_initial_reserves_filtered. destruct (negb _); [by intros [= <-]|].
  destruct (_ =? 0)%nat; [by intros [= <-]|].
  intros ([g st] & _ & (s & _ & [= <-])%bind_Ret)%bind_Ret. done.
Qed.

Lemma fetch_returns rpc only e : inv e -> room e 1 ->
  exists e', fetch_initial_reserves_filtered rpc only e = Ret e' /\ inv e' /\
    version_counter (snapshot_manager e') <= version_counter (snapshot_manager e) + 1.
Proof.
  intros Hi Hroom. destruct (has_rpc e) eqn:Hrpc.
  2: { exists e. unfold fetch_initial_reserves_filtered. rewrite Hrpc. split; [done|]. split; [done|lia]. }
  destruct (decide (length (pools_to_fetch only e) = 0)%nat) as [H0|H0].
  { exists e. unfold fetch_initial_reserves_filtered. rewrite Hrpc, H0. split; [done|]. split; [done|lia]. }
  destruct (fetch_effect rpc only e Hi Hroom Hrpc) as (e' & He & Hi' & _ & _ & _ & Hv & _);
    [by intros Hn; rewrite Hn in H0|].
  exists e'. split; [done|]. split; [done|lia].
Qed.

Lemma fetch_addresses_returns rpc addrs e : inv e -> room e 1 ->
  exists e', fetch_reserves_for_addresses rpc addrs e = Ret e' /\ inv e' /\
    pool_registry e' = pool_registry e /\ same_setup e e' /\
    version_counter (snapshot_manager e') <= version_counter (snapshot_manager e) + 1.
Proof.
  intros Hi Hroom. unfold fetch_reserves_for_addresses. destruct (_ =? 0)%nat.
  { exists e. do 4 (split; [done|]). lia. }
  destruct (fetch_returns rpc (Some (list_to_set addrs)) e Hi Hroom) as (e' & He & Hi' & Hv).
  destruct (fetch_setup _ _ _ _ He) as [Hr Hs]. by exists e'.
Qed.

(** Whether a promoted pool may be registered: its bytecode was fetched, when a
    prewarm is required. *)
Definition eligible (e : Engine.t) (prewarm : option (Address -> bool)) (a : Address) : bool :=
  negb (has_rpc e && has_bytecode_cache e) || match prewarm with Some ok => ok a | None => false end.

Lemma sync_returns rpc prewarm added removed e : inv e -> fees_ok added ->
  room e (length removed + 1) ->
  exists e', sync_hot_cache_pools rpc prewarm added removed e = Ret e' /\ inv e' /\
    (forall a, is_Some (pool_registry e' !! a) <->
       (is_Some (pool_registry e !! a) /\ a ∉ removed) \/
       (a ∈ Discovery.address <$> added /\
        (has_rpc e && has_bytecode_cache e = true -> exists ok, prewarm = Some ok /\ ok a = true))) /\
    (has_rpc e = true -> forall a, pool_registry e !! a = None \/ a ∈ removed ->
       is_Some (pool_registry e' !! a) -> pool_ready_for_simulation e' a = true).
Proof.
  intros Hi Hf Hroom. unfold sync_hot_cache_pools, room in *.
  destruct (remove_all_returns removed e Hi) as (e1 & -> & Hi1 & [Hs1 Hs2] & Hv1 & Hr1);
    [unfold room; lia|].
  cbn [mbind outcome_bind]. set (req := has_rpc e1 && has_bytecode_cache e1).
  set (warmed := if req then _ else ∅).
  destruct (register_added_returns req warmed added Hf e1 Hi1 eq_refl)
    as (e2 & -> & Hi2 & [Hs3 Hs4] & Hsm & Hr2 & Hm2 & Hw2).
  cbn [mbind outcome_bind].
  assert (Hfetch : forall addrs, exists e', (if negb (length added =? 0)%nat && has_rpc e2
      then fetch_reserves_for_addresses rpc addrs e2 else Ret e2) = Ret e' /\ inv e' /\
      pool_registry e' = pool_registry e2 /\ same_setup e2 e').
  { intros addrs. destruct (negb _ && has_rpc e2); [|exists e2; do 3 (split; [done|]); done].
    destruct (fetch_addresses_returns rpc addrs e2 Hi2) as (e' & He & Hi' & Hr & Hs & _);
      [unfold room; rewrite Hsm; lia|by exists e']. }
  destruct (Hfetch (Discovery.address <$> filter
    (fun p => negb req || bool_decide (Discovery.address p ∈ warmed) = true) added))
    as (e' & -> & Hi' & Hr' & Hs5 & Hs6).
  exists e'. split; [done|]. split; [done|]. split.
  - intros a. rewrite Hr', Hr2, Hr1. unfold admitted.
    assert (Hreq : req = has_rpc e && has_bytecode_cache e) by (subst req; congruence).
    rewrite Hreq.
    assert (Hw : has_rpc e && has_bytecode_cache e = true -> a ∈ Discovery.address <$> added ->
      a ∈ warmed <-> exists ok, prewarm = Some ok /\ ok a = true).
    { intros Hq Ha. unfold warmed. rewrite Hreq, Hq. unfold warmed_addrs. destruct prewarm as [ok|]; [|set_solver].
      rewrite elem_of_list_to_set, list_elem_of_filter. naive_solver. }
    case_bool_decide; rewrite ?is_Some_None; naive_solver.
  - intros Hrpc a Hnew Hin. unfold pool_ready_for_simulation in *. rewrite Hr', Hs6 in *.
    apply Hw2; [unfold req; rewrite Hs1, Hrpc; done| |done].
    rewrite Hr1. case_bool_decide; [done|]. by destruct Hnew.
Qed.

(** A synchronisation with the hot cache never fails, keeps the engine
    consistent and leaves exactly the right pools registered: the ones that were
    there and were not evicted, and the promoted ones whose bytecode could be
    fetched (all of them when no prewarm is required). With a provider, every
    newly registered pool is ready for simulation. *)
Theorem hot_cache_sync_exact rpc prewarm added removed e : inv e -> fees_ok added ->
  room e (length removed + 1) ->
  exists e', sync_hot_cache_pools rpc prewarm added removed e = Ret e' /\ inv e' /\
    dom (pool_registry e') = (dom (pool_registry e) ∖ list_to_set removed)
      ∪ list_to_set (filter (fun a => eligible e prewarm a = true) (Discovery.address <$> added)) /\
    (has_rpc e = true -> forall a, a ∈ dom (pool_registry e') ->
       a ∉ dom (pool_registry e) ∖ list_to_set removed -> pool_ready_for_simulation e' a = true).
Proof.
  intros Hi Hf Hr. destruct (sync_returns rpc prewarm added removed e Hi Hf Hr) as (e' & He & Hi' & Hd & Hw).
  exists e'. split; [done|]. split; [done|]. split.
  - apply set_eq. intros a. rewrite elem_of_dom, Hd, elem_of_union, elem_of_difference, elem_of_dom,
      !elem_of_list_to_set, list_elem_of_filter.
    unfold eligible. destruct (has_rpc e && has_bytecode_cache e), prewarm as [ok|]; naive_solver.
  - intros Hrpc a Ha Hn. apply (Hw Hrpc); [|by apply elem_of_dom].
    destruct (decide (a ∈ removed)); [by right|left].
    apply not_elem_of_dom. intros Hin. apply Hn, elem_of_difference. by rewrite elem_of_list_to_set.
Qed.

(** ** Bootstrap *)

Context (parse_address : string -> option Address).

Definition entry_fee_ok (entry : PoolEntry) : Prop := 0 <= entry_fee_bps entry <= 10000.

(** The first valid entry of an address. *)
Definition first_entry (a : Address) (entries : list PoolEntry)
    : option (PoolEntry * (ProtocolType * Address * Address * Address)) :=
  head (filter (fun x => x.2.1.1.2 = a)
          (omap (fun en => v ← valid_entry parse_address en; Some (en, v)) entries)).

Definition registered_as (x : PoolEntry * (ProtocolType * Address * Address * Address))
    (m : PoolMetadata) : Prop :=
  let '(en, (p, _, t0, t1)) := x in
  meta_protocol m = p /\ meta_token0 m = t0 /\ meta_token1 m = t1 /\
  meta_fee_bps m = entry_fee_bps en /\ tick_spacing m = entry_tick_spacing en.

(** What the registry holds for an address, given what it held. *)
Definition after_load (old now : option PoolMetadata)
    (x : option (PoolEntry * (ProtocolType * Address * Address * Address))) : Prop :=
  match old, x with
  | Some m, _ => now = Some m
  | None, None => now = None
  | None, Some x => exists m, now = Some m /\ registered_as x m
  end.

Lemma register_meta e a t0 t1 p fee ts e' :
  register_pool_with_tick_spacing e a t0 t1 p fee ts = Ret e' ->
  exists m, pool_registry e' = <[a := m]> (pool_registry e) /\
    meta_protocol m = p /\ meta_token0 m = t0 /\ meta_token1 m = t1 /\
    meta_fee_bps m = fee /\ tick_spacing m = ts.
Proof.
  unfold register_pool_with_tick_spacing.
  destruct (TokenIndex.get_or_insert _ t0) as [i0 ti0], (TokenIndex.get_or_insert ti0 t1) as [i1 ti1].
  intros (g & _ & [= <-])%bind_Ret. eexists. by split.
Qed.

Lemma first_entry_cons a en entries : first_entry a (en :: entries) =
  match valid_entry parse_address en with
  | Some v => if decide (v.1.1.2 = a) then Some (en, v) else first_entry a entries
  | None => first_entry a entries
  end.
Proof.
  unfold first_entry. cbn [omap list_omap]. destruct (valid_entry parse_address en) as [v|]; cbn; [|done].
  by destruct (decide (v.1.1.2 = a)).
Qed.

Lemma bootstrap_loop_spec entries : Forall entry_fee_ok entries -> forall e loaded, inv e ->
  0 <= loaded -> loaded + Z.of_nat (length entries) < 2 ^ 32 ->
  exists n e', bootstrap_loop parse_address e loaded entries = Ret (n, e') /\ inv e' /\
    n - loaded = Z.of_nat (size (pool_registry e')) - Z.of_nat (size (pool_registry e)) /\
    forall a, after_load (pool_registry e !! a) (pool_registry e' !! a) (first_entry a entries).
Proof.
  induction 1 as [|en entries Hen _ IH]; intros e loaded Hi H0 Hlen; cbn [bootstrap_loop length] in *.
  { exists loaded, e. split; [done|]. split; [done|]. split; [lia|]. intros a.
    cbn. by destruct (pool_registry e !! a). }
  setoid_rewrite first_entry_cons.
  destruct (valid_entry parse_address en) as [[[[p a0] t0] t1]|] eqn:Hv; [|apply IH; [done|done|lia]].
  cbn [fst snd]. destruct (pool_registry e !! a0) as [m0|] eqn:E0.
  { destruct (IH e loaded Hi H0) as (n & e' & -> & Hi' & Hn & Ha); [lia|]. exists n, e'.
    do 3 (split; [done|]). intros a. specialize (Ha a). destruct (pool_registry e !! a) eqn:E; [done|].
    by rewrite decide_False by congruence. }
  destruct (register_returns e a0 t0 t1 p (entry_fee_bps en) (entry_tick_spacing en) Hi Hen)
    as (e1 & He & Hi1 & _).
  destruct (register_meta _ _ _ _ _ _ _ _ He) as (m & Hr & Hm). rewrite He. cbn [mbind outcome_bind].
  unfold u32_add. rewrite arith_exact by (unfold in_u; lia). cbn [mbind outcome_bind].
  destruct (IH e1 (loaded + 1) Hi1) as (n & e' & -> & Hi' & Hn & Ha); [lia|lia|].
  exists n, e'. split; [done|]. split; [done|]. split.
  { rewrite Hr, map_size_insert_None in Hn by done. lia. }
  intros a. specialize (Ha a). rewrite Hr in Ha. destruct (decide (a0 = a)) as [->|Hne].
  - rewrite lookup_insert_eq in Ha. rewrite E0. by exists m.
  - by rewrite lookup_insert_ne in Ha.
Qed.

(** Loading the pool file never fails when the fees are below 100%: every
    address with a valid entry is registered from its first one, the others and
    the pools already registered are left alone, and the count returned is the
    number of pools added. *)
Theorem bootstrap_registers_first_valid e entries : inv e -> Forall entry_fee_ok entries ->
  Z.of_nat (length entries) < 2 ^ 32 ->
  exists n e', bootstrap_pools parse_address e (Some entries) = Ret (n, e') /\ inv e' /\
    n = Z.of_nat (size (pool_registry e')) - Z.of_nat (size (pool_registry e)) /\
    forall a, after_load (pool_registry e !! a) (pool_registry e' !! a) (first_entry a entries).
Proof.
  intros Hi Hf Hlen. destruct (bootstrap_loop_spec entries Hf e 0 Hi) as (n & e' & He & Hi' & Hn & Ha);
    [lia|lia|].
  exists n, e'. split; [|split; [done|split; [lia|done]]].
  destruct entries; [|done]. exact He.
Qed.
End Apply.

(** ** Sample runs *)

(** A chain that answers [getReserves] only. *)
Definition sample_rpc (to : Address) (data : list Z) : option (list Z) :=
  if decide (data = call0 (K:=keccak_reference) (A:=abi_reference) "getReserves")
  then Some (to_be 32 1000 ++ to_be 32 2000 ++ to_be 32 0) else None.

Lemma fetch_seeds_exactly_witness :
  exists e', fetch_initial_reserves (B:=release) (M:=PriceGraph.sample_libm) (K:=keccak_reference)
      (A:=abi_reference) (HO:=canonical_order) (J:=join_in_order) sample_rpc sample = Ret e' /\
    priced_pair (M:=PriceGraph.sample_libm) (PriceGraph.abs (working_graph e')) sample_meta
      (u256_to_f64 1000) (u256_to_f64 2000) /\
    pool_states e' !! 77 = Some (build_v2_pool_state 77 sample_meta 1000 2000).
Proof.
  destruct (fetch_seeds_exactly (B:=release) (M:=PriceGraph.sample_libm) (K:=keccak_reference)
    (A:=abi_reference) (HO:=canonical_order) (J:=join_in_order) sample_rpc sample
    (fun X l => reflexivity l) sample_inv) as (e' & He & _ & _ & Hp);
    [vm_compute; reflexivity|vm_compute; reflexivity|vm_compute; discriminate|].
  exists e'. split; [exact He|].
  destruct (Hp 77 sample_meta sample_registered) as (_ & _ & Hs).
  specialize (Hs ltac:(vm_compute; discriminate)). unfold seeded in Hs.
  replace (fetch_pool sample_rpc 77 sample_meta) with (RV2 77 sample_meta 1000 2000) in Hs
    by (vm_compute; reflexivity).
  destruct Hs as [_ Hs]. apply Hs; [|vm_compute; reflexivity].
  replace (check_identity sample_rpc 77 sample_meta) with (@None Address) by (vm_compute; reflexivity).
  apply is_Some_None.
Defined.

Definition promoted : Discovery.PoolInfo :=
  Discovery.mkInfo 5 11 12 UniswapV2 30 f64_one f64_zero f64_zero f64_zero 0.

Lemma hot_cache_sync_exact_witness :
  exists e', sync_hot_cache_pools (B:=release) (M:=PriceGraph.sample_libm) (K:=keccak_reference)
      (A:=abi_reference) (HO:=canonical_order) (J:=join_in_order) sample_rpc
      (Some (fun _ => true)) [promoted] [] (new default_config true true) = Ret e' /\
    is_Some (pool_registry e' !! 5) /\ pool_ready_for_simulation e' 5 = true.
Proof.
  destruct (hot_cache_sync_exact (B:=release) (M:=PriceGraph.sample_libm) (K:=keccak_reference)
    (A:=abi_reference) (HO:=canonical_order) (J:=join_in_order) sample_rpc (Some (fun _ => true))
    [promoted] [] (new default_config true true) (engine_inv_new _ _ _))
    as (e' & He & _ & Hr & Hw);
    [apply Forall_singleton; vm_compute; split; discriminate|vm_compute; reflexivity|].
  exists e'. split; [exact He|].
  assert (H5 : 5 ∈ dom (pool_registry e')) by (rewrite Hr; vm_compute; reflexivity).
  split; [by apply elem_of_dom|]. apply (Hw eq_refl 5 H5). vm_compute. discriminate.
Defined.

(** One-character addresses stand for the parser. *)
Definition sample_parse (s : string) : option Address :=
  match s with
  | String c EmptyString => Some (Z.of_nat (Ascii.nat_of_ascii c) - 48)
  | _ => None
  end.

Definition sample_entries : list PoolEntry :=
  [mkEntry "uniswap_v2" "0" "1" "2" 30 "hot" None;
   mkEntry "uniswap_v2" "7" "1" "2" 30 "hot" None;
   mkEntry "sushiswap" "7" "1" "2" 25 "hot" None;
   mkEntry "unknown" "8" "1" "2" 30 "hot" None].

Lemma bootstrap_registers_first_valid_witness :
  exists n e' m, bootstrap_pools (B:=release) (M:=PriceGraph.sample_libm) sample_parse
      (new default_config false false) (Some sample_entries) = Ret (n, e') /\
    pool_registry e' !! 7 = Some m /\ meta_protocol m = UniswapV2 /\ meta_fee_bps m = 30 /\
    pool_registry e' !! 8 = None.
Proof.
  destruct (bootstrap_registers_first_valid (B:=release) (M:=PriceGraph.sample_libm) sample_parse
    (new default_config false false) sample_entries (engine_inv_new _ _ _))
    as (n & e' & He & _ & _ & Ha);
    [repeat (apply Forall_cons; split; [vm_compute; split; discriminate|]); apply Forall_nil_2
    |vm_compute; reflexivity|].
  destruct (Ha 7) as (m & Hm & Hp & _ & _ & Hf & _). exists n, e', m.
  exact (conj He (conj Hm (conj Hp (conj Hf (Ha 8))))).
Defined.
End Bootstrap.
