(* ===== verification/Detection.v ===== *)
(** * The engine: a detection cycle

    [run_detection_cycle] of [crates/grpc-server/src/engine.rs]: take the graph
    and its dirty flags, scan it, gate the cycles and rebuild them as candidates,
    size each trade, simulate, cross-check and publish. The EVM simulation is an
    argument, [simulate call]: its result, or [None] when the task panicked. The
    clocks are arguments. *)

From Stdlib Require Import ZArith Lia String.
From S2P Require Import Prelude.
From S2P Require Import Machine.
From S2P Require Import F64.
From S2P Require Import Types.
From S2P Require Import Bytes.
From S2P Require Import Keccak.
From S2P Require Import Abi.
From S2P Require Import UniswapV3.
From S2P Require Import TokenIndex.
From S2P Require Import PriceGraph.
From S2P Require Import Snapshot.
From S2P Require Import Opportunity.
From S2P Require Import Optimizer.
From S2P Require Import BellmanFord.
From S2P Require Import CycleGating.
From S2P Require Import HotCache.
From S2P Require Import Pipeline.
From S2P Require Import Engine.
From stdpp Require Import base option numbers strings pretty gmap sets list.

Local Open Scope Z_scope.

Module Detection.
Import Engine.

(** ** Numbers *)

Definition f64_as_i128 : f64 -> Z := f64_as (- 2 ^ 127) (2 ^ 127 - 1).
Definition i128_saturating_sub (a b : Z) : Z := Z.max (- 2 ^ 127) (Z.min (2 ^ 127 - 1) (a - b)).
Definition u128_saturating_sub (a b : Z) : Z := saturate 128 (a - b).

(** ** Candidates *)

Record CycleCandidate : Type := mkCandidate {
  hops : list ArbHop;
  protocols : list ProtocolType;
  tick_counts : list Z;
  flashloan_token : Address;
  path_id : string;
  exchange_rates : list f64;
  min_liquidity : Z;
  reserves : list (f64 * f64);
  fee_factors : list f64;
}.

(** The vectors the loop over a cycle's hops fills. *)
Record HopVectors : Type := mkVectors {
  v_hops : list ArbHop;
  v_protocols : list ProtocolType;
  v_tick_counts : list Z;
  v_exchange_rates : list f64;
  v_reserves : list (f64 * f64);
  v_fee_factors : list f64;
  v_min_liquidity : Z;
}.

Definition no_hops : HopVectors := mkVectors [] [] [] [] [] [] u256_max.

Section Candidates.
Context `{B : Build} `{M : Libm} (token_index : TokenIndex.t) (pool_registry : gmap Z PoolMetadata)
  (g : PriceGraph.t).

Definition push_hop (acc : HopVectors) (edge : PriceEdge) (from_addr to_addr : Address)
    : outcome HopVectors :=
  let rate := f64_exp (f64_neg (weight edge)) in
  let fee_bps := match pool_registry !! pool_address edge with
                 | Some m => meta_fee_bps m
                 | None => 30
                 end in
  let fee := f64_div (f64_sub (f64_of_Z 10000) (f64_of_Z fee_bps)) (f64_of_Z 10000) in
  let min_liq :=
    if edge_caps_optimizer_input edge && (liquidity edge <? v_min_liquidity acc)
    then liquidity edge else v_min_liquidity acc in
  estimated_gas ← estimate_swap_gas (edge_protocol edge) 0;
  Ret (mkVectors
         (v_hops acc ++ [mkArbHop (edge_protocol edge) (pool_address edge) from_addr to_addr 0 0
                           estimated_gas])
         (v_protocols acc ++ [edge_protocol edge]) (v_tick_counts acc ++ [0])
         (v_exchange_rates acc ++ [rate]) (v_reserves acc ++ [(reserve_in edge, reserve_out edge)])
         (v_fee_factors acc ++ [fee]) min_liq).

(** The loop over the hops of a path; [None]: not [valid]. *)
Fixpoint collect_hops (acc : HopVectors) (path : list nat) : outcome (option HopVectors) :=
  match path with
  | from_idx :: (to_idx :: _) as rest =>
      match TokenIndex.get_address token_index from_idx, TokenIndex.get_address token_index to_idx with
      | Some from_addr, Some to_addr =>
          match select_best_edge_for_hop (PriceGraph.edges_from g from_idx) to_idx with
          | Some best_edge =>
              acc ← push_hop acc best_edge from_addr to_addr;
              collect_hops acc rest
          | None => Ret None
          end
      | _, _ => Ret None
      end
  | _ => Ret (Some acc)
  end.

Definition path_label (path : list nat) : string :=
  String.concat "-" ((fun v => pretty (N.of_nat v)) <$> path).

(** An empty path would underflow [path.len() - 1] or index out of range. *)
Definition build_candidate (cycle : DetectedCycle) : outcome (option CycleCandidate) :=
  match path cycle with
  | [] => Panic
  | _ =>
      r ← collect_hops no_hops (path cycle);
      match r with
      | None => Ret None
      | Some v =>
          Ret match v_hops v with
              | [] => None
              | h :: _ =>
                  Some (mkCandidate (v_hops v) (v_protocols v) (v_tick_counts v) (hop_token_in h)
                          (path_label (path cycle)) (v_exchange_rates v) (v_min_liquidity v)
                          (v_reserves v) (v_fee_factors v))
              end
      end
  end.

(** The loop over the cycles. *)
Fixpoint build_candidates (gating : GatingConfig) (idx : gmap Z Z) (cycles : list DetectedCycle)
    : outcome (list CycleCandidate) :=
  match cycles with
  | [] => Ret []
  | cycle :: cycles =>
      if negb (is_profitable cycle) then build_candidates gating idx cycles
      else
        match gate_pre_sim cycle g idx gating with
        | Drop _ => build_candidates gating idx cycles
        | Pass =>
            oc ← build_candidate cycle;
            rest ← build_candidates gating idx cycles;
            Ret match oc with Some c => c :: rest | None => rest end
        end
  end.
End Candidates.

(** ** Sizing *)

(** The curve of a hop: its reserves, fee factor and marginal rate. The source
    reads the three vectors at the same index. *)
Definition curve : Type := f64 * f64 * f64 * f64.

Definition curves (c : CycleCandidate) : list curve :=
  (fun p : f64 * f64 * (f64 * f64) => (p.1.1, p.1.2, p.2.1, p.2.2))
    <$> zip (reserves c) (zip (fee_factors c) (exchange_rates c)).

Definition swap_output (dx : f64) (k : curve) : f64 :=
  let '(x, y, fee, rate) := k in
  if f64_gt x f64_zero && f64_gt y f64_zero then
    f64_div (f64_mul (f64_mul dx fee) y) (f64_add x (f64_mul dx fee))
  else f64_mul dx rate.

(** [gas_cost as i128] keeps the bits. *)
Definition profit_fn (ks : list curve) (gas_cost input : Z) : Z :=
  let current := foldl swap_output (u256_to_f64 input) ks in
  let output := f64_as_i128 current in
  let input_i128 := f64_as_i128 (u256_to_f64 input) in
  i128_saturating_sub (i128_saturating_sub output input_i128) (to_signed 128 gas_cost).

Definition MIN_INPUT : Z := 10000000000000000.
Definition MAX_TRADE : Z := 50000000000000000000.

Definition max_input (c : CycleCandidate) : Z :=
  if (min_liquidity c <? MAX_TRADE) && negb (min_liquidity c =? 0) then min_liquidity c
  else MAX_TRADE.

(** The amounts of each hop, and what the last one returns. *)
Fixpoint fill_amounts (amount : Z) (hs : list (ArbHop * curve)) : list ArbHop * Z :=
  match hs with
  | [] => ([], amount)
  | (h, k) :: hs =>
      let out := f64_as_u128 (swap_output (u256_to_f64 amount) k) in
      let '(rest, last) := fill_amounts out hs in
      (mkArbHop (hop_protocol h) (hop_pool_address h) (hop_token_in h) (hop_token_out h) amount out
         (hop_estimated_gas h) :: rest, last)
  end.

Record SimInput : Type := mkInput {
  in_opp : ArbOpportunity;
  in_steps : list SwapStep;
  in_calldata : list Z;
  in_flashloan_token : Address;
  in_input_amount : Z;
  in_net_profit : Z;
}.

Section Sizing.
Context `{B : Build} {K : Keccak} {A : SolAbi}.

Definition swap_step (slippage_factor : Z) (hop : ArbHop) : outcome SwapStep :=
  scaled ← u256_mul (hop_expected_out hop) slippage_factor;
  min_out ← u256_div scaled 10000;
  Ret (mkSwapStep (hop_protocol hop) (hop_pool_address hop) (hop_token_in hop) (hop_token_out hop)
         (hop_amount_in hop) min_out []).

Fixpoint swap_steps (slippage_factor : Z) (hops : list ArbHop) : outcome (list SwapStep) :=
  match hops with
  | [] => Ret []
  | hop :: hops =>
      s ← swap_step slippage_factor hop;
      rest ← swap_steps slippage_factor hops;
      Ret (s :: rest)
  end.

Definition optimal_input (c : CycleCandidate) (gas_cost : Z) : outcome (Z * Z) :=
  let f := profit_fn (curves c) gas_cost in
  if MIN_INPUT <? max_input c then ternary_search_optimal_input (fun x => Ret (f x)) MIN_INPUT (max_input c) 80
  else Ret (MIN_INPUT, f MIN_INPUT).

(** The body of the [filter_map]. *)
Definition sim_input (cfg : EngineConfig) (block : BlockInfo) (now_ns : Z) (c : CycleCandidate)
    : outcome (option SimInput) :=
  total_gas ← estimate_total_gas (protocols c) (tick_counts c);
  let gas_cost := gas_cost_wei total_gas (gas_price_gwei cfg) in
  ' (input_amount, net_profit) ← optimal_input c gas_cost;
  if net_profit <=? 0 then Ret None
  else if net_profit <? min_profit_threshold_wei cfg then Ret None
  else
    let '(optimized_hops, current_amount) := fill_amounts input_amount (zip (hops c) (curves c)) in
    let gross_profit_wei :=
      u128_saturating_sub (f64_as_u128 (u256_to_f64 current_amount))
        (f64_as_u128 (u256_to_f64 input_amount)) in
    let clamped_bps := Z.min (slippage_bps cfg) 9999 in
    slippage_factor ← u256_sub 10000 clamped_bps;
    steps ← swap_steps slippage_factor optimized_hops;
    deadline ← u64_add (timestamp block) 24;
    let calldata :=
      Pipeline.build_execute_arb_calldata steps (flashloan_token c) input_amount deadline 0 (tip_bps cfg) in
    let opp :=
      mkArbOpportunity ("arb-" +:+ pretty (Z.to_N (number block)) +:+ "-" +:+ path_id c)
        optimized_hops gross_profit_wei total_gas gas_cost net_profit (number block) now_ns in
    Ret (Some (mkInput opp steps calldata (flashloan_token c) input_amount net_profit)).

(** [now_ns i]: the clock when candidate [i] is built. *)
Fixpoint sim_inputs (cfg : EngineConfig) (block : BlockInfo) (now_ns : nat -> Z) (i : nat)
    (cs : list CycleCandidate) : outcome (list SimInput) :=
  match cs with
  | [] => Ret []
  | c :: cs =>
      oi ← sim_input cfg block (now_ns i) c;
      rest ← sim_inputs cfg block now_ns (S i) cs;
      Ret match oi with Some i => i :: rest | None => rest end
  end.
End Sizing.

(** ** Simulation and publication *)

(** The simulator's entry points, with the state they run on: an RPC fork of the
    block, or an empty state. *)
Inductive SimCall : Type :=
| SimulateRpcWithErc20Profit (block : BlockInfo) (executor : Address) (calldata : list Z)
    (token recipient : Address) (slot : Z)
| SimulateRpc (block : BlockInfo) (executor : Address) (calldata : list Z)
| Simulate (block : BlockInfo) (executor : Address) (calldata : list Z).

(** [forked]: [RpcForkedState::new] succeeded. *)
Definition sim_call (e : Engine.t) (forked : bool) (caller : Address) (input : SimInput) : SimCall :=
  let b := current_block e in
  let block := mkBlock (number b) (timestamp b) (base_fee b mod 2 ^ 64) in
  let executor_addr := executor_address (config e) in
  if has_rpc e && forked then
    match erc20_balance_slot_for_token (in_flashloan_token input) with
    | Some slot =>
        SimulateRpcWithErc20Profit block executor_addr (in_calldata input)
          (in_flashloan_token input) caller slot
    | None => SimulateRpc block executor_addr (in_calldata input)
    end
  else Simulate block executor_addr (in_calldata input).

(** The loop over the joined results: what is sent to the subscribers. *)
Fixpoint publish_results (gating : GatingConfig) (rs : list (option (SimInput * SimulationResult)))
    : list Pipeline.ProtoValidatedArb :=
  match rs with
  | [] => []
  | None :: rs => publish_results gating rs
  | Some (input, sim_result) :: rs =>
      if negb (sim_success sim_result) then publish_results gating rs
      else
        let actual_profit :=
          if in_ub 128 (sim_profit_wei sim_result) then sim_profit_wei sim_result else u128_max in
        match gate_post_sim (in_net_profit input) actual_profit gating with
        | Drop _ => publish_results gating rs
        | Pass =>
            Pipeline.build_validated_arb (in_opp input) sim_result (in_flashloan_token input)
              (in_input_amount input) (in_steps input) (in_calldata input)
            :: publish_results gating rs
        end
  end.

(** ** The cycle *)

Section Cycle.
Context `{B : Build} `{M : Libm} {K : Keccak} {A : SolAbi} `{HO : HashOrder}.
Context (elapsed now_ns : nat -> Z) (forked : bool) (caller : Address)
  (simulate : SimCall -> option SimulationResult).

Definition detector (e : Engine.t) : BellmanFord.t :=
  BellmanFord.new (Engine.max_hops (config e)) (detection_time_budget_us (config e)).

(** The graph a cycle works on: the working graph, or its hot-cache part. *)
Definition detection_graph (e : Engine.t) : PriceGraph.t :=
  match hot_cache e with
  | Some cache =>
      let allowed := HotCache.pool_addresses cache in
      if decide (allowed = ∅) then working_graph e
      else PriceGraph.clone_retaining_pools set_iter (working_graph e) allowed
  | None => working_graph e
  end.

(** [None]: the detector's fuel ran out. *)
Definition scan (e : Engine.t) (g : PriceGraph.t) : outcome (option (list DetectedCycle)) :=
  let affected := PriceGraph.affected_vertices g in
  if (length affected =? 0)%nat
  then BellmanFord.detect_negative_cycles (detector e) elapsed g
  else BellmanFord.detect_from_affected (detector e) elapsed g affected.

Definition publish_graph (e : Engine.t) (g : PriceGraph.t) : outcome Engine.t :=
  s ← publish (snapshot_manager e) g (number (current_block e))
        (to_signed 64 (timestamp (current_block e)));
  Ret (set_snapshots e s).

Definition simulate_inputs (e : Engine.t) (inputs : list SimInput)
    : list (option (SimInput * SimulationResult)) :=
  (fun input => (fun r => (input, r)) <$> simulate (sim_call e forked caller input)) <$> inputs.

Definition run_detection_cycle (e : Engine.t)
    : outcome (option (Engine.t * list Pipeline.ProtoValidatedArb)) :=
  let g := detection_graph e in
  let e := set_graph e (PriceGraph.clear_dirty (working_graph e)) in
  if negb (PriceGraph.has_dirty_edges g) && (PriceGraph.num_edges g =? 0)%nat then
    e ← publish_graph e g; Ret (Some (e, []))
  else
    oc ← scan e g;
    match oc with
    | None => Ret None
    | Some [] => e ← publish_graph e g; Ret (Some (e, []))
    | Some cycles =>
        let idx := build_fingerprint_index cycles (gating (config e)) in
        candidates ← build_candidates (token_index e) (pool_registry e) g (gating (config e)) idx cycles;
        e ← publish_graph e g;
        inputs ← sim_inputs (config e) (current_block e) now_ns 0 candidates;
        Ret (Some (e, publish_results (gating (config e)) (simulate_inputs e inputs)))
    end.

Definition handle_new_block (e : Engine.t) (block_number timestamp base_fee : Z)
    : outcome (option (Engine.t * list Pipeline.ProtoValidatedArb)) :=
  run_detection_cycle (set_block e (mkBlock block_number timestamp base_fee)).
End Cycle.

(** ** Candidates are token chains *)

(** A hop trades through an unfiltered edge of the graph, between the tokens of
    its end points. *)
Definition hop_of (ti : TokenIndex.t) (g : PriceGraph.t) (h : ArbHop) : Prop :=
  exists ed, ed ∈ PriceGraph.all_edges g /\ filtered ed = false /\
    hop_pool_address h = pool_address ed /\ hop_protocol h = edge_protocol ed /\
    TokenIndex.get_address ti (from ed) = Some (hop_token_in h) /\
    TokenIndex.get_address ti (to ed) = Some (hop_token_out h).

(** Each hop starts with the token the one before it ends with. *)
Fixpoint token_chain (start : Address) (hs : list ArbHop) (stop : Address) : Prop :=
  match hs with
  | [] => start = stop
  | h :: hs => hop_token_in h = start /\ token_chain (hop_token_out h) hs stop
  end.

(** Every vertex of an edge is a known token. *)
Definition known_vertices (ti : TokenIndex.t) (g : PriceGraph.t) : Prop :=
  forall ed, ed ∈ PriceGraph.all_edges g ->
    is_Some (TokenIndex.get_address ti (from ed)) /\ is_Some (TokenIndex.get_address ti (to ed)).

(** The vectors with [hs] appended: all of them grow together. *)
Record extends (acc acc' : HopVectors) (hs : list ArbHop) : Prop := {
  ext_hops : v_hops acc' = v_hops acc ++ hs;
  ext_protocols : v_protocols acc' = v_protocols acc ++ (hop_protocol <$> hs);
  ext_ticks : v_tick_counts acc' = v_tick_counts acc ++ replicate (length hs) 0;
  ext_rates : length (v_exchange_rates acc') = (length (v_exchange_rates acc) + length hs)%nat;
  ext_reserves : length (v_reserves acc') = (length (v_reserves acc) + length hs)%nat;
  ext_fees : length (v_fee_factors acc') = (length (v_fee_factors acc) + length hs)%nat;
}.

Lemma extends_cons acc acc1 acc' h hs : extends acc acc1 [h] -> extends acc1 acc' hs ->
  extends acc acc' (h :: hs).
Proof.
  intros [H1 H2 H3 H4 H5 H6] [G1 G2 G3 G4 G5 G6]. split.
  - by rewrite G1, H1, <- app_assoc.
  - by rewrite G2, H2, <- app_assoc.
  - by rewrite G3, H3, <- app_assoc.
  - cbn in *. lia.
  - cbn in *. lia.
  - cbn in *. lia.
Qed.

Section CandidateLemmas.
Context `{B : Build} `{M : Libm} (ti : TokenIndex.t) (reg : gmap Z PoolMetadata) (g : PriceGraph.t).
Context (Hg : PriceGraph.inv g) (Hk : known_vertices ti g).

Lemma push_hop_returns acc ed a b :
  exists acc' gas, push_hop reg acc ed a b = Ret acc' /\
    extends acc acc' [mkArbHop (edge_protocol ed) (pool_address ed) a b 0 0 gas].
Proof.
  unfold push_hop. rewrite estimate_swap_gas_exact by (unfold in_u; lia).
  cbn [mbind outcome_bind]. do 2 eexists. split; [done|].
  split; try done; cbn; rewrite ?length_app; cbn; lia.
Qed.

Lemma best_edge_in a b ed : BellmanFord.best_edge g a b = Some ed ->
  ed ∈ PriceGraph.all_edges g /\ filtered ed = false /\ from ed = a /\ to ed = b.
Proof.
  intros H%min_by_elem. unfold BellmanFord.candidates in H.
  apply list_elem_of_filter in H as [[Ht Hf] H]. rewrite PriceGraph.edges_from_abs in H by done.
  by apply list_elem_of_filter in H as [? ?].
Qed.

Lemma collect_hops_cons acc x y p a b ed : TokenIndex.get_address ti x = Some a ->
  TokenIndex.get_address ti y = Some b -> BellmanFord.best_edge g x y = Some ed ->
  collect_hops ti reg g acc (x :: y :: p)
  = (acc ← push_hop reg acc ed a b; collect_hops ti reg g acc (y :: p)).
Proof.
  intros Ha Hb He. cbn [collect_hops]. rewrite Ha, Hb.
  change (select_best_edge_for_hop (PriceGraph.edges_from g x) y) with (BellmanFord.best_edge g x y).
  by rewrite He.
Qed.

Lemma collect_hops_returns p : forall w w' acc v a,
  BellmanFord.path_weight g w p = Some w' ->
  head p = Some v -> TokenIndex.get_address ti v = Some a ->
  exists acc' hs stop, collect_hops ti reg g acc p = Ret (Some acc') /\ extends acc acc' hs /\
    length p = S (length hs) /\ Forall (hop_of ti g) hs /\ token_chain a hs stop /\
    (forall z, last p = Some z -> TokenIndex.get_address ti z = Some stop).
Proof.
  induction p as [|x p IH]; intros w w' acc v a Hw Hv Ha; [done|]. injection Hv as ->.
  destruct p as [|y p].
  { exists acc, [], a. split; [done|]. split; [split; cbn; rewrite ?app_nil_r; done || lia|].
    split; [done|]. split; [constructor|]. split; [done|]. by intros z [= <-]. }
  cbn [BellmanFord.path_weight] in Hw.
  destruct (BellmanFord.best_edge g v y) as [ed|] eqn:E; [|done].
  destruct (best_edge_in v y ed E) as (Hin & Hf & Hfr & Hto).
  destruct (Hk ed Hin) as [_ [b Hb]]. rewrite Hto in Hb.
  destruct (push_hop_returns acc ed a b) as (acc1 & gas & Hp & He).
  destruct (IH _ w' acc1 y b Hw) as (acc' & hs & stop & Hc & He' & Hlen & Hhs & Hch & Hst);
    [done|done|].
  exists acc', (mkArbHop (edge_protocol ed) (pool_address ed) a b 0 0 gas :: hs), stop.
  split; [|split; [by eapply extends_cons|]].
  - rewrite (collect_hops_cons acc v y p a b ed) by done. by rewrite Hp.
  - split; [cbn in *; lia|]. split; [|done].
    constructor; [|done]. exists ed. rewrite Hfr, Hto. done.
Qed.

(** What a candidate is: a closed chain of trades that starts and ends with the
    flash-loan token, with one entry of every vector per hop. *)
Record candidate_ok (c : CycleCandidate) (max_hops : nat) : Prop := {
  ok_hops : Forall (hop_of ti g) (hops c);
  ok_chain : token_chain (flashloan_token c) (hops c) (flashloan_token c);
  ok_length : (1 <= length (hops c) <= max_hops)%nat;
  ok_protocols : protocols c = hop_protocol <$> hops c;
  ok_ticks : tick_counts c = replicate (length (hops c)) 0;
  ok_curves : length (curves c) = length (hops c);
}.

Lemma length_curves c : length (reserves c) = length (hops c) ->
  length (fee_factors c) = length (hops c) -> length (exchange_rates c) = length (hops c) ->
  length (curves c) = length (hops c).
Proof. intros H1 H2 H3. unfold curves. rewrite length_fmap, !length_zip_with, H1, H2, H3. lia. Qed.

Lemma build_candidate_returns bf cy : BellmanFord.valid_cycle bf g cy ->
  exists c, build_candidate ti reg g cy = Ret (Some c) /\ candidate_ok c (BellmanFord.max_hops bf).
Proof.
  intros [(v & Hhd & Hlast) Hhops Hsimple _ Hw]. unfold build_candidate.
  destruct (path cy) as [|x p] eqn:Ep; [done|]. injection Hhd as ->. cbn [length] in Hhops.
  assert (Ha : exists a, TokenIndex.get_address ti v = Some a).
  { destruct p as [|y p]; [cbn in Hhops; lia|]. cbn [BellmanFord.path_weight] in Hw.
    destruct (BellmanFord.best_edge g v y) as [ed|] eqn:E; [|done].
    destruct (best_edge_in v y ed E) as (Hin & _ & <- & _). by destruct (Hk ed Hin). }
  destruct Ha as [a Ha].
  destruct (collect_hops_returns (v :: p) f64_zero (total_weight cy) no_hops v a)
    as (acc & hs & stop & -> & He & Hlen & Hhs & Hch & Hst); [done|done|done|].
  cbn [mbind outcome_bind]. pose proof He as [E1 E2 E3 E4 E5 E6]. cbn in E1, E2, E3, E4, E5, E6, Hlen.
  destruct hs as [|h hs]; [cbn in *; lia|]. rewrite E1. eexists. split; [done|].
  assert (Hstop : stop = a) by (specialize (Hst v Hlast); congruence).
  assert (Hin : hop_token_in h = a) by apply Hch.
  split; cbn [hops flashloan_token protocols tick_counts]; rewrite ?Hin, ?Hstop in *; try done.
  - cbn in *. lia.
  - apply length_curves; done.
Qed.

(** Every profitable cycle that passes the gates becomes a candidate. *)
Lemma build_candidates_returns bf gating idx cycles :
  Forall (BellmanFord.valid_cycle bf g) cycles ->
  exists cs, build_candidates ti reg g gating idx cycles = Ret cs /\
    Forall (fun c => candidate_ok c (BellmanFord.max_hops bf)) cs.
Proof.
  induction 1 as [|cy cycles Hcy _ (cs & IH & Hcs)]; cbn [build_candidates]; [by exists []|].
  destruct (negb (is_profitable cy)); [by exists cs|].
  destruct (gate_pre_sim cy g idx gating); [|by exists cs].
  destruct (build_candidate_returns bf cy Hcy) as (c & -> & Hc). rewrite IH.
  cbn [mbind outcome_bind]. exists (c :: cs). split; [done|]. by constructor.
Qed.
End CandidateLemmas.

(** ** Sized trades *)

Fixpoint amounts_chain (amount : Z) (hs : list ArbHop) : Prop :=
  match hs with
  | [] => True
  | h :: hs => hop_amount_in h = amount /\ amounts_chain (hop_expected_out h) hs
  end.

(** The same trade with other amounts. *)
Definition same_trade (h h' : ArbHop) : Prop :=
  hop_protocol h' = hop_protocol h /\ hop_pool_address h' = hop_pool_address h /\
  hop_token_in h' = hop_token_in h /\ hop_token_out h' = hop_token_out h.

Lemma fill_amounts_spec hs : forall amount ks out last, length ks = length hs ->
  fill_amounts amount (zip hs ks) = (out, last) ->
  Forall2 same_trade hs out /\ amounts_chain amount out /\
  Forall (fun h => in_u 128 (hop_expected_out h)) out.
Proof.
  induction hs as [|h hs IH]; intros amount [|k ks] out last Hlen H; try done.
  - injection H as <- <-. by split.
  - cbn in Hlen. injection Hlen as Hlen. cbn [zip zip_with fill_amounts] in H.
    set (o := f64_as_u128 _) in H.
    destruct (fill_amounts o (zip hs ks)) as [rest l] eqn:E. injection H as <- <-.
    destruct (IH o ks rest l Hlen E) as (H1 & H2 & H3). split; [by constructor|].
    split; [by split|]. constructor; [|done]. cbn. unfold o, in_u, f64_as_u128.
    pose proof (f64_as_range 0 (2 ^ 128 - 1) (swap_output (u256_to_f64 amount) k) ltac:(lia)). lia.
Qed.

Lemma token_chain_same hs hs' : Forall2 same_trade hs hs' -> forall a b,
  token_chain a hs b -> token_chain a hs' b.
Proof.
  induction 1 as [|h h' hs hs' (_ & _ & Hi & Ho) _ IH]; intros a b; [done|]. cbn.
  rewrite Hi, Ho. intros [? ?]. auto.
Qed.

(** A step of the executor: the hop with the least output it accepts. *)
Definition step_of (slippage_factor : Z) (h : ArbHop) (s : SwapStep) : Prop :=
  s = mkSwapStep (hop_protocol h) (hop_pool_address h) (hop_token_in h) (hop_token_out h)
        (hop_amount_in h) (hop_expected_out h * slippage_factor / 10000) [].

Section SizingLemmas.
Context `{B : Build} {K : Keccak} {A : SolAbi}.

Lemma swap_steps_returns f hs : 0 <= f <= 10000 ->
  Forall (fun h => in_u 128 (hop_expected_out h)) hs ->
  exists steps, swap_steps f hs = Ret steps /\ Forall2 (step_of f) hs steps.
Proof.
  intros Hf. induction 1 as [|h hs Hh _ (steps & IH & Hs)]; cbn [swap_steps]; [by exists []|].
  unfold swap_step, in_u in *. rewrite u256_mul_exact by (unfold in_u; nia). cbn [mbind outcome_bind].
  rewrite u256_div_exact by lia. cbn [mbind outcome_bind]. rewrite IH. cbn [mbind outcome_bind].
  eexists. split; [done|]. by constructor.
Qed.

Lemma optimal_input_returns c gas_cost :
  exists opt, optimal_input c gas_cost = Ret (opt, profit_fn (curves c) gas_cost opt) /\
    MIN_INPUT <= opt <= MAX_TRADE.
Proof.
  unfold optimal_input. assert (Hmax : max_input c <= MAX_TRADE).
  { unfold max_input. destruct (Z.ltb_spec (min_liquidity c) MAX_TRADE); cbn; [|lia].
    destruct (_ =? 0); cbn; lia. }
  unfold MAX_TRADE, MIN_INPUT in *. destruct (Z.ltb_spec 10000000000000000 (max_input c)).
  - destruct (ternary_search_returns (profit_fn (curves c) gas_cost)
      (fun x => Ret (profit_fn (curves c) gas_cost x)) 10000000000000000 (max_input c) 80)
      as (opt & -> & Hb); [lia|lia|done|]. exists opt. split; [done|lia].
  - eexists. split; [done|]. lia.
Qed.

Definition slippage_factor_of (cfg : EngineConfig) : Z := 10000 - Z.min (slippage_bps cfg) 9999.

(** What is sent to the simulator. *)
Record sized (ti : TokenIndex.t) (g : PriceGraph.t) (cfg : EngineConfig) (block : BlockInfo)
    (i : SimInput) : Prop := {
  sz_hops : Forall (hop_of ti g) (opp_hops (in_opp i));
  sz_chain : token_chain (in_flashloan_token i) (opp_hops (in_opp i)) (in_flashloan_token i);
  sz_length : (1 <= length (opp_hops (in_opp i)) <= Engine.max_hops cfg)%nat;
  sz_input : MIN_INPUT <= in_input_amount i <= MAX_TRADE;
  sz_amounts : amounts_chain (in_input_amount i) (opp_hops (in_opp i));
  sz_steps : Forall2 (step_of (slippage_factor_of cfg)) (opp_hops (in_opp i)) (in_steps i);
  sz_floor : Forall2 (fun h s => 0 <= step_min_amount_out s <= hop_expected_out h)
               (opp_hops (in_opp i)) (in_steps i);
  sz_profit : 0 < in_net_profit i /\ min_profit_threshold_wei cfg <= in_net_profit i /\
    opp_net_profit_wei (in_opp i) = in_net_profit i /\
    exists ks, length ks = length (opp_hops (in_opp i)) /\
      in_net_profit i = profit_fn ks (opp_gas_cost_wei (in_opp i)) (in_input_amount i);
  sz_calldata : in_calldata i
    = Pipeline.build_execute_arb_calldata (in_steps i) (in_flashloan_token i) (in_input_amount i)
        (timestamp block + 24) 0 (tip_bps cfg);
}.

Lemma hop_of_same ti g h h' : same_trade h h' -> hop_of ti g h -> hop_of ti g h'.
Proof.
  intros (H1 & H2 & H3 & H4) (ed & Hin & Hf & Hp & Hq & Hi & Ho). exists ed.
  by rewrite H1, H2, H3, H4.
Qed.

Lemma hops_of_same ti g hs hs' : Forall2 same_trade hs hs' -> Forall (hop_of ti g) hs ->
  Forall (hop_of ti g) hs'.
Proof.
  induction 1 as [|h h' hs hs' Hh _ IH]; [done|]. intros [Ho Hos]%Forall_cons.
  constructor; [by eapply hop_of_same|auto].
Qed.

Lemma step_floor f h s : 0 <= f <= 10000 -> in_u 128 (hop_expected_out h) -> step_of f h s ->
  0 <= step_min_amount_out s <= hop_expected_out h.
Proof.
  intros Hf [H0 _] ->. cbn. split; [apply Z.div_pos; nia|].
  apply Z.div_le_upper_bound; nia.
Qed.

(** The configuration and the block are in the ranges of their types, and the
    hop bound keeps the gas estimate in 64 bits. *)
Record sane_config (cfg : EngineConfig) (block : BlockInfo) : Prop := {
  sane_slippage : 0 <= slippage_bps cfg;
  sane_hops : (Z.of_nat (Engine.max_hops cfg) <= 1000);
  sane_timestamp : 0 <= timestamp block < 2 ^ 64 - 24;
}.

Lemma total_gas_returns c ti g n : candidate_ok ti g c n -> Z.of_nat n <= 1000 ->
  exists total, estimate_total_gas (protocols c) (tick_counts c) = Ret total.
Proof.
  intros Hc Hn. rewrite (ok_protocols _ _ _ _ Hc), (ok_ticks _ _ _ _ Hc).
  pose proof (ok_length _ _ _ _ Hc). eexists.
  apply estimate_total_gas_exact; [apply Forall_replicate; unfold in_u; lia|].
  rewrite length_fmap. lia.
Qed.

Lemma sim_input_returns ti g cfg block now c : sane_config cfg block ->
  candidate_ok ti g c (Engine.max_hops cfg) ->
  exists oi, sim_input cfg block now c = Ret oi /\
    forall i, oi = Some i -> sized ti g cfg block i.
Proof.
  intros [Hs Hn Ht] Hc. unfold sim_input.
  destruct (total_gas_returns c ti g _ Hc Hn) as (total & ->). cbn [mbind outcome_bind].
  set (gas := gas_cost_wei total (gas_price_gwei cfg)).
  destruct (optimal_input_returns c gas) as (opt & -> & Hopt). cbn [mbind outcome_bind].
  destruct (Z.leb_spec (profit_fn (curves c) gas opt) 0) as [|Hpos]; [by eexists|].
  destruct (Z.ltb_spec (profit_fn (curves c) gas opt) (min_profit_threshold_wei cfg)) as [|Hmin];
    [by eexists|].
  destruct (fill_amounts opt (zip (hops c) (curves c))) as [out last] eqn:Hfill.
  destruct (fill_amounts_spec (hops c) opt (curves c) out last (ok_curves _ _ _ _ Hc) Hfill)
    as (Hsame & Hch & Hout).
  rewrite u256_sub_exact by (unfold in_u; lia). cbn [mbind outcome_bind].
  assert (Hf : 0 <= slippage_factor_of cfg <= 10000) by (unfold slippage_factor_of; lia).
  destruct (swap_steps_returns (slippage_factor_of cfg) out Hf Hout) as (steps & Hsteps & Hst).
  unfold slippage_factor_of in Hsteps at 1. rewrite Hsteps. cbn [mbind outcome_bind].
  rewrite u64_add_exact by (unfold in_u; lia). cbn [mbind outcome_bind].
  eexists. split; [done|]. intros i [= <-]. pose proof (Forall2_length _ _ _ Hsame) as Hlen.
  split; cbn [in_opp opp_hops in_flashloan_token in_input_amount in_steps in_net_profit
              opp_net_profit_wei opp_gas_cost_wei in_calldata]; try done.
  - by eapply hops_of_same, Hc.
  - eapply token_chain_same; [done|apply Hc].
  - rewrite <- Hlen. apply Hc.
  - clear -Hst Hout Hf. induction Hst as [|h s hs ss Hh _ IH]; [constructor|].
    apply Forall_cons in Hout as [Ho Hout]. constructor; [by eapply step_floor|auto].
  - split; [done|]. split; [done|]. split; [done|]. exists (curves c).
    split; [rewrite <- Hlen; apply Hc|done].
Qed.

Lemma sim_inputs_returns ti g cfg block now cs : sane_config cfg block ->
  Forall (fun c => candidate_ok ti g c (Engine.max_hops cfg)) cs -> forall k,
  exists l, sim_inputs cfg block now k cs = Ret l /\ Forall (sized ti g cfg block) l.
Proof.
  intros Hs. induction 1 as [|c cs Hc _ IH]; intros k; cbn [sim_inputs]; [by exists []|].
  destruct (sim_input_returns ti g cfg block (now k) c Hs Hc) as (oi & -> & Hoi).
  destruct (IH (S k)) as (l & -> & Hl). cbn [mbind outcome_bind].
  eexists. split; [done|]. destruct oi; [|done]. constructor; auto.
Qed.
End SizingLemmas.

(** ** Publication *)

Lemma elem_of_publish_results gating rs arb : arb ∈ publish_results gating rs ->
  exists i r, Some (i, r) ∈ rs /\ sim_success r = true /\
    gate_post_sim (in_net_profit i)
      (if in_ub 128 (sim_profit_wei r) then sim_profit_wei r else u128_max) gating = Pass /\
    arb = Pipeline.build_validated_arb (in_opp i) r (in_flashloan_token i) (in_input_amount i)
            (in_steps i) (in_calldata i).
Proof.
  induction rs as [|[[i r]|] rs IH]; cbn [publish_results]; [by intros ?%elem_of_nil| |].
  - assert (Hrest : arb ∈ publish_results gating rs -> _) by (intros H; exact (IH H)).
    destruct (sim_success r) eqn:Es; cbn [negb]; [|intros H; destruct (Hrest H) as (j & q & ? & ?);
      exists j, q; split; [by right|done]].
    destruct (gate_post_sim _ _ gating) eqn:Eg;
      [|intros H; destruct (Hrest H) as (j & q & ? & ?); exists j, q; split; [by right|done]].
    intros [-> |H]%elem_of_cons; [exists i, r; split; [by left|done]|].
    destruct (Hrest H) as (j & q & ? & ?). exists j, q. split; [by right|done].
  - intros H. destruct (IH H) as (j & q & ? & ?). exists j, q. split; [by right|done].
Qed.
(** ** The scanned graph *)

(** Pools a cycle looks at. *)
Definition visible (e : Engine.t) (a : Address) : Prop :=
  match hot_cache e with
  | Some cache => HotCache.pool_addresses cache = ∅ \/ a ∈ HotCache.pool_addresses cache
  | None => True
  end.

(** The relaxation counters of a scan fit their 32 bits. *)
Definition scan_fits (e : Engine.t) : Prop :=
  let n := Z.of_nat (PriceGraph.num_vertices (working_graph e)) in
  n < 2 ^ 32 /\ (n + n * n) * Z.of_nat (PriceGraph.num_edges (working_graph e)) < 2 ^ 32.

Section GraphLemmas.
Context `{B : Build} `{M : Libm} `{HO : HashOrder}.

Lemma edges_address e : inv e ->
  Forall (fun ed => pool_address ed = pid_address (pool_id ed)) (PriceGraph.all_edges (working_graph e)).
Proof.
  intros Hi. apply Forall_forall. intros ed Hed.
  apply (PriceGraph.all_edges_abs _ _ (inv_graph e Hi)) in Hed as [d Hd].
  by destruct (inv_edges e Hi _ _ _ Hd).
Qed.

(** The working graph restricted to the visible pools, flags included. *)
Lemma detection_graph_spec e : inv e ->
  let g := detection_graph e in
  PriceGraph.inv g /\ PriceGraph.num_vertices g = PriceGraph.num_vertices (working_graph e) /\
  (forall k p, PriceGraph.s_edges (PriceGraph.abs g) !! k = Some p <->
     PriceGraph.s_edges (PriceGraph.abs (working_graph e)) !! k = Some p /\ visible e (pid_address k.2)).
Proof.
  intros Hi. cbn zeta. unfold detection_graph, visible.
  destruct (hot_cache e) as [cache|]; [|split; [apply Hi|split; [done|naive_solver]]].
  destruct (decide (HotCache.pool_addresses cache = ∅)) as [He|Hne].
  { split; [apply Hi|split; [done|naive_solver]]. }
  destruct (PriceGraph.clone_retaining_abs (working_graph e) set_iter (HotCache.pool_addresses cache)
    (inv_graph e Hi) set_iter_eq (edges_address e Hi)) as [Hg Ha].
  rewrite decide_False in Ha by done. split; [done|]. split.
  - by apply (f_equal PriceGraph.s_vertices) in Ha.
  - intros k p. rewrite Ha. simpl. rewrite map_lookup_filter_Some. simpl. naive_solver.
Qed.

Lemma detection_edges e ed : inv e -> ed ∈ PriceGraph.all_edges (detection_graph e) ->
  ed ∈ PriceGraph.all_edges (working_graph e) /\ visible e (pool_address ed).
Proof.
  intros Hi Hed. destruct (detection_graph_spec e Hi) as (Hg & _ & Hs).
  apply (PriceGraph.all_edges_abs _ _ Hg) in Hed as [d [Hd Hv]%Hs].
  assert (Hin : ed ∈ PriceGraph.all_edges (working_graph e))
    by (apply (PriceGraph.all_edges_abs _ _ (inv_graph e Hi)); by exists d).
  split; [done|]. by rewrite (proj1 (Forall_forall _ _) (edges_address e Hi) ed Hin).
Qed.

Lemma detection_vertices e ed : inv e -> ed ∈ PriceGraph.all_edges (detection_graph e) ->
  (from ed < TokenIndex.len (token_index e))%nat /\ (to ed < TokenIndex.len (token_index e))%nat.
Proof.
  intros Hi [Hin _]%detection_edges; [|done].
  apply (PriceGraph.all_edges_abs _ _ (inv_graph e Hi)) in Hin as [d Hd].
  by destruct (inv_edges e Hi _ _ _ Hd) as (_ & _ & ? & ?).
Qed.

Lemma detection_known e : inv e -> known_vertices (token_index e) (detection_graph e).
Proof.
  intros Hi ed Hed. destruct (detection_vertices e ed Hi Hed) as [H1 H2].
  split; by apply lookup_lt_is_Some_2.
Qed.

Lemma detection_num_edges e : inv e ->
  (PriceGraph.num_edges (detection_graph e) <= PriceGraph.num_edges (working_graph e))%nat.
Proof.
  intros Hi. apply submseteq_length, NoDup_submseteq.
  - apply (NoDup_fmap_1 key), PriceGraph.inv_nodup. by apply detection_graph_spec.
  - intros ed Hed. by apply detection_edges.
Qed.

Lemma affected_length e : inv e ->
  (length (PriceGraph.affected_vertices (detection_graph e))
   <= PriceGraph.num_vertices (working_graph e))%nat.
Proof.
  intros Hi. destruct (detection_graph_spec e Hi) as (Hg & Hn & _).
  set (l := PriceGraph.affected_vertices (detection_graph e)).
  rewrite <- (length_seq (PriceGraph.num_vertices (working_graph e)) 0).
  apply submseteq_length, NoDup_submseteq.
  - unfold l, PriceGraph.affected_vertices. rewrite sort_by_perm. apply NoDup_elements.
  - intros v Hv. apply (PriceGraph.elem_of_affected _ _ Hg) in Hv as (k & ed & Hk & Hv).
    assert (Hed : ed ∈ PriceGraph.all_edges (detection_graph e)).
    { apply (PriceGraph.abs_lookup _ _ _ _ Hg) in Hk as (i & _ & He & _).
      by eapply list_elem_of_lookup_2. }
    destruct (detection_vertices e ed Hi Hed). pose proof (inv_size e Hi).
    apply elem_of_seq. destruct Hv; lia.
Qed.

Lemma scan_returns elapsed e e' : inv e -> scan_fits e ->
  exists cs, scan elapsed e' (detection_graph e) = Ret (Some cs) /\
    BellmanFord.reported (detector e') (detection_graph e) cs.
Proof.
  intros Hi [Hn Hc]. destruct (detection_graph_spec e Hi) as (Hg & Hv & _).
  pose proof (affected_length e Hi) as Hl. pose proof (detection_num_edges e Hi) as He.
  set (g := detection_graph e) in *. set (aff := PriceGraph.affected_vertices g) in *.
  assert (Hsc : BellmanFord.scannable g
            (length aff + PriceGraph.num_vertices g * PriceGraph.num_vertices g)).
  { split; [done| |by rewrite Hv|].
    - apply Forall_forall. intros ed Hed. destruct (detection_vertices e ed Hi Hed).
      pose proof (inv_size e Hi). lia.
    - rewrite Hv. set (n := PriceGraph.num_vertices (working_graph e)) in *.
      set (m := PriceGraph.num_edges g) in *. set (m' := PriceGraph.num_edges (working_graph e)) in *.
      clearbody n m m'. nia. }
  unfold scan. fold aff. destruct (length aff =? 0)%nat.
  - apply BellmanFord.full_scan_reports. eapply BellmanFord.scannable_le; [|exact Hsc]. lia.
  - by apply BellmanFord.partial_scan_reports.
Qed.

Lemma clear_dirty_inv e : inv e -> inv (set_graph e (PriceGraph.clear_dirty (working_graph e))).
Proof.
  intros Hi.
  by destruct (run_registered e [PriceGraph.ClearDirty] Hi) as (g & [= <-] & Hg & _);
    [repeat constructor|].
Qed.

Lemma publish_graph_returns e g : inv e -> PriceGraph.inv g -> room e 1 ->
  exists s, publish_graph e g = Ret (set_snapshots e s) /\ inv (set_snapshots e s) /\
    graph (load s) = g /\ version_counter s = version_counter (snapshot_manager e) + 1.
Proof.
  intros Hi Hg Hr. unfold publish_graph, room in *.
  destruct (publish_ret (snapshot_manager e) g (number (current_block e))
    (to_signed 64 (timestamp (current_block e)))) as (s & -> & Hv & Hs); [apply Hi|lia|].
  exists s. split; [done|]. split; [|done]. pose proof (inv_version e Hi).
  destruct Hi. split; try done; cbn; [by rewrite Hs|lia].
Qed.
End GraphLemmas.
(** ** What a cycle does *)

Section CycleTheorems.
Context `{B : Build} `{M : Libm} {K : Keccak} {A : SolAbi} `{HO : HashOrder}.
Context (elapsed now_ns : nat -> Z) (forked : bool) (caller : Address)
  (simulate : SimCall -> option SimulationResult).

(** An arbitrage that may be published: a sized trade whose simulation
    succeeded and agrees with the estimate. *)
Definition validated (e : Engine.t) (arb : Pipeline.ProtoValidatedArb) : Prop :=
  exists i r, sized (token_index e) (detection_graph e) (config e) (current_block e) i /\
    simulate (sim_call e forked caller i) = Some r /\ sim_success r = true /\
    gate_post_sim (in_net_profit i)
      (if in_ub 128 (sim_profit_wei r) then sim_profit_wei r else u128_max) (gating (config e)) = Pass /\
    arb = Pipeline.build_validated_arb (in_opp i) r (in_flashloan_token i) (in_input_amount i)
            (in_steps i) (in_calldata i).

Lemma published_validated e e1 inputs : config e1 = config e -> current_block e1 = current_block e ->
  has_rpc e1 = has_rpc e ->
  Forall (sized (token_index e) (detection_graph e) (config e) (current_block e)) inputs ->
  Forall (validated e) (publish_results (gating (config e1))
                          (simulate_inputs forked caller simulate e1 inputs)).
Proof.
  intros Hc Hb Hr Hs. apply Forall_forall. intros arb (i & r & Hin & Hok & Hg & ->)%elem_of_publish_results.
  unfold simulate_inputs in Hin. apply list_elem_of_fmap in Hin as (i' & Heq & Hi').
  destruct (simulate (sim_call e1 forked caller i')) as [r'|] eqn:E; [|done].
  cbn in Heq. injection Heq as <- <-. rewrite Forall_forall in Hs.
  exists i, r. split; [by apply Hs|]. rewrite <- Hc. split; [|done].
  unfold sim_call in *. by rewrite <- Hc, <- Hb, <- Hr.
Qed.

Lemma cycle_returns e : inv e -> room e 1 -> scan_fits e -> sane_config (config e) (current_block e) ->
  exists s arbs,
    let e' := set_snapshots (set_graph e (PriceGraph.clear_dirty (working_graph e))) s in
    run_detection_cycle elapsed now_ns forked caller simulate e = Ret (Some (e', arbs)) /\
    inv e' /\ graph (load s) = detection_graph e /\
    version_counter s = version_counter (snapshot_manager e) + 1 /\ Forall (validated e) arbs.
Proof.
  intros Hi Hroom Hfit Hsane. unfold run_detection_cycle.
  pose proof (clear_dirty_inv e Hi) as Hi1.
  set (e1 := set_graph e _) in *. set (g := detection_graph e).
  destruct (detection_graph_spec e Hi) as (Hg & _).
  destruct (publish_graph_returns e1 g Hi1 Hg Hroom) as (s & Hp & Hi' & Hs & Hv).
  exists s. destruct (_ && _).
  { exists []. rewrite Hp. by repeat (split; [done|]). }
  destruct (scan_returns elapsed e e1 Hi Hfit) as (cs & Hscan & Hvalid & _).
  fold g in Hscan, Hvalid. rewrite Hscan. cbn [mbind outcome_bind].
  destruct (build_candidates_returns (token_index e1) (pool_registry e1) g Hg (detection_known e Hi)
    (detector e1) (gating (config e1)) (build_fingerprint_index cs (gating (config e1))) cs Hvalid)
    as (cands & Hcands & Hok).
  destruct cs as [|c cs].
  { exists []. rewrite Hp. by repeat (split; [done|]). }
  rewrite Hcands. cbn [mbind outcome_bind]. rewrite Hp. cbn [mbind outcome_bind].
  destruct (sim_inputs_returns (token_index e) g (config e) (current_block e) now_ns cands Hsane Hok 0)
    as (inputs & Hin & Hsized).
  change (sim_inputs (config (set_snapshots e1 s)) (current_block (set_snapshots e1 s)) now_ns 0 cands)
    with (sim_inputs (config e) (current_block e) now_ns 0 cands). rewrite Hin.
  cbn [mbind outcome_bind]. eexists. split; [done|]. do 3 (split; [done|]).
  by apply published_validated.
Qed.

(** C9. A detection cycle never fails, and everything it publishes was earned:
    each published arbitrage is a closed chain of at most [max_hops] trades that
    starts and ends with the flash-loan token, each through an unfiltered edge
    of the scanned graph; its input is between 0.01 and 50 ether, each hop is fed
    the output of the one before it, no step accepts more slippage than
    configured, the estimated net profit is the profit function's and reaches
    the threshold, the calldata is the one of these steps, and the simulation of
    that calldata succeeded with a profit the post-simulation gate accepts. *)
Theorem detection_publishes_validated e :
  inv e -> room e 1 -> scan_fits e -> sane_config (config e) (current_block e) ->
  exists e' arbs, run_detection_cycle elapsed now_ns forked caller simulate e = Ret (Some (e', arbs)) /\
    inv e' /\ Forall (validated e) arbs.
Proof.
  intros Hi Hr Hf Hs. destruct (cycle_returns e Hi Hr Hf Hs) as (s & arbs & H & Hi' & _ & _ & Ha).
  by eexists _, arbs.
Qed.

End CycleTheorems.

(** ** A cycle that publishes *)

(** Two pools between the same two tokens that disagree on the price. *)
Definition then_do (e : Engine.t) (f : Engine.t -> outcome Engine.t) : Engine.t := outcome_or e (f e).

Definition two_pools : Engine.t :=
  then_do Engine.sample (fun e =>
    register_pool (M:=PriceGraph.sample_libm) e 78 11 12 SushiSwap 30).

Definition see (e : Engine.t) (pool : Address) (p : ProtocolType) (r0 r1 : Z) : Engine.t :=
  then_do e (fun e => handle_pool_update (B:=release) (M:=PriceGraph.sample_libm) e
    (EventDecoder.ReserveUpdate pool p r0 r1)).

Definition mispriced : Engine.t :=
  see (see two_pools 77 UniswapV2 (1000 * 10 ^ 18) (2000 * 10 ^ 18)) 78 SushiSwap
    (1500 * 10 ^ 18) (1000 * 10 ^ 18).

Lemma see_inv e pool p r0 r1 : inv e -> inv (see e pool p r0 r1).
Proof.
  intros Hi. unfold see, then_do.
  destruct (handle_update_returns (B:=release) (M:=PriceGraph.sample_libm) e
    (EventDecoder.ReserveUpdate pool p r0 r1) Hi) as (e' & -> & Hi' & _). exact Hi'.
Qed.

Lemma mispriced_inv : inv mispriced.
Proof.
  apply see_inv, see_inv. unfold two_pools, then_do, register_pool.
  destruct (register_returns (M:=PriceGraph.sample_libm) Engine.sample 78 11 12 SushiSwap
    30 None Engine.sample_inv) as (e' & -> & Hi' & _); [lia|]. exact Hi'.
Qed.

(** A simulator that confirms 80 ether. *)
Definition confirm (c : SimCall) : option SimulationResult :=
  Some (mkSimulationResult true (80 * 10 ^ 18) 200000 None).

Abbreviation sample_cycle :=
  (run_detection_cycle (B:=release) (M:=PriceGraph.sample_libm) (K:=keccak_reference)
     (A:=abi_reference) (HO:=canonical_order) (fun _ => 0) (fun _ => 0) true 1 confirm mispriced).

Lemma mispriced_ready : room mispriced 1 /\ scan_fits mispriced /\
  sane_config (config mispriced) (current_block mispriced).
Proof.
  split; [vm_compute; reflexivity|]. split; [split; vm_compute; reflexivity|].
  split; vm_compute; try split; congruence.
Qed.

Lemma detection_publishes_validated_witness :
  exists e' arb, sample_cycle = Ret (Some (e', [arb])) /\
    validated (K:=keccak_reference) (A:=abi_reference) (HO:=canonical_order) true 1 confirm mispriced arb.
Proof.
  destruct mispriced_ready as (Hr & Hf & Hs).
  destruct (detection_publishes_validated (B:=release) (M:=PriceGraph.sample_libm)
    (K:=keccak_reference) (A:=abi_reference) (HO:=canonical_order) (fun _ => 0) (fun _ => 0) true 1
    confirm mispriced mispriced_inv Hr Hf Hs) as (e' & arbs & He & _ & Ha).
  assert (Hlen : match sample_cycle with Ret (Some (_, l)) => length l | _ => 0%nat end = 1%nat)
    by (vm_compute; reflexivity).
  rewrite He in Hlen. destruct arbs as [|arb [|? ?]]; [discriminate| |discriminate].
  exists e', arb. split; [exact He|]. exact (Forall_inv Ha).
Defined.

End Detection.
