(* ===== verification/EngineSim.v ===== *)
(** * Detection on the simulator

    The closure [run_detection_cycle] of [crates/grpc-server/src/engine.rs] spawns
    for each candidate: a fork of the block, the pre-warmed state injected, and
    the simulator's entry point. Composed with the detection cycle: what the
    engine publishes is profit that a transaction really makes on the forked
    state. *)

From Stdlib Require Import ZArith Lia String.
From S2P Require Import Prelude.
From S2P Require Import Machine.
From S2P Require Import F64.
From S2P Require Import Types.
From S2P Require Import Bytes.
From S2P Require Import Keccak.
From S2P Require Import Abi.
From S2P Require Import Revm.
From S2P Require Import Simulator.
From S2P Require Import Fork.
From S2P Require Import PriceGraph.
From S2P Require Import Snapshot.
From S2P Require Import CycleGating.
From S2P Require Import EventDecoder.
From S2P Require Import Pipeline.
From S2P Require Import Engine.
From S2P Require Import Detection.
From stdpp Require Import base option numbers strings pretty gmap sets list.

Local Open Scope Z_scope.

Module EngineSim.
Import Revm.

Section Sim.
Context `{E : Revm} {K : Keccak}.
Context (fork : BlockId -> option Db) (prewarmed : option Fork.PrewarmedState)
  (sim : Simulator.SimConfig).

(** The state of a task: the fork at the block, warmed. *)
Definition task_state (b : Engine.BlockInfo) : option RpcForkedState :=
  st ← rpc_state_new fork (Engine.number b) (Engine.timestamp b) (Engine.base_fee b);
  Some match prewarmed with Some pw => Fork.inject_into pw st | None => st end.

Definition forked (e : Engine.t) : bool :=
  bool_decide (is_Some (fork (BlockNumber (Engine.number (Engine.current_block e))))).

(** A task does not panic. The entry points on a fork are only called with
    one. *)
Definition run_task (c : Detection.SimCall) : option SimulationResult :=
  match c with
  | Detection.SimulateRpcWithErc20Profit b executor calldata token recipient slot =>
      st ← task_state b;
      Some (Simulator.simulate_rpc_with_erc20_profit sim st executor calldata token recipient slot)
  | Detection.SimulateRpc b executor calldata =>
      st ← task_state b; Some (Simulator.simulate_rpc sim st executor calldata)
  | Detection.Simulate b executor calldata =>
      Some (Simulator.simulate sim (new_empty (Engine.number b) (Engine.timestamp b) (Engine.base_fee b))
              executor calldata)
  end.

(** ** Published profit *)

(** The arbitrage's calldata, sent by the configured caller to the executor on
    the fork of the current block, succeeds; the flash-loan token is one whose
    balance slot is known; and the published net profit is the growth of the
    caller's balance that committing it causes. *)
Definition earned (e : Engine.t) (arb : Pipeline.ProtoValidatedArb) : Prop :=
  exists st d' gas token slot,
    let b := Engine.current_block e in
    let key := erc20_balance_key (Simulator.sim_caller sim) slot in
    let profit := saturate 256 (read d' token key - read (db st) token key) in
    task_state (Engine.mkBlock (Engine.number b) (Engine.timestamp b) (Engine.base_fee b mod 2 ^ 64))
      = Some st /\
    erc20_balance_slot_for_token token = Some slot /\
    Pipeline.pa_flashloan_token arb = Pipeline.address_to_bytes token /\
    Simulator.succeeds (db st) (Simulator.lenient_cfg (chain_id st)) (block_env st)
      (Simulator.sim_tx sim st (Engine.executor_address (Engine.config e)) (Pipeline.pa_calldata arb))
      d' gas /\
    0 < profit /\ Pipeline.pa_net_profit_wei arb = Pipeline.u256_to_bytes profit.

(** With the cross-check on, a candidate with an estimated profit passes only
    with a simulated one. *)
Lemma gate_needs_profit expected actual c : is_finite (revm_profit_mismatch_threshold c) = true ->
  expected <> 0 -> gate_post_sim expected actual c = Pass -> actual <> 0.
Proof.
  intros Hf He. unfold gate_post_sim. rewrite Hf. cbn [negb].
  destruct (Z.eqb_spec expected 0); [done|]. by destruct (Z.eqb_spec actual 0).
Qed.

Lemma report_no_profit label r : sim_profit_wei (Simulator.report label (fun _ => 0) r) = 0.
Proof. by destruct r as [?|[[] ?]]. Qed.

Lemma validated_earned `{A : !SolAbi} `{HO : HashOrder} e arb :
  cache_laws -> (forall a, durable a) ->
  is_finite (revm_profit_mismatch_threshold (Engine.gating (Engine.config e))) = true ->
  Detection.validated (forked e) (Simulator.sim_caller sim) run_task e arb -> earned e arb.
Proof.
  intros L Hdur Hfin (i & r & Hsz & Hrun & Hok & Hgate & ->).
  destruct (Detection.sz_profit _ _ _ _ _ Hsz) as (Hpos & _).
  apply gate_needs_profit in Hgate; [|done|lia].
  assert (Hp : sim_profit_wei r <> 0) by (intros H; by rewrite H in Hgate).
  unfold Detection.sim_call in Hrun. destruct (Engine.has_rpc e && forked e) eqn:Hrpc; cycle 1.
  { injection Hrun as <-. unfold Simulator.simulate in Hp. by rewrite report_no_profit in Hp. }
  destruct (erc20_balance_slot_for_token (Detection.in_flashloan_token i)) as [slot|] eqn:Es;
    cbn [run_task] in Hrun; apply bind_Some in Hrun as (st & Hst & [= <-]); cycle 1.
  { unfold Simulator.simulate_rpc in Hp. by rewrite report_no_profit in Hp. }
  destruct (Simulator.erc20_profit_measured sim st _ _ _ (Simulator.sim_caller sim) slot L (Hdur _) Hok)
    as (d' & Hs & Hprofit).
  eexists st, d', _, (Detection.in_flashloan_token i), slot.
  split; [exact Hst|]. split; [exact Es|]. split; [done|]. split; [exact Hs|].
  rewrite <- Hprofit. set (p := sim_profit_wei _) in *.
  assert (0 < p) by (pose proof (saturate_range 256 (read d' (Detection.in_flashloan_token i)
    (erc20_balance_key (Simulator.sim_caller sim) slot) - read (db st) (Detection.in_flashloan_token i)
    (erc20_balance_key (Simulator.sim_caller sim) slot)) ltac:(lia)) as [H0 _]; lia).
  split; [done|]. unfold Pipeline.build_validated_arb. cbn [Pipeline.pa_net_profit_wei]. fold p.
  by rewrite (proj2 (Z.ltb_lt _ _)).
Qed.

End Sim.

(** ** A cycle that publishes *)

(** Two pools between WETH and DAI that disagree on the price. *)
Definition weth_dai : Engine.t :=
  let add e pool p := Detection.then_do e (fun e =>
    Engine.register_pool (M:=PriceGraph.sample_libm) e pool addresses.DAI addresses.WETH p 30) in
  Detection.see
    (Detection.see (add (add (Engine.new Engine.default_config true false) 77 UniswapV2) 78 SushiSwap)
       77 UniswapV2 (1000 * 10 ^ 18) (2000 * 10 ^ 18))
    78 SushiSwap (1500 * 10 ^ 18) (1000 * 10 ^ 18).

Lemma weth_dai_inv : Engine.inv weth_dai.
Proof.
  apply Detection.see_inv, Detection.see_inv. unfold Detection.then_do, Engine.register_pool.
  destruct (Engine.register_returns (M:=PriceGraph.sample_libm) (Engine.new Engine.default_config true false)
    77 addresses.DAI addresses.WETH UniswapV2 30 None (Engine.engine_inv_new _ _ _))
    as (e & -> & Hi & _); [lia|]. cbn [Engine.outcome_or].
  destruct (Engine.register_returns (M:=PriceGraph.sample_libm) e
    78 addresses.DAI addresses.WETH SushiSwap 30 None Hi) as (e' & -> & Hi' & _); [lia|]. exact Hi'.
Qed.

Definition toy_sim : Simulator.SimConfig := Simulator.mkConfig 1000000 1 9 0.

(** An executor that credits the caller with 80 units of either token. *)
Definition toy_credit (token slot : Z) : Account :=
  mkAccount (mkInfo 0 1 0 None) {[erc20_balance_key (K:=keccak_reference) 9 slot := 80 * 10 ^ 18]} false.
Definition toy_evm : Revm :=
  store_evm (fun _ _ _ _ => inr (Success 200000 (OutCall []),
    {[addresses.WETH := toy_credit addresses.WETH 3; addresses.DAI := toy_credit addresses.DAI 2]})).

Lemma detection_evm_durable a : durable (E:=toy_evm) a.
Proof.
  intros d cfg blk tx d' r touched [= _ _ <-] acc Ha.
  apply lookup_insert_Some in Ha as [[_ <-]|[_ Ha]]; [done|].
  by apply lookup_singleton_Some in Ha as [_ <-].
Qed.

Definition toy_fork (_ : BlockId) : option (Db (Revm:=toy_evm)) := Some (∅, ∅).

Abbreviation toy_cycle :=
  (Detection.run_detection_cycle (B:=release) (M:=PriceGraph.sample_libm) (K:=keccak_reference)
     (A:=abi_reference) (HO:=canonical_order) (fun _ => 0) (fun _ => 0)
     (forked (E:=toy_evm) toy_fork weth_dai) (Simulator.sim_caller toy_sim)
     (run_task (E:=toy_evm) (K:=keccak_reference) toy_fork None toy_sim) weth_dai).

End EngineSim.
