(* ===== verification/EngineRun.v ===== *)
(** * The engine over time

    The event loop [run] of [crates/grpc-server/src/engine.rs] and the calls the
    other tasks make on the engine, as one sequence of events. Each event is
    handled to completion before the next. *)

From Stdlib Require Import ZArith Lia String.
From S2P Require Import Prelude.
From S2P Require Import Machine.
From S2P Require Import F64.
From S2P Require Import Types.
From S2P Require Import Keccak.
From S2P Require Import Abi.
From S2P Require Import PoolState.
From S2P Require Import TokenIndex.
From S2P Require Import PriceGraph.
From S2P Require Import Snapshot.
From S2P Require Import EventDecoder.
From S2P Require Import Discovery.
From S2P Require Import HotCache.
From S2P Require Import Pipeline.
From S2P Require Import Engine.
From S2P Require Import Bootstrap.
From S2P Require Import Detection.
From stdpp Require Import base option numbers strings gmap sets list.

Local Open Scope Z_scope.

Module EngineRun.
Import Engine Bootstrap Detection.

(** What the environment answers while an event is handled. *)
Record Env : Type := mkEnv {
  env_elapsed : nat -> Z;
  env_now_ns : nat -> Z;
  env_forked : bool;
  env_caller : Address;
  env_simulate : SimCall -> option SimulationResult;
  env_rpc : Address -> list Z -> option (list Z);
  env_prewarm : option (Address -> bool);
}.

Inductive Event : Type :=
| NewBlock (n ts fee : Z)
| PoolUpdate (event : PoolEvent)
| RegisterPool (pool token0 token1 : Address) (p : ProtocolType) (fee_bps : Z) (tick_spacing : option Z)
| RemovePool (pool : Address)
| MarkWarmed (pool : Address)
| SetHotCache (cache : HotCache.HotCache)
| FetchReserves
| SyncHotCache (added : list Discovery.PoolInfo) (removed : list Address).

Section Run.
Context `{B : Build} `{M : Libm} {K : Keccak} {A : SolAbi} `{HO : HashOrder} `{J : JoinSet}.

Definition quiet (m : outcome Engine.t) : outcome (option (Engine.t * list Pipeline.ProtoValidatedArb)) :=
  e ← m; Ret (Some (e, [])).

Definition handle (env : Env) (e : Engine.t) (ev : Event)
    : outcome (option (Engine.t * list Pipeline.ProtoValidatedArb)) :=
  match ev with
  | NewBlock n ts fee =>
      handle_new_block (env_elapsed env) (env_now_ns env) (env_forked env) (env_caller env)
        (env_simulate env) e n ts fee
  | PoolUpdate event => quiet (handle_pool_update e event)
  | RegisterPool pool t0 t1 p fee ts =>
      quiet (register_pool_with_tick_spacing e pool t0 t1 p fee ts)
  | RemovePool pool => quiet (remove_pool e pool)
  | MarkWarmed pool => quiet (Ret (mark_pool_bytecode_warmed e pool))
  | SetHotCache cache => quiet (Ret (set_hot_cache e cache))
  | FetchReserves => quiet (fetch_initial_reserves (env_rpc env) e)
  | SyncHotCache added removed =>
      quiet (sync_hot_cache_pools (env_rpc env) (env_prewarm env) added removed e)
  end.

(** The publications an event may make. *)
Definition publications (ev : Event) : nat :=
  match ev with
  | NewBlock _ _ _ | RemovePool _ | FetchReserves => 1
  | SyncHotCache _ removed => length removed + 1
  | _ => 0
  end.

(** An event the engine can take: fees are at most 100%, the version counter has
    room, and a scan fits the detector's counters. *)
Definition acceptable (e : Engine.t) (ev : Event) : Prop :=
  room e (publications ev) /\
  match ev with
  | NewBlock n ts fee => scan_fits e /\ sane_config (config e) (mkBlock n ts fee)
  | RegisterPool _ _ _ _ fee _ => 0 <= fee <= 10000
  | SyncHotCache added _ => fees_ok added
  | _ => True
  end.

Lemma set_block_inv e b : inv e -> inv (set_block e b).
Proof. intros []. by split. Qed.

Lemma set_hot_cache_inv e c : inv e -> inv (set_hot_cache e c).
Proof. intros []. by split. Qed.

Lemma quiet_returns (m : outcome Engine.t) (P : Engine.t -> Prop) :
  (exists e, m = Ret e /\ inv e /\ P e) -> exists e arbs, quiet m = Ret (Some (e, arbs)) /\ inv e.
Proof. intros (e & -> & Hi & _). by exists e, []. Qed.

Lemma handle_returns env e ev : inv e -> acceptable e ev ->
  exists e' arbs, handle env e ev = Ret (Some (e', arbs)) /\ inv e'.
Proof.
  intros Hi [Hr Hp]. destruct ev; cbn [handle publications] in *.
  - destruct Hp as [Hf Hs]. unfold handle_new_block.
    destruct (cycle_returns (env_elapsed env) (env_now_ns env) (env_forked env) (env_caller env)
      (env_simulate env) _ (set_block_inv e _ Hi) Hr Hf Hs)
      as (s & arbs & He & Hi' & _). by eexists _, arbs.
  - eapply quiet_returns. by apply handle_update_returns.
  - eapply quiet_returns. by apply register_returns.
  - eapply quiet_returns. by apply remove_returns.
  - eapply quiet_returns with (P := fun _ => True). eexists. split; [done|]. split; [|done].
    by apply mark_warmed_inv.
  - eapply quiet_returns with (P := fun _ => True). eexists. split; [done|]. split; [|done].
    by apply set_hot_cache_inv.
  - eapply quiet_returns. by apply fetch_returns.
  - eapply quiet_returns. by apply sync_returns.
Qed.

(** The states of an engine: from its construction, any sequence of events it can
    take, whatever the environment answers. *)
Inductive reachable : Engine.t -> Prop :=
| reachable_new cfg rpc bytecode : reachable (new cfg rpc bytecode)
| reachable_step env e ev e' arbs : reachable e -> acceptable e ev ->
    handle env e ev = Ret (Some (e', arbs)) -> reachable e'.

Lemma reachable_inv e : reachable e -> inv e.
Proof.
  induction 1 as [|env e ev e' arbs _ IH Hacc Hh]; [apply engine_inv_new|].
  destruct (handle_returns env e ev IH Hacc) as (e1 & arbs1 & Hh' & Hi). congruence.
Qed.

(** C1. The engine stays consistent and responsive. In every state it can reach, by
    any interleaving of blocks, pool updates, registrations, removals, hot-cache
    synchronisations and reserve fetches, every registered V2 or V3 pool has
    both its directions in the graph, every edge joins known tokens and carries
    the address and protocol of its pool, and every cached state is stored under
    its own address; and each further event it can take, whatever the RPC
    node, the simulator and the clocks answer, is handled without a panic and
    within the detector's fuel. *)
Theorem engine_always_responds e : reachable e ->
  (forall a m, pool_registry e !! a = Some m -> graph_integrated (meta_protocol m) = true ->
     present (PriceGraph.abs (working_graph e)) m) /\
  (forall ed, ed ∈ PriceGraph.all_edges (working_graph e) ->
     edge_ok (TokenIndex.len (token_index e)) ed) /\
  (forall a s, pool_states e !! a = Some s -> state_address s = a) /\
  (forall env ev, acceptable e ev ->
     exists e' arbs, handle env e ev = Ret (Some (e', arbs)) /\ reachable e').
Proof.
  intros Hr. pose proof (reachable_inv e Hr) as Hi. split; [apply Hi|]. split; [|split; [apply Hi|]].
  - intros ed Hed. apply (PriceGraph.all_edges_abs _ _ (inv_graph e Hi)) in Hed as [d Hd].
    by apply (inv_edges e Hi) in Hd.
  - intros env ev Hacc. destruct (handle_returns env e ev Hi Hacc) as (e' & arbs & Hh & _).
    exists e', arbs. split; [done|]. by eapply reachable_step.
Qed.
End Run.

Definition idle_env : Env :=
  mkEnv (fun _ => 0) (fun _ => 0) false 1 (fun _ => None) (fun _ _ => None) None.

Lemma engine_always_responds_witness :
  exists e' arbs, handle (B:=release) (M:=PriceGraph.sample_libm) (K:=keccak_reference)
      (A:=abi_reference) (HO:=canonical_order) (J:=join_in_order) idle_env
      (new default_config true true) (NewBlock 100 5 7) = Ret (Some (e', arbs)) /\
    reachable (B:=release) (M:=PriceGraph.sample_libm) (K:=keccak_reference)
      (A:=abi_reference) (HO:=canonical_order) (J:=join_in_order) e'.
Proof.
  apply (engine_always_responds (B:=release) (M:=PriceGraph.sample_libm) (K:=keccak_reference)
      (A:=abi_reference) (HO:=canonical_order) (J:=join_in_order) (new default_config true true)
      (reachable_new default_config true true)).
  split; [vm_compute; reflexivity|]. split; [split; vm_compute; reflexivity|].
  split; vm_compute; try split; congruence.
Defined.
End EngineRun.
