(* ===== verification/PairIndex.v ===== *)
(** * The pair index of the mempool pipeline

    [build_pair_index] and [SimContext::lookup_pool] of
    [crates/grpc-server/src/mempool_pipeline.rs]: pools by unordered token pair and
    protocol. The index is rebuilt when the address of the registry's allocation
    changes; the cache keeps the address, not the allocation. *)

From Stdlib Require Import ZArith Lia.
From S2P Require Import Prelude.
From S2P Require Import Machine.
From S2P Require Import Types.
From S2P Require Import Engine.
From stdpp Require Import base option numbers gmap list.

Local Open Scope Z_scope.

Module PairIndex.

Abbreviation PairKey := (Z * Z * ProtocolType)%type (only parsing).
Abbreviation PairIndex := (gmap PairKey (list Engine.PoolMetadata)) (only parsing).

Definition canonical_pair (a b : Address) : Address * Address := if a <=? b then (a, b) else (b, a).

(** The bucket of a pool. *)
Definition bucket (m : Engine.PoolMetadata) : PairKey :=
  (canonical_pair (Engine.meta_token0 m) (Engine.meta_token1 m), Engine.meta_protocol m).

Definition push_meta (idx : PairIndex) (m : Engine.PoolMetadata) : PairIndex :=
  <[bucket m := default [] (idx !! bucket m) ++ [m]]> idx.

(** The loaded registry: where it is allocated and its content. *)
Record Registry : Type := mkRegistry {
  reg_ptr : Z;
  reg_pools : gmap Z Engine.PoolMetadata;
}.

(** [pair_index_cache]. *)
Abbreviation Cache := (option (Z * PairIndex)) (only parsing).

Section Index.
Context `{HO : HashOrder}.

Definition build_pair_index (registry : gmap Z Engine.PoolMetadata) : PairIndex :=
  foldl push_meta ∅ (map_iter registry).*2.

Definition lookup_pool (r : Registry) (c : Cache) (token_in token_out : Address) (protocol : ProtocolType)
    : option Engine.PoolMetadata * Cache :=
  let rebuilt := let fresh := build_pair_index (reg_pools r) in (fresh, Some (reg_ptr r, fresh)) in
  let '(index, c) :=
    match c with
    | Some (p, index) => if p =? reg_ptr r then (index, c) else rebuilt
    | None => rebuilt
    end in
  (index !! (canonical_pair token_in token_out, protocol) ≫= head, c).

(** ** What the index holds *)

Lemma canonical_pair_eq a b c d :
  canonical_pair a b = canonical_pair c d <-> (a = c /\ b = d) \/ (a = d /\ b = c).
Proof.
  unfold canonical_pair. destruct (Z.leb_spec a b), (Z.leb_spec c d); split;
    intros Heq; try (injection Heq as -> ->); try lia; f_equal; lia.
Qed.

Lemma push_all_lookup k ms : forall idx,
  default [] (foldl push_meta idx ms !! k) = default [] (idx !! k) ++ filter (fun m => bucket m = k) ms.
Proof.
  induction ms as [|m ms IH]; intros idx; [by rewrite app_nil_r|].
  cbn [foldl]. rewrite IH, filter_cons. unfold push_meta. case_decide as Hk.
  - subst k. rewrite lookup_insert_eq. cbn [from_option id]. by rewrite <- app_assoc.
  - by rewrite lookup_insert_ne.
Qed.

(** The pool a lookup in a fresh index finds. *)
Definition find_pool (pools : gmap Z Engine.PoolMetadata) (a b : Address) (p : ProtocolType)
    : option Engine.PoolMetadata :=
  head (filter (fun m => bucket m = (canonical_pair a b, p)) (map_iter pools).*2).

Lemma build_lookup pools a b p :
  build_pair_index pools !! (canonical_pair a b, p) ≫= head = find_pool pools a b p.
Proof.
  pose proof (push_all_lookup (canonical_pair a b, p) (map_iter pools).*2 ∅) as H.
  rewrite lookup_empty in H. cbn [from_option id app] in H. unfold find_pool. rewrite <- H.
  unfold build_pair_index. by destruct (_ !! _).
Qed.

(** A pool between the two tokens, in either order, of the protocol. *)
Definition trades (a b : Address) (p : ProtocolType) (m : Engine.PoolMetadata) : Prop :=
  Engine.meta_protocol m = p /\
  ((Engine.meta_token0 m = a /\ Engine.meta_token1 m = b) \/
   (Engine.meta_token0 m = b /\ Engine.meta_token1 m = a)).

Lemma bucket_trades m a b p : bucket m = (canonical_pair a b, p) <-> trades a b p m.
Proof.
  unfold bucket, trades. split.
  - intros [= Hc Hp]. by apply canonical_pair_eq in Hc.
  - intros [<- Hc]. f_equal. by apply canonical_pair_eq.
Qed.

Lemma find_pool_Some pools a b p m :
  find_pool pools a b p = Some m -> trades a b p m /\ exists addr, pools !! addr = Some m.
Proof.
  unfold find_pool. intros H. apply head_Some_elem_of, list_elem_of_filter in H as [Hb H].
  split; [by apply bucket_trades|]. apply list_elem_of_fmap in H as ([addr m'] & -> & Hm).
  exists addr. by apply elem_of_map_iter.
Qed.

Lemma find_pool_None pools a b p :
  find_pool pools a b p = None -> forall addr m, pools !! addr = Some m -> ~ trades a b p m.
Proof.
  unfold find_pool. intros H%head_None addr m Hm Ht.
  assert (Hin : m ∈ filter (fun m => bucket m = (canonical_pair a b, p)) (map_iter pools).*2).
  { apply list_elem_of_filter. split; [by apply bucket_trades|]. apply list_elem_of_fmap.
    exists (addr, m). split; [done|]. by apply elem_of_map_iter. }
  rewrite H in Hin. by apply not_elem_of_nil in Hin.
Qed.

(** ** Lookups between registry swaps *)

(** The engine swaps the registry; the pipeline looks pools up. *)
Inductive op : Type :=
| Swap (r : Registry)
| Lookup (a b : Address) (p : ProtocolType).

(** A lookup: the registry it read, what it asked for, and its answer. *)
Record answered : Type := mkAnswered {
  ans_registry : Registry;
  ans_key : Address * Address * ProtocolType;
  answer : option Engine.PoolMetadata;
}.

Fixpoint run (r : Registry) (c : Cache) (ops : list op) : list answered :=
  match ops with
  | [] => []
  | Swap r :: ops => run r c ops
  | Lookup a b p :: ops =>
      let '(m, c) := lookup_pool r c a b p in mkAnswered r (a, b, p) m :: run r c ops
  end.

Definition allocations (ops : list op) : list Z :=
  omap (fun o => match o with Swap r => Some (reg_ptr r) | Lookup _ _ _ => None end) ops.

(** The answer is right for the registry the lookup read. *)
Definition exact (x : answered) : Prop :=
  let '(a, b, p) := ans_key x in
  let pools := reg_pools (ans_registry x) in
  match answer x with
  | Some m => trades a b p m /\ exists addr, pools !! addr = Some m
  | None => forall addr m, pools !! addr = Some m -> ~ trades a b p m
  end.

Definition honest (seen : list Registry) (c : Cache) : Prop :=
  forall ptr idx, c = Some (ptr, idx) -> exists r, r ∈ seen /\ ptr = reg_ptr r /\
    idx = build_pair_index (reg_pools r).

(** The cache was not built from another registry at the same address. *)
Definition fresh_cache (r : Registry) (c : Cache) : Prop :=
  forall idx, c = Some (reg_ptr r, idx) -> idx = build_pair_index (reg_pools r).

Lemma lookup_pool_fresh r c a b p : fresh_cache r c ->
  (lookup_pool r c a b p).1 = find_pool (reg_pools r) a b p /\
  ((lookup_pool r c a b p).2 = c \/
   (lookup_pool r c a b p).2 = Some (reg_ptr r, build_pair_index (reg_pools r))).
Proof.
  intros Hc. unfold lookup_pool. destruct c as [[ptr idx]|]; [|split; [apply build_lookup|auto]].
  destruct (Z.eqb_spec ptr (reg_ptr r)) as [->|]; [|split; [apply build_lookup|auto]].
  rewrite (Hc idx eq_refl). split; [apply build_lookup|auto].
Qed.

Lemma lookup_pool_keeps_fresh r c a b p : fresh_cache r c -> fresh_cache r (lookup_pool r c a b p).2.
Proof.
  intros Hc. destruct (lookup_pool_fresh r c a b p Hc) as [_ [->| ->]]; [done|]. by intros idx [= ->].
Qed.

Lemma honest_fresh seen r c : honest seen c -> r ∈ seen -> NoDup (reg_ptr <$> seen) -> fresh_cache r c.
Proof.
  intros Hc Hr Hd idx ->. destruct (Hc _ _ eq_refl) as (r' & Hr' & Hp & ->).
  apply list_elem_of_lookup in Hr as [i Hi], Hr' as [j Hj].
  assert (i = j) as ->; [|congruence].
  eapply (NoDup_lookup (reg_ptr <$> seen)); [done| |]; rewrite list_lookup_fmap.
  - rewrite Hi. done.
  - rewrite Hj. cbn. by rewrite <- Hp.
Qed.

Lemma lookup_pool_honest seen r c a b p :
  honest seen c -> r ∈ seen -> NoDup (reg_ptr <$> seen) ->
  (lookup_pool r c a b p).1 = find_pool (reg_pools r) a b p /\ honest seen (lookup_pool r c a b p).2.
Proof.
  intros Hc Hr Hd.
  destruct (lookup_pool_fresh r c a b p (honest_fresh seen r c Hc Hr Hd)) as [-> Hs].
  split; [done|]. destruct Hs as [->| ->]; [done|]. intros ptr idx [= <- <-]. eauto.
Qed.

Lemma run_exact ops : forall seen r c, honest seen c -> r ∈ seen ->
  NoDup ((reg_ptr <$> seen) ++ allocations ops) -> Forall exact (run r c ops).
Proof.
  induction ops as [|[r'|a b p] ops IH]; intros seen r c Hc Hr Hd; cbn [run]; [done| |].
  - apply (IH (seen ++ [r'])).
    + intros ptr idx Hi. destruct (Hc ptr idx Hi) as (r0 & H0 & H1). exists r0.
      split; [|done]. apply elem_of_app. by left.
    + apply elem_of_app. right. by apply list_elem_of_singleton.
    + rewrite fmap_app, <- app_assoc. exact Hd.
  - destruct (lookup_pool_honest seen r c a b p Hc Hr) as [Hf Hh].
    { by apply NoDup_app in Hd as [? _]. }
    destruct (lookup_pool r c a b p) as [m c']. cbn [fst snd] in Hf, Hh. constructor.
    + unfold exact. cbn [ans_key answer ans_registry]. rewrite Hf.
      destruct (find_pool _ a b p) as [m'|] eqn:Em; [by apply find_pool_Some|by apply find_pool_None].
    + by apply (IH seen).
Qed.

(** The cached pair index is exact as long as allocations are not reused:
    whatever registries the engine swaps in between lookups, and whatever order
    the hash map is traversed in, a lookup answers a pool of the current registry
    that trades the two tokens, in either direction, on the protocol, and
    answers none only if there is no such pool. *)
Theorem pair_index_exact r ops :
  NoDup (reg_ptr r :: allocations ops) -> Forall exact (run r None ops).
Proof. intros Hd. by apply (run_exact ops [r]); [|left|]. Qed.
End Index.

(** ** A reused allocation *)

Definition listed (addr a b : Address) (p : ProtocolType) : Engine.PoolMetadata :=
  Engine.mkMeta 0 1 a b (mkPoolId addr p) p 30 None true.

(** A registry at 4096, replaced by one at 8192, replaced by a third whose
    allocation is the first one's, which was freed by then. *)
Definition first_registry : Registry := mkRegistry 4096 {[77 := listed 77 10 11 UniswapV2]}.
Definition second_registry : Registry := mkRegistry 8192 {[77 := listed 77 10 11 UniswapV2]}.
Definition third_registry (ptr : Z) : Registry :=
  mkRegistry ptr {[77 := listed 77 10 11 UniswapV2; 78 := listed 78 10 12 UniswapV2]}.
Definition replaced (ptr : Z) : list op :=
  [Lookup 10 11 UniswapV2; Swap second_registry; Swap (third_registry ptr); Lookup 12 10 UniswapV2].

Lemma pair_index_exact_witness :
  Forall exact (run (HO:=canonical_order) first_registry None (replaced 12288)) /\
  answer <$> run (HO:=canonical_order) first_registry None (replaced 12288)
  = [Some (listed 77 10 11 UniswapV2); Some (listed 78 10 12 UniswapV2)].
Proof.
  split; [|vm_compute; reflexivity].
  apply (pair_index_exact (HO:=canonical_order) first_registry (replaced 12288)).
  apply (bool_decide_unpack _). vm_compute. exact I.
Defined.

(** The address alone does not identify a registry: when an allocation is
    reused, the index of the registry that was freed is served for the one that
    replaced it, and a pool of the current registry is not found. *)
Theorem pair_index_stale_on_reuse :
  exists x, last (run (HO:=canonical_order) first_registry None (replaced 4096)) = Some x /\
    answer x = None /\ exists addr m, reg_pools (ans_registry x) !! addr = Some m /\
      trades 12 10 UniswapV2 m.
Proof.
  eexists. split; [vm_compute; reflexivity|]. split; [reflexivity|].
  exists 78, (listed 78 10 12 UniswapV2). split; [vm_compute; reflexivity|]. split; [done|]. by right.
Qed.
End PairIndex.
