(* ===== verification/BackrunSizing.v ===== *)
(** * Sizing a mempool backrun

    The arithmetic of [crates/grpc-server/src/mempool_pipeline.rs]: the predicted
    reserves after a victim's swap, the swap steps of a detected cycle, and the
    choice of the flash loan that maximises the net profit over the exact quotes
    of the pools. *)

From Stdlib Require Import ZArith Lia String SpecFloat.
From S2P Require Import Prelude.
From S2P Require Import Machine.
From S2P Require Import F64.
From S2P Require Import Types.
From S2P Require Import UniswapV2.
From S2P Require Import UniswapV3.
From S2P Require Import Curve.
From S2P Require Import Balancer.
From S2P Require Import Bancor.
From S2P Require Import PoolState.
From S2P Require Import TokenIndex.
From S2P Require Import PriceGraph.
From S2P Require Import Opportunity.
From S2P Require Import Optimizer.
From S2P Require Import Engine.
From stdpp Require Import base option numbers strings gmap list.

Local Open Scope Z_scope.

Module BackrunSizing.

(** ** Numbers *)

Definition f64_MAX : f64 := S754_finite false (2 ^ 53 - 1) 971.

(** The limbs in increasing significance. *)
Definition u256_to_f64_saturating (v : Z) : f64 :=
  let '(result, _) :=
    foldl (fun (acc : f64 * f64) i =>
             (f64_add acc.1 (f64_mul (f64_of_Z (limb v i)) acc.2),
              f64_mul acc.2 (f64_of_Z 18446744073709551616)))
      (f64_zero, f64_one) [0; 1; 2; 3] in
  if is_finite result then result else f64_MAX.

Definition u256_from_f64_saturating (v : f64) : Z :=
  if negb (is_finite v) || f64_le v f64_zero then 0
  else if f64_ge v (f64_of_Z u128_max) then u128_max
  else f64_as_u128 v.

Definition i128_max : Z := 2 ^ 127 - 1.
Definition saturating_u256_to_i128 (v : Z) : Z := Z.min v i128_max.
Definition i128_saturate (r : Z) : Z := Z.max i128_min (Z.min i128_max r).

Lemma i128_saturate_exact r : - 2 ^ 127 <= r < 2 ^ 127 -> i128_saturate r = r.
Proof. unfold i128_saturate, i128_min, i128_max. lia. Qed.

(** ** The reserves a victim leaves *)

Definition predict_v2_post_state (reserve_in reserve_out dx fee_factor : f64) : f64 * f64 :=
  if f64_le reserve_in f64_zero || f64_le reserve_out f64_zero || f64_le dx f64_zero
     || f64_le fee_factor f64_zero
  then (f64_zero, f64_zero)
  else
    let dx_eff := f64_mul dx fee_factor in
    let dy := f64_div (f64_mul dx_eff reserve_out) (f64_add reserve_in dx_eff) in
    let post_in := f64_add reserve_in dx in
    let post_out := f64_max (f64_sub reserve_out dy) f64_one in
    (post_in, post_out).

(** Seen from the swap's input token. *)
Definition unified_to_post_reserves (swap_token_in : Address) (meta : Engine.PoolMetadata)
    (post : UnifiedPostState) : f64 * f64 :=
  let oriented r0 r1 := if swap_token_in =? Engine.meta_token0 meta then (r0, r1) else (r1, r0) in
  match post with
  | PostUniswapV3 v3 =>
      match virtual_reserves (UniswapV3Pool.new_sqrt_price_x96 v3) (UniswapV3Pool.new_liquidity v3) with
      | Some (x_v, y_v) => oriented x_v y_v
      | None => (f64_zero, f64_zero)
      end
  | PostBalancer b =>
      oriented (u256_to_f64_saturating (BalancerPool.new_balance0 b))
               (u256_to_f64_saturating (BalancerPool.new_balance1 b))
  | PostCurve c =>
      (u256_to_f64_saturating (CurvePool.new_balance_in c),
       u256_to_f64_saturating (CurvePool.new_balance_out c))
  | PostBancor b =>
      (u256_to_f64_saturating (BancorPool.new_balance_in b),
       u256_to_f64_saturating (BancorPool.new_balance_out b))
  end.

Definition max_u112 : Z := 2 ^ 112 - 1.
Definition to_reserve (v : f64) : Z := Z.min (f64_as_u128 v) max_u112.

Definition victim_post_reserves (pool : UniswapV2Pool.t) (victim_token_in : Address)
    (post_in post_out : f64) : option (Z * Z) :=
  if negb (is_finite post_in && is_finite post_out) || f64_le post_in f64_zero
     || f64_le post_out f64_zero
  then None
  else
    let r_in := to_reserve post_in in
    let r_out := to_reserve post_out in
    if victim_token_in =? UniswapV2Pool.token0 pool then Some (r_in, r_out) else Some (r_out, r_in).

(** ** The steps of a cycle *)

(** The edge of least weight, filtered or not. *)
Definition edge_for_hop (g : PriceGraph.t) (from_idx to_idx : nat) : option PriceEdge :=
  min_by (fun a b => f64_cmp (weight a) (weight b))
    (filter (fun e => to e = to_idx) (PriceGraph.edges_from g from_idx)).

(** The amount carried to the next hop. *)
Definition next_amount (edge : PriceEdge) (current_amount : Z) : Z :=
  if f64_gt (reserve_in edge) f64_zero && f64_gt (reserve_out edge) f64_zero then
    let ratio := f64_div (reserve_out edge) (reserve_in edge) in
    u256_from_f64_saturating (f64_mul (u256_to_f64_saturating current_amount) ratio)
  else current_amount.

(** The loop over the windows of two vertices. *)
Fixpoint steps_of_path (g : PriceGraph.t) (token_index : TokenIndex.t) (current_amount : Z)
    (path : list nat) : option (list SwapStep) :=
  match path with
  | from_idx :: (to_idx :: _) as rest =>
      from_addr ← TokenIndex.get_address token_index from_idx;
      to_addr ← TokenIndex.get_address token_index to_idx;
      edge ← edge_for_hop g from_idx to_idx;
      steps ← steps_of_path g token_index (next_amount edge current_amount) rest;
      Some (mkSwapStep (edge_protocol edge) (pool_address edge) from_addr to_addr current_amount 0 []
            :: steps)
  | _ => Some []
  end.

Definition cycle_to_swap_steps (g : PriceGraph.t) (token_index : TokenIndex.t) (cycle : DetectedCycle)
    (input_amount_wei : Z) : option (list SwapStep) :=
  if (length (path cycle) <? 2)%nat then None
  else steps_of_path g token_index input_amount_wei (path cycle).

(** ** Sizing *)

Definition AAVE_FLASHLOAN_PREMIUM_BPS : Z := 9.
Definition OPTIMIZE_MIN_INPUT_WEI : Z := 1000000000000000.
Definition OPTIMIZE_MAX_INPUT_WEI : Z := 50000000000000000000.
Definition OPTIMIZE_ITERATIONS : nat := 80.

Record OptimizedSizing : Type := mkSizing {
  input_amount : Z;
  per_hop_expected_out : list Z;
  net_profit_wei : Z;
}.

Inductive SizingOutcome : Type :=
| Fallback
| BelowMinProfit
| Sized (s : OptimizedSizing).

Section Sizing.
Context `{B : Build}.

Definition poolstate_quote (ps : PoolState) (token_in : Address) (amount_in : Z)
    : outcome (option Z) :=
  match ps with
  | StUniswapV2 p | StSushiSwap p => UniswapV2Pool.get_amount_out p token_in amount_in
  | StUniswapV3 p => UniswapV3Pool.get_amount_out p token_in amount_in
  | StCurve p => CurvePool.get_amount_out p token_in amount_in
  | StBalancer p => BalancerPool.get_amount_out p token_in amount_in
  | StBalancerV3 p => BalancerV3Pool.get_amount_out_v3 p token_in amount_in
  | StBancor p => BancorPool.get_amount_out p token_in amount_in
  end.

(** What the victim's swap did to its pool. *)
Record Victim : Type := mkVictim {
  victim_pool : Address;
  victim_token_in : Address;
  victim_post_in : f64;
  victim_post_out : f64;
}.

Definition overlay (v : Victim) (step : SwapStep) (ps : PoolState) : PoolState :=
  let patch p :=
    match victim_post_reserves p (victim_token_in v) (victim_post_in v) (victim_post_out v) with
    | Some (r0, r1) => UniswapV2Pool.update_state p r0 r1
    | None => p
    end in
  if step_pool_address step =? victim_pool v then
    match ps with
    | StUniswapV2 p => StUniswapV2 (patch p)
    | StSushiSwap p => StSushiSwap (patch p)
    | _ => ps
    end
  else ps.

(** Each step with the state it will trade against; [None]: a state is
    missing. *)
Definition hop_states (pool_states : PoolStateCache) (v : Victim) (steps : list SwapStep)
    : option (list (SwapStep * PoolState)) :=
  mapM (fun step => ps ← pool_states !! step_pool_address step; Some (step, overlay v step ps)) steps.

Fixpoint run_chain (hops : list (SwapStep * PoolState)) (current_token : Address) (current : Z)
    : outcome (option Z) :=
  match hops with
  | [] => Ret (Some current)
  | (step, ps) :: hops =>
      quote ← poolstate_quote ps current_token current;
      out <-? quote;
      if out =? 0 then Ret None else run_chain hops (step_token_out step) out
  end.

Definition profit_fn (hops : list (SwapStep * PoolState)) (token_in0 : Address) (gas_cost input : Z)
    : outcome Z :=
  r ← run_chain hops token_in0 input;
  Ret match r with
      | None => Z.quot i128_min 2
      | Some gross_out =>
          let premium :=
            Z.quot (i128_saturate (saturating_u256_to_i128 input * AAVE_FLASHLOAN_PREMIUM_BPS)) 10000 in
          i128_saturate
            (i128_saturate
               (i128_saturate (saturating_u256_to_i128 gross_out - saturating_u256_to_i128 input)
                - to_signed 128 gas_cost)
             - premium)
      end.

Definition first_reserve_in (ps : PoolState) (token_in0 : Address) : Z :=
  match ps with
  | StUniswapV2 p | StSushiSwap p =>
      if token_in0 =? UniswapV2Pool.token0 p then UniswapV2Pool.reserve0 p else UniswapV2Pool.reserve1 p
  | _ => OPTIMIZE_MAX_INPUT_WEI
  end.

(** Half of the first pool's reserve, up to the ceiling. *)
Definition max_input (ps : PoolState) (token_in0 : Address) : Z :=
  let depth_cap := Z.min (first_reserve_in ps token_in0 / 2) OPTIMIZE_MAX_INPUT_WEI in
  Z.min depth_cap OPTIMIZE_MAX_INPUT_WEI.

(** The loop that fills [per_hop_expected_out]. *)
Fixpoint expected_outs (hops : list (SwapStep * PoolState)) (current_token : Address) (current : Z)
    : outcome (option (list Z)) :=
  match hops with
  | [] => Ret (Some [])
  | (step, ps) :: hops =>
      quote ← poolstate_quote ps current_token current;
      out <-? quote;
      rest ← expected_outs hops (step_token_out step) out;
      outs <-? rest;
      Ret (Some (out :: outs))
  end.

Definition optimize_cycle_input (steps : list SwapStep) (pool_states : PoolStateCache) (v : Victim)
    (gas_price_gwei : f64) (min_profit_wei : Z) : outcome SizingOutcome :=
  match steps with
  | [] => Ret Fallback
  | first :: _ =>
      match hop_states pool_states v steps with
      | None | Some [] => Ret Fallback
      | Some (((_, ps0) :: _) as hops) =>
          let protocols := step_protocol <$> steps in
          total_gas ← estimate_total_gas protocols (replicate (length protocols) 0);
          let gas_cost := gas_cost_wei total_gas gas_price_gwei in
          let token_in0 := step_token_in first in
          let f := profit_fn hops token_in0 gas_cost in
          let max := max_input ps0 token_in0 in
          ' (optimal_input, net_profit) ←
            (if OPTIMIZE_MIN_INPUT_WEI <? max
             then ternary_search_optimal_input f OPTIMIZE_MIN_INPUT_WEI max OPTIMIZE_ITERATIONS
             else p ← f OPTIMIZE_MIN_INPUT_WEI; Ret (OPTIMIZE_MIN_INPUT_WEI, p));
          if net_profit <=? 0 then Ret BelowMinProfit
          else if net_profit <? min_profit_wei then Ret BelowMinProfit
          else
            outs ← expected_outs hops token_in0 optimal_input;
            Ret match outs with
                | None => Fallback
                | Some outs => Sized (mkSizing optimal_input outs net_profit)
                end
      end
  end.
End Sizing.

(** ** What a size guarantees *)

Section Facts.
Context `{B : Build}.

(** A pool that quotes 112-bit amounts without a panic, with 112-bit
    answers. *)
Definition quotes_ok (ps : PoolState) : Prop :=
  forall tk a, in_u 112 a -> exists r, poolstate_quote ps tk a = Ret r /\
    forall out, r = Some out -> in_u 112 out.

Lemma v2_quotes_ok p : UniswapV2Pool.wf p -> quotes_ok (StUniswapV2 p) /\ quotes_ok (StSushiSwap p).
Proof. intros Hp. split; intros tk a Ha; by apply UniswapV2Pool.v2_amount_out_bounded. Qed.

Lemma to_reserve_range v : in_u 112 (to_reserve v).
Proof.
  unfold to_reserve, max_u112, f64_as_u128, f64_as. unfold in_u.
  destruct v as [s|s| |s m e]; try destruct s; lia.
Qed.

(** The overlaid reserves are 112-bit numbers again. *)
Lemma overlay_quotes_ok v step ps :
  match ps with StUniswapV2 p | StSushiSwap p => UniswapV2Pool.wf p | _ => quotes_ok ps end ->
  quotes_ok (overlay v step ps).
Proof.
  assert (Hpatch : forall p, UniswapV2Pool.wf p -> UniswapV2Pool.wf
    match victim_post_reserves p (victim_token_in v) (victim_post_in v) (victim_post_out v) with
    | Some (r0, r1) => UniswapV2Pool.update_state p r0 r1
    | None => p
    end).
  { intros p Hp. unfold victim_post_reserves. destruct (negb _ || _ || _); [done|].
    destruct (_ =? _); split; try apply to_reserve_range; apply Hp. }
  unfold overlay. destruct (_ =? _); destruct ps; intros Hw; try done;
    apply v2_quotes_ok; auto.
Qed.

(** The exact quotes of a chain: every hop trades what the one before it
    returned. *)
Fixpoint quoted (hops : list (SwapStep * PoolState)) (token : Address) (amount : Z) (outs : list Z)
    : Prop :=
  match hops, outs with
  | [], [] => True
  | (step, ps) :: hops, out :: outs =>
      poolstate_quote ps token amount = Ret (Some out) /\ in_u 112 out /\ out <> 0 /\
      quoted hops (step_token_out step) out outs
  | _, _ => False
  end.

Lemma run_chain_returns hops : Forall (fun h => quotes_ok h.2) hops -> forall token amount,
  in_u 112 amount ->
  exists r, run_chain hops token amount = Ret r /\
    forall gross, r = Some gross -> in_u 112 gross /\
      exists outs, quoted hops token amount outs /\ expected_outs hops token amount = Ret (Some outs) /\
        gross = default amount (last outs).
Proof.
  induction 1 as [|[step ps] hops Hps _ IH]; intros token amount Ha; cbn [run_chain expected_outs].
  { exists (Some amount). split; [done|]. intros ? [= <-]. split; [done|]. by exists []. }
  destruct (Hps token amount Ha) as (r & Hr & Hout). cbn [snd] in Hr.
  rewrite Hr. cbn [mbind outcome_bind]. destruct r as [out|]; [|by exists None].
  specialize (Hout out eq_refl). destruct (Z.eqb_spec out 0) as [|Hz]; [by exists None|].
  destruct (IH (step_token_out step) out Hout) as (r' & -> & Hq).
  exists r'. split; [done|]. intros gross Hg. destruct (Hq gross Hg) as (Hb & outs & Hc & He & Hl).
  split; [done|]. exists (out :: outs). split; [done|]. rewrite He. split; [done|].
  rewrite Hl, last_cons. by destruct (last outs).
Qed.

(** What the last hop returns over the loan, its premium and the gas. *)
Definition net_profit (gas input : Z) (outs : list Z) : Z :=
  default input (last outs) - input - gas - input * AAVE_FLASHLOAN_PREMIUM_BPS / 10000.

Lemma profit_fn_returns hops token gas input :
  Forall (fun h => quotes_ok h.2) hops -> in_u 112 input ->
  exists p, profit_fn hops token gas input = Ret p /\
    (0 < p -> exists outs, quoted hops token input outs /\
       expected_outs hops token input = Ret (Some outs) /\
       (0 <= gas < 2 ^ 126 -> p = net_profit gas input outs)).
Proof.
  intros Hh Hi. unfold profit_fn. destruct (run_chain_returns hops Hh token input Hi) as (r & -> & Hr).
  cbn [mbind outcome_bind]. eexists. split; [done|]. destruct r as [gross|]; [|by intros].
  destruct (Hr gross eq_refl) as (Hb & outs & Hq & He & ->). intros _. exists outs.
  split; [done|]. split; [done|]. intros Hg. unfold net_profit.
  unfold saturating_u256_to_i128, to_signed, AAVE_FLASHLOAN_PREMIUM_BPS.
  set (o := default input (last outs)) in *. clearbody o.
  assert (0 <= input * 9 / 10000 <= input)
    by (unfold in_u in Hi; split; [apply Z.div_pos; lia|apply Z.div_le_upper_bound; lia]).
  unfold i128_max. unfold in_u in *. rewrite (Z.mod_small gas) by lia.
  assert ((gas <? 2 ^ (128 - 1)) = true) as -> by lia.
  rewrite !(Z.min_l _ (2 ^ 127 - 1)) by lia.
  rewrite (i128_saturate_exact (input * 9)), Z.quot_div_nonneg by lia.
  rewrite (i128_saturate_exact (o - input)), (i128_saturate_exact (o - input - gas)) by lia.
  by apply i128_saturate_exact; lia.
Qed.

Lemma profit_fn_computes hops token gas lo hi :
  Forall (fun h => quotes_ok h.2) hops -> 0 <= lo -> in_u 112 hi ->
  computes (fun x => match profit_fn hops token gas x with Ret p => p | Panic => 0 end)
    (profit_fn hops token gas) lo hi.
Proof.
  intros Hh Hlo Hhi x Hx.
  destruct (profit_fn_returns hops token gas x Hh ltac:(unfold in_u in *; lia)) as (p & -> & _). done.
Qed.

(** The states the sizing reads: V2 pairs with 112-bit reserves, and other pools
    that quote. *)
Definition quotable (ps : PoolState) : Prop :=
  match ps with StUniswapV2 p | StSushiSwap p => UniswapV2Pool.wf p | _ => quotes_ok ps end.

Lemma hop_states_ok cache v steps hops :
  (forall step ps, step ∈ steps -> cache !! step_pool_address step = Some ps -> quotable ps) ->
  hop_states cache v steps = Some hops -> Forall (fun h => quotes_ok h.2) hops.
Proof.
  intros Hq. unfold hop_states. rewrite mapM_Some. intros Hf.
  induction Hf as [|step [step' ps] steps hops Hs _ IH]; [done|].
  apply bind_Some in Hs as (ps0 & Hl & [= <- <-]). constructor.
  - apply overlay_quotes_ok, (Hq step); [left|done].
  - apply IH. intros. eapply Hq; [right|]; done.
Qed.

Lemma hop_states_None cache v steps :
  hop_states cache v steps = None <-> exists step, step ∈ steps /\ cache !! step_pool_address step = None.
Proof.
  unfold hop_states. rewrite mapM_None. rewrite Exists_exists.
  apply exist_proper. intros step. rewrite bind_None. naive_solver.
Qed.

Lemma search_returns hops ps token gas :
  Forall (fun h => quotes_ok h.2) hops ->
  exists x p,
    (if OPTIMIZE_MIN_INPUT_WEI <? max_input ps token
     then ternary_search_optimal_input (profit_fn hops token gas) OPTIMIZE_MIN_INPUT_WEI
            (max_input ps token) OPTIMIZE_ITERATIONS
     else p ← profit_fn hops token gas OPTIMIZE_MIN_INPUT_WEI; Ret (OPTIMIZE_MIN_INPUT_WEI, p))
      = Ret (x, p) /\
    profit_fn hops token gas x = Ret p /\ OPTIMIZE_MIN_INPUT_WEI <= x <= OPTIMIZE_MAX_INPUT_WEI.
Proof.
  intros Hh. assert (Hm : max_input ps token <= OPTIMIZE_MAX_INPUT_WEI) by (unfold max_input; lia).
  unfold OPTIMIZE_MIN_INPUT_WEI, OPTIMIZE_MAX_INPUT_WEI in *.
  set (m := max_input ps token) in *. clearbody m.
  destruct (Z.ltb_spec 1000000000000000 m).
  - destruct (ternary_search_returns _ _ 1000000000000000 m OPTIMIZE_ITERATIONS ltac:(lia) ltac:(lia)
      (profit_fn_computes hops token gas 1000000000000000 m Hh ltac:(lia) ltac:(range; lia)))
      as (x & Hx & Hb).
    destruct (profit_fn_returns hops token gas x Hh ltac:(range; lia)) as (p & Hp & _).
    rewrite Hp in Hx. exists x, p. split; [done|]. split; [done|lia].
  - destruct (profit_fn_returns hops token gas 1000000000000000 Hh ltac:(range; lia)) as (p & Hp & _).
    rewrite Hp. cbn [mbind outcome_bind]. exists 1000000000000000, p. split; [done|]. split; [done|lia].
Qed.

Definition sizing_gas (steps : list SwapStep) (gas_price_gwei : f64) : Z :=
  let protocols := step_protocol <$> steps in
  gas_cost_wei (131000 + route_gas_spec 0 protocols (replicate (length protocols) 0)) gas_price_gwei.

Lemma gas_cost_nonneg units price : 0 <= gas_cost_wei units price.
Proof.
  unfold gas_cost_wei, f64_as_u128, f64_as. destruct (f64_mul _ _) as [s|s| |s m e]; try destruct s; lia.
Qed.

Lemma quoted_length hops : forall token amount outs,
  quoted hops token amount outs -> length outs = length hops.
Proof.
  induction hops as [|[st ps] hops IH]; intros token amount [|o outs] H; try done.
  cbn. f_equal. eapply IH, H.
Qed.

(** The outcome of a sizing, whatever the gas price. *)
Lemma optimize_returns steps cache v price min_profit :
  (length steps <= 1000)%nat ->
  (forall step ps, step ∈ steps -> cache !! step_pool_address step = Some ps -> quotable ps) ->
  exists o, optimize_cycle_input steps cache v price min_profit = Ret o /\
    (o = Fallback <-> steps = [] \/ hop_states cache v steps = None) /\
    forall s, o = Sized s ->
      exists hops first, hop_states cache v steps = Some hops /\ head steps = Some first /\
        quoted hops (step_token_in first) (input_amount s) (per_hop_expected_out s) /\
        OPTIMIZE_MIN_INPUT_WEI <= input_amount s <= OPTIMIZE_MAX_INPUT_WEI /\
        (sizing_gas steps price < 2 ^ 126 -> net_profit_wei s
           = net_profit (sizing_gas steps price) (input_amount s) (per_hop_expected_out s)) /\
        0 < net_profit_wei s /\ min_profit <= net_profit_wei s.
Proof.
  intros Hlen Hq. unfold optimize_cycle_input.
  destruct steps as [|first steps]; [eexists; split; [done|]; split; [naive_solver|done]|].
  set (all := first :: steps) in *.
  destruct (hop_states cache v all) as [hops|] eqn:Eh; cycle 1.
  { eexists. split; [done|]. split; [naive_solver|done]. }
  pose proof (hop_states_ok _ _ _ _ Hq Eh) as Hok.
  destruct hops as [|[st ps] hops0] eqn:El.
  { unfold hop_states, all in Eh. apply mapM_Some in Eh. by inversion Eh. }
  rewrite <- El in *. clear El.
  rewrite estimate_total_gas_exact; [|apply Forall_replicate; range; lia|subst all; cbn in *; rewrite ?length_fmap; lia].
  cbn [mbind outcome_bind]. fold (sizing_gas all price). set (gas := sizing_gas all price) in *.
  destruct (search_returns hops ps (step_token_in first) gas Hok) as (x & p & -> & Hp & Hx).
  cbn [mbind outcome_bind].
  destruct (Z.leb_spec p 0) as [|Hpos]; [eexists; split; [done|]; split; [naive_solver|done]|].
  destruct (Z.ltb_spec p min_profit) as [|Hmin]; [eexists; split; [done|]; split; [naive_solver|done]|].
  destruct (profit_fn_returns hops (step_token_in first) gas x Hok) as (p' & Hp' & Hpp);
    [unfold OPTIMIZE_MAX_INPUT_WEI, OPTIMIZE_MIN_INPUT_WEI in Hx; range; lia|].
  rewrite Hp in Hp'. injection Hp' as <-. destruct (Hpp Hpos) as (outs & Hc & He & Hn).
  rewrite He. cbn [mbind outcome_bind]. eexists. split; [done|]. split; [naive_solver|].
  intros s [= <-]. exists hops, first. cbn [input_amount per_hop_expected_out net_profit_wei].
  destruct Hx. split_and!; try done. intros Hg. apply Hn. split; [apply gas_cost_nonneg|done].
Qed.

End Facts.

(** ** A backrun that is sized *)

(** Two pairs that agree on a price of 2000; the victim sells 20 of the second
    token's 200000 to the first pair. *)
Definition pair_77 : UniswapV2Pool.t := UniswapV2Pool.mk 77 10 11 (100 * 10 ^ 18) (200000 * 10 ^ 18) 30.
Definition pair_78 : UniswapV2Pool.t := UniswapV2Pool.mk 78 10 11 (100 * 10 ^ 18) (200000 * 10 ^ 18) 30.
Definition sample_cache : PoolStateCache := {[77 := StUniswapV2 pair_77; 78 := StSushiSwap pair_78]}.
Definition sample_steps : list SwapStep :=
  [mkSwapStep UniswapV2 77 10 11 (10 ^ 18) 0 []; mkSwapStep SushiSwap 78 11 10 (2000 * 10 ^ 18) 0 []].
Definition sample_victim : Victim :=
  mkVictim 77 11 (f64_of_Z (220000 * 10 ^ 18)) (f64_of_Z (90933891 * 10 ^ 12)).

Lemma sample_quotable step ps : step ∈ sample_steps ->
  sample_cache !! step_pool_address step = Some ps -> quotable (B:=debug) ps.
Proof.
  intros Hs Hl. apply list_elem_of_In in Hs. unfold sample_cache in Hl.
  destruct Hs as [<-|[<-|[]]]; cbn [step_pool_address] in Hl.
  - rewrite lookup_insert_eq in Hl. injection Hl as <-. split; unfold in_u; cbn; lia.
  - rewrite lookup_insert_ne, lookup_singleton_eq in Hl by done. injection Hl as <-.
    split; unfold in_u; cbn; lia.
Qed.

End BackrunSizing.
