(* ===== verification/MempoolPipeline.v ===== *)
(** * The mempool pipeline

    [crates/grpc-server/src/mempool_pipeline.rs]: a pending transaction is decoded,
    its swaps are filtered, and for each one that is left a task predicts the
    pool's state after it, scans the graph with that state, and validates the
    best cycle as a backrun on a fork. What the tasks share with the engine (the
    registry, the token index, the pool states, the snapshots) is read once per
    task. Metrics appear as their labels; the random id and the time stamp of a
    persisted prediction are left out. *)

From Stdlib Require Import ZArith Lia String.
From S2P Require Import Prelude.
From S2P Require Import Machine.
From S2P Require Import F64.
From S2P Require Import Types.
From S2P Require Import Bytes.
From S2P Require Import Keccak.
From S2P Require Import Abi.
From S2P Require Import UniswapV3.
From S2P Require Import Curve.
From S2P Require Import Balancer.
From S2P Require Import Bancor.
From S2P Require Import PoolState.
From S2P Require Import TokenIndex.
From S2P Require Import PriceGraph.
From S2P Require Import Snapshot.
From S2P Require Import Opportunity.
From S2P Require Import BellmanFord.
From S2P Require Import CycleGating.
From S2P Require Import RouterDecoder.
From S2P Require Import HotToken.
From S2P Require Import V2ReservesCache.
From S2P Require Import Revm.
From S2P Require Import BytecodeCache.
From S2P Require Import Fork.
From S2P Require Import MempoolBackrun.
From S2P Require Import PostStateReplay.
From S2P Require Import Pipeline.
From S2P Require Import Engine.
From S2P Require Import PairIndex.
From S2P Require Import BackrunSizing.
From stdpp Require Import base option numbers strings pretty gmap list.

Local Open Scope Z_scope.

Module MempoolPipeline.
Import Revm.

(** ** Data *)

(** [aether_ingestion::subscription::PendingTxEvent]. *)
Record PendingTxEvent : Type := mkEvent {
  tx_hash : Z;
  ev_from : Address;
  ev_to : option Address;
  ev_value : Z;
  ev_input : list Z;
  ev_gas_price : Z;
  first_seen_unix_nanos : Z;
  raw_tx : list Z;
}.

(** [provider]: an RPC connection is configured. The semaphore is the tasks'
    [permit] below; the handle to the warmed state is the context's
    ([with_backrun_validator] shares it). *)
Record BackrunValidatorConfig : Type := mkValidator {
  executor_address : Address;
  searcher_caller : Address;
  profit_token : Address;
  balance_slot : Z;
  chain_id : Z;
  min_profit_wei : Z;
  input_amount_wei : Z;
  gas_price_gwei : f64;
  provider : bool;
  executor_bytecode : option (list Z);
}.

(** [arb_publisher]: a broadcast sender is attached. *)
Record SimContext : Type := mkContext {
  pool_registry : PairIndex.Registry;
  token_index : TokenIndex.t;
  snapshot_manager : SnapshotManager (G:=PriceGraph.t);
  detector : BellmanFord.t;
  pool_states : PoolStateCache;
  arb_publisher : bool;
  backrun : option BackrunValidatorConfig;
  engine_git_sha : option string;
  pair_index_cache : PairIndex.Cache;
  post_state_replay_enabled : bool;
  mempool_prewarm : option Fork.PrewarmedState;
  bytecode_cache : option BytecodeCache.t;
  v2_reserves_cache : option V2ReservesCache.V2ReservesCache;
  hot_tokens : HotToken.HotTokenTracker;
  gating : GatingConfig;
}.

(** [SimContext::new]. *)
Definition context_new (registry : PairIndex.Registry) (ti : TokenIndex.t)
    (snapshots : SnapshotManager (G:=PriceGraph.t)) (bf : BellmanFord.t) (states : PoolStateCache)
    (git_sha : option string) : SimContext :=
  mkContext registry ti snapshots bf states false None git_sha None false None None None
    (HotToken.new HotToken.default_config) default_gating.

Definition set_pair_cache (ctx : SimContext) (c : PairIndex.Cache) : SimContext :=
  mkContext (pool_registry ctx) (token_index ctx) (snapshot_manager ctx) (detector ctx)
    (pool_states ctx) (arb_publisher ctx) (backrun ctx) (engine_git_sha ctx) c
    (post_state_replay_enabled ctx) (mempool_prewarm ctx) (bytecode_cache ctx) (v2_reserves_cache ctx)
    (hot_tokens ctx) (gating ctx).
Definition set_hot_tokens (ctx : SimContext) (h : HotToken.HotTokenTracker) : SimContext :=
  mkContext (pool_registry ctx) (token_index ctx) (snapshot_manager ctx) (detector ctx)
    (pool_states ctx) (arb_publisher ctx) (backrun ctx) (engine_git_sha ctx) (pair_index_cache ctx)
    (post_state_replay_enabled ctx) (mempool_prewarm ctx) (bytecode_cache ctx) (v2_reserves_cache ctx)
    h (gating ctx).
Definition set_prewarm (ctx : SimContext) (pw : Fork.PrewarmedState) (c : option BytecodeCache.t)
    : SimContext :=
  mkContext (pool_registry ctx) (token_index ctx) (snapshot_manager ctx) (detector ctx)
    (pool_states ctx) (arb_publisher ctx) (backrun ctx) (engine_git_sha ctx) (pair_index_cache ctx)
    (post_state_replay_enabled ctx) (Some pw) c (v2_reserves_cache ctx) (hot_tokens ctx) (gating ctx).

(** The builder methods. *)
Definition with_bytecode_cache (ctx : SimContext) (c : option BytecodeCache.t) : SimContext :=
  mkContext (pool_registry ctx) (token_index ctx) (snapshot_manager ctx) (detector ctx)
    (pool_states ctx) (arb_publisher ctx) (backrun ctx) (engine_git_sha ctx) (pair_index_cache ctx)
    (post_state_replay_enabled ctx) (mempool_prewarm ctx) c (v2_reserves_cache ctx) (hot_tokens ctx)
    (gating ctx).
Definition with_v2_reserves_cache (ctx : SimContext) (c : option V2ReservesCache.V2ReservesCache)
    : SimContext :=
  mkContext (pool_registry ctx) (token_index ctx) (snapshot_manager ctx) (detector ctx)
    (pool_states ctx) (arb_publisher ctx) (backrun ctx) (engine_git_sha ctx) (pair_index_cache ctx)
    (post_state_replay_enabled ctx) (mempool_prewarm ctx) (bytecode_cache ctx) c (hot_tokens ctx)
    (gating ctx).
Definition with_gating (ctx : SimContext) (g : GatingConfig) : SimContext :=
  mkContext (pool_registry ctx) (token_index ctx) (snapshot_manager ctx) (detector ctx)
    (pool_states ctx) (arb_publisher ctx) (backrun ctx) (engine_git_sha ctx) (pair_index_cache ctx)
    (post_state_replay_enabled ctx) (mempool_prewarm ctx) (bytecode_cache ctx) (v2_reserves_cache ctx)
    (hot_tokens ctx) g.
Definition with_post_state_replay (ctx : SimContext) (enabled : bool) : SimContext :=
  mkContext (pool_registry ctx) (token_index ctx) (snapshot_manager ctx) (detector ctx)
    (pool_states ctx) (arb_publisher ctx) (backrun ctx) (engine_git_sha ctx) (pair_index_cache ctx)
    enabled (mempool_prewarm ctx) (bytecode_cache ctx) (v2_reserves_cache ctx) (hot_tokens ctx)
    (gating ctx).
Definition with_arb_publisher (ctx : SimContext) : SimContext :=
  mkContext (pool_registry ctx) (token_index ctx) (snapshot_manager ctx) (detector ctx)
    (pool_states ctx) true (backrun ctx) (engine_git_sha ctx) (pair_index_cache ctx)
    (post_state_replay_enabled ctx) (mempool_prewarm ctx) (bytecode_cache ctx) (v2_reserves_cache ctx)
    (hot_tokens ctx) (gating ctx).
Definition with_backrun_validator (ctx : SimContext) (cfg : BackrunValidatorConfig) : SimContext :=
  mkContext (pool_registry ctx) (token_index ctx) (snapshot_manager ctx) (detector ctx)
    (pool_states ctx) (arb_publisher ctx) (Some cfg) (engine_git_sha ctx) (pair_index_cache ctx)
    (post_state_replay_enabled ctx) (mempool_prewarm ctx) (bytecode_cache ctx) (v2_reserves_cache ctx)
    (hot_tokens ctx) (gating ctx).

(** [crates/grpc-server/src/mempool_writer.rs]. *)
Inductive PredictedPostState : Type :=
| PredV2 (reserve_in reserve_out : f64)
| PredV3 (reserve_in reserve_out : f64)
| PredBalancer (reserve_in reserve_out : f64)
| PredCurve (reserve_in reserve_out : f64)
| PredBancor (reserve_in reserve_out : f64)
| PredOneInchV6 (reserve_in reserve_out : f64).

Record NewMempoolPrediction : Type := mkPrediction {
  pending_tx_hash : Z;
  router_address : Address;
  pred_protocol : string;
  pred_token_in : Address;
  pred_token_out : Address;
  pred_amount_in : Z;
  pred_pool_address : option Address;
  predicted_target_block : Z;
  predicted_post_state : PredictedPostState;
  profit_factor_predicted : option f64;
  pred_engine_git_sha : option string;
}.

(** ** Labels *)

Definition protocol_label (p : RouterDecoder.Protocol) : string :=
  match p with
  | RouterDecoder.UniswapV2 => "uniswap_v2"
  | RouterDecoder.UniswapV3 => "uniswap_v3"
  | RouterDecoder.SushiSwap => "sushiswap"
  | RouterDecoder.BalancerV2 => "balancer_v2"
  | RouterDecoder.Curve => "curve"
  | RouterDecoder.BancorV3 => "bancor_v3"
  | RouterDecoder.OneInchV6 => "one_inch_v6"
  end.

Definition decoder_protocol_label (p : RouterDecoder.Protocol) : string :=
  match p with
  | RouterDecoder.UniswapV2 => "uni_v2"
  | RouterDecoder.SushiSwap => "sushi"
  | RouterDecoder.UniswapV3 => "uni_v3"
  | RouterDecoder.BalancerV2 => "balancer"
  | RouterDecoder.Curve => "curve"
  | RouterDecoder.BancorV3 => "bancor"
  | RouterDecoder.OneInchV6 => "one_inch_v6"
  end.

Definition decode_error_label (e : RouterDecoder.DecodeError) : string :=
  match e with
  | RouterDecoder.TooShort => "too_short"
  | RouterDecoder.UnknownSelector _ => "unknown_selector"
  | RouterDecoder.AbiDecode _ => "abi_decode"
  | RouterDecoder.EmptyPath => "empty_path"
  | RouterDecoder.CurveUnsupported _ => "curve_unsupported"
  end.

Definition profit_bucket (pf : f64) : string :=
  let bps := f64_mul pf (f64_of_Z 10000) in
  if f64_lt bps (f64_of_Z 10) then "lt_10bps"
  else if f64_lt bps (f64_of_Z 50) then "10_50bps"
  else if f64_lt bps (f64_of_Z 200) then "50_200bps"
  else "gt_200bps".

Definition gross_profit_bucket (profit_wei : Z) : string :=
  let eth := f64_div (BackrunSizing.u256_to_f64_saturating profit_wei) (f64_of_Z (10 ^ 18)) in
  if f64_lt eth (f64_of_ratio 1 1000) then "lt_10bps"
  else if f64_lt eth (f64_of_ratio 1 100) then "10_50bps"
  else if f64_lt eth (f64_of_ratio 1 10) then "50_200bps"
  else "gt_200bps".

Definition decoder_protocol_to_type (p : RouterDecoder.Protocol) : option ProtocolType :=
  match p with
  | RouterDecoder.UniswapV2 => Some UniswapV2
  | RouterDecoder.SushiSwap => Some SushiSwap
  | RouterDecoder.UniswapV3 => Some UniswapV3
  | RouterDecoder.BalancerV2 => Some BalancerV2
  | RouterDecoder.Curve => Some Curve
  | RouterDecoder.BancorV3 => Some BancorV3
  | RouterDecoder.OneInchV6 => None
  end.

(** ** Filtering *)

Section Lookup.
Context `{HO : HashOrder}.

Definition lookup_pool (ctx : SimContext) (token_in token_out : Address) (protocol : ProtocolType)
    : option Engine.PoolMetadata * SimContext :=
  let '(m, c) := PairIndex.lookup_pool (pool_registry ctx) (pair_index_cache ctx) token_in token_out
                   protocol in
  (m, set_pair_cache ctx c).

(** Neither token of a Bancor swap is BNT: it goes through two pools. *)
Definition bancor_multihop (swap : RouterDecoder.DecodedSwap) (target : ProtocolType) : bool :=
  bool_decide (target = BancorV3)
  && negb (RouterDecoder.token_in swap =? BancorPool.BNT_ADDRESS)
  && negb (RouterDecoder.token_out swap =? BancorPool.BNT_ADDRESS).

(** The reason a swap is dropped for; [None]: it passes. *)
Definition pre_sim_filter (ctx : SimContext) (swap : RouterDecoder.DecodedSwap)
    : option string * SimContext :=
  let token_in := RouterDecoder.token_in swap in
  let token_out := RouterDecoder.token_out swap in
  if token_in =? token_out then (Some "same_token", ctx)
  else if RouterDecoder.amount_in swap =? 0 then (Some "zero_amount", ctx)
  else
    match decoder_protocol_to_type (RouterDecoder.protocol swap) with
    | None => (None, ctx)
    | Some target_protocol =>
        if bancor_multihop swap target_protocol then
          let '(leg_a, ctx) := lookup_pool ctx token_in BancorPool.BNT_ADDRESS BancorV3 in
          let '(leg_b, ctx) := lookup_pool ctx token_out BancorPool.BNT_ADDRESS BancorV3 in
          (match leg_a, leg_b with
           | Some _, Some _ => None
           | _, _ => Some "not_in_registry"
           end, ctx)
        else
          let '(m, ctx) := lookup_pool ctx token_in token_out target_protocol in
          (match m with Some _ => None | None => Some "not_in_registry" end, ctx)
    end.

(** A pool with the direction of the swap and its protocol; or the label under
    which the swap is skipped, if any. *)
Definition resolve_swap_pool (ctx : SimContext) (swap : RouterDecoder.DecodedSwap)
    : (option string + Engine.PoolMetadata * Address * Address * ProtocolType) * SimContext :=
  match decoder_protocol_to_type (RouterDecoder.protocol swap) with
  | None =>
      (match RouterDecoder.pool_address swap with
       | None => inl (Some "unresolved_executor")
       | Some pool_addr =>
           match PairIndex.reg_pools (pool_registry ctx) !! pool_addr with
           | None => inl (Some "pool_not_registered")
           | Some meta =>
               let '(token_in, token_out) :=
                 if default true (RouterDecoder.one_inch_zero_for_one swap)
                 then (Engine.meta_token0 meta, Engine.meta_token1 meta)
                 else (Engine.meta_token1 meta, Engine.meta_token0 meta) in
               inr (meta, token_in, token_out, pid_protocol (Engine.meta_pool_id meta))
           end
       end, ctx)
  | Some target_protocol =>
      let token_in := RouterDecoder.token_in swap in
      let token_out := RouterDecoder.token_out swap in
      let '(m, ctx) := lookup_pool ctx token_in token_out target_protocol in
      (match m with
       | None => inl None
       | Some meta =>
           if negb (bool_decide (pid_protocol (Engine.meta_pool_id meta) = target_protocol))
           then inl (Some "pool_not_registered")
           else inr (meta, token_in, token_out, target_protocol)
       end, ctx)
  end.
End Lookup.

(** ** Replay *)

Definition MEMPOOL_VICTIM_GAS_LIMIT : Z := 30000000.
Definition ONE_GWEI : Z := 1000000000.

Definition victim_tx (event : PendingTxEvent) (to : Address) : MempoolBackrun.VictimTx :=
  MempoolBackrun.mkVictim (ev_from event) to (ev_value event) (ev_input event) (ev_gas_price event)
    MEMPOOL_VICTIM_GAS_LIMIT.

Section Tasks.
Context `{E : Revm} {K : Keccak} {A : SolAbi} `{B : Build} `{M : Libm} `{HO : HashOrder}.

(** What a task meets: the detector's clock; whether the semaphore has a permit,
    what the node serves and the time, for the replay and for each attempt of the
    validation; the environment variables AETHER_BACKRUN_SKIP_VICTIM,
    AETHER_BACKRUN_FORK_LATEST and AETHER_MEMPOOL_SIM_RETRIES; and whether the
    attempt exceeded its time budget. *)
Record TaskEnv : Type := mkEnv {
  elapsed : nat -> Z;
  replay_permit : bool;
  replay_fork : BlockId -> option Db;
  replay_now_secs : Z;
  sim_permit : bool;
  sim_fork : nat -> BlockId -> option Db;
  now_secs : Z;
  skip_victim : bool;
  fork_latest : bool;
  max_retries : nat;
  timed_out : bool;
}.

Definition try_post_state_replay (ctx : SimContext) (env : TaskEnv) (protocol : ReplayProtocol)
    (pool_addr : Address) (pool_state : PoolState) (swap_token_in swap_token_out : Address)
    (event : PendingTxEvent) (block_number : Z) : option UnifiedPostState :=
  if negb (post_state_replay_enabled ctx) then None
  else
    cfg ← backrun ctx;
    if negb (provider cfg) then None
    else if negb (replay_permit env) then None
    else
      to ← ev_to event;
      let victim := victim_tx event to in
      let params := PostStateReplay.mkReplay block_number (replay_now_secs env) ONE_GWEI (chain_id cfg) in
      let forked := rpc_state_new_at_latest (replay_fork env) block_number (replay_now_secs env) ONE_GWEI in
      match protocol, pool_state with
      | RpUniswapV3, _ =>
          state ← forked;
          match PostStateReplay.replay_v3_post_state_rpc state victim pool_addr params with
          | inr post => Some (PostUniswapV3 post)
          | inl _ => None
          end
      | RpCurve, StCurve curve =>
          i ← position (fun t => t =? swap_token_in) (CurvePool.tokens curve);
          j ← position (fun t => t =? swap_token_out) (CurvePool.tokens curve);
          state ← forked;
          match PostStateReplay.replay_curve_post_state_rpc state victim pool_addr
                  (Z.of_nat i mod 2 ^ 8) (Z.of_nat j mod 2 ^ 8) params with
          | inr post => Some (PostCurve post)
          | inl _ => None
          end
      | RpBalancer, StBalancer bal =>
          state ← forked;
          match PostStateReplay.replay_balancer_post_state_rpc state victim pool_addr
                  (BalancerPool.token0 bal) (BalancerPool.token1 bal) params with
          | inr post => Some (PostBalancer post)
          | inl _ => None
          end
      | _, _ => None
      end.

(** ** Validation *)

Definition BACKRUN_SLIPPAGE_BPS : Z := 100.
Definition MEMPOOL_BACKRUN : Z := 2.

Definition u256_bytes (v : Z) : list Z := to_be 32 v.

(** Both Balancer versions are sent as the second. *)
Definition protocol_to_proto (p : ProtocolType) : Z :=
  match p with
  | UniswapV2 => 1
  | UniswapV3 => 2
  | SushiSwap => 3
  | Curve => 4
  | BalancerV2 | BalancerV3 => 5
  | BancorV3 => 6
  end.

Definition swap_step_to_proto (s : SwapStep) : Pipeline.ProtoSwapStep :=
  Pipeline.mkProtoStep (protocol_to_proto (step_protocol s)) (to_be 20 (step_pool_address s))
    (to_be 20 (step_token_in s)) (to_be 20 (step_token_out s)) (u256_bytes (step_amount_in s))
    (u256_bytes (step_min_amount_out s)) (step_calldata s).

(** The loop that stores the sized amounts; [per_hop_expected_out[i]] panics out
    of range. *)
Fixpoint apply_sizing (prev_in : Z) (steps : list SwapStep) (outs : list Z) : outcome (list SwapStep) :=
  match steps, outs with
  | [], _ => Ret []
  | _ :: _, [] => Panic
  | s :: steps, expected :: outs =>
      min_out ← u256_div (u256_saturating_mul expected (10000 - BACKRUN_SLIPPAGE_BPS)) 10000;
      rest ← apply_sizing expected steps outs;
      Ret (mkSwapStep (step_protocol s) (step_pool_address s) (step_token_in s) (step_token_out s)
             prev_in min_out (step_calldata s) :: rest)
  end.

(** The label of a rejection, if it is counted; or the message that is sent. *)
Inductive Verdict : Type :=
| Rejected (label : option string)
| Published (arb : Pipeline.ProtoValidatedArb).

(** The state of an attempt. *)
Definition attempt_state (ctx : SimContext) (env : TaskEnv) (block_number : Z) (attempt : nat)
    : option RpcForkedState :=
  state ← (if fork_latest env
           then rpc_state_new_at_latest (sim_fork env attempt) block_number (now_secs env) ONE_GWEI
           else rpc_state_new (sim_fork env attempt) block_number (now_secs env) ONE_GWEI);
  Some match mempool_prewarm ctx with
       | Some warm => Fork.inject_code_only warm state
       | None => state
       end.

(** The loop; [None]: no fork. *)
Fixpoint validate_attempts (ctx : SimContext) (env : TaskEnv) (block_number : Z)
    (victim : MempoolBackrun.VictimTx) (arb : MempoolBackrun.ArbTx)
    (params : MempoolBackrun.ValidatorParams) (retries attempt : nat)
    : option MempoolBackrun.BackrunSimResult :=
  state ← attempt_state ctx env block_number attempt;
  let r := MempoolBackrun.validate_backrun_rpc state victim arb params in
  if MempoolBackrun.accepted r
     || negb (bool_decide (MempoolBackrun.reject r = Some MempoolBackrun.RpcTransport))
  then Some r
  else match retries with
       | O => Some r
       | S retries => validate_attempts ctx env block_number victim arb params retries (S attempt)
       end.

(** The label of a rejected simulation. *)
Definition reject_label (env : TaskEnv) (r : MempoolBackrun.BackrunSimResult) : string :=
  let reason := default MempoolBackrun.SimError (MempoolBackrun.reject r) in
  let slow := bool_decide (reason = MempoolBackrun.RpcTransport)
              || bool_decide (reason = MempoolBackrun.SimError) in
  MempoolBackrun.as_str (if slow && timed_out env then MempoolBackrun.SimTimeout else reason).

(** The steps to simulate, the loan, and the expected net profit (0: unknown);
    [None]: no size pays. *)
Definition size_steps (ctx : SimContext) (cfg : BackrunValidatorConfig) (v : BackrunSizing.Victim)
    (steps : list SwapStep) : outcome (option (list SwapStep * Z * Z)) :=
  o ← BackrunSizing.optimize_cycle_input steps (pool_states ctx) v (gas_price_gwei cfg)
        (min_profit_wei cfg);
  match o with
  | BackrunSizing.Sized s =>
      steps ← apply_sizing (BackrunSizing.input_amount s) steps (BackrunSizing.per_hop_expected_out s);
      Ret (Some (steps, BackrunSizing.input_amount s, BackrunSizing.net_profit_wei s))
  | BackrunSizing.BelowMinProfit => Ret None
  | BackrunSizing.Fallback => Ret (Some (steps, input_amount_wei cfg, 0))
  end.

Definition validator_params (cfg : BackrunValidatorConfig) (env : TaskEnv) (block_number : Z)
    (overrides : option (list (Address * Z * Z))) : MempoolBackrun.ValidatorParams :=
  MempoolBackrun.mkParams block_number (now_secs env) ONE_GWEI (chain_id cfg) (profit_token cfg)
    (searcher_caller cfg) (balance_slot cfg) (executor_bytecode cfg) overrides.

Definition arb_message (event : PendingTxEvent) (cycle : DetectedCycle) (block_number timestamp_ns : Z)
    (r : MempoolBackrun.BackrunSimResult) (flashloan_token : Address) (flashloan_amount : Z)
    (steps : list SwapStep) (calldata : list Z) : Pipeline.ProtoValidatedArb :=
  Pipeline.mkProtoArb
    ("mempool-0x" +:+ hex_encode (to_be 32 (tx_hash event)) +:+ "-"
       +:+ pretty (N.of_nat (default 0%nat (head (path cycle)))))
    [] (u256_bytes (MempoolBackrun.gross_profit_wei r)) (MempoolBackrun.arb_gas_used r)
    (u256_bytes (u256_saturating_mul (MempoolBackrun.arb_gas_used r) ONE_GWEI))
    (u256_bytes (MempoolBackrun.gross_profit_wei r)) block_number timestamp_ns
    (to_be 20 flashloan_token) (u256_bytes flashloan_amount) (swap_step_to_proto <$> steps) calldata
    MEMPOOL_BACKRUN (to_be 32 (tx_hash event)) (u64_saturating_add block_number 1) (raw_tx event).

(** [victim]: what the victim does to its pool, as predicted. *)
Definition run_backrun_validation (ctx : SimContext) (cfg : BackrunValidatorConfig) (env : TaskEnv)
    (graph : PriceGraph.t) (cycle : DetectedCycle) (event : PendingTxEvent) (block_number : Z)
    (overrides : option (list (Address * Z * Z))) (victim : BackrunSizing.Victim) : outcome Verdict :=
  if negb (sim_permit env) then Ret (Rejected (Some "sim_concurrency_saturated"))
  else if negb (provider cfg) then Ret (Rejected (Some "provider_unavailable"))
  else
    match BackrunSizing.cycle_to_swap_steps graph (token_index ctx) cycle (input_amount_wei cfg) with
    | None | Some [] => Ret (Rejected (Some "cycle_unbuildable"))
    | Some ((first :: _) as steps) =>
        let flashloan_token := step_token_in first in
        sized ← size_steps ctx cfg victim steps;
        match sized with
        | None => Ret (Rejected (Some "below_min_profit_optimized"))
        | Some (steps, flashloan_amount, expected_net_wei) =>
            deadline ← u64_add (now_secs env) 24;
            let calldata :=
              Pipeline.build_execute_arb_calldata steps flashloan_token flashloan_amount deadline
                (min_profit_wei cfg) 9000 in
            match ev_to event with
            | None => Ret (Rejected None)
            | Some to =>
                let arb := MempoolBackrun.mkArb (searcher_caller cfg) (executor_address cfg) calldata
                             3000000 in
                let params := validator_params cfg env block_number overrides in
                match validate_attempts ctx env block_number (victim_tx event to) arb params
                        (max_retries env) 0 with
                | None => Ret (Rejected (Some "fork_construction_failed"))
                | Some r =>
                    if negb (MempoolBackrun.accepted r) then Ret (Rejected (Some (reject_label env r)))
                    else
                      let gross := MempoolBackrun.gross_profit_wei r in
                      let actual_profit := if in_ub 128 gross then gross else u128_max in
                      match gate_post_sim expected_net_wei actual_profit (gating ctx) with
                      | Drop _ => Ret (Rejected (Some "revm_contradicts"))
                      | Pass =>
                          timestamp_ns ← arith_s overflow_checks 64 (to_signed 64 (now_secs env) * 10 ^ 9);
                          Ret (Published (arb_message event cycle block_number timestamp_ns r
                                            flashloan_token flashloan_amount steps calldata))
                      end
                end
            end
        end
    end.

(** ** The scan *)

(** What a task leaves behind: the label it was skipped under, the predictions
    it persisted, the buckets it counted its candidates in, and the verdict on the
    cycle it validated. *)
Record ScanReport : Type := mkReport {
  skipped : option string;
  predictions : list NewMempoolPrediction;
  candidate_buckets : list string;
  verdict : option Verdict;
}.

Definition skip (label : option string) : ScanReport := mkReport label [] [] None.

Definition post_state_record (p : RouterDecoder.Protocol) (post_in post_out : f64) : PredictedPostState :=
  match p with
  | RouterDecoder.UniswapV2 | RouterDecoder.SushiSwap => PredV2 post_in post_out
  | RouterDecoder.UniswapV3 => PredV3 post_in post_out
  | RouterDecoder.BalancerV2 => PredBalancer post_in post_out
  | RouterDecoder.Curve => PredCurve post_in post_out
  | RouterDecoder.BancorV3 => PredBancor post_in post_out
  | RouterDecoder.OneInchV6 => PredOneInchV6 post_in post_out
  end.

Definition prediction_of (ctx : SimContext) (event : PendingTxEvent) (to : Address)
    (swap : RouterDecoder.DecodedSwap) (pool : Address) (block_number : Z) (post : PredictedPostState)
    (best : option f64) : NewMempoolPrediction :=
  mkPrediction (tx_hash event) to (decoder_protocol_label (RouterDecoder.protocol swap))
    (RouterDecoder.token_in swap) (RouterDecoder.token_out swap) (RouterDecoder.amount_in swap)
    (Some pool) (u64_saturating_add block_number 1) post best (engine_git_sha ctx).

(** The profitable cycles, most profitable first. *)
Definition rank_profitable (cycles : list DetectedCycle) : list DetectedCycle :=
  sort_by (desc profit_factor) (filter (fun c => is_profitable c = true) cycles).

(** The first cycle that passes the gates. *)
Definition best_cycle (graph : PriceGraph.t) (profitable : list DetectedCycle) (c : GatingConfig)
    : option DetectedCycle :=
  let idx := build_fingerprint_index profitable c in
  List.find (fun cy => match gate_pre_sim cy graph idx c with Pass => true | Drop _ => false end) profitable.

(** Slot 8 of the pair with the predicted reserves, for the narrow case in which
    the victim is not replayed. *)
Definition storage_overrides (env : TaskEnv) (swap : RouterDecoder.DecodedSwap) (meta : Engine.PoolMetadata)
    (post_in post_out : f64) : option (list (Address * Z * Z)) :=
  if negb (skip_victim env) then None
  else
    match RouterDecoder.protocol swap with
    | RouterDecoder.UniswapV2 | RouterDecoder.SushiSwap =>
        if negb (length (RouterDecoder.path_extra swap) =? 0)%nat then None
        else
          let '(r0_f, r1_f) :=
            if RouterDecoder.token_in swap =? Engine.meta_token0 meta then (post_in, post_out)
            else (post_out, post_in) in
          if negb (is_finite r0_f && is_finite r1_f) || f64_le r0_f f64_zero || f64_le r1_f f64_zero
          then None
          else
            let r0 := BackrunSizing.to_reserve r0_f in
            let r1 := BackrunSizing.to_reserve r1_f in
            Some [(pid_address (Engine.meta_pool_id meta), 8, Z.lor r0 (Z.shiftl r1 112))]
    | _ => None
    end.

(** The reserves of the swap's edge after it, or the label it is skipped
    under. *)
Definition predicted_reserves (ctx : SimContext) (env : TaskEnv) (swap : RouterDecoder.DecodedSwap)
    (meta : Engine.PoolMetadata) (edge : PriceEdge) (fee_factor : f64) (event : PendingTxEvent)
    (block_number : Z) : outcome (string + f64 * f64) :=
  match RouterDecoder.protocol swap with
  | RouterDecoder.UniswapV2 | RouterDecoder.SushiSwap =>
      let dx := BackrunSizing.u256_to_f64_saturating (RouterDecoder.amount_in swap) in
      Ret (inr (BackrunSizing.predict_v2_post_state (reserve_in edge) (reserve_out edge) dx fee_factor))
  | _ =>
      let pool_addr := pid_address (Engine.meta_pool_id meta) in
      match pool_states ctx !! pool_addr with
      | None => Ret (inl "pool_state_missing")
      | Some state =>
          d ← predict_post_state_with_replay state (RouterDecoder.token_in swap)
                (RouterDecoder.amount_in swap)
                (fun proto => try_post_state_replay ctx env proto pool_addr state
                                (RouterDecoder.token_in swap) (RouterDecoder.token_out swap) event
                                block_number);
          Ret match PoolState.answer d with
              | None => inl "predictor_low_confidence"
              | Some unified =>
                  let '(pin, pout) :=
                    BackrunSizing.unified_to_post_reserves (RouterDecoder.token_in swap) meta unified in
                  if f64_le pin f64_zero || f64_le pout f64_zero then inl "post_state_invalid"
                  else inr (pin, pout)
              end
      end
  end.

(** Both directions of a pool's pair of edges. *)
Definition update_pair (g : PriceGraph.t) (a b : nat) (pool : PoolId) (ra rb fee_factor : f64)
    : outcome PriceGraph.t :=
  g ← PriceGraph.update_edge_from_reserves g a b pool ra rb fee_factor;
  PriceGraph.update_edge_from_reserves g b a pool rb ra fee_factor.

(** The end of both scans: the candidates are counted and the best cycle that
    passes the gates on the updated graph is validated, its steps taken from
    the snapshot's. *)
Definition conclude (ctx : SimContext) (env : TaskEnv) (snapshot : GraphSnapshot (G:=PriceGraph.t))
    (graph : PriceGraph.t) (profitable : list DetectedCycle) (predictions : list NewMempoolPrediction)
    (event : PendingTxEvent) (overrides : option (list (Address * Z * Z)))
    (victim : BackrunSizing.Victim) : outcome ScanReport :=
  match profitable with
  | [] => Ret (mkReport (Some "no_profitable_cycle") predictions [] None)
  | _ =>
      let buckets := profit_bucket ∘ profit_factor <$> profitable in
      verdict ←
        match arb_publisher ctx, backrun ctx with
        | true, Some cfg =>
            match best_cycle graph profitable (gating ctx) with
            | Some best =>
                v ← run_backrun_validation ctx cfg env (Snapshot.graph snapshot) best event
                      (Snapshot.block_number snapshot) overrides victim;
                Ret (Some v)
            | None => Ret None
            end
        | _, _ => Ret None
        end;
      Ret (mkReport None predictions buckets verdict)
  end.

Definition has_edge (g : PriceGraph.t) (from_v to_v : nat) (pool : PoolId) : bool :=
  existsb (fun e => (to e =? to_v)%nat && bool_decide (pool_id e = pool)) (PriceGraph.edges_from g from_v).

(** [None]: the detector's fuel ran out. *)
Definition try_post_state_scan_bancor_multihop (ctx : SimContext) (env : TaskEnv)
    (swap : RouterDecoder.DecodedSwap) (event_to : Address) (event : PendingTxEvent)
    : outcome (option ScanReport) * SimContext :=
  let token_in := RouterDecoder.token_in swap in
  let token_out := RouterDecoder.token_out swap in
  let stop label := (Ret (Some (skip (Some label)))) in
  match TokenIndex.get_index (token_index ctx) token_in with
  | None => (stop "token_in_unknown", ctx)
  | Some in_idx =>
  match TokenIndex.get_index (token_index ctx) token_out with
  | None => (stop "token_out_unknown", ctx)
  | Some out_idx =>
  match TokenIndex.get_index (token_index ctx) BancorPool.BNT_ADDRESS with
  | None => (stop "token_in_unknown", ctx)
  | Some bnt_idx =>
  let '(leg_a, ctx) := lookup_pool ctx token_in BancorPool.BNT_ADDRESS BancorV3 in
  match leg_a with
  | None => (stop "bancor_second_pool_not_found", ctx)
  | Some leg_a_meta =>
  let '(leg_b, ctx) := lookup_pool ctx token_out BancorPool.BNT_ADDRESS BancorV3 in
  match leg_b with
  | None => (stop "bancor_second_pool_not_found", ctx)
  | Some leg_b_meta =>
  let pool_a := Engine.meta_pool_id leg_a_meta in
  let pool_b := Engine.meta_pool_id leg_b_meta in
  (match pool_states ctx !! pid_address pool_a, pool_states ctx !! pid_address pool_b with
   | None, _ | _, None => stop "pool_state_missing"
   | Some (StBancor a), Some (StBancor b) =>
       posts ← BancorPool.predict_post_state_multihop a token_in (RouterDecoder.amount_in swap) token_out b;
       match posts with
       | None => stop "bancor_multihop_low_confidence"
       | Some (post_a, post_b) =>
           let snapshot := load (snapshot_manager ctx) in
           fee_a ← Engine.fee_factor leg_a_meta;
           fee_b ← Engine.fee_factor leg_b_meta;
           let g := Snapshot.graph snapshot in
           if negb (has_edge g in_idx bnt_idx pool_a) || negb (has_edge g bnt_idx in_idx pool_a)
              || negb (has_edge g bnt_idx out_idx pool_b) || negb (has_edge g out_idx bnt_idx pool_b)
           then stop "graph_edge_missing"
           else
             let a_in := BackrunSizing.u256_to_f64_saturating (BancorPool.new_balance_in post_a) in
             let a_out := BackrunSizing.u256_to_f64_saturating (BancorPool.new_balance_out post_a) in
             let b_in := BackrunSizing.u256_to_f64_saturating (BancorPool.new_balance_in post_b) in
             let b_out := BackrunSizing.u256_to_f64_saturating (BancorPool.new_balance_out post_b) in
             if f64_le a_in f64_zero || f64_le a_out f64_zero || f64_le b_in f64_zero
                || f64_le b_out f64_zero
             then stop "post_state_invalid"
             else
               g1 ← update_pair g in_idx bnt_idx pool_a a_in a_out fee_a;
               g2 ← update_pair g1 bnt_idx out_idx pool_b b_in b_out fee_b;
               cycles ← BellmanFord.detect_from_affected (detector ctx) (elapsed env) g2
                          [in_idx; bnt_idx; out_idx];
               match cycles with
               | None => Ret None
               | Some cycles =>
                   let profitable := rank_profitable cycles in
                   let best := profit_factor <$> head profitable in
                   let row meta post_in post_out :=
                     prediction_of ctx event event_to swap (pid_address (Engine.meta_pool_id meta))
                       (Snapshot.block_number snapshot) (PredBancor post_in post_out) best in
                   report ← conclude ctx env snapshot g2 profitable
                              [row leg_a_meta a_in a_out; row leg_b_meta b_in b_out] event None
                              (BackrunSizing.mkVictim zero_address token_in f64_zero f64_zero);
                   Ret (Some report)
               end
       end
   | Some _, Some _ => stop "bancor_multihop_low_confidence"
   end, ctx)
  end end end end end.

(** The part of [try_post_state_scan] behind the Bancor dispatch. *)
Definition scan_single (ctx : SimContext) (env : TaskEnv) (swap : RouterDecoder.DecodedSwap)
    (event_to : Address) (event : PendingTxEvent) (meta : Engine.PoolMetadata)
    (swap_token_in swap_token_out : Address) : outcome (option ScanReport) :=
  let stop label := Ret (Some (skip (Some label))) in
  match TokenIndex.get_index (token_index ctx) swap_token_in,
        TokenIndex.get_index (token_index ctx) swap_token_out with
  | None, _ => stop "token_in_unknown"
  | _, None => stop "token_out_unknown"
  | Some in_idx, Some out_idx =>
      let pool := Engine.meta_pool_id meta in
      fee_factor ← Engine.fee_factor meta;
      let snapshot := load (snapshot_manager ctx) in
      match List.find (fun e => (to e =? out_idx)%nat && bool_decide (pool_id e = pool))
              (PriceGraph.edges_from (Snapshot.graph snapshot) in_idx) with
      | None => stop "graph_edge_missing"
      | Some edge =>
          if f64_le (reserve_in edge) f64_zero || f64_le (reserve_out edge) f64_zero
          then stop "reserves_zero"
          else
            post ← predicted_reserves ctx env swap meta edge fee_factor event
                     (Snapshot.block_number snapshot);
            match post with
            | inl label => stop label
            | inr (post_in, post_out) =>
                g ← update_pair (Snapshot.graph snapshot) in_idx out_idx pool post_in post_out fee_factor;
                cycles ← BellmanFord.detect_from_affected (detector ctx) (elapsed env) g [in_idx; out_idx];
                match cycles with
                | None => Ret None
                | Some cycles =>
                    let profitable := rank_profitable cycles in
                    let prediction :=
                      prediction_of ctx event event_to swap (pid_address pool)
                        (Snapshot.block_number snapshot)
                        (post_state_record (RouterDecoder.protocol swap) post_in post_out)
                        (profit_factor <$> head profitable) in
                    report ← conclude ctx env snapshot g profitable [prediction] event
                               (storage_overrides env swap meta post_in post_out)
                               (BackrunSizing.mkVictim (pid_address pool) (RouterDecoder.token_in swap)
                                  post_in post_out);
                    Ret (Some report)
                end
            end
      end
  end.

Definition try_post_state_scan (ctx : SimContext) (env : TaskEnv) (swap : RouterDecoder.DecodedSwap)
    (event_to : Address) (event : PendingTxEvent) : outcome (option ScanReport) * SimContext :=
  match resolve_swap_pool ctx swap with
  | (inl label, ctx) => (Ret (Some (skip label)), ctx)
  | (inr (meta, swap_token_in, swap_token_out, target_protocol), ctx) =>
      if bancor_multihop swap target_protocol
      then try_post_state_scan_bancor_multihop ctx env swap event_to event
      else (scan_single ctx env swap event_to event meta swap_token_in swap_token_out, ctx)
  end.

(** ** Events *)

(** The amount of an ETH-input swap is the value of the transaction. *)
Definition backfill (event : PendingTxEvent) (swaps : list RouterDecoder.DecodedSwap)
    : list RouterDecoder.DecodedSwap :=
  match swaps with
  | first :: rest =>
      if negb (ev_value event =? 0) && (RouterDecoder.amount_in first =? 0) then
        RouterDecoder.mkSwap (RouterDecoder.protocol first) (RouterDecoder.router first)
          (RouterDecoder.token_in first) (RouterDecoder.token_out first) (ev_value event)
          (RouterDecoder.amount_out_min first) (RouterDecoder.recipient first)
          (RouterDecoder.fee_bps first) (RouterDecoder.path_extra first)
          (RouterDecoder.curve_indices first) (RouterDecoder.pool_address first)
          (RouterDecoder.one_inch_zero_for_one first) :: rest
      else swaps
  | [] => []
  end.

(** The loop over the swaps: each is recorded, and those that pass the filter
    are spawned. [now i] is the clock at the [i]-th swap. *)
Fixpoint dispatch (ctx : SimContext) (now : nat -> Z) (i : nat) (swaps : list RouterDecoder.DecodedSwap)
    : outcome (SimContext * list RouterDecoder.DecodedSwap) :=
  match swaps with
  | [] => Ret (ctx, [])
  | swap :: swaps =>
      hot ← HotToken.record (hot_tokens ctx) (RouterDecoder.token_in swap) (RouterDecoder.token_out swap)
              (RouterDecoder.protocol swap) (RouterDecoder.pool_address swap) (now i);
      let '(reason, ctx) := pre_sim_filter (set_hot_tokens ctx hot) swap in
      ' (ctx, tasks) ← dispatch ctx now (S i) swaps;
      Ret (ctx, match reason with Some _ => tasks | None => swap :: tasks end)
  end.

(** What becomes of an event: a counted failure, or the swaps that are spawned,
    each with the router. *)
Inductive Handled : Type :=
| DecodeError (label : string)
| Spawned (router : Address) (tasks : list RouterDecoder.DecodedSwap).

(** [ctx]: [None] when the pipeline only decodes. *)
Definition handle_event (ctx : option SimContext) (now : nat -> Z) (event : PendingTxEvent)
    : outcome (option SimContext * Handled) :=
  match ev_to event with
  | None => Ret (ctx, DecodeError "no_to")
  | Some to =>
      decoded ← RouterDecoder.decode_pending_many to (ev_input event);
      match decoded with
      | inl err => Ret (ctx, DecodeError (decode_error_label err))
      | inr [] => Ret (ctx, DecodeError "multicall_no_swaps")
      | inr swaps =>
          match ctx with
          | None => Ret (None, Spawned to [])
          | Some ctx =>
              ' (ctx, tasks) ← dispatch ctx now 0 (backfill event swaps);
              Ret (Some ctx, Spawned to tasks)
          end
      end
  end.

(** The timer's report: cold pairs are pruned; the pairs that are logged. *)
Definition report_hot_tokens (ctx : SimContext) (now : Z)
    : SimContext * list HotToken.HotPair * list HotToken.HotPair :=
  let '(hot, _) := HotToken.prune (hot_tokens ctx) now in
  let ctx := set_hot_tokens ctx hot in
  if (HotToken.len hot =? 0)%nat then (ctx, [], [])
  else (ctx, take 10 (HotToken.ranked hot now), HotToken.candidates hot now 10).
End Tasks.

(** ** The warmed bytecode *)

(** [sort_unstable] and [dedup]: equal neighbours are merged. *)
Fixpoint dedup (l : list Z) : list Z :=
  match l with
  | a :: (b :: _) as rest => if a =? b then dedup rest else a :: dedup rest
  | _ => l
  end.

Section Refresh.
Context {K : Keccak} {A : SolAbi} `{SO : Fork.StreamOrder} `{HO : HashOrder}.

(** The node at a block, and the errors of the disk. *)
Context (get_code_at : Z -> Address -> string + list Z)
  (get_storage_at : Z -> Address -> Z -> string + Z)
  (eth_call : Z -> Address -> list Z -> string + list Z)
  (io_get io_put : Address -> option BytecodeCache.CacheError).

Definition code_addresses (ctx : SimContext) : list Address :=
  dedup (sort_by Z.compare
    (match backrun ctx with Some cfg => [executor_address cfg] | None => [] end
     ++ ((fun m => pid_address (Engine.meta_pool_id m))
           <$> (map_iter (PairIndex.reg_pools (pool_registry ctx))).*2))).

Definition run_prewarm_refresh (ctx : SimContext) (block_number : Z) : SimContext :=
  let '(fresh, cache, _) :=
    Fork.prewarm_state (get_code_at block_number) (get_storage_at block_number) (eth_call block_number)
      io_get io_put block_number (code_addresses ctx) [] (bytecode_cache ctx) None in
  set_prewarm ctx fresh cache.

(** The refresher: one refresh when it starts, and one for a new block that is
    [interval_blocks] past the last one, or the first. *)
Definition on_new_block (interval_blocks : Z) (s : SimContext * Z) (block : Z) : SimContext * Z :=
  let '(ctx, last_refresh_block) := s in
  if (Z.max interval_blocks 1 <=? u64_saturating_sub block last_refresh_block)
     || (last_refresh_block =? 0)
  then (run_prewarm_refresh ctx block, block)
  else s.

Definition refresher (interval_blocks : Z) (ctx : SimContext) (blocks : list Z) : SimContext * Z :=
  foldl (on_new_block interval_blocks) (run_prewarm_refresh ctx 0, 0) blocks.
End Refresh.
End MempoolPipeline.
