(* ===== verification/MempoolSpec.v ===== *)
(** * What the mempool pipeline guarantees

    Theorems about [MempoolPipeline]: which swaps are scheduled, that a scheduled
    task completes, that a published backrun was executed on a fork and made the
    profit it reports, and three places where the code does not do what it is
    documented to do. *)

From Stdlib Require Import ZArith Lia String.
From S2P Require Import Prelude.
From S2P Require Import Machine.
From S2P Require Import F64.
From S2P Require Import Types.
From S2P Require Import Bytes.
From S2P Require Import Keccak.
From S2P Require Import Abi.
From S2P Require Import UniswapV2.
From S2P Require Import Bancor.
From S2P Require Import PoolState.
From S2P Require Import TokenIndex.
From S2P Require Import PriceGraph.
From S2P Require Import Snapshot.
From S2P Require Import Opportunity.
From S2P Require Import BellmanFord.
From S2P Require Import CycleGating.
From S2P Require Import RouterDecoder.
From S2P Require Import RouterSpec.
From S2P Require Import HotToken.
From S2P Require Import Revm.
From S2P Require Import BytecodeCache.
From S2P Require Import Fork.
From S2P Require Import Simulator.
From S2P Require Import MempoolBackrun.
From S2P Require Import Pipeline.
From S2P Require Import Engine.
From S2P Require Import PairIndex.
From S2P Require Import BackrunSizing.
From S2P Require Import MempoolPipeline.
From stdpp Require Import base option numbers strings pretty gmap list.

Local Open Scope Z_scope.

Module MempoolSpec.
Import Revm MempoolPipeline.

(** ** Steps are closed chains *)

(** Each step spends the token the one before it bought. *)
Fixpoint step_chain (start : Address) (steps : list SwapStep) (stop : Address) : Prop :=
  match steps with
  | [] => start = stop
  | s :: steps => step_token_in s = start /\ step_chain (step_token_out s) steps stop
  end.

Lemma steps_of_path_chain g ti p : forall amount steps v a,
  BackrunSizing.steps_of_path g ti amount p = Some steps ->
  head p = Some v -> TokenIndex.get_address ti v = Some a ->
  length p = S (length steps) /\
  exists stop, step_chain a steps stop /\
    forall z, last p = Some z -> TokenIndex.get_address ti z = Some stop.
Proof.
  induction p as [|x p IH]; intros amount steps v a Hs Hv Ha; [done|]. injection Hv as ->.
  destruct p as [|y p].
  { injection Hs as <-. split; [done|]. exists a. split; [done|]. by intros z [= <-]. }
  cbn [BackrunSizing.steps_of_path] in Hs.
  apply bind_Some in Hs as (a' & Ha' & Hs). apply bind_Some in Hs as (b & Hb & Hs).
  apply bind_Some in Hs as (ed & Hed & Hs). apply bind_Some in Hs as (rest & Hr & [= <-]).
  rewrite Ha in Ha'. injection Ha' as <-.
  destruct (IH _ _ y b Hr eq_refl Hb) as (Hlen & stop & Hc & Hst).
  split; [cbn in *; lia|]. exists stop. split; [by split|]. intros z Hz. by apply Hst.
Qed.

Lemma cycle_steps_closed bf g g' ti cycle amount steps : BellmanFord.valid_cycle bf g' cycle ->
  BackrunSizing.cycle_to_swap_steps g ti cycle amount = Some steps ->
  (length steps <= BellmanFord.max_hops bf)%nat /\
  exists first rest, steps = first :: rest /\
    step_chain (step_token_in first) steps (step_token_in first).
Proof.
  intros [[v [Hh Hl]] Hlen _ _ _] Hs. unfold BackrunSizing.cycle_to_swap_steps in Hs.
  destruct (length (path cycle) <? 2)%nat; [done|].
  destruct (path cycle) as [|x [|y p]] eqn:Ep; [done|cbn in Hlen; lia|].
  assert (Ha : exists a, TokenIndex.get_address ti v = Some a).
  { injection Hh as ->. cbn [BackrunSizing.steps_of_path] in Hs.
    apply bind_Some in Hs as (a' & Ha' & _). eauto. }
  destruct Ha as [a Ha].
  destruct (steps_of_path_chain g ti _ _ _ v a Hs Hh Ha) as (Hl' & stop & Hc & Hst).
  rewrite (Hst v Hl) in Ha. injection Ha as ->.
  split; [cbn in *; lia|]. destruct steps as [|first rest]; [cbn in Hl'; lia|].
  exists first, rest. split; [done|]. destruct Hc as [<- Hc]. by split.
Qed.

Section Facts.
Context `{E : Revm} {K : Keccak} {A : SolAbi} `{B : Build} `{M : Libm} `{HO : HashOrder}.

Lemma apply_sizing_chain outs : forall prev steps steps' a stop,
  apply_sizing prev steps outs = Ret steps' -> step_chain a steps stop -> step_chain a steps' stop.
Proof.
  induction outs as [|o outs IH]; intros prev [|s steps] steps' a stop H Hc; try done;
    cbn [apply_sizing] in H; try (by injection H as <-).
  unbind H. injection H as <-. destruct Hc as [Ha Hc]. split; [done|].
  by eapply IH.
Qed.

Lemma size_steps_chain ctx cfg v steps r a stop :
  size_steps ctx cfg v steps = Ret r -> step_chain a steps stop ->
  forall steps' loan net, r = Some (steps', loan, net) -> step_chain a steps' stop.
Proof.
  unfold size_steps. intros H Hc steps' loan net ->. unbind H.
  destruct v0 as [| |s]; [injection H as <- _ _; done|done|].
  unbind H. injection H as <- _ _. by eapply apply_sizing_chain.
Qed.

(** ** A published backrun was made *)

(** On a fork of the snapshot's block (or of the latest, if so configured), with
    the pending transaction executed first, sending exactly the published
    calldata from the searcher to the executor succeeds; the published profit is
    the growth of the searcher's balance over both, and exceeds the gas. The
    calldata holds the published steps and loan; the steps are a closed chain
    from the flash-loan token; the message names the victim and the next
    block. *)
Definition made (ctx : SimContext) (env : TaskEnv) (event : PendingTxEvent)
    (arb : Pipeline.ProtoValidatedArb) : Prop :=
  exists cfg attempt st to overrides steps token loan deadline d1 d2 vgas gas,
    let block := Snapshot.block_number (load (snapshot_manager ctx)) in
    let params := validator_params cfg env block overrides in
    let tx := MempoolBackrun.mkArb (searcher_caller cfg) (executor_address cfg)
                (Pipeline.pa_calldata arb) 3000000 in
    let d0 := MempoolBackrun.prepare (db st) tx params in
    let gain := saturate 256 (MempoolBackrun.pre_balance d2 params - MempoolBackrun.pre_balance d0 params) in
    (backrun ctx = Some cfg /\ ev_to event = Some to /\ (skip_victim env = false -> overrides = None) /\
     (attempt <= max_retries env)%nat /\ attempt_state ctx env block attempt = Some st) /\
    (MempoolBackrun.victim_ran d0 (victim_tx event to) params d1 vgas /\
     MempoolBackrun.arb_ran d1 tx params d2 gas /\
     u256_saturating_mul gas ONE_GWEI < gain /\
     Pipeline.pa_net_profit_wei arb = u256_bytes gain /\ Pipeline.pa_total_gas arb = gas) /\
    (Pipeline.pa_calldata arb
       = Pipeline.build_execute_arb_calldata steps token loan deadline (min_profit_wei cfg) 9000 /\
     Pipeline.pa_steps arb = swap_step_to_proto <$> steps /\
     Pipeline.pa_flashloan_token arb = to_be 20 token /\
     Pipeline.pa_flashloan_amount arb = u256_bytes loan /\ step_chain token steps token) /\
    Pipeline.pa_victim_tx_hash arb = to_be 32 (tx_hash event) /\
    Pipeline.pa_victim_raw_tx arb = raw_tx event /\
    Pipeline.pa_target_block arb = u64_saturating_add block 1.

Lemma validate_attempts_state ctx env block victim arb params retries : forall attempt r,
  validate_attempts ctx env block victim arb params retries attempt = Some r ->
  exists k st, (attempt <= k <= attempt + retries)%nat /\ attempt_state ctx env block k = Some st /\
    r = MempoolBackrun.validate_backrun_rpc st victim arb params.
Proof.
  induction retries as [|retries IH]; intros attempt r H; cbn [validate_attempts] in H;
    apply bind_Some in H as (st & Hst & H);
    destruct (_ || _); try (injection H as <-; exists attempt, st; split; [lia|done]).
  destruct (IH _ _ H) as (k & st' & Hk & Hs & Hr). exists k, st'. split; [lia|done].
Qed.

Lemma validation_made ctx cfg env cycle event overrides victim arb bf g' :
  cache_laws -> durable (profit_token cfg) -> backrun ctx = Some cfg ->
  (skip_victim env = false -> overrides = None) -> BellmanFord.valid_cycle bf g' cycle ->
  let s := load (snapshot_manager ctx) in
  run_backrun_validation ctx cfg env (Snapshot.graph s) cycle event (Snapshot.block_number s) overrides
    victim = Ret (Published arb) ->
  made ctx env event arb.
Proof.
  intros L Hdur Hcfg Hov Hcy s H. unfold run_backrun_validation in H.
  destruct (sim_permit env); [|done]. destruct (provider cfg); [|done]. cbn [negb] in H.
  destruct (BackrunSizing.cycle_to_swap_steps _ _ _ _) as [steps|] eqn:Es; [|done].
  destruct (cycle_steps_closed _ _ _ _ _ _ _ Hcy Es) as (_ & first & rest & -> & Hchain).
  apply bind_Ret in H as (sized & Hsz & H). destruct sized as [[[steps' loan] net]|]; [|done].
  pose proof (size_steps_chain _ _ _ _ _ _ _ Hsz Hchain _ _ _ eq_refl) as Hchain'.
  apply bind_Ret in H as (deadline & Hdl & H). destruct (ev_to event) as [to|] eqn:Eto; [|done].
  destruct (validate_attempts _ _ _ _ _ _ _ _) as [r|] eqn:Ev; [|done].
  destruct (MempoolBackrun.accepted r) eqn:Ea; [|done]. cbn [negb] in H.
  destruct (gate_post_sim _ _ _); [|done]. apply bind_Ret in H as (ts & Hts & H).
  injection H as <-.
  apply validate_attempts_state in Ev as (k & st & Hk & Hst & ->).
  unfold MempoolBackrun.validate_backrun_rpc in Ea |- *.
  destruct (MempoolBackrun.accepted_gain _ _ _ (validator_params cfg env (Snapshot.block_number s) overrides)
    L Hdur Ea)
    as (d1 & d2 & vgas & gas & Hv & Har & Hr & Hg).
  exists cfg, k, st, to, overrides, steps', (step_token_in first), loan, deadline, d1, d2, vgas, gas.
  cbn zeta. unfold arb_message. rewrite Hr.
  cbn [Pipeline.pa_calldata Pipeline.pa_net_profit_wei Pipeline.pa_total_gas Pipeline.pa_steps
       Pipeline.pa_flashloan_token Pipeline.pa_flashloan_amount Pipeline.pa_victim_tx_hash
       Pipeline.pa_victim_raw_tx Pipeline.pa_target_block MempoolBackrun.gross_profit_wei
       MempoolBackrun.arb_gas_used].
  split; [split_and!; (done || lia)|]. split; [done|]. split; [done|]. done.
Qed.

(** ** Scans of the updated graph *)

Lemma edge_endpoints g rounds v e : BellmanFord.scannable g rounds -> e ∈ PriceGraph.edges_from g v ->
  (v < PriceGraph.num_vertices g)%nat /\ (to e < PriceGraph.num_vertices g)%nat.
Proof.
  intros Hsc He. pose proof (BellmanFord.edges_from_in_all g rounds v e Hsc He) as Ha.
  rewrite PriceGraph.edges_from_abs in He by apply Hsc. apply list_elem_of_filter in He as [<- _].
  split; [exact (proj1 (Forall_forall _ _) (PriceGraph.inv_from g (BellmanFord.sc_inv _ _ Hsc)) e Ha)|].
  exact (proj1 (Forall_forall _ _) (BellmanFord.sc_to _ _ Hsc) e Ha).
Qed.

Lemma same_shape_scannable g g' rounds : BellmanFord.scannable g rounds -> PriceGraph.inv g' ->
  PriceGraph.num_vertices g' = PriceGraph.num_vertices g ->
  PriceGraph.key <$> PriceGraph.all_edges g' = PriceGraph.key <$> PriceGraph.all_edges g ->
  BellmanFord.scannable g' rounds.
Proof.
  intros [_ Ht Hv Hc] Hi Hn Hk.
  assert (Hl : length (PriceGraph.all_edges g') = length (PriceGraph.all_edges g))
    by (rewrite <- (length_fmap PriceGraph.key), Hk; apply length_fmap).
  split; [done| |by rewrite Hn|unfold PriceGraph.num_edges in *; by rewrite Hl].
  apply Forall_forall. intros e He. rewrite Hn.
  assert (Hin : PriceGraph.key e ∈ PriceGraph.key <$> PriceGraph.all_edges g)
    by (rewrite <- Hk; by apply list_elem_of_fmap_2).
  apply list_elem_of_fmap in Hin as (e' & Hke & He').
  unfold PriceGraph.key in Hke. injection Hke as _ -> _.
  exact (proj1 (Forall_forall _ _) Ht e' He').
Qed.

Lemma update_pair_scannable g a b pool ra rb fee rounds : BellmanFord.scannable g rounds ->
  (a < PriceGraph.num_vertices g)%nat -> (b < PriceGraph.num_vertices g)%nat ->
  exists g', update_pair g a b pool ra rb fee = Ret g' /\ BellmanFord.scannable g' rounds /\
    PriceGraph.num_vertices g' = PriceGraph.num_vertices g.
Proof.
  intros Hsc Ha Hb. unfold update_pair.
  destruct (PriceGraph.update_reserves_shape g a b pool ra rb fee (BellmanFord.sc_inv _ _ Hsc) Ha)
    as (g1 & -> & Hi1 & Hn1 & Hk1). cbn [mbind outcome_bind].
  pose proof (same_shape_scannable _ _ _ Hsc Hi1 Hn1 Hk1) as Hsc1.
  destruct (PriceGraph.update_reserves_shape g1 b a pool rb ra fee Hi1) as (g2 & -> & Hi2 & Hn2 & Hk2);
    [by rewrite Hn1|].
  exists g2. split; [done|]. split; [by eapply same_shape_scannable|]. by rewrite Hn2.
Qed.

Lemma rank_profitable_valid bf g cs : Forall (BellmanFord.valid_cycle bf g) cs ->
  Forall (BellmanFord.valid_cycle bf g) (rank_profitable cs).
Proof.
  intros H. unfold rank_profitable. rewrite sort_by_perm. apply Forall_forall. intros c Hc.
  apply list_elem_of_filter in Hc as [_ Hc]. by apply (proj1 (Forall_forall _ _) H).
Qed.

Lemma conclude_made ctx env graph bf g' profitable preds event ov victim rep arb :
  cache_laws -> (forall a, durable a) -> Forall (BellmanFord.valid_cycle bf g') profitable ->
  (skip_victim env = false -> ov = None) ->
  conclude ctx env (load (snapshot_manager ctx)) graph profitable preds event ov victim = Ret rep ->
  verdict rep = Some (Published arb) -> made ctx env event arb.
Proof.
  intros L Hdur Hv Hov H Hp. unfold conclude in H.
  destruct profitable as [|c cs] eqn:El; [injection H as <-; done|]. rewrite <- El in *. clear El c cs.
  apply bind_Ret in H as (vd & Hvd & [= <-]). cbn [verdict] in Hp. subst vd.
  destruct (arb_publisher ctx); [|done]. destruct (backrun ctx) as [cfg|] eqn:Ec; [|done].
  destruct (best_cycle graph profitable (gating ctx)) as [best|] eqn:Eb; [|done].
  apply bind_Ret in Hvd as (v & Hrun & [= ->]).
  apply List.find_some in Eb as [Hin _]. apply list_elem_of_In in Hin.
  eapply validation_made; [done|done|done|done| |exact Hrun].
  by apply (proj1 (Forall_forall _ _) Hv).
Qed.

Definition snapshot_graph (ctx : SimContext) : PriceGraph.t := Snapshot.graph (load (snapshot_manager ctx)).

(** The snapshot's graph is in its invariant, and the counters of a scan from
    three vertices fit. *)
Definition scan_ready (ctx : SimContext) : Prop :=
  let n := PriceGraph.num_vertices (snapshot_graph ctx) in
  BellmanFord.scannable (snapshot_graph ctx) (3 + n * n).

Lemma scan_from_valid bf elapsed g g0 affected cs :
  let n := PriceGraph.num_vertices g0 in
  BellmanFord.scannable g (3 + n * n) -> PriceGraph.num_vertices g = n -> (length affected <= 3)%nat ->
  BellmanFord.detect_from_affected bf elapsed g affected = Ret cs ->
  exists l, cs = Some l /\ Forall (BellmanFord.valid_cycle bf g) (rank_profitable l).
Proof.
  intros n Hsc Hn Hlen H.
  destruct (BellmanFord.partial_scan_reports bf elapsed g affected) as (l & Hl & Hv & _).
  { rewrite Hn. eapply BellmanFord.scannable_le; [|exact Hsc]. apply Nat.add_le_mono_r, Hlen. }
  rewrite Hl in H. injection H as <-. exists l. split; [done|]. by apply rank_profitable_valid.
Qed.

Lemma scan_single_made ctx env swap event_to event meta tin tout rep arb :
  cache_laws -> (forall a, durable a) -> scan_ready ctx ->
  scan_single ctx env swap event_to event meta tin tout = Ret (Some rep) ->
  verdict rep = Some (Published arb) -> made ctx env event arb.
Proof.
  intros L Hdur Hsc H Hp. unfold scan_single in H.
  destruct (TokenIndex.get_index _ tin) as [i|]; [|by injection H as <-].
  destruct (TokenIndex.get_index _ tout) as [o|]; [|by injection H as <-].
  apply bind_Ret in H as (fee & _ & H).
  destruct (List.find _ _) as [ed|] eqn:Ef; [|by injection H as <-].
  apply List.find_some in Ef as [Hin Hm]. apply list_elem_of_In in Hin.
  apply andb_true_iff in Hm as [Ho%Nat.eqb_eq _].
  destruct (edge_endpoints _ _ _ _ Hsc Hin) as [Hi Hto]. rewrite Ho in Hto.
  destruct (_ || _); [by injection H as <-|].
  apply bind_Ret in H as (post & _ & H). destruct post as [label|[pin pout]]; [by injection H as <-|].
  apply bind_Ret in H as (g & Hg & H).
  destruct (update_pair_scannable _ i o (Engine.meta_pool_id meta) pin pout fee _ Hsc Hi Hto)
    as (g' & Hg' & Hsc' & Hn').
  unfold snapshot_graph in Hg'. rewrite Hg in Hg'. injection Hg' as <-.
  apply bind_Ret in H as (cs & Hcs & H).
  destruct (scan_from_valid _ _ _ (snapshot_graph ctx) [i; o] _ Hsc' Hn' ltac:(cbn; lia) Hcs) as (l & -> & Hv).
  apply bind_Ret in H as (r & Hr & [= <-]).
  eapply conclude_made; [done|done|exact Hv| |exact Hr|exact Hp].
  intros Hs. unfold storage_overrides. by rewrite Hs.
Qed.

Lemma has_edge_endpoints ctx rounds a b pool : BellmanFord.scannable (snapshot_graph ctx) rounds ->
  has_edge (snapshot_graph ctx) a b pool = true ->
  (a < PriceGraph.num_vertices (snapshot_graph ctx))%nat /\
  (b < PriceGraph.num_vertices (snapshot_graph ctx))%nat.
Proof.
  intros Hsc H. unfold has_edge in H. apply existsb_exists in H as (e & He & Hm).
  apply list_elem_of_In in He. apply andb_true_iff in Hm as [<-%Nat.eqb_eq _].
  by eapply edge_endpoints.
Qed.

Lemma multihop_made ctx env swap event_to event rep ctx' arb :
  cache_laws -> (forall a, durable a) -> scan_ready ctx ->
  try_post_state_scan_bancor_multihop ctx env swap event_to event = (Ret (Some rep), ctx') ->
  verdict rep = Some (Published arb) -> made ctx' env event arb.
Proof.
  intros L Hdur Hsc H Hp. unfold try_post_state_scan_bancor_multihop in H.
  destruct (TokenIndex.get_index _ (RouterDecoder.token_in swap)) as [i|]; [|by injection H as <- _].
  destruct (TokenIndex.get_index _ (RouterDecoder.token_out swap)) as [o|]; [|by injection H as <- _].
  destruct (TokenIndex.get_index _ BancorPool.BNT_ADDRESS) as [b|]; [|by injection H as <- _].
  destruct (lookup_pool ctx _ _ _) as [[ma|] ctx1] eqn:E1; [|by injection H as <- _].
  destruct (lookup_pool ctx1 _ _ _) as [[mb|] ctx2] eqn:E2; [|by injection H as <- _].
  injection H as H <-.
  assert (Hsc2 : scan_ready ctx2).
  { unfold lookup_pool in E1, E2. destruct (PairIndex.lookup_pool _ _ _ _ _). injection E1 as _ <-.
    destruct (PairIndex.lookup_pool _ _ _ _ _). injection E2 as _ <-. exact Hsc. }
  clear Hsc E1 E2.
  destruct (pool_states ctx2 !! _) as [sa|]; [|by injection H as <-].
  destruct (pool_states ctx2 !! _) as [sb|]; [|by destruct sa; injection H as <-].
  destruct sa as [| | | | | |pa]; try (by injection H as <-).
  destruct sb as [| | | | | |pb]; try (by injection H as <-).
  apply bind_Ret in H as (posts & _ & H). destruct posts as [[qa qb]|]; [|by injection H as <-].
  apply bind_Ret in H as (fa & _ & H). apply bind_Ret in H as (fb & _ & H).
  destruct (has_edge _ i b _) eqn:H1; [|by injection H as <-].
  destruct (has_edge _ b i _) eqn:H2; [|by injection H as <-].
  destruct (has_edge _ b o _) eqn:H3; [|by injection H as <-].
  destruct (has_edge _ o b _) eqn:H4; [|by injection H as <-]. cbn [negb orb] in H.
  destruct (has_edge_endpoints _ _ _ _ _ Hsc2 H1) as [Hi Hb].
  destruct (has_edge_endpoints _ _ _ _ _ Hsc2 H3) as [_ Ho].
  destruct (_ || _ || _ || _); [by injection H as <-|].
  apply bind_Ret in H as (g1 & Hg1 & H). apply bind_Ret in H as (g2 & Hg2 & H).
  match type of Hg1 with update_pair _ _ _ ?p ?x ?y ?f = _ =>
    destruct (update_pair_scannable _ i b p x y f _ Hsc2 Hi Hb) as (g1' & Hg1' & Hsc3 & Hn3) end.
  unfold snapshot_graph in Hg1'. rewrite Hg1 in Hg1'. injection Hg1' as <-.
  rewrite <- Hn3 in Hb, Ho.
  match type of Hg2 with update_pair _ _ _ ?p ?x ?y ?f = _ =>
    destruct (update_pair_scannable _ b o p x y f _ Hsc3 Hb Ho) as (g2' & Hg2' & Hsc4 & Hn4) end.
  rewrite Hg2 in Hg2'. injection Hg2' as <-. rewrite Hn3 in Hn4.
  apply bind_Ret in H as (cs & Hcs & H).
  destruct (scan_from_valid _ _ _ (snapshot_graph ctx2) [i; b; o] _ Hsc4 Hn4 ltac:(cbn; lia) Hcs)
    as (l & -> & Hv).
  apply bind_Ret in H as (r & Hr & [= <-]).
  eapply conclude_made; [done|done|exact Hv|done|exact Hr|exact Hp].
Qed.


(** ** Tasks complete *)

Lemma apply_sizing_returns outs : forall prev steps, length outs = length steps ->
  returns (apply_sizing prev steps outs).
Proof.
  induction outs as [|o outs IH]; intros prev [|s steps] Hl; try done; cbn [apply_sizing]; [by eexists|].
  rewrite u256_div_exact by lia. cbn [mbind outcome_bind].
  destruct (IH o steps) as [r ->]; [by injection Hl|]. by eexists.
Qed.

Lemma size_steps_returns ctx cfg v steps : (length steps <= 1000)%nat ->
  map_Forall (fun _ ps => BackrunSizing.quotable ps) (pool_states ctx) ->
  returns (size_steps ctx cfg v steps).
Proof.
  intros Hlen Hq. unfold size_steps.
  destruct (BackrunSizing.optimize_returns steps (pool_states ctx) v (gas_price_gwei cfg)
    (min_profit_wei cfg) Hlen) as (o & -> & _ & Hs); [intros step ps _ Hl; by eapply Hq|].
  cbn [mbind outcome_bind]. destruct o as [| |s]; [by eexists|by eexists|].
  destruct (Hs s eq_refl) as (hops & first & Hh & _ & Hc & _).
  destruct (apply_sizing_returns (BackrunSizing.per_hop_expected_out s) (BackrunSizing.input_amount s) steps)
    as [r ->]; [|by eexists].
  rewrite (BackrunSizing.quoted_length _ _ _ _ Hc).
  unfold BackrunSizing.hop_states in Hh. apply mapM_Some in Hh. symmetry. by eapply Forall2_length.
Qed.

(** What a task needs to complete. *)
Record task_ready (ctx : SimContext) (env : TaskEnv) : Prop := {
  tr_scan : scan_ready ctx;
  tr_hops : (BellmanFord.max_hops (detector ctx) <= 1000)%nat;
  tr_cache : PairIndex.fresh_cache (pool_registry ctx) (pair_index_cache ctx);
  tr_fees : map_Forall (fun _ m => 0 <= Engine.meta_fee_bps m <= 10000)
              (PairIndex.reg_pools (pool_registry ctx));
  tr_states : map_Forall (fun _ ps => BackrunSizing.quotable ps) (pool_states ctx);
  tr_clock : 0 <= now_secs env < 9223372036;
}.

Lemma validation_returns ctx cfg env cycle event ov victim g g' : task_ready ctx env ->
  BellmanFord.valid_cycle (detector ctx) g' cycle ->
  returns (run_backrun_validation ctx cfg env g cycle event
             (Snapshot.block_number (load (snapshot_manager ctx))) ov victim).
Proof.
  intros Hr Hcy. unfold run_backrun_validation.
  destruct (sim_permit env); [|by eexists]. destruct (provider cfg); [|by eexists]. cbn [negb].
  destruct (BackrunSizing.cycle_to_swap_steps _ _ _ _) as [steps|] eqn:Es; [|by eexists].
  destruct (cycle_steps_closed _ _ _ _ _ _ _ Hcy Es) as (Hlen & first & rest & -> & _).
  destruct (size_steps_returns ctx cfg victim (first :: rest)) as [r ->];
    [etrans; [exact Hlen|apply Hr]|apply Hr|].
  cbn [mbind outcome_bind]. destruct r as [[[steps' loan] net]|]; [|by eexists].
  pose proof (tr_clock _ _ Hr).
  rewrite u64_add_exact by (range; lia). cbn [mbind outcome_bind].
  destruct (ev_to event); [|by eexists]. destruct (validate_attempts _ _ _ _ _ _ _ _); [|by eexists].
  destruct (MempoolBackrun.accepted _); [|by eexists]. destruct (gate_post_sim _ _ _); [|by eexists].
  cbn [negb]. rewrite arith_s_exact; [by eexists|].
  unfold to_signed, in_s. rewrite Z.mod_small by lia.
  assert ((now_secs env <? 2 ^ (64 - 1)) = true) as -> by lia. lia.
Qed.

Lemma conclude_returns ctx env graph g' profitable preds event ov victim : task_ready ctx env ->
  Forall (BellmanFord.valid_cycle (detector ctx) g') profitable ->
  exists rep, conclude ctx env (load (snapshot_manager ctx)) graph profitable preds event ov victim
    = Ret rep /\ predictions rep = preds.
Proof.
  intros Hr Hv. unfold conclude.
  destruct profitable as [|c cs] eqn:El; [by eexists|]. rewrite <- El in *. clear El c cs.
  destruct (arb_publisher ctx); [|by eexists]. destruct (backrun ctx) as [cfg|]; [|by eexists].
  destruct (best_cycle graph profitable (gating ctx)) as [best|] eqn:Eb; [|by eexists].
  apply List.find_some in Eb as [Hin%list_elem_of_In _].
  destruct (validation_returns ctx cfg env best event ov victim (Snapshot.graph (load (snapshot_manager ctx)))
    g' Hr) as [v ->]; [by apply (proj1 (Forall_forall _ _) Hv)|]. by eexists.
Qed.

Definition v2_swap (swap : RouterDecoder.DecodedSwap) : Prop :=
  RouterDecoder.protocol swap = RouterDecoder.UniswapV2 \/
  RouterDecoder.protocol swap = RouterDecoder.SushiSwap.

(** A row for the pending transaction, the swap's pair and amount, and the
    block after the snapshot. *)
Definition row_of (ctx : SimContext) (event : PendingTxEvent) (swap : RouterDecoder.DecodedSwap)
    (p : NewMempoolPrediction) : Prop :=
  pending_tx_hash p = tx_hash event /\ pred_token_in p = RouterDecoder.token_in swap /\
  pred_token_out p = RouterDecoder.token_out swap /\ pred_amount_in p = RouterDecoder.amount_in swap /\
  predicted_target_block p
    = u64_saturating_add (Snapshot.block_number (load (snapshot_manager ctx))) 1.

Lemma scan_single_returns ctx env swap event_to event meta tin tout : task_ready ctx env ->
  v2_swap swap -> 0 <= Engine.meta_fee_bps meta <= 10000 ->
  exists rep, scan_single ctx env swap event_to event meta tin tout = Ret (Some rep) /\
    (predictions rep = [] \/ exists p, predictions rep = [p] /\ row_of ctx event swap p).
Proof.
  intros Hr Hv2 Hfee. pose proof (tr_scan _ _ Hr) as Hsc. unfold scan_single.
  destruct (TokenIndex.get_index _ tin) as [i|]; [|eexists; split; [done|by left]].
  destruct (TokenIndex.get_index _ tout) as [o|]; [|eexists; split; [done|by left]].
  rewrite Engine.fee_factor_returns by done. cbn [mbind outcome_bind].
  set (fee := f64_div _ _). clearbody fee.
  destruct (List.find _ _) as [ed|] eqn:Ef; [|eexists; split; [done|by left]].
  apply List.find_some in Ef as [Hin%list_elem_of_In Hm].
  apply andb_true_iff in Hm as [Ho%Nat.eqb_eq _].
  destruct (edge_endpoints _ _ _ _ Hsc Hin) as [Hi Hto]. rewrite Ho in Hto.
  destruct (_ || _); [eexists; split; [done|by left]|].
  assert (Hpost : exists post, predicted_reserves ctx env swap meta ed fee event
    (Snapshot.block_number (load (snapshot_manager ctx))) = Ret (inr post)).
  { unfold predicted_reserves. destruct Hv2 as [-> | ->]; by eexists. }
  destruct Hpost as [[pin pout] ->]. cbn [mbind outcome_bind].
  destruct (update_pair_scannable _ i o (Engine.meta_pool_id meta) pin pout fee _ Hsc Hi Hto)
    as (g & Hg & Hsc' & Hn'). unfold snapshot_graph in Hg. rewrite Hg. cbn [mbind outcome_bind].
  destruct (BellmanFord.partial_scan_reports (detector ctx) (elapsed env) g [i; o]) as (cs & Hcs & Hv & _).
  { eapply BellmanFord.scannable_le; [|exact Hsc']. rewrite Hn'. cbn. lia. }
  rewrite Hcs. cbn [mbind outcome_bind].
  edestruct (conclude_returns ctx env g g (rank_profitable cs)) as (rep & -> & Hp);
    [done|by apply rank_profitable_valid|]. cbn [mbind outcome_bind].
  exists rep. split; [done|]. right. eexists. by split.
Qed.


(** ** Scheduling *)

(** The registry has a pool of the protocol between the two tokens. *)
Definition listed_pair (pools : gmap Z Engine.PoolMetadata) (a b : Address) (p : ProtocolType) : Prop :=
  exists addr m, pools !! addr = Some m /\ PairIndex.trades a b p m.

(** A swap worth a task. *)
Definition eligible (pools : gmap Z Engine.PoolMetadata) (swap : RouterDecoder.DecodedSwap) : Prop :=
  RouterDecoder.token_in swap <> RouterDecoder.token_out swap /\ RouterDecoder.amount_in swap <> 0 /\
  match decoder_protocol_to_type (RouterDecoder.protocol swap) with
  | None => True
  | Some t =>
      if bancor_multihop swap t then
        listed_pair pools (RouterDecoder.token_in swap) BancorPool.BNT_ADDRESS BancorV3 /\
        listed_pair pools (RouterDecoder.token_out swap) BancorPool.BNT_ADDRESS BancorV3
      else listed_pair pools (RouterDecoder.token_in swap) (RouterDecoder.token_out swap) t
  end.

Lemma find_pool_listed pools a b p :
  listed_pair pools a b p <-> is_Some (PairIndex.find_pool pools a b p).
Proof.
  split.
  - intros (addr & m & Hm & Ht). destruct (PairIndex.find_pool pools a b p) eqn:Ef; [by eexists|].
    by destruct (PairIndex.find_pool_None _ _ _ _ Ef addr m Hm).
  - intros [m Hm]. apply PairIndex.find_pool_Some in Hm as [Ht [addr Ha]]. by exists addr, m.
Qed.

#[local] Instance listed_pair_dec pools a b p : Decision (listed_pair pools a b p).
Proof. refine (cast_if (decide (is_Some (PairIndex.find_pool pools a b p)))); by rewrite find_pool_listed. Defined.

#[local] Instance eligible_dec pools swap : Decision (eligible pools swap).
Proof.
  unfold eligible. destruct (decoder_protocol_to_type _) as [t|]; [destruct (bancor_multihop swap t)|];
    apply _.
Defined.

Definition ctx_pools (ctx : SimContext) : gmap Z Engine.PoolMetadata := PairIndex.reg_pools (pool_registry ctx).

(** The index of the context is that of its registry. *)
Definition index_fresh (ctx : SimContext) : Prop :=
  PairIndex.fresh_cache (pool_registry ctx) (pair_index_cache ctx).

Lemma lookup_pool_listed ctx a b p : index_fresh ctx ->
  exists c, lookup_pool ctx a b p = (PairIndex.find_pool (ctx_pools ctx) a b p, set_pair_cache ctx c) /\
    index_fresh (set_pair_cache ctx c).
Proof.
  intros Hf. unfold lookup_pool.
  pose proof (PairIndex.lookup_pool_fresh _ _ a b p Hf) as [Hl _].
  pose proof (PairIndex.lookup_pool_keeps_fresh _ _ a b p Hf) as Hk.
  destruct (PairIndex.lookup_pool _ _ _ _ _) as [m c]. cbn [fst snd] in Hl, Hk. subst m. by exists c.
Qed.

Lemma pre_sim_filter_exact ctx swap : index_fresh ctx ->
  exists reason c, pre_sim_filter ctx swap = (reason, set_pair_cache ctx c) /\
    index_fresh (set_pair_cache ctx c) /\ (reason = None <-> eligible (ctx_pools ctx) swap).
Proof.
  intros Hf. assert (Hid : ctx = set_pair_cache ctx (pair_index_cache ctx)) by (by destruct ctx).
  unfold pre_sim_filter, eligible.
  destruct (Z.eqb_spec (RouterDecoder.token_in swap) (RouterDecoder.token_out swap)).
  { exists (Some "same_token"), (pair_index_cache ctx). rewrite <- Hid. naive_solver. }
  destruct (Z.eqb_spec (RouterDecoder.amount_in swap) 0).
  { exists (Some "zero_amount"), (pair_index_cache ctx). rewrite <- Hid. naive_solver. }
  destruct (decoder_protocol_to_type _) as [t|].
  2: { exists None, (pair_index_cache ctx). rewrite <- Hid. naive_solver. }
  destruct (bancor_multihop swap t).
  - destruct (lookup_pool_listed ctx (RouterDecoder.token_in swap) BancorPool.BNT_ADDRESS BancorV3 Hf)
      as (c1 & -> & Hf1).
    destruct (lookup_pool_listed _ (RouterDecoder.token_out swap) BancorPool.BNT_ADDRESS BancorV3 Hf1)
      as (c2 & -> & Hf2).
    eexists _, c2. split; [done|]. split; [exact Hf2|]. rewrite !find_pool_listed.
    change (ctx_pools (set_pair_cache ctx c1)) with (ctx_pools ctx).
    destruct (PairIndex.find_pool _ _ _ _), (PairIndex.find_pool _ _ _ _); rewrite ?is_Some_alt; naive_solver.
  - destruct (lookup_pool_listed ctx (RouterDecoder.token_in swap) (RouterDecoder.token_out swap) t Hf)
      as (c1 & -> & Hf1).
    eexists _, c1. split; [done|]. split; [exact Hf1|]. rewrite find_pool_listed.
    destruct (PairIndex.find_pool _ _ _ _); rewrite ?is_Some_alt; naive_solver.
Qed.

(** The history entries of the swaps, the [i]-th seen at [now i]. *)
Definition recorded (now : nat -> Z) (i : nat) (swaps : list RouterDecoder.DecodedSwap) : list HotToken.swap :=
  imap (fun j s => HotToken.mkSwap (RouterDecoder.token_in s) (RouterDecoder.token_out s)
                     (RouterDecoder.protocol s) (RouterDecoder.pool_address s) (now (i + j)%nat)) swaps.

Lemma dispatch_exact now swaps : forall ctx i h, index_fresh ctx ->
  HotToken.table_ok (hot_tokens ctx) h -> Z.of_nat (length h + length swaps) < 2 ^ 64 ->
  exists c hot, dispatch ctx now i swaps
      = Ret (set_hot_tokens (set_pair_cache ctx c) hot, filter (eligible (ctx_pools ctx)) swaps) /\
    PairIndex.fresh_cache (pool_registry ctx) c /\ HotToken.table_ok hot (h ++ recorded now i swaps).
Proof.
  induction swaps as [|swap swaps IH]; intros ctx i h Hf Ht Hl; cbn [dispatch].
  { exists (pair_index_cache ctx), (hot_tokens ctx). rewrite app_nil_r. split; [by destruct ctx|done]. }
  cbn [length] in Hl.
  destruct (HotToken.record_table (hot_tokens ctx) h
    (HotToken.mkSwap (RouterDecoder.token_in swap) (RouterDecoder.token_out swap)
       (RouterDecoder.protocol swap) (RouterDecoder.pool_address swap) (now i)) Ht ltac:(lia))
    as (hot & Hrec & _ & Ht'). cbn [HotToken.sw_in HotToken.sw_out HotToken.sw_protocol
      HotToken.sw_pool HotToken.sw_time] in Hrec. rewrite Hrec. cbn [mbind outcome_bind].
  destruct (pre_sim_filter_exact (set_hot_tokens ctx hot) swap Hf) as (reason & c & -> & Hf' & Hr).
  destruct (IH (set_pair_cache (set_hot_tokens ctx hot) c) (S i) _ Hf' Ht') as (c' & hot' & -> & Hc' & Ht2).
  { rewrite length_app. cbn. lia. }
  cbn [mbind outcome_bind]. exists c', hot'. split; [|split; [done|]].
  - do 2 f_equal. rewrite filter_cons. unfold ctx_pools in *. cbn in Hr |- *.
    destruct reason, (decide (eligible _ swap)); naive_solver.
  - rewrite <- app_assoc in Ht2. unfold recorded in *. cbn [imap app] in Ht2 |- *.
    rewrite Nat.add_0_r. erewrite imap_ext; [exact Ht2|]. intros j s _. cbn. do 2 f_equal. lia.
Qed.

(** C16. A pending transaction is turned into exactly the tasks it is worth. For the
    calldata of any router call, sent to any router but the unsupported ones:
    if the call makes no swap, or is not understood, nothing changes and the
    failure is counted under its label. Otherwise every swap of the call is
    recorded in the hot-token table, and the tasks spawned are, in order, its
    swaps between two different tokens, of a non-zero amount (that of the first
    is the transaction's value if the calldata carries none), whose pool, or both
    of whose BNT pools, the current registry lists. *)
Theorem pending_tx_scheduled {D : RouterDecoder.DistinctSelectors} ctx now event to c h :
  ev_to event = Some to -> RouterDecoder.is_unsupported_curve_router to = false ->
  RouterSpec.sendable c -> ev_input event = RouterSpec.calldata c ->
  index_fresh ctx -> HotToken.table_ok (hot_tokens ctx) h ->
  match RouterSpec.meaning RouterDecoder.MAX_MULTICALL_DEPTH to c with
  | inl e => handle_event (Some ctx) now event = Ret (Some ctx, DecodeError (decode_error_label e))
  | inr [] => handle_event (Some ctx) now event = Ret (Some ctx, DecodeError "multicall_no_swaps")
  | inr swaps =>
      Z.of_nat (length h + length swaps) < 2 ^ 64 ->
      let swaps := backfill event swaps in
      exists pairs hot,
        handle_event (Some ctx) now event
          = Ret (Some (set_hot_tokens (set_pair_cache ctx pairs) hot),
                 Spawned to (filter (eligible (ctx_pools ctx)) swaps)) /\
        index_fresh (set_pair_cache ctx pairs) /\ HotToken.table_ok hot (h ++ recorded now 0 swaps)
  end.
Proof.
  intros Hto Hcurve Hs Hin Hf Ht. unfold handle_event. rewrite Hto, Hin.
  unfold RouterDecoder.decode_pending_many. rewrite Hcurve.
  rewrite (proj2 (Nat.ltb_ge _ _)) by apply RouterSpec.length_pack.
  unfold RouterDecoder.decode_at_depth. rewrite (RouterSpec.decode_within_exact _ to c Hs).
  cbn [mbind outcome_bind]. destruct (RouterSpec.meaning _ to c) as [e|[|s swaps]]; [done|done|].
  intros Hl. cbn zeta. set (all := backfill event (s :: swaps)).
  assert (Hall : length all = length (s :: swaps))
    by (unfold all, backfill; by destruct (negb _ && _)).
  destruct (dispatch_exact now all ctx 0 h Hf Ht ltac:(lia)) as (pairs & hot & -> & Hc & Ht').
  cbn [mbind outcome_bind]. by exists pairs, hot.
Qed.
End Facts.

(** ** A concrete pipeline *)

(** The tangents of the functions at one: exact enough for rates near it. *)
Definition tangent_libm : Libm := {|
  f64_ln x := f64_sub x f64_one;
  f64_exp x := f64_add f64_one x;
  f64_powi x n := Z.iter n (f64_mul x) f64_one;
  f64_powf x y := Z.iter (f64_as_i64 y) (f64_mul x) f64_one;
|}.

(** Two pairs between the tokens 10 and 11: the UniswapV2 pair 77 with the given
    reserves, and the SushiSwap pair 78 with 1000 of each. *)
Definition uni (r0 r1 : Z) : UniswapV2Pool.t := UniswapV2Pool.mk 77 10 11 r0 r1 30.
Definition sushi : UniswapV2Pool.t := UniswapV2Pool.mk 78 10 11 (1000 * 10 ^ 18) (1000 * 10 ^ 18) 30.
Definition pair_meta (addr : Address) (p : ProtocolType) : Engine.PoolMetadata :=
  Engine.mkMeta 0 1 10 11 (mkPoolId addr p) p 30 None true.
Definition fee_997 : f64 := f64_of_ratio 9970 10000.
Definition pair_ops (addr : Address) (p : ProtocolType) (r0 r1 : Z) : list PriceGraph.op :=
  [PriceGraph.AddEdge 0 1 f64_one (mkPoolId addr p) addr p 1;
   PriceGraph.AddEdge 1 0 f64_one (mkPoolId addr p) addr p 1;
   PriceGraph.UpdateReserves 0 1 (mkPoolId addr p) (f64_of_Z r0) (f64_of_Z r1) fee_997;
   PriceGraph.UpdateReserves 1 0 (mkPoolId addr p) (f64_of_Z r1) (f64_of_Z r0) fee_997].
Definition pair_graph (r0 r1 : Z) : PriceGraph.t :=
  match PriceGraph.run (M:=tangent_libm) (PriceGraph.new 2)
          (pair_ops 77 UniswapV2 r0 r1 ++ pair_ops 78 SushiSwap (1000 * 10 ^ 18) (1000 * 10 ^ 18)) with
  | Ret g => g
  | Panic => PriceGraph.new 0
  end.

Definition toy_config : BackrunValidatorConfig :=
  mkValidator 50 9 10 3 1 (10 ^ 15) (10 ^ 18) (f64_of_Z 30) true None.
Definition toy_context (r0 r1 : Z) : SimContext :=
  with_backrun_validator (with_arb_publisher (context_new
    (PairIndex.mkRegistry 4096 {[77 := pair_meta 77 UniswapV2; 78 := pair_meta 78 SushiSwap]})
    (TokenIndex.get_or_insert (TokenIndex.get_or_insert TokenIndex.new 10).2 11).2
    (mkManager (mkSnapshot (pair_graph r0 r1) 100 0 1) 1) (BellmanFord.new 4 1000000)
    {[77 := StUniswapV2 (uni r0 r1); 78 := StSushiSwap sushi]} None)) toy_config.

(** The victim sells 100 of token 10 to the pair 77. *)
Definition toy_swap : RouterDecoder.DecodedSwap :=
  RouterDecoder.mkSwap RouterDecoder.UniswapV2 1000 10 11 (100 * 10 ^ 18) 0 5 30 [] None None None.
Definition toy_event : PendingTxEvent := mkEvent 3735928559 5 (Some 1000) 0 [1; 2; 3; 4] 0 0 [2; 1].

(** An executor that pays the searcher its profit in token 10. *)
Definition toy_credit (profit : Z) : EvmState :=
  {[10 := mkAccount (mkInfo 0 1 0 None)
            {[erc20_balance_key (K:=keccak_reference) 9 3 := profit]} false]}.
Definition toy_evm (profit : Z) : Revm :=
  store_evm (fun _ _ _ tx =>
    inr (Success 200000 (OutCall []), if caller tx =? 9 then toy_credit profit else ∅)).

Lemma pipeline_evm_durable profit a : durable (E:=toy_evm profit) a.
Proof.
  intros d cfg blk tx d' r touched [= _ _ <-] acc Ha. destruct (caller tx =? 9).
  - unfold toy_credit in Ha. by apply lookup_singleton_Some in Ha as [_ <-].
  - by rewrite lookup_empty in Ha.
Qed.

Definition toy_env (profit : Z) : TaskEnv (E:=toy_evm profit) :=
  mkEnv (E:=toy_evm profit) (fun _ => 0) true (fun _ => None) 0 true (fun _ _ => Some (∅, ∅)) 1700000000
    false false 1 false.

Definition toy_scan (r0 r1 profit : Z) : option ScanReport :=
  match (try_post_state_scan (E:=toy_evm profit) (K:=keccak_reference) (A:=abi_reference) (B:=debug)
           (M:=tangent_libm) (HO:=canonical_order) (toy_context r0 r1) (toy_env profit) toy_swap 1000
           toy_event).1 with
  | Ret r => r
  | Panic => None
  end.

Definition near_parity : Z * Z := (1002 * 10 ^ 18, 1000 * 10 ^ 18).
Definition paying_context : SimContext := toy_context near_parity.1 near_parity.2.

Lemma paying_scan_ready : scan_ready paying_context.
Proof.
  destruct (PriceGraph.run_refines (M:=tangent_libm)
    (pair_ops 77 UniswapV2 near_parity.1 near_parity.2
     ++ pair_ops 78 SushiSwap (1000 * 10 ^ 18) (1000 * 10 ^ 18)) (PriceGraph.new 2)
    (PriceGraph.graph_inv_new 2)) as (g & Hr & Hi & _).
  { repeat split; vm_compute; lia. }
  split.
  - change (PriceGraph.inv (pair_graph near_parity.1 near_parity.2)). unfold pair_graph.
    rewrite Hr. exact Hi.
  - vm_compute. repeat constructor; lia.
  - vm_compute. reflexivity.
  - vm_compute. reflexivity.
Qed.


Lemma paying_task_ready : task_ready (E:=toy_evm (4 * 10 ^ 18)) (B:=debug) (HO:=canonical_order)
  paying_context (toy_env (4 * 10 ^ 18)).
Proof.
  split; [apply paying_scan_ready|cbn; lia|done| | |cbn; lia].
  - intros a m Hm. unfold paying_context in Hm. cbn in Hm.
    apply lookup_insert_Some in Hm as [[_ <-]|[_ Hm]]; [cbn; lia|].
    apply lookup_singleton_Some in Hm as [_ <-]. cbn. lia.
  - intros a m Hm. unfold paying_context in Hm. cbn [pool_states toy_context with_backrun_validator
      with_arb_publisher context_new] in Hm.
    apply lookup_insert_Some in Hm as [[_ <-]|[_ Hm]]; [split; unfold in_u; cbn; lia|].
    apply lookup_singleton_Some in Hm as [_ <-]. split; unfold in_u; cbn; lia.
Qed.


(** The call of [RouterSpec.sample_call] swaps 11 for 12 on UniswapV2 and 22 for
    21 on UniswapV3; the registry lists a pair of the first. *)
Definition small_context : SimContext :=
  context_new (PairIndex.mkRegistry 4096 {[77 := PairIndex.listed 77 12 11 UniswapV2]}) TokenIndex.new
    (manager_new (PriceGraph.new 0)) (BellmanFord.new 4 1000) ∅ None.
Definition router_event : PendingTxEvent :=
  mkEvent 1 5 (Some 1000) 0 (RouterSpec.calldata (K:=keccak_reference) RouterSpec.sample_call) 0 0 [].

Lemma pending_tx_scheduled_witness :
  exists ctx', handle_event (K:=keccak_reference) (A:=abi_reference) (B:=debug) (M:=tangent_libm)
      (HO:=canonical_order) (Some small_context) (fun _ => 7) router_event
    = Ret (Some ctx', Spawned 1000
        [RouterDecoder.mkSwap RouterDecoder.UniswapV2 1000 11 12 1000 990 77 0 [13] None None None]) /\
    index_fresh (HO:=canonical_order) ctx'.
Proof.
  destruct (pending_tx_scheduled (K:=keccak_reference) (A:=abi_reference) (B:=debug) (M:=tangent_libm)
    (HO:=canonical_order) (D:=RouterDecoder.reference_selectors) small_context (fun _ => 7) router_event
    1000 RouterSpec.sample_call [] eq_refl eq_refl RouterSpec.sample_sendable eq_refl)
    as (pairs & hot & Hh & Hf & _); [by intros idx|apply HotToken.table_ok_new|done|].
  exists (set_hot_tokens (set_pair_cache small_context pairs) hot). split; [|exact Hf].
  rewrite Hh. reflexivity.
Defined.

(** ** Where the pipeline falls short *)

(** A Bancor swap through BNT passes the filter but is never scanned: the pool of
    a direct pair is looked up before the swap is dispatched to the two-pool scan,
    so without one the task ends there, persisting and counting nothing. *)
Theorem bancor_multihop_unreachable `{E : Revm} `{K : Keccak} `{A : !SolAbi} `{B : Build} `{M : Libm}
    `{HO : HashOrder} ctx env swap event_to event :
  index_fresh ctx -> RouterDecoder.protocol swap = RouterDecoder.BancorV3 ->
  ~ listed_pair (ctx_pools ctx) (RouterDecoder.token_in swap) (RouterDecoder.token_out swap) BancorV3 ->
  (try_post_state_scan ctx env swap event_to event).1 = Ret (Some (skip None)).
Proof.
  intros Hf Hp Hn. unfold try_post_state_scan, resolve_swap_pool. rewrite Hp. cbn [decoder_protocol_to_type].
  destruct (lookup_pool_listed ctx (RouterDecoder.token_in swap) (RouterDecoder.token_out swap) BancorV3 Hf)
    as (c & -> & _).
  destruct (PairIndex.find_pool _ _ _ _) eqn:Ef; [|done]. destruct Hn. apply find_pool_listed. by eexists.
Qed.

(** The best cycle of the scan, and the pools its steps go through when they are
    taken from a graph, with their sizing. *)
Definition lost_reserves : Z * Z := (1000 * 10 ^ 18, 1002 * 10 ^ 18).
Definition lost_context : SimContext := toy_context lost_reserves.1 lost_reserves.2.
Definition lost_post : f64 * f64 :=
  BackrunSizing.predict_v2_post_state (f64_of_Z lost_reserves.1) (f64_of_Z lost_reserves.2)
    (BackrunSizing.u256_to_f64_saturating (100 * 10 ^ 18)) fee_997.
Definition lost_graph : PriceGraph.t :=
  match update_pair (M:=tangent_libm) (snapshot_graph lost_context) 0 1 (mkPoolId 77 UniswapV2)
          lost_post.1 lost_post.2 fee_997 with
  | Ret g => g
  | Panic => PriceGraph.new 0
  end.
Definition lost_cycle : option DetectedCycle :=
  match BellmanFord.detect_from_affected (B:=debug) (detector lost_context) (fun _ => 0) lost_graph
          [0; 1]%nat with
  | Ret (Some cs) => head (rank_profitable (M:=tangent_libm) cs)
  | _ => None
  end.
Definition rebuilt (g : PriceGraph.t) : option (list Address * option BackrunSizing.SizingOutcome) :=
  cycle ← lost_cycle;
  steps ← BackrunSizing.cycle_to_swap_steps g (token_index lost_context) cycle (10 ^ 18);
  Some (step_pool_address <$> steps,
        match BackrunSizing.optimize_cycle_input (B:=debug) steps (pool_states lost_context)
                (BackrunSizing.mkVictim 77 10 lost_post.1 lost_post.2) (f64_of_Z 30) (10 ^ 15) with
        | Ret o => Some o
        | Panic => None
        end).

(** The steps of a backrun are not those of the cycle that was found: they are
    taken from the graph before the victim, where other pools were best. Here
    the cycle found goes through 78 and then the victim's pool 77 and has a
    profitable size, the steps built go through 77 and then 78, and the backrun is
    dropped as unprofitable. *)
Theorem backrun_built_on_old_edges :
  (exists s, rebuilt lost_graph = Some ([78; 77], Some (BackrunSizing.Sized s)) /\
     10 ^ 18 < BackrunSizing.net_profit_wei s) /\
  rebuilt (snapshot_graph lost_context) = Some ([77; 78], Some BackrunSizing.BelowMinProfit) /\
  verdict <$> toy_scan lost_reserves.1 lost_reserves.2 (4 * 10 ^ 18)
    = Some (Some (Rejected (Some "below_min_profit_optimized"))).
Proof.
  split; [eexists; split; vm_compute; reflexivity|]. split; vm_compute; reflexivity.
Qed.

(** The refresh when the refresher starts asks for the code at block 0. On a chain
    whose contracts were deployed later it warms nothing that was not cached on
    disk. *)
Theorem startup_refresh_warms_nothing `{K : Keccak} `{A : !SolAbi} `{SO : Fork.StreamOrder} `{HO : HashOrder}
    code storage call io_get io_put ctx :
  (forall a, code 0 a = inr []) -> bytecode_cache ctx = None ->
  Fork.code_cache <$> mempool_prewarm (run_prewarm_refresh code storage call io_get io_put ctx 0) = Some [].
Proof.
  intros Hc Hb. unfold run_prewarm_refresh, Fork.prewarm_state. rewrite Hb. cbn.
  generalize (Fork.completion (code_addresses ctx)). intros l.
  assert (Hf : forall l, exists rs, Fork.fetch_codes (code 0) io_put None l = (rs, None) /\ omap id rs = []).
  { clear l. induction l as [|a l (rs & IH & Ho)]; [by exists []|].
    cbn [Fork.fetch_codes]. unfold Fork.fetch_code. rewrite Hc, IH. by exists (None :: rs). }
  destruct (Hf l) as (rs & -> & Ho). destruct (Fork.fetch_slots _ _ _ _). cbn. by rewrite Ho.
Qed.
End MempoolSpec.
