(* ===== verification/Ingest.v ===== *)
(** * Ingestion: the nodes file and the pending-transaction source

    [crates/ingestion/src/config.rs] and [mempool.rs]. Strings are their bytes;
    the characters the code looks for are ASCII, so that reading bytes and
    reading characters agree. The YAML parser, the environment and alloy's
    recovered transaction are parameters. The subscription is a list of
    connections with the transactions each delivers. *)

From Stdlib Require Import ZArith Lia String Ascii Sorting.Sorted.
From S2P Require Import Prelude.
From S2P Require Import Machine.
From S2P Require Import Types.
From S2P Require Import Bytes.
From S2P Require Import Keccak.
From S2P Require Import Abi.
From S2P Require Import NodePool.
From S2P Require Import PoolValidator.
From S2P Require Import Pipeline.
From S2P Require Import RouterDecoder.
From S2P Require Import MempoolPipeline.
From S2P Require Import Revm.
From S2P Require Import MempoolSpec.
From stdpp Require Import base option numbers strings list.

Local Open Scope Z_scope.

Module Ingest.

(** ** The nodes file *)

Record NodeEntry : Type := mkNodeEntry {
  ne_name : string;
  ne_url : string;
  ne_type : string;
  ne_priority : Z;
}.

Record NodesFileConfig : Type := mkNodesFile {
  entries : list NodeEntry;
  min_healthy : nat;
}.

(** The characters before the next [}], and those after it. *)
Fixpoint take_name (s : string) : string * string :=
  match s with
  | EmptyString => (EmptyString, EmptyString)
  | String c s =>
      if decide (c = "}"%char) then (EmptyString, s)
      else let '(n, rest) := take_name s in (String c n, rest)
  end.

(** The text after a [{], if there is one next. *)
Definition peek_brace (s : string) : option string :=
  match s with
  | String c s => if decide (c = "{"%char) then Some s else None
  | EmptyString => None
  end.

Definition placeholder (n : string) : string := "${" +:+ n +:+ "}".

(** One turn of the loop per unit of [fuel]. *)
Fixpoint expand_loop (fuel : nat) (resolver : string -> option string) (s : string) : string :=
  match fuel with
  | O => ""
  | S fuel =>
      match s with
      | EmptyString => EmptyString
      | String c rest =>
          match decide (c = "$"%char), peek_brace rest with
          | left _, Some rest' =>
              let '(n, rest'') := take_name rest' in
              default (placeholder n) (resolver n) +:+ expand_loop fuel resolver rest''
          | _, _ => String c (expand_loop fuel resolver rest)
          end
      end
  end.

Definition expand_env_vars_with (input : string) (resolver : string -> option string) : string :=
  expand_loop (S (String.length input)) resolver input.

(** [str::to_lowercase], on the ASCII letters and the Kelvin sign: the only
    characters whose lower case is ASCII. The result is compared with ASCII
    names only. *)
Fixpoint to_lowercase (s : string) : string :=
  match s with
  | String "226" (String "132" (String "170" s)) => String "k" (to_lowercase s)
  | String c s => String (PoolValidator.ascii_lower c) (to_lowercase s)
  | EmptyString => EmptyString
  end.

Definition parse_node_type (s : string) : NodeType :=
  let s := to_lowercase s in
  if bool_decide (s ∈ ["websocket"; "ws"; "wss"]) then WebSocket
  else if bool_decide (s = "ipc") then Ipc
  else Http.

Definition node_config (e : NodeEntry) : NodeConfig :=
  mkNodeConfig (ne_name e) (ne_url e) (parse_node_type (ne_type e)) (ne_priority e) 5 30000.

(** [contents]: the file, [None] when it cannot be read; [from_str]: the YAML
    parser. *)
Definition load_nodes_config (from_str : string -> option NodesFileConfig)
    (env : string -> option string) (contents : option string) : option (list NodeConfig * nat) :=
  contents ← contents;
  file ← from_str (expand_env_vars_with contents env);
  Some (node_config <$> entries file, min_healthy file).

(** *** Expansion is substitution *)

Inductive piece : Type := Lit (s : string) | Var (n : string).

Definition render (p : piece) : string := match p with Lit s => s | Var n => placeholder n end.

Definition subst (resolver : string -> option string) (p : piece) : string :=
  match p with Lit s => s | Var n => default (placeholder n) (resolver n) end.

Fixpoint cat (l : list string) : string :=
  match l with [] => "" | s :: l => s +:+ cat l end.

(** No [${] starts at [c], with [s] after it. *)
Definition copied (c : ascii) (s : string) : bool :=
  negb (bool_decide (c = "$"%char) && bool_decide (is_Some (peek_brace s))).

(** No [${] in the text. *)
Fixpoint plain (s : string) : bool :=
  match s with
  | EmptyString => true
  | String c s => copied c s && plain s
  end.

Fixpoint no_brace (s : string) : bool :=
  match s with
  | EmptyString => true
  | String c s => negb (bool_decide (c = "}"%char)) && no_brace s
  end.

(** Literal text between placeholders, in one piece each. *)
Fixpoint template (l : list piece) : bool :=
  match l with
  | [] => true
  | Lit s :: rest => plain s && (match rest with Lit _ :: _ => false | _ => true end) && template rest
  | Var n :: rest => no_brace n && template rest
  end.

Lemma copied_spec c s : copied c s = true <-> (c = "$"%char -> peek_brace s = None).
Proof.
  unfold copied. rewrite negb_true_iff, andb_false_iff, !bool_decide_eq_false, eq_None_not_Some.
  destruct (decide (c = "$"%char)); tauto.
Qed.

Lemma string_app_assoc (s1 s2 s3 : string) : (s1 +:+ s2) +:+ s3 = s1 +:+ (s2 +:+ s3).
Proof. induction s1 as [|c s1 IH]; [done|]. exact (f_equal (String c) IH). Qed.

Lemma string_app_empty_r (s : string) : s +:+ "" = s.
Proof. induction s as [|c s IH]; [done|]. exact (f_equal (String c) IH). Qed.

Lemma string_length_app (s1 s2 : string) : String.length (s1 +:+ s2) = (String.length s1 + String.length s2)%nat.
Proof. induction s1 as [|c s1 IH]; [done|]. exact (f_equal S IH). Qed.

Lemma take_name_spec n rest : no_brace n = true -> take_name (n +:+ String "}" rest) = (n, rest).
Proof.
  induction n as [|c n IH]; intros H; [done|]. simpl in *. apply andb_true_iff in H as [Hc Hn].
  case_bool_decide as Hd; [done|]. rewrite decide_False by done. by rewrite IH.
Qed.

Lemma take_name_length s : (String.length (take_name s).2 <= String.length s)%nat.
Proof.
  induction s as [|c s IH]; simpl; [lia|]. case_decide; simpl; [lia|].
  destruct (take_name s) as [n rest]. simpl in *. lia.
Qed.

Lemma expand_fuel resolver : forall fuel s, (String.length s < fuel)%nat ->
  expand_loop fuel resolver s = expand_env_vars_with s resolver.
Proof.
  unfold expand_env_vars_with.
  assert (H : forall f1 f2 s, (String.length s < f1)%nat -> (String.length s < f2)%nat ->
    expand_loop f1 resolver s = expand_loop f2 resolver s); [|intros; apply H; lia].
  induction f1 as [|f1 IH]; intros f2 s H1 H2; [lia|]. destruct f2 as [|f2]; [lia|].
  destruct s as [|c rest]; [done|]. cbn [expand_loop String.length] in *.
  assert (Hr : expand_loop f1 resolver rest = expand_loop f2 resolver rest) by (apply IH; lia).
  destruct (decide (c = "$"%char)); [|by rewrite Hr].
  destruct (peek_brace rest) as [rest'|] eqn:Hb; [|by rewrite Hr].
  assert (Hl : (String.length rest' < String.length rest)%nat).
  { destruct rest as [|d rest]; simpl in Hb; [done|]. case_decide; [|done]. injection Hb as <-. simpl. lia. }
  pose proof (take_name_length rest') as Hn. destruct (take_name rest') as [n r]. simpl in Hn.
  rewrite (IH f2 r); [done|lia..].
Qed.

Lemma expand_var resolver n rest : no_brace n = true ->
  expand_env_vars_with (placeholder n +:+ rest) resolver =
    default (placeholder n) (resolver n) +:+ expand_env_vars_with rest resolver.
Proof.
  intros Hn. unfold expand_env_vars_with at 1, placeholder at 1 2.
  replace (("${" +:+ n +:+ "}") +:+ rest) with (String "$" (String "{" (n +:+ String "}" rest)))
    by (simpl; by rewrite !string_app_assoc).
  cbn [expand_loop peek_brace]. rewrite !decide_True by done. rewrite take_name_spec by done.
  rewrite expand_fuel; [done|]. cbn [String.length]. rewrite string_length_app. simpl. lia.
Qed.

(** A character that does not start a placeholder is copied. *)
Lemma expand_char resolver c rest : copied c rest = true ->
  expand_env_vars_with (String c rest) resolver = String c (expand_env_vars_with rest resolver).
Proof.
  intros H. unfold expand_env_vars_with at 1. cbn [expand_loop]. rewrite expand_fuel by (simpl; lia).
  rewrite copied_spec in H. destruct (decide (c = "$"%char)) as [->|]; [|done]. by rewrite H.
Qed.

Lemma expand_plain resolver s rest : plain s = true -> peek_brace rest = None ->
  expand_env_vars_with (s +:+ rest) resolver = s +:+ expand_env_vars_with rest resolver.
Proof.
  intros Hp Hr. induction s as [|c s IH]; [done|]. apply andb_true_iff in Hp as [Hc Hp].
  change (String c s +:+ rest) with (String c (s +:+ rest)).
  rewrite copied_spec in Hc. rewrite expand_char, IH; [done|done|]. apply copied_spec. intros E.
  specialize (Hc E). destruct s as [|d s]; [done|].
  simpl in *. by case_decide.
Qed.

(** Expanding the nodes file is substitution, in one pass: in a text made of
    literal parts and placeholders every placeholder becomes the value of its
    variable, or stays when the variable is not set, and nothing else changes;
    values are not expanded again. *)
Theorem expand_is_substitution resolver l : template l = true ->
  expand_env_vars_with (cat (render <$> l)) resolver = cat (subst resolver <$> l).
Proof.
  induction l as [|[s|n] l IH]; intros H; [done|..]; rewrite !fmap_cons; cbn [cat render subst template] in *.
  - apply andb_true_iff in H as [[Hp Hadj]%andb_true_iff Ht]. rewrite expand_plain; [by rewrite IH|done|].
    by destruct l as [|[s'|n] l].
  - apply andb_true_iff in H as [Hn Ht]. rewrite expand_var by done. by rewrite IH.
Qed.

(** A placeholder without its closing brace is taken to the end of the file, and
    gains one when the variable is not set. *)
Theorem expand_unterminated resolver n : no_brace n = true ->
  expand_env_vars_with ("${" +:+ n) resolver = default (placeholder n) (resolver n).
Proof.
  intros Hn. assert (Ht : take_name n = (n, "")).
  { clear resolver. induction n as [|c n IH]; [done|]. simpl in *. apply andb_true_iff in Hn as [Hc Hn].
    case_bool_decide; [done|]. rewrite decide_False by done. by rewrite IH. }
  change ("${" +:+ n) with (String "$" (String "{" n)). unfold expand_env_vars_with.
  cbn [expand_loop peek_brace]. rewrite !decide_True by done. rewrite Ht.
  cbn [String.length expand_loop]. by rewrite string_app_empty_r.
Qed.

(** ** The pending-transaction source *)

Definition is_enabled_from_str (value : string) : bool :=
  bool_decide (PoolValidator.to_ascii_lowercase value ∈ ["1"; "true"; "yes"; "on"]).

(** The variable [MEMPOOL_TRACKING]. *)
Definition is_enabled (mempool_tracking : option string) : bool :=
  is_enabled_from_str (default "" mempool_tracking).

Record AlchemyMempoolConfig : Type := mkAlchemy {
  ws_url : string;
  router_filter : list Address;
}.

(** JSON values, as far as the parameters use them. *)
Inductive json : Type :=
| JString (s : string)
| JArray (l : list json)
| JObject (fields : list (string * json)).

Definition subscribe_params (c : AlchemyMempoolConfig) : json :=
  if (length (router_filter c) =? 0)%nat then JArray [JString "alchemy_pendingTransactions"]
  else
    let to_addresses :=
      (fun a => JString ("0x" +:+ hex_encode (to_be 20 a))) <$> router_filter c in
    JArray [JString "alchemy_pendingTransactions"; JObject [("toAddress", JArray to_addresses)]].

(** What the code reads of alloy's recovered transaction. *)
Record Transaction : Type := mkTransaction {
  signer : Address;
  tx_hash : Z;
  kind_to : option Address;
  value : Z;
  input : list Z;
  max_fee_per_gas : Z;
  encoded_2718 : list Z;
}.

Definition default_router_addresses : list Address :=
  [0x7a250d5630B4cF539739dF2C5dAcb4c659F2488D;
   0xE592427A0AEce92De3Edee1F18E0157C05861564;
   0x68b3465833fb72A70ecDF485E0e4C7bD8665Fc45;
   0xd9e1cE17f2641f24aE83637ab66a2cca9C378B9F;
   0x99a58482BD75cbab83b27EC03CA68fF489b5788f;
   0xBA12222222228d8Ba445958a75a0704d566BF2C8;
   0xeEF417e1D5CC832e619ae18D2F140De2999dD4fB;
   0x111111125421cA6dc452d289314280a0f8842A65;
   0x66a9893cC07D91D95644AEDD05D03f95e1dBA8Af;
   0x3fC91A3afd70395Cd496C647d5a6CC9D4B2b7FAD;
   0xbEbc44782C7dB0a1A60Cb6fe97d0b483032FF1C7;
   0xDC24316b9AE028F1497c275EB9192a3Ea0f67022;
   0xD51a44d3FaE010294C616388b506AcdA1bfAAE46;
   0xa1F8A6807c402E4A15ef4EBa36528A3FED24E577;
   0x4eBdF703948ddCEA3B11f675B4D1Fba9d2414A14;
   0xf5f5B97624542D72A9E06f04804Bf81baA15e2B4].

Definition RECONNECT_BACKOFF : Z := 2.

(** One connection of the source: whether the shutdown was signalled before it,
    whether it connects and subscribes, the transactions its stream delivers,
    each with the system time in nanoseconds ([None]: before 1970), whether the
    shutdown ends it rather than the end of the stream, and whether the shutdown
    cuts the pause after it. *)
Record Session : Type := mkSession {
  off : bool;
  subscribed : bool;
  delivered : list (option Z * Transaction);
  shut_down : bool;
  pause_cut : bool;
}.

Section Source.
Context {K : Keccak}.

Definition raw_tx_matches_hash (raw : list Z) (expected_hash : Z) : bool :=
  keccak256 raw =? expected_hash.

(** The event dispatched; [None]: dropped, and counted. *)
Definition forward (now_ns : option Z) (tx : Transaction) : option MempoolPipeline.PendingTxEvent :=
  if negb (raw_tx_matches_hash (encoded_2718 tx) (tx_hash tx)) then None
  else
    Some (MempoolPipeline.mkEvent (tx_hash tx) (signer tx) (kind_to tx) (value tx) (input tx)
            (max_fee_per_gas tx) (default 0 ((fun d => d mod 2 ^ 64) <$> now_ns)) (encoded_2718 tx)).

(** The events, and whether the source ends rather than reconnects. *)
Definition subscribe_once (s : Session) : list MempoolPipeline.PendingTxEvent * bool :=
  if negb (subscribed s) then ([], false) else (omap (uncurry forward) (delivered s), shut_down s).

(** The events and the pauses between connections, in seconds. *)
Fixpoint run_source (backoff : Z) (sessions : list Session)
    : list MempoolPipeline.PendingTxEvent * list Z :=
  match sessions with
  | [] => ([], [])
  | s :: sessions =>
      if off s then ([], [])
      else
        let '(events, clean) := subscribe_once s in
        if clean : bool then (events, [])
        else if pause_cut s then (events, [backoff])
        else
          let '(events', pauses) := run_source (Z.min (backoff * 2) 30) sessions in
          (events ++ events', backoff :: pauses)
  end.

(** *** What is dispatched *)

(** The transactions delivered before the source ends. *)
Fixpoint received (sessions : list Session) : list (option Z * Transaction) :=
  match sessions with
  | [] => []
  | s :: sessions =>
      if off s then []
      else (if subscribed s then delivered s else [])
           ++ if (subscribed s && shut_down s) || pause_cut s then [] else received sessions
  end.

Lemma run_source_events sessions : forall backoff,
  (run_source backoff sessions).1 = omap (uncurry forward) (received sessions).
Proof.
  induction sessions as [|s sessions IH]; intros backoff; [done|]. cbn [run_source received].
  destruct (off s); [done|]. unfold subscribe_once. destruct (subscribed s); cbn [negb andb orb].
  - rewrite omap_app. destruct (shut_down s); cbn [orb]; [by rewrite app_nil_r|].
    destruct (pause_cut s); [by rewrite app_nil_r|].
    specialize (IH (Z.min (backoff * 2) 30)). destruct (run_source _ sessions) as [evs ps]. simpl in *. by rewrite IH.
  - destruct (pause_cut s); [done|].
    specialize (IH (Z.min (backoff * 2) 30)). by destruct (run_source _ sessions) as [evs ps].
Qed.

Lemma run_source_pauses sessions : forall k, 0 <= k ->
  exists n, (run_source (Z.min (2 ^ (k + 1)) 30) sessions).2
    = (fun i => Z.min (2 ^ (k + 1 + Z.of_nat i)) 30) <$> seq 0 n.
Proof.
  induction sessions as [|s sessions IH]; intros k Hk; [by exists 0%nat|]. cbn [run_source].
  assert (Hone : [Z.min (2 ^ (k + 1)) 30] = (fun i => Z.min (2 ^ (k + 1 + Z.of_nat i)) 30) <$> seq 0 1)
    by (cbn; by rewrite Z.add_0_r).
  destruct (off s); [by exists 0%nat|]. destruct (subscribe_once s) as [evs []]; [by exists 0%nat|].
  destruct (pause_cut s); [by exists 1%nat|].
  assert (Hnext : Z.min (Z.min (2 ^ (k + 1)) 30 * 2) 30 = Z.min (2 ^ (k + 1 + 1)) 30).
  { rewrite (Z.pow_add_r 2 (k + 1) 1) by lia. change (2 ^ 1) with 2. lia. }
  rewrite Hnext. destruct (IH (k + 1) ltac:(lia)) as [n Hn]. destruct (run_source _ sessions) as [evs' ps].
  cbn [snd] in *. exists (S n). rewrite Hn. cbn [seq]. rewrite fmap_cons, Z.add_0_r. f_equal.
  rewrite <-fmap_S_seq, <-list_fmap_compose. apply list_fmap_ext. intros i x Hx. cbn. f_equal. f_equal. lia.
Qed.

Definition authentic (x : option Z * Transaction) : Prop := keccak256 (encoded_2718 x.2) = tx_hash x.2.

(** What a transaction says, and what an event does. *)
Definition facts (tx : Transaction) : Z * Address * option Address * Z * list Z * Z * list Z :=
  (tx_hash tx, signer tx, kind_to tx, value tx, input tx, max_fee_per_gas tx, encoded_2718 tx).
Definition observed (e : MempoolPipeline.PendingTxEvent)
    : Z * Address * option Address * Z * list Z * Z * list Z :=
  (MempoolPipeline.tx_hash e, MempoolPipeline.ev_from e, MempoolPipeline.ev_to e, MempoolPipeline.ev_value e,
   MempoolPipeline.ev_input e, MempoolPipeline.ev_gas_price e, MempoolPipeline.raw_tx e).

Lemma forwarded (l : list (option Z * Transaction)) :
  observed <$> omap (uncurry forward) l = facts ∘ snd <$> filter authentic l.
Proof.
  induction l as [|[t tx] l IH]; [done|]. cbn [omap list_omap uncurry]. rewrite filter_cons.
  unfold forward, raw_tx_matches_hash, authentic at 1. cbn [snd].
  destruct (Z.eqb_spec (keccak256 (encoded_2718 tx)) (tx_hash tx)); cbn [negb].
  - rewrite decide_True by done. rewrite !fmap_cons. f_equal. exact IH.
  - rewrite decide_False by done. exact IH.
Qed.

Context {A : SolAbi} `{E : Revm.Revm}.

End Source.

(** ** Witnesses *)

Definition sample_env (n : string) : option string :=
  if bool_decide (n = "KEY") then Some "${KEY}" else None.

Lemma expand_is_substitution_witness :
  expand_env_vars_with (cat (render <$> [Lit "url: wss://x/$"; Var "KEY"; Lit "/"; Var "NONE"])) sample_env
  = "url: wss://x/$${KEY}/${NONE}".
Proof.
  refine (expand_is_substitution sample_env [Lit "url: wss://x/$"; Var "KEY"; Lit "/"; Var "NONE"] _).
  vm_compute. reflexivity.
Defined.

(** One genuine transaction, and one whose bytes are not those of its hash. *)
Definition genuine : Transaction := mkTransaction 7 (@keccak256 keccak_reference [2; 1; 3]) (Some 9) 5 [] 30 [2; 1; 3].
Definition altered : Transaction := mkTransaction 7 1 (Some 9) 5 [] 30 [2; 1; 3].
Definition sample_sessions : list Session :=
  [mkSession false false [] false false;
   mkSession false true [(Some 1700000000000000000, altered); (Some 1700000000000000000, genuine)] true false].


End Ingest.
