(* ===== verification/RpcProvider.v ===== *)
(** * The RPC provider

    [crates/grpc-server/src/provider.rs]: the loop that connects to the best
    node of the pool, hands its blocks and decoded logs to the engine's channels,
    and fails over. What is dispatched is a list, in order; a panic keeps what
    was dispatched before it. The node's answers are arguments; a connection is
    the list of what happens on it. *)

From Stdlib Require Import ZArith Lia String.
From S2P Require Import Prelude.
From S2P Require Import Machine.
From S2P Require Import Types.
From S2P Require Import Bytes.
From S2P Require Import EventDecoder.
From S2P Require Import NodePool.
From S2P Require Import PoolValidator.
From S2P Require Import Ingest.
From stdpp Require Import base option numbers strings list.

Local Open Scope Z_scope.

Module RpcProvider.

(** ** What is dispatched *)

Inductive Emission : Type :=
| Block (number timestamp base_fee gas_limit : Z) (tx_hashes : list Z)
| Update (event : PoolEvent)
| DecodeFailure (address : Address) (reason : DecodeReason).

(** Computations that dispatch, and may panic. *)
Definition io (A : Type) : Type := list Emission * outcome A.

#[export] Instance io_ret : MRet io := fun A a => ([], Ret a).
#[export] Instance io_bind : MBind io :=
  fun A B f m =>
    match m with
    | (l, Ret a) => let '(l', r) := f a in (l ++ l', r)
    | (l, Panic) => (l, Panic)
    end.

Lemma io_bind_inv {A C} (m : io A) (f : A -> io C) l r : m ≫= f = (l, r) ->
  (m.2 = Panic /\ r = Panic) \/ exists l1 l2 a, m = (l1, Ret a) /\ f a = (l2, r).
Proof.
  destruct m as [l1 [a|]]; cbn; [|intros [= _ <-]; by left].
  destruct (f a) as [l2 r2] eqn:E. intros [= _ <-]. right. eauto.
Qed.

Definition emit (e : Emission) : io unit := ([e], Ret tt).
Definition lift {A} (m : outcome A) : io A := ([], m).

Lemma lift_Ret {A C} (a : A) (f : A -> io C) : lift (Ret a) ≫= f = f a.
Proof. cbn. by destruct (f a). Qed.

(** ** Configuration *)

Record ProviderConfig : Type := mkProvider {
  rpc_url : string;
  nodes_config_path : option string;
  monitored_pools : list Address;
  reconnect_delay : Z;
  max_reconnect_attempts : Z;
  cfg_health_check_interval : Z;
}.

(** [var]: the environment. *)
Definition default_config (var : string -> option string) : ProviderConfig :=
  mkProvider
    (match var "ETH_WS_URL" with
     | Some url => url
     | None => default "http://localhost:8545" (var "ETH_RPC_URL")
     end)
    (var "AETHER_NODES_CONFIG") [] 1000 10 30000.

Definition ends_with (suffix s : string) : bool :=
  (String.length suffix <=? String.length s)%nat &&
  bool_decide (String.substring (String.length s - String.length suffix) (String.length suffix) s = suffix).

Definition infer_node_type (url : string) : NodeType :=
  if String.prefix "ws://" url || String.prefix "wss://" url then WebSocket
  else if String.prefix "/" url || ends_with ".ipc" url then Ipc
  else Http.

Definition is_local_rpc (url : string) : bool :=
  let lower := PoolValidator.to_ascii_lowercase url in
  PoolValidator.str_contains lower "127.0.0.1" || PoolValidator.str_contains lower "localhost"
  || PoolValidator.str_contains lower "host.docker.internal" || PoolValidator.str_contains lower "[::1]".

(** Milliseconds; [poll_ms]: the variable [AETHER_HTTP_POLL_MS], when it is a
    [u64]. *)
Definition resolve_http_poll_interval (poll_ms : option Z) (url : string) : Z :=
  match poll_ms with
  | Some ms => ms
  | None => if is_local_rpc url then 100 else 1000
  end.

Definition single_node_pool (url : string) : NodePool :=
  pool_new [mkNodeConfig "default" url (infer_node_type url) 0 5 30000] 1.

(** [load]: what [load_nodes_config] makes of the path. *)
Definition provider_pool (config : ProviderConfig) (load : string -> option (list NodeConfig * nat))
    : NodePool :=
  match nodes_config_path config with
  | Some path =>
      match load path with
      | Some (configs, min_healthy) => pool_new configs min_healthy
      | None => single_node_pool (rpc_url config)
      end
  | None => single_node_pool (rpc_url config)
  end.

(** ** Logs and blocks *)

Record RawLog : Type := mkRawLog { log_address : Address; log_topics : list Z; log_data : list Z }.

Section Logs.
Context `{Sg : EventSignatures}.

Definition event_topics : list Z :=
  [sync_topic; swap_v2_topic; swap_v3_topic; token_exchange_topic; pair_created_topic].

Definition process_single_log (log : RawLog) : io unit :=
  r ← lift (decode_log (log_topics log) (log_data log) (log_address log) None);
  match r with
  | inl event => emit (Update event)
  | inr reason => emit (DecodeFailure (log_address log) reason)
  end.

Fixpoint process_logs (logs : list RawLog) : io unit :=
  match logs with
  | [] => mret tt
  | log :: logs => process_single_log log ≫= fun _ => process_logs logs
  end.

Definition dispatch_block (number timestamp base_fee gas_limit : Z) (tx_hashes : list Z) : io unit :=
  emit (Block number timestamp base_fee gas_limit tx_hashes).

(** ** Connections *)

(** How a connection ends: it goes on, a clean shutdown, an error. *)
Inductive Ended : Type := Open | Stopped | Errored.

Definition record_block (pool : NodePool) (i : nat) (number : Z) : NodePool :=
  mkPool (alter (fun n => record_success n 0 number) i (nodes pool)) (min_healthy_nodes pool)
    (reconnect_backoff_base pool) (reconnect_backoff_max pool).

(** What a pushing transport delivers: a header, with the hashes of the block
    if it can be fetched; a log; the end of a stream; the shutdown. *)
Inductive Push : Type :=
| PushBlock (number timestamp : Z) (base_fee : option Z) (gas_limit : Z) (fetched : option (list Z))
| PushLog (log : RawLog)
| PushEnd
| PushShutdown.

Fixpoint run_subscription_loop (pool : NodePool) (i : nat) (pushes : list Push) : io (NodePool * Ended) :=
  match pushes with
  | [] => mret (pool, Open)
  | PushBlock number timestamp base_fee gas_limit fetched :: pushes =>
      dispatch_block number timestamp (default 0 base_fee) gas_limit (default [] fetched) ≫= fun _ =>
      run_subscription_loop (record_block pool i number) i pushes
  | PushLog log :: pushes => process_single_log log ≫= fun _ => run_subscription_loop pool i pushes
  | PushEnd :: _ => mret (pool, Errored)
  | PushShutdown :: _ => mret (pool, Stopped)
  end.

(** [connect_ws] and [connect_ipc] differ in the connector only: it connects,
    reads the block number, opens both subscriptions. *)
Definition connect_push (pool : NodePool) (i : nat) (connects : bool) (initial_block : option Z)
    (subscribes : bool) (pushes : list Push) : io (NodePool * Ended) :=
  if negb connects then mret (pool, Errored)
  else
    match initial_block with
    | None => mret (pool, Errored)
    | Some b =>
        let pool := record_block pool i b in
        if negb subscribes then mret (pool, Errored) else run_subscription_loop pool i pushes
    end.

Record PolledBlock : Type := mkPolled {
  pb_timestamp : Z;
  pb_base_fee : option Z;
  pb_gas_limit : Z;
  pb_hashes : list Z;
}.

(** What a poll gets: the block number, the block (an error, or no block), and
    the logs of a range. *)
Record Poll : Type := mkPoll {
  tip : option Z;
  get_block : Z -> option (option PolledBlock);
  get_logs : Z -> Z -> option (list RawLog);
}.

Definition poll_once (pool : NodePool) (i : nat) (last_block : Z) (p : Poll) : io (NodePool * Z) :=
  match tip p with
  | None => mret (pool, last_block)
  | Some current =>
      if current <=? last_block then mret (pool, last_block)
      else
        match get_block p current with
        | None => mret (pool, last_block)
        | Some None => mret (pool, current)
        | Some (Some b) =>
            dispatch_block current (pb_timestamp b) (default 0 (pb_base_fee b)) (pb_gas_limit b)
              (pb_hashes b) ≫= fun _ =>
            let pool := record_block pool i current in
            match get_logs p (last_block + 1) current with
            | Some logs => process_logs logs ≫= fun _ => mret (pool, current)
            | None => mret (pool, current)
            end
        end
  end.

(** [None]: the shutdown. *)
Fixpoint poll_all (pool : NodePool) (i : nat) (last_block : Z) (polls : list (option Poll))
    : io (NodePool * Ended) :=
  match polls with
  | [] => mret (pool, Open)
  | None :: _ => mret (pool, Stopped)
  | Some p :: polls => poll_once pool i last_block p ≫= fun r => poll_all r.1 i r.2 polls
  end.

Definition connect_http (pool : NodePool) (i : nat) (parses : bool) (initial_block : option Z)
    (polls : list (option Poll)) : io (NodePool * Ended) :=
  if negb parses then mret (pool, Errored)
  else
    match initial_block with
    | None => mret (pool, Errored)
    | Some b => poll_all (record_block pool i b) i b polls
    end.

(** ** The loop *)

(** What a node answers to a connection, over either transport. *)
Record Answers : Type := mkAnswers {
  connects : bool;
  initial_block : option Z;
  subscribes : bool;
  pushes : list Push;
  polls : list (option Poll);
}.

Definition connect (pool : NodePool) (i : nat) (ty : NodeType) (a : Answers) : io (NodePool * Ended) :=
  match ty with
  | WebSocket | Ipc => connect_push pool i (connects a) (initial_block a) (subscribes a) (pushes a)
  | Http => connect_http pool i (connects a) (initial_block a) (polls a)
  end.

(** One turn: whether the shutdown is already signalled, what each node would
    answer, and whether the shutdown cuts the pause. *)
Record Turn : Type := mkTurn {
  shutdown_before : bool;
  answers : nat -> Answers;
  pause_cut : bool;
}.

Inductive Exit : Type := Ongoing | ShutDown | GaveUp.

Record Progress : Type := mkProgress {
  pool_after : NodePool;
  attempts : Z;
  exit : Exit;
  waits : list Z;
}.

Definition best_connection (pool : NodePool) : option (nat * NodeConnection) :=
  i ← best_node pool; n ← nodes pool !! i; Some (i, n).

Definition with_nodes (pool : NodePool) (ns : list NodeConnection) : NodePool :=
  mkPool ns (min_healthy_nodes pool) (reconnect_backoff_base pool) (reconnect_backoff_max pool).

Section Run.
Context `{B : Build}.

Definition fail_node (pool : NodePool) (i : nat) : outcome NodePool :=
  match nodes pool !! i with
  | Some n => n' ← record_failure n; Ret (with_nodes pool (<[i := n']> (nodes pool)))
  | None => Ret pool
  end.

(** All nodes are given another chance. *)
Definition reset_nodes (pool : NodePool) : NodePool :=
  with_nodes pool
    ((fun n => transition (mkNode (config n) (state n) 0 (last_block_seen n) (latency_ms n)) Connected)
       <$> nodes pool).

Fixpoint run (cfg : ProviderConfig) (pool : NodePool) (attempt : Z) (turns : list Turn) : io Progress :=
  match turns with
  | [] => mret (mkProgress pool attempt Ongoing [])
  | t :: turns =>
      if shutdown_before t then mret (mkProgress pool attempt ShutDown [])
      else
        match best_connection pool with
        | Some (i, n) =>
            connect pool i (node_type (config n)) (answers t i) ≫= fun '(pool, ended) =>
            match ended with
            | Open => mret (mkProgress pool attempt Ongoing [])
            | Stopped => mret (mkProgress pool attempt ShutDown [])
            | Errored =>
                lift (fail_node pool i) ≫= fun pool =>
                lift (u32_add attempt 1) ≫= fun attempt =>
                lift (backoff_delay pool attempt) ≫= fun delay =>
                if pause_cut t then mret (mkProgress pool attempt ShutDown [delay])
                else
                  run cfg pool attempt turns ≫= fun r =>
                  mret (mkProgress (pool_after r) (attempts r) (exit r) (delay :: waits r))
            end
        | None =>
            lift (u32_add attempt 1) ≫= fun attempt =>
            if max_reconnect_attempts cfg <=? attempt then mret (mkProgress pool attempt GaveUp [])
            else
              lift (backoff_delay pool attempt) ≫= fun delay =>
              let pool := reset_nodes pool in
              if pause_cut t then mret (mkProgress pool attempt ShutDown [delay])
              else
                run cfg pool attempt turns ≫= fun r =>
                mret (mkProgress (pool_after r) (attempts r) (exit r) (delay :: waits r))
        end
  end.
End Run.
End Logs.

(** ** Polling *)

(** The advancing polls of a connection: the range, the block if there was one,
    and the logs that were served. *)
Fixpoint advances (last_block : Z) (ps : list Poll) : list (Z * Z * option (PolledBlock * option (list RawLog))) :=
  match ps with
  | [] => []
  | p :: ps =>
      match tip p with
      | Some current =>
          if current <=? last_block then advances last_block ps
          else
            match get_block p current with
            | None => advances last_block ps
            | Some b =>
                (last_block + 1, current, (fun b => (b, get_logs p (last_block + 1) current)) <$> b)
                :: advances current ps
            end
      | None => advances last_block ps
      end
  end.

Definition range_blocks (r : Z * Z * option (PolledBlock * option (list RawLog))) : list Z :=
  seqZ r.1.1 (r.1.2 - r.1.1 + 1).

(** The last block of the connection. *)
Definition reached (last_block : Z) (ps : list Poll) : Z :=
  foldl (fun _ r => r.1.2) last_block (advances last_block ps).

Section Polling.
Context `{Sg : EventSignatures}.

(** What a log becomes. *)
Definition decoded_as (log : RawLog) : option Emission :=
  match decode_log (log_topics log) (log_data log) (log_address log) None with
  | Ret (inl event) => Some (Update event)
  | Ret (inr reason) => Some (DecodeFailure (log_address log) reason)
  | Panic => None
  end.

Definition range_emissions (r : Z * Z * option (PolledBlock * option (list RawLog))) : list Emission :=
  match r with
  | (_, current, Some (b, logs)) =>
      Block current (pb_timestamp b) (default 0 (pb_base_fee b)) (pb_gas_limit b) (pb_hashes b)
      :: omap decoded_as (default [] logs)
  | _ => []
  end.

Definition served_logs (ps : list (Z * Z * option (PolledBlock * option (list RawLog)))) : list RawLog :=
  r ← ps; match r.2 with Some (_, Some logs) => logs | _ => [] end.

Definition decodable (log : RawLog) : Prop := is_Some (decoded_as log).

Lemma process_logs_decodable logs : Forall decodable logs ->
  process_logs logs = (omap decoded_as logs, Ret tt).
Proof.
  induction 1 as [|log logs Hl _ IH]; [done|]. cbn [process_logs omap list_omap].
  unfold process_single_log, decodable, decoded_as in *.
  destruct (decode_log _ _ _ _) as [[ev|r]|]; [..|by destruct Hl]; cbn; by rewrite IH.
Qed.

Lemma advances_cover ps : forall b, b <= reached b ps /\
  advances b ps ≫= range_blocks = seqZ (b + 1) (reached b ps - b).
Proof.
  unfold reached. induction ps as [|p ps IH]; intros b; cbn [advances].
  { split; [done|]. cbn. by rewrite Z.sub_diag. }
  destruct (tip p) as [current|]; [|apply IH]. destruct (Z.leb_spec current b); [apply IH|].
  destruct (get_block p current) as [blk|]; [|apply IH]. cbn [foldl fst snd].
  destruct (IH current) as [Hle Hc]. set (r := foldl _ current _) in *. split; [lia|].
  rewrite bind_cons, Hc. unfold range_blocks. cbn [fst snd].
  replace (r - b) with ((current - (b + 1) + 1) + (r - current)) by lia.
  rewrite (seqZ_app _ (current - (b + 1) + 1)) by lia. do 2 f_equal. lia.
Qed.

Lemma poll_all_emits i ps : forall pool b, Forall decodable (served_logs (advances b ps)) ->
  exists pool', poll_all pool i b (Some <$> ps) = (advances b ps ≫= range_emissions, Ret (pool', Open)).
Proof.
  induction ps as [|p ps IH]; intros pool b Hd; [by eexists|].
  rewrite fmap_cons. cbn [poll_all advances] in *. unfold poll_once.
  destruct (tip p) as [current|]; [|destruct (IH pool b Hd) as [pool' Hp]; exists pool'; cbn; by rewrite Hp].
  destruct (current <=? b).
  { destruct (IH pool b Hd) as [pool' Hp]. exists pool'. cbn. by rewrite Hp. }
  destruct (get_block p current) as [[blk|]|].
  - cbn [fmap option_fmap option_map] in Hd. unfold served_logs in Hd. rewrite bind_cons in Hd.
    cbn [snd] in Hd. apply Forall_app in Hd as [Hl Hd].
    destruct (IH (record_block pool i current) current Hd) as [pool' Hp]. exists pool'.
    rewrite bind_cons. cbn [fmap option_fmap option_map range_emissions].
    destruct (get_logs p (b + 1) current) as [logs|]; cbn [default from_option id].
    + cbn. rewrite process_logs_decodable by done. cbn. rewrite Hp, !app_nil_r. done.
    + cbn. by rewrite Hp.
  - destruct (IH pool current Hd) as [pool' Hp]. exists pool'. cbn. by rewrite Hp.
  - destruct (IH pool b Hd) as [pool' Hp]. exists pool'. cbn. by rewrite Hp.
Qed.

(** C26. Polling over HTTP misses no block and repeats none: the ranges of the
    advancing polls are, in order, the blocks after the connection's first one,
    each once. As long as no served log panics the decoder, what is dispatched is
    for each such range the block at its end and then one update or one counted
    failure for each log served, in order. The logs of a range are lost when the
    node has no block at its end or the request for them fails. *)
Theorem http_polling_exact pool i b ps :
  Forall decodable (served_logs (advances b ps)) ->
  (exists pool', poll_all pool i b (Some <$> ps) =
     (advances b ps ≫= range_emissions, Ret (pool', Open))) /\
  advances b ps ≫= range_blocks = seqZ (b + 1) (reached b ps - b).
Proof. intros Hd. split; [by apply poll_all_emits|apply advances_cover]. Qed.
End Polling.

(** ** Failover *)

(** A healthy node has failed at most once in a row. *)
Definition node_ok (n : NodeConnection) : Prop := is_healthy n = true -> 0 <= consecutive_failures n <= 1.

Definition pool_ok (p : NodePool) : Prop :=
  Forall node_ok (nodes p) /\ reconnect_backoff_base p = 100 /\ reconnect_backoff_max p = 30000.

(** The failures a node can still take before it is passed over. *)
Definition tries (n : NodeConnection) : nat :=
  if is_healthy n then (if consecutive_failures n =? 0 then 2 else 1) else 0.
Definition pool_tries (p : NodePool) : nat := sum_list_with tries (nodes p).

Lemma pool_new_ok configs min_healthy : pool_ok (pool_new configs min_healthy).
Proof.
  split; [|done]. apply Forall_fmap, Forall_true. intros c _. cbn. lia.
Qed.

Lemma sum_insert (l : list NodeConnection) i n n' : l !! i = Some n ->
  (sum_list_with tries (<[i := n']> l) + tries n = sum_list_with tries l + tries n')%nat.
Proof.
  revert i. induction l as [|m l IH]; intros [|i] Hi; simpl in *; [done|done|..].
  - injection Hi as ->. lia.
  - specialize (IH i Hi). lia.
Qed.

Lemma pool_tries_le p : (pool_tries p <= 2 * length (nodes p))%nat.
Proof.
  unfold pool_tries. induction (nodes p) as [|n ns IH]; simpl; [lia|].
  unfold tries at 1. destruct (is_healthy n), (consecutive_failures n =? 0); lia.
Qed.

Lemma best_connection_healthy p i n : best_connection p = Some (i, n) ->
  nodes p !! i = Some n /\ is_healthy n = true.
Proof.
  unfold best_connection. pose proof (best_node_optimal p) as H. destruct (best_node p) as [k|]; [|done]. cbn.
  destruct H as (m & Hm & Hh & _). rewrite Hm. cbn. intros [= <- <-]. done.
Qed.

Lemma best_connection_none p : best_connection p = None -> healthy_count p = 0%nat /\ pool_tries p = 0%nat.
Proof.
  unfold best_connection. pose proof (best_node_optimal p) as H. destruct (best_node p) as [k|].
  { destruct H as (m & Hm & _). cbn. by rewrite Hm. }
  intros _. split; [done|]. unfold healthy_count, pool_tries in *.
  induction (nodes p) as [|n ns IH]; [done|]. rewrite filter_cons in H. unfold tries at 1. simpl.
  destruct (is_healthy n); simpl in H; [done|]. by apply IH.
Qed.

Lemma record_block_ok p i b : pool_ok p -> pool_ok (record_block p i b).
Proof.
  intros (Hn & Hr). split; [|done]. cbn. apply Forall_alter; [done|]. intros n _ _ _.
  unfold record_success. case_decide; cbn; lia.
Qed.

Definition healthy_at (p : NodePool) (i : nat) : Prop :=
  exists n, nodes p !! i = Some n /\ is_healthy n = true.

(** What using node [i] keeps of the pool. *)
Definition pool_le (i : nat) (p p' : NodePool) : Prop :=
  pool_ok p' /\ length (nodes p') = length (nodes p) /\ (healthy_at p i -> healthy_at p' i).

Lemma record_block_le p i b : pool_ok p -> pool_le i p (record_block p i b).
Proof.
  intros Hok. split; [by apply record_block_ok|]. split; [apply length_alter|].
  intros (n & Hn & Hh). exists (record_success n 0 b). split; [cbn; rewrite list_lookup_alter_eq, Hn; done|].
  unfold record_success. case_decide as Hd; [|done]. cbn in Hd. unfold is_healthy. cbn. by rewrite Hd.
Qed.

Lemma pool_le_refl i p : pool_ok p -> pool_le i p p.
Proof. done. Qed.

Lemma pool_le_trans i p p' p'' : pool_le i p p' -> pool_le i p' p'' -> pool_le i p p''.
Proof. intros (_ & H1 & H2) (H3 & H4 & H5). split; [done|]. split; [congruence|auto]. Qed.

Lemma reset_ok p : pool_ok p -> pool_ok (reset_nodes p).
Proof. intros (Hn & Hr). split; [|done]. apply Forall_fmap, Forall_true. intros n _. cbn. lia. Qed.

Section Failover.
Context `{B : Build} `{Sg : EventSignatures}.

Lemma u32_add_exact a b : in_u 32 (a + b) -> u32_add a b = Ret (a + b).
Proof. apply arith_exact. Qed.

Lemma fail_node_ok p i n : pool_ok p -> nodes p !! i = Some n -> is_healthy n = true ->
  exists p', fail_node p i = Ret p' /\ pool_ok p' /\ (pool_tries p' < pool_tries p)%nat /\
    length (nodes p') = length (nodes p).
Proof.
  intros (Hn & Hr) Hi Hh. pose proof (Forall_lookup_1 _ _ _ _ Hn Hi Hh) as Hf.
  unfold fail_node. rewrite Hi. unfold record_failure. rewrite u32_add_exact by (range; lia).
  cbn [mbind outcome_bind]. set (f := consecutive_failures n + 1).
  match goal with |- context [<[i := ?m]> _] => set (n' := m) end.
  assert (Hn' : node_ok n' /\ (tries n' < tries n)%nat).
  { unfold tries. rewrite Hh. subst n'. unfold node_ok. cbn [config].
    destruct (Z.leb_spec (max_retries (config n)) f); [cbn; split; [done|]; destruct (consecutive_failures n =? 0); lia|].
    destruct (Z.leb_spec 2 f); [cbn; split; [done|]; destruct (consecutive_failures n =? 0); lia|]. subst f. cbn.
    assert (consecutive_failures n = 0) as -> by lia. unfold is_healthy in *. cbn in *. rewrite Hh. cbn.
    change (0 + 1 =? 0) with false. cbv iota. lia. }
  destruct Hn' as [Hok Ht]. eexists. split; [done|]. split; [|split].
  - split; [|done]. cbn. by apply Forall_insert.
  - unfold pool_tries. cbn. pose proof (sum_insert (nodes p) i n n' Hi). lia.
  - cbn. apply length_insert.
Qed.

Lemma backoff_returns p attempt : pool_ok p -> 0 <= attempt ->
  exists d, backoff_delay p attempt = Ret d /\ d <= 30000.
Proof.
  intros (_ & Hb & Hm) Ha. unfold backoff_delay. rewrite Hb, Hm.
  assert (Hf : 0 <= saturate 32 (2 ^ attempt) < 2 ^ 32) by (apply saturate_range; lia).
  assert (Hd : 100 * saturate 32 (2 ^ attempt) / 1000 < 2 ^ 64)
    by (apply Z.div_lt_upper_bound; range; lia).
  rewrite (proj2 (Z.ltb_lt _ _) Hd). eexists. split; [done|]. apply Z.le_min_r.
Qed.

(** A turn in which no node can be reached and nothing is shut down. *)
Definition outage (t : Turn) : Prop :=
  shutdown_before t = false /\ pause_cut t = false /\ forall i, connects (answers t i) = false.

Lemma refused p i ty a : connects a = false -> connect p i ty a = mret (p, Errored).
Proof. intros H. unfold connect, connect_push, connect_http. rewrite H. by destruct ty. Qed.

Lemma outage_gives_up cfg turns : Forall outage turns -> forall pool attempt,
  pool_ok pool -> 0 <= attempt -> attempt + Z.of_nat (length turns) < 2 ^ 32 ->
  let m := max_reconnect_attempts cfg in
  Z.max 0 (m - 1 - attempt)
    + Z.of_nat (if m <=? attempt + 1 then pool_tries pool else 2 * length (nodes pool))
    < Z.of_nat (length turns) ->
  exists p, run cfg pool attempt turns = ([], Ret p) /\ exit p = GaveUp.
Proof.
  induction 1 as [|t turns (Hs & Hc & Ha) _ IH]; intros pool attempt Hok H0 Hu m Hl; [simpl in Hl; lia|].
  cbn [run length] in *. rewrite Hs, Hc. destruct (best_connection pool) as [[i n]|] eqn:Hb.
  - apply best_connection_healthy in Hb as [Hi Hh]. rewrite refused by apply Ha. cbn.
    destruct (fail_node_ok pool i n Hok Hi Hh) as (p' & -> & Hok' & Ht & Hlen). cbn.
    rewrite u32_add_exact by (range; lia). cbn.
    destruct (backoff_returns p' (attempt + 1) Hok' ltac:(lia)) as (d & -> & _). cbn.
    destruct (IH p' (attempt + 1) Hok' ltac:(lia) ltac:(lia)) as (p & -> & He).
    { fold m. pose proof (pool_tries_le p'). rewrite Hlen in *.
      destruct (Z.leb_spec m (attempt + 1)), (Z.leb_spec m (attempt + 1 + 1)); lia. }
    eexists. split; [done|]. done.
  - apply best_connection_none in Hb as [_ Ht]. cbn. rewrite u32_add_exact by (range; lia). cbn.
    fold m. destruct (Z.leb_spec m (attempt + 1)); [eexists; done|].
    destruct (backoff_returns pool (attempt + 1) Hok ltac:(lia)) as (d & -> & _). cbn.
    destruct (IH (reset_nodes pool) (attempt + 1) (reset_ok _ Hok) ltac:(lia) ltac:(lia)) as (p & -> & He).
    { fold m. pose proof (pool_tries_le (reset_nodes pool)) as Hp. cbn in Hp |- *. rewrite length_fmap in *.
      destruct (Z.leb_spec m (attempt + 1 + 1)); lia. }
    eexists. split; [done|]. done.
Qed.

(** *** What a connection does to the pool *)

(** A log that stops the provider. *)
Definition poison (log : RawLog) : Prop := decoded_as log = None.

(** The logs a node may deliver in a turn. *)
Definition delivers (a : Answers) (log : RawLog) : Prop :=
  PushLog log ∈ pushes a \/
  exists p from to logs, Some p ∈ polls a /\ get_logs p from to = Some logs /\ log ∈ logs.

Lemma single_log_returns log l r : process_single_log log = (l, r) -> r = Ret tt \/ poison log.
Proof.
  unfold process_single_log, poison, decoded_as. destruct (decode_log _ _ _ _) as [[ev|e]|]; cbn;
    intros [= _ <-]; auto.
Qed.

Lemma logs_return logs : forall l r, process_logs logs = (l, r) ->
  r = Ret tt \/ exists log, log ∈ logs /\ poison log.
Proof.
  induction logs as [|log logs IH]; intros l r; cbn [process_logs]; [intros [= _ <-]; by left|].
  intros [[Hp ->]|(l1 & l2 & [] & Hm & Hf)]%io_bind_inv.
  - destruct (process_single_log log) as [l1 r1] eqn:E. cbn in Hp. subst r1.
    apply single_log_returns in E as [|E]; [done|]. right. exists log. by split; [left|].
  - apply IH in Hf as [|(x & Hx & Hpx)]; [by left|]. right. exists x. by split; [right|].
Qed.

(** Either the pool stays in order, or a poison log was delivered. *)
Definition kept {A} (i : nat) (p : NodePool) (bad : Prop) (r : outcome (NodePool * A)) : Prop :=
  match r with Ret (p', _) => pool_le i p p' | Panic => bad end.

Lemma kept_le {A} i p p' (bad bad' : Prop) (r : outcome (NodePool * A)) :
  pool_le i p p' -> (bad -> bad') -> kept i p' bad r -> kept i p bad' r.
Proof. destruct r as [[p'' x]|]; cbn; [|auto]. intros H _. by apply pool_le_trans. Qed.

Lemma subscription_kept i ps : forall p l r, pool_ok p -> run_subscription_loop p i ps = (l, r) ->
  kept i p (exists log, PushLog log ∈ ps /\ poison log) r.
Proof.
  induction ps as [|[n ts bf gl fe|log| |] ps IH]; intros p l r Hok; cbn [run_subscription_loop].
  - by intros [= _ <-].
  - intros [[Hp _]|(l1 & l2 & [] & _ & Hf)]%io_bind_inv; [done|].
    eapply kept_le; [by apply (record_block_le p i n)| |eapply IH, Hf; by apply record_block_ok].
    intros (log & Hl & Hp). exists log. by split; [right|].
  - intros [[Hp ->]|(l1 & l2 & [] & _ & Hf)]%io_bind_inv.
    + destruct (process_single_log log) as [l1 r1] eqn:E. cbn in Hp. subst r1.
      apply single_log_returns in E as [|E]; [done|]. exists log. by split; [left|].
    + eapply kept_le; [by apply pool_le_refl| |by eapply IH].
      intros (x & Hl & Hp). exists x. by split; [right|].
  - by intros [= _ <-].
  - by intros [= _ <-].
Qed.

Lemma poll_once_kept p i b q l r : pool_ok p -> poll_once p i b q = (l, r) ->
  kept i p (exists from to logs log, get_logs q from to = Some logs /\ log ∈ logs /\ poison log) r.
Proof.
  intros Hok. unfold poll_once. destruct (tip q) as [c|]; [|by intros [= _ <-]].
  destruct (c <=? b); [by intros [= _ <-]|]. destruct (get_block q c) as [[blk|]|]; [|by intros [= _ <-]..].
  intros [[Hp _]|(l1 & l2 & [] & _ & Hf)]%io_bind_inv; [done|].
  pose proof (record_block_le p i c Hok) as Hk.
  destruct (get_logs q (b + 1) c) as [logs|] eqn:Hl; [|by injection Hf as _ <-].
  apply io_bind_inv in Hf as [[Hp ->]|(l3 & l4 & [] & _ & [= _ <-])]; [|done].
  destruct (process_logs logs) as [l3 r3] eqn:E. cbn in Hp. subst r3.
  apply logs_return in E as [|(log & Hin & Hpo)]; [done|]. cbn. eauto 10.
Qed.

Lemma polls_kept i qs : forall p b l r, pool_ok p -> poll_all p i b qs = (l, r) ->
  kept i p (exists q from to logs log, Some q ∈ qs /\ get_logs q from to = Some logs /\ log ∈ logs /\
              poison log) r.
Proof.
  induction qs as [|[q|] qs IH]; intros p b l r Hok; cbn [poll_all]; [by intros [= _ <-]|..|by intros [= _ <-]].
  intros [[Hp ->]|(l1 & l2 & [p1 b1] & Hm & Hf)]%io_bind_inv.
  - destruct (poll_once p i b q) as [l1 r1] eqn:E. cbn in Hp. subst r1. apply poll_once_kept in E; [|done].
    destruct E as (from & to & logs & log & H1 & H2 & H3). exists q, from, to, logs, log. by split; [left|].
  - apply poll_once_kept in Hm; [|done]. cbn in Hm, Hf. eapply kept_le; [exact Hm| |eapply IH, Hf; apply Hm].
    intros (q' & from & to & logs & log & Hq & H). exists q', from, to, logs, log. by split; [right|].
Qed.

Lemma connect_kept p i ty a l r : pool_ok p -> connect p i ty a = (l, r) ->
  kept i p (exists log, delivers a log /\ poison log) r.
Proof.
  intros Hok. assert (Hb : forall b, pool_le i p (record_block p i b)) by (intros b; by apply record_block_le).
  assert (Hpush : connect_push p i (connects a) (initial_block a) (subscribes a) (pushes a) = (l, r) ->
    kept i p (exists log, delivers a log /\ poison log) r).
  { unfold connect_push. destruct (connects a); cbn [negb]; [|by intros [= _ <-]].
    destruct (initial_block a) as [b|]; [|by intros [= _ <-]].
    destruct (subscribes a); cbn [negb]; [|intros [= _ <-]; apply Hb].
    intros H. eapply kept_le; [apply (Hb b)| |eapply subscription_kept, H; apply Hb].
    intros (log & Hl & Hp). exists log. split; [by left|done]. }
  destruct ty; [exact Hpush..|]. cbn [connect]. unfold connect_http.
  destruct (connects a); cbn [negb]; [|by intros [= _ <-]].
  destruct (initial_block a) as [b|]; [|by intros [= _ <-]].
  intros H. eapply kept_le; [apply (Hb b)| |eapply polls_kept, H; apply Hb].
  intros (q & from & to & logs & log & Hq & Hg & Hl & Hp). exists log. split; [right; eauto 10|done].
Qed.

(** How the provider ends. *)
Definition accounted (cfg : ProviderConfig) (turns : list Turn) (r : outcome Progress) : Prop :=
  match r with
  | Ret p => pool_ok (pool_after p) /\ Forall (fun d => d <= 30000) (waits p) /\
      (exit p = GaveUp -> max_reconnect_attempts cfg <= attempts p /\ healthy_count (pool_after p) = 0%nat)
  | Panic => exists t i log, t ∈ turns /\ delivers (answers t i) log /\ poison log
  end.

Lemma accounted_later cfg t turns pool attempt d l r : d <= 30000 ->
  (forall l' r', run cfg pool attempt turns = (l', r') -> accounted cfg turns r') ->
  (run cfg pool attempt turns ≫= fun r => mret (mkProgress (pool_after r) (attempts r) (exit r) (d :: waits r)))
    = (l, r) ->
  accounted cfg (t :: turns) r.
Proof.
  intros Hd IH H. apply io_bind_inv in H as [[Hp ->]|(l1 & l2 & q & Hq & [= _ <-])].
  - destruct (run cfg pool attempt turns) as [l1 r1]. cbn in Hp. subst r1.
    destruct (IH _ _ eq_refl) as (t' & i & log & Ht & H). exists t', i, log. by split; [right|].
  - destruct (IH _ _ Hq) as (H1 & H2 & H3). split; [done|]. split; [by constructor|]. exact H3.
Qed.

Lemma run_accounted cfg turns : forall pool attempt l r, pool_ok pool -> 0 <= attempt ->
  attempt + Z.of_nat (length turns) < 2 ^ 32 -> run cfg pool attempt turns = (l, r) -> accounted cfg turns r.
Proof.
  induction turns as [|t turns IH]; intros pool attempt l r Hok H0 Hu; cbn [run length] in *.
  { by intros [= _ <-]. }
  destruct (shutdown_before t); [by intros [= _ <-]|].
  destruct (best_connection pool) as [[i n]|] eqn:Hb.
  - apply best_connection_healthy in Hb as [Hi Hh].
    intros [[Hp ->]|(l1 & l2 & [p1 e] & Hm & Hf)]%io_bind_inv.
    { destruct (connect _ _ _ _) as [l1 r1] eqn:E. cbn in Hp. subst r1. apply connect_kept in E; [|done].
      destruct E as (log & Hd & Hpo). exists t, i, log. by split; [left|]. }
    apply connect_kept in Hm as (Hok1 & Hlen & Hh1); [|done].
    destruct Hh1 as (n1 & Hn1 & Hhn1); [by exists n|].
    destruct e; [by injection Hf as _ <-..|].
    destruct (fail_node_ok p1 i n1 Hok1 Hn1 Hhn1) as (p2 & E2 & Hok2 & _).
    destruct (backoff_returns p2 (attempt + 1) Hok2 ltac:(lia)) as (d & Ed & Hd).
    rewrite E2, lift_Ret, u32_add_exact, lift_Ret, Ed, lift_Ret in Hf by (range; lia).
    destruct (pause_cut t); [injection Hf as _ <-; split; [done|]; by split; [constructor|]|].
    eapply accounted_later, Hf; [done|]. intros l' r' Hr. eapply IH, Hr; [done|lia..].
  - apply best_connection_none in Hb as [Hc _]. rewrite u32_add_exact, lift_Ret by (range; lia).
    destruct (Z.leb_spec (max_reconnect_attempts cfg) (attempt + 1)).
    { intros [= _ <-]. split; [done|]. by split; [constructor|]. }
    destruct (backoff_returns pool (attempt + 1) Hok ltac:(lia)) as (d & Ed & Hd). rewrite Ed, lift_Ret.
    pose proof (reset_ok pool Hok) as Hokr.
    destruct (pause_cut t); [intros [= _ <-]; split; [done|]; by split; [constructor|]|].
    intros Hf. eapply accounted_later, Hf; [done|]. intros l' r' Hr. eapply IH, Hr; [done|lia..].
Qed.

(** C25. The provider fails over and does not stop early. Whatever the nodes do, it
    waits at most 30 seconds between connections, and ends by itself only if a
    log panics the decoder or if no node is healthy and the attempts are used up; and when no node can be reached at all, it does end, after at most
    the configured attempts and two failures of each node. *)
Theorem provider_failover cfg configs min_healthy turns :
  Z.of_nat (length turns) < 2 ^ 32 ->
  accounted cfg turns (run cfg (pool_new configs min_healthy) 0 turns).2 /\
  (Forall outage turns ->
   Z.max 0 (max_reconnect_attempts cfg - 1) + 2 * Z.of_nat (length configs) < Z.of_nat (length turns) ->
   exists p, run cfg (pool_new configs min_healthy) 0 turns = ([], Ret p) /\ exit p = GaveUp).
Proof.
  intros Hl. pose proof (pool_new_ok configs min_healthy) as Hok. split.
  - destruct (run cfg (pool_new configs min_healthy) 0 turns) as [l r] eqn:E.
    by eapply run_accounted.
  - intros Ho Hlen. apply outage_gives_up; [done|done|lia|lia|].
    pose proof (pool_tries_le (pool_new configs min_healthy)) as Ht. cbn [nodes pool_new] in *.
    rewrite length_fmap in *. destruct (_ <=? _); lia.
Qed.
End Failover.

(** ** Witnesses *)

Definition sync_log : RawLog := mkRawLog 42 [1] (words [1000; 2000]).
Definition odd_log : RawLog := mkRawLog 43 [] [].

(** The node is at block 12, then answers nothing, then is at block 13 but does
    not serve its logs. *)
Definition sample_polls : list Poll :=
  let blk := Some (Some (mkPolled 1700000000 (Some 7) 30000000 [])) in
  [mkPoll (Some 12) (fun _ => blk) (fun _ _ => Some [sync_log; odd_log]);
   mkPoll None (fun _ => None) (fun _ _ => None);
   mkPoll (Some 13) (fun _ => blk) (fun _ _ => None)].

Definition ws_pool : NodePool := single_node_pool "wss://node".

Lemma http_polling_exact_witness :
  (poll_all (Sg:=sample_signatures) ws_pool 0 10 (Some <$> sample_polls)).1 =
    [Block 12 1700000000 7 30000000 []; Update (ReserveUpdate 42 UniswapV2 1000 2000);
     DecodeFailure 43 UnknownTopic; Block 13 1700000000 7 30000000 []].
Proof.
  destruct (http_polling_exact (Sg:=sample_signatures) ws_pool 0 10 sample_polls) as [[pool' Hp] _].
  - apply Forall_cons. split; [|apply Forall_singleton]; vm_compute; by eexists.
  - rewrite Hp. vm_compute. reflexivity.
Defined.

Definition down : Turn := mkTurn false (fun _ => mkAnswers false None false [] []) false.
(** The node connects, and its stream ends. *)
Definition flaky : Turn := mkTurn false (fun _ => mkAnswers true (Some 1) true [PushEnd] []) false.
Definition sample_provider : ProviderConfig := default_config (fun _ => None).

Lemma provider_failover_witness :
  exists p, run (B:=release) (Sg:=sample_signatures) sample_provider ws_pool 0 (replicate 20 down) = ([], Ret p) /\
    exit p = GaveUp.
Proof.
  apply (provider_failover (B:=release) (Sg:=sample_signatures) sample_provider
    [mkNodeConfig "default" "wss://node" WebSocket 0 5 30000] 1 (replicate 20 down)).
  - vm_compute. reflexivity.
  - apply Forall_replicate. done.
  - vm_compute. reflexivity.
Defined.

(** The attempts are counted over the life of the provider: after nine streams
    that ended and were reconnected at once, the provider gives up when two
    connections in a row fail; a fresh one goes on. *)
Theorem attempts_outlive_success :
  (exists l p, run (B:=release) (Sg:=sample_signatures) sample_provider ws_pool 0
      (replicate 9 flaky ++ replicate 3 down) = (l, Ret p) /\ exit p = GaveUp) /\
  (exists l p, run (B:=release) (Sg:=sample_signatures) sample_provider ws_pool 0 (replicate 3 down) = (l, Ret p) /\
     exit p = Ongoing).
Proof. split; eexists _, _; (split; [vm_compute; reflexivity|reflexivity]). Qed.

End RpcProvider.
