(* ===== verification/Server.v ===== *)
(** * The server

    [crates/grpc-server/src/service.rs], the start-up of [main.rs] and
    [discovery_integration.rs]: the gRPC handlers over the shared engine state,
    and the process that runs them next to the engine and the discovery service.
    Activities of the concurrent tasks are handled one after the other. A
    broadcast reaches the subscribed streams; without any it is dropped. *)

From Stdlib Require Import ZArith Lia String.
From S2P Require Import Prelude.
From S2P Require Import Machine.
From S2P Require Import F64.
From S2P Require Import Types.
From S2P Require Import Bytes.
From S2P Require Import Keccak.
From S2P Require Import Abi.
From S2P Require Import TokenIndex.
From S2P Require Import PriceGraph.
From S2P Require Import Snapshot.
From S2P Require Import EventDecoder.
From S2P Require Import Revm.
From S2P Require Import Discovery.
From S2P Require Import PoolValidator.
From S2P Require Import DiscoveryService.
From S2P Require Import HotCache.
From S2P Require Import Pipeline.
From S2P Require Import Engine.
From S2P Require Import Bootstrap.
From S2P Require Import Detection.
From S2P Require Import EngineRun.
From stdpp Require Import base option numbers strings pretty gmap list.

Local Open Scope Z_scope.

Module Server.

(** ** The shared state *)

Inductive SystemState : Type := Running | Degraded | Paused | Halted.

#[global] Instance SystemState_eq_dec : EqDecision SystemState.
Proof. solve_decision. Defined.

(** The [Debug] form. *)
Definition state_name (s : SystemState) : string :=
  match s with Running => "Running" | Degraded => "Degraded" | Paused => "Paused" | Halted => "Halted" end.

Record EngineState : Type := mkState {
  system_state : SystemState;
  last_block : Z;
  active_pools : Z;
  start_time : Z;
}.

Definition default_state (now : Z) : EngineState := mkState Running 0 0 now.

Definition system_state_to_proto (s : SystemState) : Z :=
  match s with Running => 1 | Degraded => 2 | Paused => 3 | Halted => 4 end.

(** The error is the message of the [invalid_argument] status. *)
Definition proto_to_system_state (v : Z) : SystemState + string :=
  if v =? 1 then inl Running
  else if v =? 2 then inl Degraded
  else if v =? 3 then inl Paused
  else if v =? 4 then inl Halted
  else inr ("Invalid system state value: " +:+ pretty v).

(** ** Profits *)

Definition profit_wei_to_u128 (bytes : list Z) : Z :=
  if (length bytes =? 0)%nat then 0
  else
    match position (fun b => negb (b =? 0)) bytes with
    | None => 0
    | Some pos =>
        let stripped := drop pos bytes in
        if (16 <? length stripped)%nat then u128_max
        else be (replicate (16 - length stripped) 0 ++ stripped)
    end.

Definition eth_to_wei_threshold (eth : f64) : Z :=
  if f64_le eth f64_zero then 0 else f64_as_u128 (f64_mul eth (f64_of_Z (10 ^ 18))).

(** ** The arbitrage service *)

(** Whether arbitrages are accepted. *)
Definition accepting (s : SystemState) : bool :=
  match s with Running | Degraded => true | Paused | Halted => false end.

Record SubmitArbResponse : Type := mkSubmit {
  accepted : bool;
  bundle_hash : string;
  submit_error : string;
}.

(** The answer, and what is broadcast to the [receivers]. *)
Definition submit_arb (st : EngineState) (receivers : nat) (arb : Pipeline.ProtoValidatedArb)
    : SubmitArbResponse * list Pipeline.ProtoValidatedArb :=
  if negb (accepting (system_state st))
  then (mkSubmit false "" ("System is " +:+ state_name (system_state st) +:+ ", not accepting arbs"), [])
  else if (receivers =? 0)%nat then (mkSubmit false "" "No subscribers connected", [])
  else (mkSubmit true ("pending-" +:+ Pipeline.pa_id arb) "", [arb]).

(** What a stream's receiver returns. *)
Inductive Received : Type := Got (arb : Pipeline.ProtoValidatedArb) | Lagged (n : Z) | Closed.

(** The task of a stream: what it sends to its client, which is [gone] from some
    send on ([None]: never). *)
Fixpoint stream_task (min_profit_wei : Z) (gone : option nat) (recvs : list Received)
    : list Pipeline.ProtoValidatedArb :=
  match recvs with
  | [] | Closed :: _ => []
  | Lagged _ :: recvs => stream_task min_profit_wei gone recvs
  | Got arb :: recvs =>
      if (0 <? min_profit_wei) && (profit_wei_to_u128 (Pipeline.pa_net_profit_wei arb) <? min_profit_wei)
      then stream_task min_profit_wei gone recvs
      else
        match gone with
        | Some O => []
        | Some (S k) => arb :: stream_task min_profit_wei (Some k) recvs
        | None => arb :: stream_task min_profit_wei None recvs
        end
  end.

Definition stream_arbs (min_profit_eth : f64) (gone : option nat) (recvs : list Received)
    : list Pipeline.ProtoValidatedArb := stream_task (eth_to_wei_threshold min_profit_eth) gone recvs.

(** ** Health and control *)

Record HealthCheckResponse : Type := mkHealth {
  healthy : bool;
  status : string;
  uptime_seconds : Z;
  health_last_block : Z;
  health_active_pools : Z;
}.

Definition check (st : EngineState) (now : Z) : HealthCheckResponse :=
  mkHealth (accepting (system_state st)) (state_name (system_state st)) (to_signed 64 (now - start_time st))
    (last_block st) (active_pools st).

(** The previous state, or the message of the error. *)
Definition set_state (st : EngineState) (value : Z) : EngineState * (Z + string) :=
  match proto_to_system_state value with
  | inr e => (st, inr e)
  | inl s =>
      (mkState s (last_block st) (active_pools st) (start_time st), inl (system_state_to_proto (system_state st)))
  end.

Record ReloadConfigResponse : Type := mkReload {
  reload_success : bool;
  pools_loaded : Z;
  reload_error : string;
}.

Section Server.
Context `{B : Build} `{M : Libm} {K : Keccak} {A : SolAbi} `{HO : HashOrder} `{J : JoinSet} `{E : Revm.Revm}
  `{Sg : EventSignatures} `{D : DynamicDecoders} (parse_address : string -> option Address).

(** [file]: the pools of the file at [path]; [rpc]: the node. *)
Definition reload_config (st : EngineState) (e : Engine.t) (path : string)
    (file : option (list Bootstrap.PoolEntry)) (rpc : Address -> list Z -> option (list Z))
    : outcome (EngineState * Engine.t * ReloadConfigResponse) :=
  if bool_decide (path = "") then Ret (st, e, mkReload false 0 "config_path is empty")
  else
    ' (loaded, e) ← Bootstrap.bootstrap_pools parse_address e file;
    e ← Bootstrap.fetch_initial_reserves rpc e;
    let actual_count := as_u32 (Z.of_nat (size (Engine.pool_registry e))) in
    Ret (mkState (system_state st) (last_block st) actual_count (start_time st), e, mkReload true loaded "").

(** ** The process *)

(** Discovery and the hot cache, when they run. *)
Record DiscoveryRuntime : Type := mkRuntime {
  service : DiscoveryService.Service;
  entries : list DiscoveryService.FactoryEntry;
  hot : HotCache.HotCache;
  updater : HotCache.HotCacheUpdaterConfig;
}.

Record Server : Type := mkServer {
  control : EngineState;
  engine : Engine.t;
  receivers : nat;
  runtime : option DiscoveryRuntime;
}.

(** A refresh of the hot cache and the synchronisation of the engine, which
    reads the same cache. *)
Definition hot_tick (env : EngineRun.Env) (e : Engine.t) (r : DiscoveryRuntime)
    : outcome (Engine.t * DiscoveryRuntime) :=
  let '(h, diff) := HotCache.refresh_once (updater r) (DiscoveryService.cache (service r)) (hot r) in
  let e := Engine.set_hot_cache e h in
  e ← Bootstrap.sync_hot_cache_pools (EngineRun.env_rpc env) (EngineRun.env_prewarm env)
        (HotCache.added_pools diff) (HotCache.removed_addresses diff) e;
  Ret (e, mkRuntime (service r) (entries r) h (updater r)).

(** [config]: the discovery file, when it can be loaded; the hot cache joins the
    engine after the first synchronisation. *)
Definition maybe_start_discovery (env : EngineRun.Env) (e : Engine.t)
    (config : option (DiscoveryService.DiscoveryConfig * HotCache.HotCacheUpdaterConfig))
    : outcome (Engine.t * option DiscoveryRuntime) :=
  match config with
  | Some (c, u) =>
      if DiscoveryService.enabled (DiscoveryService.discovery c) then
        let svc := DiscoveryService.service_new c in
        let '(h, diff) := HotCache.refresh_once u (DiscoveryService.cache svc) HotCache.hot_new in
        e ← Bootstrap.sync_hot_cache_pools (EngineRun.env_rpc env) (EngineRun.env_prewarm env)
              (HotCache.added_pools diff) (HotCache.removed_addresses diff) e;
        Ret (Engine.set_hot_cache e h,
             Some (mkRuntime svc (DiscoveryService.factory_entries parse_address c) h u))
      else Ret (e, None)
  | None => Ret (e, None)
  end.

(** The ranked pools the metrics server shows: address, protocol, score, TVL. *)
Definition top_pools (h : HotCache.HotCache) : list (string * string * f64 * f64) :=
  (fun p => ("0x" +:+ hex_encode (to_be 20 (Discovery.address p)),
             PoolValidator.protocol_debug (Discovery.protocol p), Discovery.score p, Discovery.tvl_usd p))
  <$> take 20 (HotCache.pool_infos h).

(** Start-up; [None]: the process exits, an explicit pool file gave no pool. *)
Definition boot (cfg : Engine.EngineConfig) (has_rpc has_bytecode_cache explicit : bool)
    (file : option (list Bootstrap.PoolEntry)) (env : EngineRun.Env)
    (config : option (DiscoveryService.DiscoveryConfig * HotCache.HotCacheUpdaterConfig)) (now : Z)
    : outcome (option Server) :=
  let e := Engine.new cfg has_rpc has_bytecode_cache in
  ' (pool_count, e) ← Bootstrap.bootstrap_pools parse_address e file;
  if explicit && (pool_count =? 0) then Ret None
  else
    e ← Bootstrap.fetch_initial_reserves (EngineRun.env_rpc env) e;
    ' (e, r) ← maybe_start_discovery env e config;
    Ret (Some (mkServer (default_state now) e 0 r)).

Inductive Activity : Type :=
| EngineActivity (env : EngineRun.Env) (ev : EngineRun.Event)
| SubmitArb (arb : Pipeline.ProtoValidatedArb)
| SetState (value : Z)
| ReloadConfig (path : string) (file : option (list Bootstrap.PoolEntry)) (env : EngineRun.Env)
| CheckHealth (now : Z)
| Subscribe
| Disconnect
| DiscoveryActivity (o : DiscoveryService.op)
| HotTick (env : EngineRun.Env).

Inductive Response : Type :=
| NoResponse
| SubmitResponse (r : SubmitArbResponse)
| SetStateResponse (previous : Z)
| ErrorStatus (message : string)
| ReloadResponse (r : ReloadConfigResponse)
| HealthResponse (r : HealthCheckResponse).

Definition with_engine (srv : Server) (e : Engine.t) : Server :=
  mkServer (control srv) e (receivers srv) (runtime srv).
Definition with_control (srv : Server) (st : EngineState) : Server :=
  mkServer st (engine srv) (receivers srv) (runtime srv).
Definition with_receivers (srv : Server) (n : nat) : Server :=
  mkServer (control srv) (engine srv) n (runtime srv).

(** The arbitrages that reach the streams. *)
Definition broadcast (srv : Server) (arbs : list Pipeline.ProtoValidatedArb) : list Pipeline.ProtoValidatedArb :=
  if (receivers srv =? 0)%nat then [] else arbs.

(** One activity: the server, the answer, and what the streams receive. [None]
    when a scan runs out of fuel. *)
Definition step (srv : Server) (act : Activity)
    : outcome (option (Server * Response * list Pipeline.ProtoValidatedArb)) :=
  match act with
  | EngineActivity env ev =>
      r ← EngineRun.handle env (engine srv) ev;
      Ret match r with
          | Some (e, arbs) => Some (with_engine srv e, NoResponse, broadcast srv arbs)
          | None => None
          end
  | SubmitArb arb =>
      let '(resp, arbs) := submit_arb (control srv) (receivers srv) arb in
      Ret (Some (srv, SubmitResponse resp, arbs))
  | SetState value =>
      let '(st, resp) := set_state (control srv) value in
      Ret (Some (with_control srv st,
                 match resp with inl p => SetStateResponse p | inr m => ErrorStatus m end, []))
  | ReloadConfig path file env =>
      ' (st, e, resp) ← reload_config (control srv) (engine srv) path file (EngineRun.env_rpc env);
      Ret (Some (with_control (with_engine srv e) st, ReloadResponse resp, []))
  | CheckHealth now => Ret (Some (srv, HealthResponse (check (control srv) now), []))
  | Subscribe => Ret (Some (with_receivers srv (S (receivers srv)), NoResponse, []))
  | Disconnect => Ret (Some (with_receivers srv (pred (receivers srv)), NoResponse, []))
  | DiscoveryActivity o =>
      match runtime srv with
      | None => Ret (Some (srv, NoResponse, []))
      | Some r =>
          svc ← DiscoveryService.run (service r) (entries r) [o];
          Ret (Some (mkServer (control srv) (engine srv) (receivers srv)
                       (Some (mkRuntime svc (entries r) (hot r) (updater r))), NoResponse, []))
      end
  | HotTick env =>
      match runtime srv with
      | None => Ret (Some (srv, NoResponse, []))
      | Some r =>
          ' (e, r) ← hot_tick env (engine srv) r;
          Ret (Some (mkServer (control srv) e (receivers srv) (Some r), NoResponse, []))
      end
  end.

(** ** What a stream delivers *)

Lemma be_zeros n l : be (replicate n 0 ++ l) = be l.
Proof.
  rewrite be_app. assert (be (replicate n 0) = 0) as ->; [|lia].
  induction n as [|n IH]; [done|]. rewrite replicate_S_end, be_snoc, IH. done.
Qed.

(** The first non-zero byte. *)
Lemma position_split (l : list Z) : forall i, position (fun b => negb (b =? 0)) l = Some i ->
  exists b rest, l = replicate i 0 ++ b :: rest /\ b <> 0.
Proof.
  unfold position. induction l as [|b l IH]; intros i; [done|]. cbn [list_find].
  destruct (Z.eqb_spec b 0) as [->|Hb]; cbn [negb].
  - rewrite decide_False by done. destruct (list_find _ l) as [[j z]|]; [|done]. cbn. intros [= <-].
    destruct (IH j eq_refl) as (b & rest & -> & Hb). by exists b, rest.
  - rewrite decide_True by done. cbn. intros [= <-]. by exists b, l.
Qed.

(** The profit of a message, saturated. *)
Lemma profit_exact bytes : Forall is_byte bytes -> profit_wei_to_u128 bytes = Z.min (be bytes) u128_max.
Proof.
  intros Hb. unfold profit_wei_to_u128. destruct bytes as [|b0 l0]; [done|].
  set (l := b0 :: l0) in *. change (length l =? 0)%nat with false. cbv iota.
  destruct (position _ l) as [pos|] eqn:Hp.
  - apply position_split in Hp as (b & rest & Hl & Hne). rewrite Hl in Hb |- *. rewrite (be_zeros pos).
    rewrite drop_app_length' by (by rewrite length_replicate).
    apply Forall_app in Hb as [_ Hb]. pose proof (be_bounds _ Hb) as Hbd.
    apply Forall_cons in Hb as [Hb0 Hbr].
    destruct (Nat.ltb_spec 16 (length (b :: rest))) as [Hlt|Hle].
    + assert (256 ^ 16 <= be (b :: rest)); [|change (256 ^ 16) with (u128_max + 1) in *; lia].
      change (b :: rest) with ([b] ++ rest). rewrite be_app. pose proof (be_bounds _ Hbr).
      assert (256 ^ 16 <= 256 ^ Z.of_nat (length rest)) by (apply Z.pow_le_mono_r; cbn in Hlt; lia).
      change (be [b]) with (0 * 256 + b). unfold is_byte in Hb0. nia.
    + rewrite be_zeros. assert (be (b :: rest) < 256 ^ 16); [|change (256 ^ 16) with (u128_max + 1) in *; lia].
      eapply Z.lt_le_trans; [apply Hbd|]. apply Z.pow_le_mono_r; lia.
  - rewrite position_None in Hp. assert (Hz : l = replicate (length l) 0).
    { symmetry. apply replicate_as_elem_of. split; [done|]. intros x Hx. specialize (Hp x Hx).
      apply negb_false_iff, Z.eqb_eq in Hp. done. }
    rewrite Hz, <-(app_nil_r (replicate _ _)), be_zeros. done.
Qed.

(** The arbitrages a receiver gets before the channel closes. *)
Fixpoint gots (recvs : list Received) : list Pipeline.ProtoValidatedArb :=
  match recvs with
  | [] | Closed :: _ => []
  | Lagged _ :: recvs => gots recvs
  | Got arb :: recvs => arb :: gots recvs
  end.

Definition pays (threshold : Z) (arb : Pipeline.ProtoValidatedArb) : Prop :=
  threshold <= Z.min (be (Pipeline.pa_net_profit_wei arb)) u128_max.

#[global] Instance pays_dec t arb : Decision (pays t arb).
Proof. unfold pays. apply _. Defined.

(** A stream delivers exactly what it promises: of the arbitrages its receiver
    got, in order and up to the client's disconnection, those whose net profit,
    saturated at 128 bits, reaches the threshold the client asked for. *)
Theorem stream_delivers_exactly eth gone recvs :
  Forall (fun arb => Forall is_byte (Pipeline.pa_net_profit_wei arb)) (gots recvs) ->
  stream_arbs eth gone recvs =
    let l := filter (pays (eth_to_wei_threshold eth)) (gots recvs) in
    match gone with Some k => take k l | None => l end.
Proof.
  unfold stream_arbs. set (t := eth_to_wei_threshold eth).
  revert gone. induction recvs as [|[arb|n|] recvs IH]; intros gone Hb; cbn [stream_task gots] in *;
    [by destruct gone as [[]|]|..|by apply IH|by destruct gone as [[]|]].
  apply Forall_cons in Hb as [Hb Hbs]. rewrite profit_exact by done. cbv zeta. rewrite filter_cons.
  pose proof (be_nonneg _ Hb) as H0.
  destruct (Z.ltb_spec 0 t), (Z.ltb_spec (Z.min (be (Pipeline.pa_net_profit_wei arb)) u128_max) t); cbn [andb];
    [rewrite decide_False by (unfold pays; lia); by apply IH|rewrite decide_True by (unfold pays, u128_max in *; lia)..];
    destruct gone as [[|k]|]; cbn [take]; try done; f_equal; by apply IH.
Qed.

(** ** The hot cache of the engine changes only when it is set *)

Lemma register_hot e a t0 t1 p fee ts e' :
  Engine.register_pool_with_tick_spacing e a t0 t1 p fee ts = Ret e' ->
  Engine.hot_cache e' = Engine.hot_cache e.
Proof.
  unfold Engine.register_pool_with_tick_spacing. destruct (TokenIndex.get_or_insert _ t0) as [i0 ti0].
  destruct (TokenIndex.get_or_insert ti0 t1) as [i1 ti1]. intros (g & _ & [= <-])%bind_Ret. done.
Qed.

Lemma update_hot e ev e' : Engine.handle_pool_update e ev = Ret e' ->
  Engine.hot_cache e' = Engine.hot_cache e.
Proof.
  destruct ev as [pool p r0 r1|? ? ? ? ? ? ?|pool sp l tk|tok0 tok1 pool]; cbn.
  - unfold Engine.handle_reserve_update. set (e0 := if Engine.v2_family p then _ else e).
    assert (H0 : Engine.hot_cache e0 = Engine.hot_cache e) by (subst e0; by destruct (Engine.v2_family p)).
    destruct (Engine.pool_registry e0 !! pool) as [m|]; [|by intros [= <-]].
    destruct (_ && _); [|by intros [= <-]].
    intros (fee & _ & (g & _ & [= <-])%bind_Ret)%bind_Ret.
    destruct (Engine.v2_family (Engine.meta_protocol m)); exact H0.
  - by intros [= <-].
  - unfold Engine.handle_v3_update. destruct (Engine.pool_registry e !! pool) as [m|]; [|by intros [= <-]].
    destruct (f64_gt _ _); [|by intros [= <-]].
    by intros (fee & _ & (g & _ & [= <-])%bind_Ret)%bind_Ret.
  - apply register_hot.
Qed.

Lemma fetch_hot rpc only e e' : Bootstrap.fetch_initial_reserves_filtered rpc only e = Ret e' ->
  Engine.hot_cache e' = Engine.hot_cache e.
Proof.
  unfold Bootstrap.fetch_initial_reserves_filtered. destruct (negb _); [by intros [= <-]|].
  destruct (_ =? _)%nat; [by intros [= <-]|].
  by intros ([g states] & _ & (m & _ & [= <-])%bind_Ret)%bind_Ret.
Qed.

Lemma remove_all_hot removed : forall e e', Bootstrap.remove_all e removed = Ret e' ->
  Engine.hot_cache e' = Engine.hot_cache e.
Proof.
  induction removed as [|a removed IH]; intros e e'; cbn [Bootstrap.remove_all]; [by intros [= <-]|].
  intros (e1 & H1 & H2)%bind_Ret. rewrite (IH _ _ H2). unfold Engine.remove_pool in H1.
  destruct (Engine.pool_registry e !! a); [|by injection H1 as <-].
  by apply bind_Ret in H1 as (m & _ & [= <-]).
Qed.

Lemma register_added_hot req warmed added : forall e e', Bootstrap.register_added req warmed e added = Ret e' ->
  Engine.hot_cache e' = Engine.hot_cache e.
Proof.
  induction added as [|p added IH]; intros e e'; cbn [Bootstrap.register_added]; [by intros [= <-]|].
  destruct (bool_decide _); [apply IH|]. destruct (_ && _); [apply IH|].
  intros (e1 & H1 & H2)%bind_Ret. apply register_hot in H1. rewrite (IH _ _ H2), <-H1.
  destruct req; [|done]. unfold Engine.mark_pool_bytecode_warmed. by case_match.
Qed.

Lemma sync_hot rpc prewarm added removed e e' :
  Bootstrap.sync_hot_cache_pools rpc prewarm added removed e = Ret e' ->
  Engine.hot_cache e' = Engine.hot_cache e.
Proof.
  unfold Bootstrap.sync_hot_cache_pools. intros (e1 & H1 & (e2 & H2 & H3)%bind_Ret)%bind_Ret.
  apply remove_all_hot in H1. apply register_added_hot in H2. rewrite <-H1, <-H2.
  destruct (_ && _); [|by injection H3 as <-]. unfold Bootstrap.fetch_reserves_for_addresses in H3.
  destruct (_ =? _)%nat; [by injection H3 as <-|]. by eapply fetch_hot.
Qed.

Lemma publish_hot e g e' : Detection.publish_graph e g = Ret e' -> Engine.hot_cache e' = Engine.hot_cache e.
Proof. unfold Detection.publish_graph. by intros (m & _ & [= <-])%bind_Ret. Qed.

Lemma block_hot env e n ts fee e' arbs :
  EngineRun.handle env e (EngineRun.NewBlock n ts fee) = Ret (Some (e', arbs)) ->
  Engine.hot_cache e' = Engine.hot_cache e.
Proof.
  cbn. unfold Detection.handle_new_block, Detection.run_detection_cycle.
  destruct (_ && _).
  - intros (e1 & H1 & [= <- <-])%bind_Ret. by apply publish_hot in H1.
  - intros (oc & _ & H)%bind_Ret. destruct oc as [[|c cs]|]; [..|done].
    + apply bind_Ret in H as (e1 & H1 & [= <- <-]). by apply publish_hot in H1.
    + apply bind_Ret in H as (cands & _ & H). apply bind_Ret in H as (e1 & H1 & H).
      apply bind_Ret in H as (ins & _ & [= <- <-]). by apply publish_hot in H1.
Qed.

(** The events the provider and the timers send. *)
Definition provider_event (ev : EngineRun.Event) : Prop :=
  match ev with
  | EngineRun.NewBlock _ _ _ | EngineRun.PoolUpdate _ | EngineRun.FetchReserves => True
  | _ => False
  end.

Lemma handle_hot env e ev e' arbs : provider_event ev ->
  EngineRun.handle env e ev = Ret (Some (e', arbs)) -> Engine.hot_cache e' = Engine.hot_cache e.
Proof.
  intros Hp H. destruct ev; try done; [by eapply block_hot|..];
    cbn in H; unfold EngineRun.quiet in H; apply bind_Ret in H as (e1 & H1 & [= <- <-]).
  - by eapply update_hot.
  - by eapply fetch_hot.
Qed.

(** ** Reloading and synchronising are engine events *)

Lemma boot_loop_reachable ens : Forall Bootstrap.entry_fee_ok ens -> forall e loaded n e',
  EngineRun.reachable e -> Engine.room e 0 -> Bootstrap.bootstrap_loop parse_address e loaded ens = Ret (n, e') ->
  EngineRun.reachable e' /\ Engine.snapshot_manager e' = Engine.snapshot_manager e /\
  Engine.hot_cache e' = Engine.hot_cache e.
Proof.
  induction 1 as [|en ens Hen _ IH]; intros e loaded n e' Hr Hroom; cbn [Bootstrap.bootstrap_loop].
  { by intros [= _ <-]. }
  destruct (Bootstrap.valid_entry parse_address en) as [[[[p a] t0] t1]|]; [|by apply IH].
  destruct (Engine.pool_registry e !! a); [by apply IH|].
  intros (e1 & H1 & (l1 & _ & H2)%bind_Ret)%bind_Ret.
  destruct (Engine.register_returns e a t0 t1 p (Bootstrap.entry_fee_bps en) (Bootstrap.entry_tick_spacing en)
    (EngineRun.reachable_inv e Hr) Hen) as (e1' & H1' & _ & Hs). rewrite H1 in H1'. injection H1' as <-.
  assert (Hr1 : EngineRun.reachable e1).
  { eapply (EngineRun.reachable_step EngineRun.idle_env e (EngineRun.RegisterPool a t0 t1 p _ _) e1 []);
      [done|split; [exact Hroom|exact Hen]|]. cbn. unfold EngineRun.quiet. by rewrite H1. }
  destruct (IH e1 l1 n e' Hr1) as (Hr' & Hs' & Hh'); [unfold Engine.room in *; by rewrite Hs|done|].
  split; [done|]. apply register_hot in H1. split; congruence.
Qed.

Lemma bootstrap_reachable file e n e' : Forall Bootstrap.entry_fee_ok (default [] file) ->
  EngineRun.reachable e -> Engine.room e 0 -> Bootstrap.bootstrap_pools parse_address e file = Ret (n, e') ->
  EngineRun.reachable e' /\ Engine.snapshot_manager e' = Engine.snapshot_manager e /\
  Engine.hot_cache e' = Engine.hot_cache e.
Proof.
  intros Hf Hr Hroom. destruct file as [[|en ens]|]; cbn; [by intros [= _ <-]|..|by intros [= _ <-]].
  by apply (boot_loop_reachable (en :: ens)).
Qed.

Lemma bootstrap_pools_return file e : Forall Bootstrap.entry_fee_ok (default [] file) ->
  Z.of_nat (length (default [] file)) < 2 ^ 32 -> EngineRun.reachable e ->
  exists n e', Bootstrap.bootstrap_pools parse_address e file = Ret (n, e').
Proof.
  intros Hf Hl Hr. destruct file as [[|en ens]|]; cbn; [by eexists _, _|..|by eexists _, _].
  destruct (Bootstrap.bootstrap_loop_spec parse_address (en :: ens) Hf e 0) as (n & e' & H & _);
    [by apply EngineRun.reachable_inv|lia|exact Hl|]. by exists n, e'.
Qed.

Lemma fetch_reachable env e : EngineRun.reachable e -> Engine.room e 1 ->
  exists e', Bootstrap.fetch_initial_reserves (EngineRun.env_rpc env) e = Ret e' /\ EngineRun.reachable e' /\
    version_counter (Engine.snapshot_manager e') <= version_counter (Engine.snapshot_manager e) + 1 /\
    Engine.hot_cache e' = Engine.hot_cache e.
Proof.
  intros Hr Hroom. destruct (Bootstrap.fetch_returns (EngineRun.env_rpc env) None e) as (e' & He & _ & Hv);
    [by apply EngineRun.reachable_inv|done|]. exists e'. split; [done|]. split; [|split; [done|by eapply fetch_hot]].
  eapply (EngineRun.reachable_step env e EngineRun.FetchReserves e' []); [done|by split|].
  cbn. unfold EngineRun.quiet, Bootstrap.fetch_initial_reserves. by rewrite He.
Qed.

Lemma sync_reachable env added removed e : EngineRun.reachable e -> Bootstrap.fees_ok added ->
  Engine.room e (length removed + 1) ->
  exists e', Bootstrap.sync_hot_cache_pools (EngineRun.env_rpc env) (EngineRun.env_prewarm env) added removed e
      = Ret e' /\ EngineRun.reachable e' /\ Engine.hot_cache e' = Engine.hot_cache e.
Proof.
  intros Hr Hf Hroom.
  destruct (Bootstrap.sync_returns (EngineRun.env_rpc env) (EngineRun.env_prewarm env) added removed e)
    as (e' & He & _); [by apply EngineRun.reachable_inv|done|done|].
  exists e'. split; [done|]. split; [|by eapply sync_hot].
  eapply (EngineRun.reachable_step env e (EngineRun.SyncHotCache added removed) e' []); [done|by split|].
  cbn. unfold EngineRun.quiet. by rewrite He.
Qed.

Lemma set_hot_reachable e h : EngineRun.reachable e -> Engine.room e 0 ->
  EngineRun.reachable (Engine.set_hot_cache e h).
Proof.
  intros Hr Hroom.
  by eapply (EngineRun.reachable_step EngineRun.idle_env e (EngineRun.SetHotCache h) _ []).
Qed.

(** ** The server over time *)

(** An activity the server can take: fees are at most 100%, the engine takes the
    event, and the discovery task does not panic. *)
Definition acceptable (srv : Server) (act : Activity) : Prop :=
  match act with
  | EngineActivity _ ev => provider_event ev /\ EngineRun.acceptable (engine srv) ev
  | ReloadConfig _ file _ =>
      Forall Bootstrap.entry_fee_ok (default [] file) /\ Z.of_nat (length (default [] file)) < 2 ^ 32 /\
      Engine.room (engine srv) 1
  | DiscoveryActivity o =>
      match runtime srv with
      | Some r => returns (DiscoveryService.run (service r) (entries r) [o])
      | None => True
      end
  | HotTick _ =>
      match runtime srv with
      | Some r =>
          let d := (HotCache.refresh_once (updater r) (DiscoveryService.cache (service r)) (hot r)).2 in
          Bootstrap.fees_ok (HotCache.added_pools d) /\
          Engine.room (engine srv) (length (HotCache.removed_addresses d) + 1)
      | None => True
      end
  | _ => True
  end.

Definition discovery_ops (act : Activity) : list DiscoveryService.op :=
  match act with DiscoveryActivity o => [o] | _ => [] end.

(** The servers a process can become, with what its discovery was told. *)
Inductive served : list DiscoveryService.op -> Server -> Prop :=
| served_boot cfg rpc bytecode explicit file env config now srv :
    Forall Bootstrap.entry_fee_ok (default [] file) -> Z.of_nat (length (default [] file)) < 2 ^ 32 ->
    boot cfg rpc bytecode explicit file env config now = Ret (Some srv) -> served [] srv
| served_step ops srv act srv' resp arbs : served ops srv -> acceptable srv act ->
    step srv act = Ret (Some (srv', resp, arbs)) -> served (ops ++ discovery_ops act) srv'.

(** What discovery and the hot cache promise: the engine reads the hot cache of
    the runtime, every pool of which was announced and validated. *)
Definition runtime_ok (ops : list DiscoveryService.op) (e : Engine.t) (r : DiscoveryRuntime) : Prop :=
  Engine.hot_cache e = Some (hot r) /\
  DiscoveryService.provenance (DiscoveryService.config (service r)) (entries r) ops (service r) /\
  Forall (DiscoveryService.admitted (DiscoveryService.config (service r)) (entries r) ops)
    (HotCache.pool_infos (hot r)).

Record consistent (ops : list DiscoveryService.op) (srv : Server) : Prop := {
  c_engine : EngineRun.reachable (engine srv);
  c_block : last_block (control srv) = 0;
  c_runtime : match runtime srv with
              | Some r => runtime_ok ops (engine srv) r
              | None => Engine.hot_cache (engine srv) = None
              end;
}.

Lemma top_n_cached c n p : p ∈ Discovery.get_top_n c n ->
  exists a e, Discovery.pools c !! a = Some e /\ p = Discovery.info e.
Proof.
  unfold Discovery.get_top_n. intros H.
  eapply elem_of_submseteq in H; [|apply sublist_submseteq, sublist_take]. rewrite sort_by_perm in H.
  apply list_elem_of_fmap in H as ([a e] & -> & Ha%elem_of_map_iter). by exists a, e.
Qed.

Lemma provenance_mono cfg ens ops ops' svc : DiscoveryService.provenance cfg ens ops svc ->
  DiscoveryService.provenance cfg ens (ops ++ ops') svc.
Proof.
  intros (Hc & Hi & Hp). split; [done|]. split; [done|]. intros a e Ha. destruct (Hp a e Ha) as [H1 H2].
  split; [done|]. eapply DiscoveryService.admitted_mono; [done|]. set_solver.
Qed.

Lemma runtime_ok_mono ops ops' e r : runtime_ok ops e r -> runtime_ok (ops ++ ops') e r.
Proof.
  intros (Hh & Hp & Hv). split; [done|]. split; [by apply provenance_mono|].
  eapply Forall_impl; [exact Hv|]. intros p Ha. eapply DiscoveryService.admitted_mono; [exact Ha|]. set_solver.
Qed.

Lemma fresh_provenance c ens : DiscoveryService.provenance c ens [] (DiscoveryService.service_new c).
Proof.
  split; [done|]. split; [|by intros a e Ha; cbn in Ha; rewrite lookup_empty in Ha].
  split; cbn; [unfold Discovery.len; cbn; rewrite map_size_empty; lia|..]; intros a e; by rewrite lookup_empty.
Qed.

(** The hot cache of a runtime that has just been refreshed. *)
Lemma refreshed_ok ops e r h u :
  DiscoveryService.provenance (DiscoveryService.config (service r)) (entries r) ops (service r) ->
  Engine.hot_cache e = Some (HotCache.refresh_once u (DiscoveryService.cache (service r)) h).1 ->
  runtime_ok ops e (mkRuntime (service r) (entries r)
    (HotCache.refresh_once u (DiscoveryService.cache (service r)) h).1 u).
Proof.
  intros Hp Hh. split; [done|]. split; [done|]. cbn. apply Forall_forall. intros p Hin.
  apply top_n_cached in Hin as (a & en & Ha & ->). by apply Hp in Ha as [_ H].
Qed.

(** Nothing comes in or goes out of an empty hot cache over an empty ranking. *)
Lemma first_diff u c :
  let d := (HotCache.refresh_once u (DiscoveryService.cache (DiscoveryService.service_new c)) HotCache.hot_new).2 in
  HotCache.added_pools d = [] /\ HotCache.removed_addresses d = [].
Proof.
  assert (Ht : forall n, Discovery.get_top_n (DiscoveryService.cache (DiscoveryService.service_new c)) n = []).
  { intros n. apply elem_of_nil_inv. intros p (a & e & Ha & _)%top_n_cached. cbn in Ha.
    by rewrite lookup_empty in Ha. }
  cbn. rewrite Ht. split; [done|]. apply elem_of_nil_inv. intros a [_ Ha]%list_elem_of_filter.
  apply elem_of_set_iter in Ha. set_solver.
Qed.

Lemma boot_consistent cfg rpc bytecode explicit file env config now :
  Forall Bootstrap.entry_fee_ok (default [] file) -> Z.of_nat (length (default [] file)) < 2 ^ 32 ->
  exists o, boot cfg rpc bytecode explicit file env config now = Ret o /\
    forall srv, o = Some srv -> consistent [] srv.
Proof.
  intros Hf Hl. pose proof (EngineRun.reachable_new cfg rpc bytecode) as Hr. unfold boot.
  destruct (bootstrap_pools_return file _ Hf Hl Hr) as (n & e1 & H1).
  destruct (bootstrap_reachable file _ _ _ Hf Hr ltac:(done) H1) as (Hr1 & Hs1 & Hh1).
  rewrite H1. cbn [mbind outcome_bind]. destruct (explicit && _); [by eexists|].
  destruct (fetch_reachable env e1 Hr1) as (e2 & H2 & Hr2 & Hv2 & Hh2);
    [unfold Engine.room; by rewrite Hs1|]. rewrite H2. cbn [mbind outcome_bind].
  assert (Hroom : Engine.room e2 1) by (unfold Engine.room; rewrite Hs1 in Hv2; cbn in *; lia).
  unfold maybe_start_discovery. destruct config as [[c u]|].
  2: { eexists. split; [done|]. intros srv [= <-]. split; [done|done|]. cbn. by rewrite Hh2, Hh1. }
  destruct (DiscoveryService.enabled _).
  2: { eexists. split; [done|]. intros srv [= <-]. split; [done|done|]. cbn. by rewrite Hh2, Hh1. }
  pose proof (first_diff u c) as [Ha Hrm].
  pose proof (refreshed_ok [] (Engine.set_hot_cache e2 (HotCache.refresh_once u
    (DiscoveryService.cache (DiscoveryService.service_new c)) HotCache.hot_new).1)
    (mkRuntime (DiscoveryService.service_new c) (DiscoveryService.factory_entries parse_address c)
       HotCache.hot_new u) HotCache.hot_new u (fresh_provenance c _) eq_refl) as Hok.
  cbn [service entries] in Hok.
  destruct (HotCache.refresh_once u _ _) as [h d]. cbn [fst snd] in *. rewrite Ha, Hrm.
  eexists. split; [reflexivity|]. intros srv [= <-]. split; [|done|done].
  apply set_hot_reachable; [done|]. unfold Engine.room in *. lia.
Qed.

Lemma step_consistent ops srv act : consistent ops srv -> acceptable srv act ->
  exists srv' resp arbs, step srv act = Ret (Some (srv', resp, arbs)) /\
    consistent (ops ++ discovery_ops act) srv'.
Proof.
  intros [He Hb Hr] Ha. destruct act as [env ev|arb|v|path file env|now| | |o|env]; cbn [step discovery_ops acceptable] in *;
    rewrite ?app_nil_r.
  - destruct Ha as [Hp Ha]. destruct (EngineRun.handle_returns env (engine srv) ev
      (EngineRun.reachable_inv _ He) Ha) as (e' & arbs & Hh & _). rewrite Hh.
    eexists _, _, _. split; [done|]. apply (handle_hot _ _ _ _ _ Hp) in Hh as Hhot.
    split; [by eapply EngineRun.reachable_step|done|]. cbn. unfold runtime_ok in *. by rewrite Hhot.
  - destruct (submit_arb _ _ _) as [resp arbs]. by eexists _, _, _.
  - destruct (set_state _ _) as [st resp] eqn:Es. eexists _, _, _. split; [done|]. split; [done| |done].
    cbn. unfold set_state in Es. destruct (proto_to_system_state v); injection Es as <- _; done.
  - destruct Ha as (Hf & Hl & Hroom). unfold reload_config. destruct (bool_decide _); [by eexists _, _, _|].
    destruct (bootstrap_pools_return file _ Hf Hl He) as (n & e1 & H1).
    destruct (bootstrap_reachable file (engine srv) n e1 Hf He) as (Hr1 & Hs1 & Hh1);
      [unfold Engine.room in *; lia|done|].
    rewrite H1. cbn [mbind outcome_bind].
    destruct (fetch_reachable env e1 Hr1) as (e2 & H2 & Hr2 & _ & Hh2);
      [unfold Engine.room in *; by rewrite Hs1|].
    rewrite H2. cbn [mbind outcome_bind]. eexists _, _, _. split; [done|].
    split; [done|done|]. cbn. unfold runtime_ok in *. rewrite Hh2, Hh1. done.
  - by eexists _, _, _.
  - by eexists _, _, _.
  - by eexists _, _, _.
  - destruct (runtime srv) as [r|] eqn:Er.
    + destruct Ha as [svc Hs]. rewrite Hs. cbn [mbind outcome_bind]. eexists _, _, _. split; [done|].
      split; [done|done|]. cbn. destruct (runtime_ok_mono _ [o] _ _ Hr) as (Hh & Hp & Hv).
      assert (Hp' : DiscoveryService.provenance (DiscoveryService.config (service r)) (entries r) (ops ++ [o]) svc)
        by (eapply DiscoveryService.run_provenance, Hs; [set_solver|done]).
      pose proof Hp' as (Hc & _). split; [done|]. cbn. rewrite Hc. done.
    + eexists _, _, _. split; [done|]. split; [done|done|]. by rewrite Er.
  - destruct (runtime srv) as [r|] eqn:Er; [|by eexists _, _, _; split; [done|]; split; [..|rewrite Er]].
    destruct Ha as [Hf Hroom]. destruct Hr as (_ & Hp & _). unfold hot_tick.
    pose proof (fun e H => refreshed_ok ops e r (hot r) (updater r) Hp H) as Hok.
    destruct (HotCache.refresh_once (updater r) _ (hot r)) as [h d]. cbn [fst snd] in *.
    destruct (sync_reachable env (HotCache.added_pools d) (HotCache.removed_addresses d)
      (Engine.set_hot_cache (engine srv) h)) as (e' & H' & Hr' & Hh');
      [apply set_hot_reachable; [done|unfold Engine.room in *; lia]|done|done|].
    rewrite H'. cbn [mbind outcome_bind]. eexists _, _, _. split; [done|].
    split; [done|done|]. cbn. apply Hok. by rewrite Hh'.
Qed.


(** ** The control plane *)


(** The state does not govern the engine: whatever it is, the engine publishes
    the same. *)
Theorem halted_engine_publishes srv st env ev srv' resp arbs :
  step srv (EngineActivity env ev) = Ret (Some (srv', resp, arbs)) ->
  step (with_control srv st) (EngineActivity env ev) = Ret (Some (with_control srv' st, resp, arbs)).
Proof.
  cbn. destruct (EngineRun.handle env (engine srv) ev) as [[[e pub]|]|]; [|done..]. cbn. by intros [= <- <- <-].
Qed.
End Server.

(** ** Witnesses *)

Definition sample_arb (id : string) (profit : Z) : Pipeline.ProtoValidatedArb :=
  Pipeline.mkProtoArb id [] [] 0 [] (to_be 32 profit) 0 0 [] [] [] [] 1 [] 0 [].

Lemma stream_delivers_exactly_witness :
  Pipeline.pa_id <$> stream_arbs (f64_of_ratio 1 2) (Some 2%nat)
    [Got (sample_arb "a" (10 ^ 18)); Lagged 3; Got (sample_arb "b" (10 ^ 17)); Got (sample_arb "c" (5 * 10 ^ 17));
     Got (sample_arb "d" (10 ^ 40)); Closed; Got (sample_arb "e" (10 ^ 18))] = ["a"; "c"].
Proof.
  rewrite stream_delivers_exactly.
  - vm_compute. reflexivity.
  - repeat (apply Forall_cons; split; [vm_compute; repeat constructor; congruence|]). apply Forall_nil_2.
Defined.


End Server.
