(* ===== verification/Historical.v ===== *)
(** * Pool state at a past block

    [crates/grpc-server/src/historical.rs]: the helpers the offline binaries
    share. Pools of the configuration file, the state of a pool at a block, and
    the constant-product quote with checked arithmetic. *)

From Stdlib Require Import ZArith Lia String.
From S2P Require Import Prelude.
From S2P Require Import Machine.
From S2P Require Import F64.
From S2P Require Import Types.
From S2P Require Import Bytes.
From S2P Require Import Keccak.
From S2P Require Import Abi.
From S2P Require Import UniswapV2.
From stdpp Require Import base option numbers strings list.

Local Open Scope Z_scope.

Module Historical.

Inductive PoolState : Type :=
| V2 (r0 r1 : Z)
| V3 (sqrt_price_x96 liquidity : Z).

Record LoadedPool : Type := mkLoaded {
  address : Address;
  token0 : Address;
  token1 : Address;
  protocol : ProtocolType;
  fee_bps : Z;
}.

Record PoolEntry : Type := mkEntry {
  entry_protocol : string;
  entry_address : string;
  entry_token0 : string;
  entry_token1 : string;
  entry_fee_bps : Z;
}.

Definition parse_protocol (s : string) : option ProtocolType :=
  if decide (s = "uniswap_v2") then Some UniswapV2
  else if decide (s = "sushiswap") then Some SushiSwap
  else if decide (s = "uniswap_v3") then Some UniswapV3
  else if decide (s = "curve") then Some Types.Curve
  else if decide (s = "balancer_v2") then Some BalancerV2
  else if decide (s = "bancor_v3") then Some BancorV3
  else None.

(** The protocols the tools can read the state of. *)
Definition readable (p : ProtocolType) : bool :=
  match p with UniswapV2 | SushiSwap | UniswapV3 => true | _ => false end.

Section Load.
Context (parse_address : string -> option Address).

(** The loop over the parsed entries; the first address that does not parse is
    the error of the whole load. *)
Fixpoint load_entries (entries : list PoolEntry) : string + list LoadedPool :=
  match entries with
  | [] => inr []
  | entry :: entries =>
      match parse_protocol (entry_protocol entry) with
      | None => load_entries entries
      | Some p =>
          if negb (readable p) then load_entries entries
          else
            match parse_address (entry_address entry) with
            | None => inl "pool address"
            | Some a =>
                match parse_address (entry_token0 entry) with
                | None => inl "token0"
                | Some t0 =>
                    match parse_address (entry_token1 entry) with
                    | None => inl "token1"
                    | Some t1 =>
                        match load_entries entries with
                        | inl e => inl e
                        | inr l => inr (mkLoaded a t0 t1 p (entry_fee_bps entry) :: l)
                        end
                    end
                end
            end
      end
  end.

(** [raw]: the text of the file; [from_str]: the TOML parser. *)
Definition load_pools (raw : option string) (from_str : string -> option (list PoolEntry))
    : string + list LoadedPool :=
  match raw with
  | None => inl "read pool config"
  | Some text =>
      match from_str text with
      | None => inl "parse pool config"
      | Some entries => load_entries entries
      end
  end.
End Load.

(** [object]: the text at [/bytecode/object] of the artifact, when there is one;
    [hex_decode]: the decoder of the hex crate. *)
Definition load_executor_init_bytecode (hex_decode : string -> option (list Z)) (object : option string)
    : string + list Z :=
  match object with
  | None => inl "missing /bytecode/object in artifact"
  | Some hex_str =>
      let stripped := if String.prefix "0x" hex_str then substring 2 (String.length hex_str - 2) hex_str
                      else hex_str in
      match hex_decode stripped with
      | None => inl "decode bytecode hex"
      | Some [] => inl "executor bytecode is empty"
      | Some bytes => inr bytes
      end
  end.

(** ** The chain *)

Section Chain.
Context {K : Keccak} {A : SolAbi}.

(** [call block to calldata]: the answer of the node, [None] a transport error
    or a revert. The outer [None] of the result is that error. *)
Definition fetch_pool_state_at (call : Z -> Address -> list Z -> option (list Z)) (pool : LoadedPool)
    (block : Z) : option (option PoolState) :=
  match protocol pool with
  | UniswapV2 | SushiSwap =>
      out ← call block (address pool) (abi_encode_call "getReserves" [] tt);
      Some (if (64 <=? length out)%nat
            then Some (V2 (be (take 32 out)) (be (take 32 (drop 32 out))))
            else None)
  | UniswapV3 =>
      out ← call block (address pool) (abi_encode_call "slot0" [] tt);
      Some (if (32 <=? length out)%nat then
              let liquidity :=
                match call block (address pool) (abi_encode_call "liquidity" [] tt) with
                | Some lout =>
                    if (32 <=? length lout)%nat then default 0 (checked 128 (be (take 32 lout))) else 0
                | None => 0
                end in
              Some (V3 (be (take 32 out)) liquidity)
            else None)
  | _ => Some None
  end.
End Chain.

(** ** Arithmetic *)

Definition u256_to_f64 `{M : Libm} (v : Z) : f64 :=
  foldl (fun acc i => f64_add acc (f64_mul (f64_of_Z (limb v i)) (f64_powi (f64_of_Z 2) (64 * i))))
    f64_zero [0; 1; 2; 3].

Definition u256_checked_mul (a b : Z) : option Z := checked 256 (a * b).

Definition uniswap_v2_get_amount_out (amount_in reserve_in reserve_out fee_bps : Z) : option Z :=
  if (reserve_in =? 0) || (reserve_out =? 0) || (amount_in =? 0) then None
  else
    let fee_multiplier := u64_saturating_sub 10000 fee_bps in
    amount_in_with_fee ← u256_checked_mul amount_in fee_multiplier;
    numerator ← u256_checked_mul amount_in_with_fee reserve_out;
    scaled ← u256_checked_mul reserve_in 10000;
    denominator ← u256_checked_add scaled amount_in_with_fee;
    if denominator =? 0 then None else Some (numerator / denominator).

(** *** The quote and the pair contract *)

(** The fee the pair contract keeps, as the factor of the input it prices. *)
Definition fee_factor (fee_bps : Z) : Z := Z.max 0 (10000 - fee_bps).

(** The check of the pair contract when [out] leaves against [amount_in]: the
    product of the balances, the input's net of the fee, has not decreased. *)
Definition pair_accepts (x y fee_bps amount_in out : Z) : Prop :=
  x * 10000 * y <= (x * 10000 + amount_in * fee_factor fee_bps) * (y - out).

Lemma fee_factor_eq fee : 0 <= fee -> u64_saturating_sub 10000 fee = fee_factor fee.
Proof.
  intros H. unfold u64_saturating_sub, saturate, fee_factor.
  change (2 ^ 64 - 1) with 18446744073709551615. lia.
Qed.

(** A quote is the largest amount the pair contract lets go, and less than the
    reserve. *)
Lemma quote_largest a x y fee out : 0 <= a -> 0 <= x -> 0 <= y -> 0 <= fee ->
  uniswap_v2_get_amount_out a x y fee = Some out ->
  0 < a /\ 0 < x /\ 0 <= out < y /\ forall o, pair_accepts x y fee a o <-> o <= out.
Proof.
  intros Ha Hx Hy Hfee. unfold uniswap_v2_get_amount_out.
  destruct (Z.eqb_spec x 0), (Z.eqb_spec y 0), (Z.eqb_spec a 0); try done. cbn [orb].
  rewrite fee_factor_eq by done. unfold u256_checked_mul, u256_checked_add.
  set (f := fee_factor fee). assert (0 <= f) by (unfold f, fee_factor; lia).
  intros (w & (-> & _)%checked_Some & (nu & (-> & _)%checked_Some & (s & (-> & _)%checked_Some &
    (d & (-> & _)%checked_Some & Hd)%bind_Some)%bind_Some)%bind_Some)%bind_Some.
  destruct (Z.eqb_spec (x * 10000 + a * f) 0) as [|Hnz]; [done|]. injection Hd as <-.
  assert (0 < x * 10000 + a * f) by nia.
  split; [lia|]. split; [lia|]. split.
  - split; [apply Z.div_pos; nia|]. apply Z.div_lt_upper_bound; nia.
  - intros o. unfold pair_accepts. fold f. split.
    + intros H1. apply Z.div_le_lower_bound; nia.
    + intros H1. pose proof (Z.mul_div_le (a * f * y) (x * 10000 + a * f) ltac:(lia)). nia.
Qed.

(** A positive quote exists exactly when the products fit 256 bits, and is then
    that largest amount. *)
Lemma quote_iff a x y fee out : 0 <= a -> 0 <= x -> 0 <= y -> 0 <= fee ->
  (uniswap_v2_get_amount_out a x y fee = Some out /\ out <> 0) <->
  (0 < a /\ 0 < x /\ 0 < out /\ (forall o, pair_accepts x y fee a o <-> o <= out) /\
   a * fee_factor fee * y < 2 ^ 256 /\ x * 10000 + a * fee_factor fee < 2 ^ 256).
Proof.
  intros Ha Hx Hy Hfee. split.
  - intros [H Hn]. destruct (quote_largest a x y fee out) as (? & ? & [? ?] & Hk); try done.
    repeat (split; [done || lia|]). revert H. unfold uniswap_v2_get_amount_out.
    destruct (_ || _); [done|]. rewrite fee_factor_eq by done. unfold u256_checked_mul, u256_checked_add.
    intros (w & (-> & _)%checked_Some & (nu & (-> & Hnu)%checked_Some & (s & (-> & _)%checked_Some &
      (d & (-> & Hd)%checked_Some & _)%bind_Some)%bind_Some)%bind_Some)%bind_Some.
    unfold in_u in *. lia.
  - intros (Ha' & Hx' & Ho & Hk & H1 & H2). assert (0 <= fee_factor fee) by (unfold fee_factor; lia).
    assert (Hy' : 0 < y).
    { pose proof (proj2 (Hk out) ltac:(lia)) as K1. unfold pair_accepts in K1. nia. }
    assert (exists q, uniswap_v2_get_amount_out a x y fee = Some q) as [q Hq].
    { unfold uniswap_v2_get_amount_out, u256_checked_mul, u256_checked_add. rewrite fee_factor_eq by done.
      rewrite !(proj2 (Z.eqb_neq _ _)) by lia. cbn [orb].
      rewrite checked_in by (unfold in_u; nia). cbn [mbind option_bind].
      rewrite checked_in by (unfold in_u; nia). cbn [mbind option_bind].
      rewrite checked_in by (unfold in_u; nia). cbn [mbind option_bind].
      rewrite checked_in by (unfold in_u; nia). cbn [mbind option_bind].
      rewrite (proj2 (Z.eqb_neq _ _)) by nia. by eexists. }
    destruct (quote_largest a x y fee q) as (_ & _ & _ & Hkq); try done.
    assert (q = out) as ->; [|split; [done|lia]].
    apply Z.le_antisymm; [apply Hk, Hkq|apply Hkq, Hk]; lia.
Qed.

(** The scorer quotes what the engine quotes: whenever the checked quote exists
    for a V2 pool, the pool adapter returns the same amount, in every build. *)
Lemma quote_as_engine `{B : Build} p tk a x y out :
  UniswapV2Pool.wf p -> UniswapV2Pool.reserves_from p tk = Some (x, y) ->
  uniswap_v2_get_amount_out a x y (UniswapV2Pool.fee_bps p) = Some out ->
  UniswapV2Pool.get_amount_out p tk a = Ret (Some out).
Proof.
  intros Hp Hr. unfold uniswap_v2_get_amount_out, UniswapV2Pool.get_amount_out. rewrite Hr.
  destruct (Z.eqb_spec x 0), (Z.eqb_spec y 0), (Z.eqb_spec a 0); try done. cbn [orb].
  fold (UniswapV2Pool.fee_complement p). unfold u256_checked_mul, u256_checked_add.
  intros (w & (-> & H1)%checked_Some & (nu & (-> & H2)%checked_Some & (s & (-> & H3)%checked_Some &
    (d & (-> & H4)%checked_Some & Hd)%bind_Some)%bind_Some)%bind_Some)%bind_Some.
  destruct (Z.eqb_spec (x * 10000 + a * UniswapV2Pool.fee_complement p) 0) as [|Hnz]; [done|].
  injection Hd as <-. rewrite u256_mul_exact by done. cbn [mbind outcome_bind].
  rewrite u256_mul_exact by done. cbn [mbind outcome_bind].
  rewrite u256_mul_exact by done. cbn [mbind outcome_bind].
  rewrite u256_add_exact by done. cbn [mbind outcome_bind].
  rewrite u256_div_exact by done. done.
Qed.

(** Buying and selling back on one pair does not pay. *)
Lemma round_trip_loses a x y fee out back : 0 <= a -> 0 <= x -> 0 <= y -> 0 <= fee ->
  uniswap_v2_get_amount_out a x y fee = Some out ->
  uniswap_v2_get_amount_out out (y - out) (x + a) fee = Some back -> back <= a.
Proof.
  intros Ha Hx Hy Hfee H1 H2.
  destruct (quote_largest a x y fee out Ha Hx Hy Hfee H1) as (? & ? & [? ?] & Hk1).
  destruct (quote_largest out (y - out) (x + a) fee back ltac:(lia) ltac:(lia) ltac:(lia) Hfee H2)
    as (? & ? & [? ?] & Hk2).
  pose proof (proj2 (Hk1 out) ltac:(lia)) as K1. pose proof (proj2 (Hk2 back) ltac:(lia)) as K2.
  unfold pair_accepts in K1, K2. assert (0 <= fee_factor fee <= 10000) by (unfold fee_factor; lia).
  set (f := fee_factor fee) in *. clearbody f.
  assert (a * f * (y - out) <= a * 10000 * (y - out)) by (apply Z.mul_le_mono_nonneg_r; nia).
  assert (out * f * (x + a - back) <= out * 10000 * (x + a - back)) by (apply Z.mul_le_mono_nonneg_r; nia).
  assert (x * y <= (x + a) * (y - out)) by lia.
  assert ((y - out) * (x + a) <= y * (x + a - back)) by lia. nia.
Qed.

End Historical.
