(* ===== verification/ProfitScorer.v ===== *)
(** * The profit scorer

    [crates/grpc-server/src/bin/aether_profit_scorer.rs]: for each confirmed
    prediction, what the best cycle through its pool would have earned at the
    block where the victim landed. A reference graph is refreshed from the
    chain; a prediction is scored on a copy of it with the pool's state at that
    block. The database rows, the node's answers and the clocks are arguments. *)

From Stdlib Require Import ZArith Lia String.
From S2P Require Import Prelude.
From S2P Require Import Machine.
From S2P Require Import F64.
From S2P Require Import Types.
From S2P Require Import Bytes.
From S2P Require Import Keccak.
From S2P Require Import Abi.
From S2P Require Import UniswapV3.
From S2P Require Import TokenIndex.
From S2P Require Import PriceGraph.
From S2P Require Import Opportunity.
From S2P Require Import Optimizer.
From S2P Require Import BellmanFord.
From S2P Require Import Revm.
From S2P Require Import Simulator.
From S2P Require Import Pipeline.
From S2P Require Import Engine.
From S2P Require Import Detection.
From S2P Require Import BackrunSizing.
From S2P Require Import Historical.
From stdpp Require Import base option numbers strings gmap sets list.

Local Open Scope Z_scope.

Module ProfitScorer.
Import Historical.

Definition MAX_HOPS : nat := 4.
Definition DETECT_BUDGET_US : Z := 3000.
Definition DEFAULT_BASE_FEE_WEI : Z := 30000000000.
Definition DEFAULT_V2_FEE_BPS : Z := 30.
Definition DEFAULT_V3_FEE_BPS : Z := 5.
Definition MAX_PLAUSIBLE_F64_NET_WEI : Z := 1000000000000000000.
Definition MIN_LIQUIDITY_WETH : f64 := f64_one.
Definition AAVE_POOL : Address := 0x87870Bca3F3fD6335C3F4ce8392D69350B4fA4E2.
Definition BALANCER_VAULT : Address := 0xBA12222222228d8Ba445958a75a0704d566BF2C8.
Definition BANCOR_NETWORK : Address := 0xeEF417e1D5CC832e619ae18D2F140De2999dD4fB.
Definition SIM_OWNER : Address := 0x1111111111111111111111111111111111111111.

Definition DECISION_PROFITABLE : string := "profitable".
Definition DECISION_UNPROFITABLE : string := "unprofitable".
Definition DECISION_REVERTED : string := "reverted".
Definition DECISION_NO_PATH : string := "no_path".
Definition REASON_NA : string := "n/a".
Definition REASON_U256_WALKER : string := "u256_walker".
Definition REASON_ABSURDITY_FLOOR : string := "absurdity_floor".
Definition REASON_REVM_REVERT : string := "revm_revert".
Definition REASON_REVM_VERDICT : string := "revm_verdict".

Record UnscoredConfirmedPrediction : Type := mkPrediction {
  prediction_id : Z;
  pred_protocol : string;
  pred_pool_address : Address;
  pred_token_in : Address;
  pred_token_out : Address;
  pred_amount_in : Z;
  actual_target_block : Z;
}.

(** A hop of the recorded path. *)
Record JsonHop : Type := mkJsonHop {
  json_pool : string;
  json_token_in : string;
  json_token_out : string;
  json_protocol : string;
}.

Record ScoreOutcome : Type := mkOutcome {
  cycle_path : list JsonHop;
  realized_profit_wei : Z;
  gas_estimate_wei : Z;
  net_profit_wei : Z;
  decision : string;
  reason : string;
}.

Record ScorerState : Type := mkScorerState {
  graph : PriceGraph.t;
  token_index : TokenIndex.t;
  latest_states : gmap nat PoolState;
  base_fee_wei : Z;
  block_number : Z;
  block_timestamp : Z;
}.

(** ** Numbers *)

Definition i128_max : Z := 2 ^ 127 - 1.
Definition i128_saturating_add (a b : Z) : Z := Z.max (- 2 ^ 127) (Z.min i128_max (a + b)).

Definition u256_to_i128_saturating (v : Z) : Z :=
  if negb (limb v 2 =? 0) || negb (limb v 3 =? 0) || (Z.shiftr (limb v 1) 63 =? 1) then i128_max
  else Z.lor (Z.shiftl (limb v 1) 64) (limb v 0).

Section Numbers.
Context `{B : Build}.

Definition i128_neg (a : Z) : outcome Z := arith_s overflow_checks 128 (- a).

(** [(10_000u32 - fee_bps) as f64 / 10_000.0]. *)
Definition fee_multiplier (pool : LoadedPool) : outcome f64 :=
  d ← u32_sub 10000 (fee_bps pool);
  Ret (f64_div (f64_of_Z d) (f64_of_Z 10000)).

Definition base_fee_gwei (base_fee_wei : Z) : f64 := f64_div (f64_of_Z base_fee_wei) (f64_of_Z 1000000000).

Definition gas_estimate_for_protocols (protocols : list ProtocolType) (base_fee_wei : Z) : outcome Z :=
  units ← estimate_total_gas protocols (replicate (length protocols) 0);
  Ret (gas_cost_wei units (base_fee_gwei base_fee_wei)).

Definition no_path_outcome (gas : option Z) : outcome ScoreOutcome :=
  let gas_wei := default 0 gas in
  n ← i128_neg (to_signed 128 gas_wei);
  Ret (mkOutcome [] 0 gas_wei n DECISION_NO_PATH REASON_NA).
End Numbers.

(** ** The hops of a cycle *)

(** [windows(2)]. *)
Definition windows (path : list nat) : list (nat * nat) := zip path (tail path).

(** The first pool with an address, with its position. *)
Definition find_pool (pools : list LoadedPool) (a : Address) : option (nat * LoadedPool) :=
  i ← position (fun p => address p =? a) pools;
  p ← pools !! i; Some (i, p).

Section Hops.
Context (g : PriceGraph.t) (token_index : TokenIndex.t) (pools : list LoadedPool)
  (running_states : gmap nat PoolState).

(** The edge of least weight, the token it takes, and the pool it belongs to. *)
Definition resolve_hop (from_v to_v : nat) : option (PriceEdge * Address * nat * LoadedPool) :=
  edge ← BackrunSizing.edge_for_hop g from_v to_v;
  token_in ← TokenIndex.get_address token_index from_v;
  ' (pool_idx, pool_entry) ← find_pool pools (pool_address edge);
  Some (edge, token_in, pool_idx, pool_entry).

Definition is_v3_touching_cycle (cycle : DetectedCycle) : bool :=
  existsb (fun '(from_v, to_v) =>
             match resolve_hop from_v to_v with
             | Some (_, _, pool_idx, _) =>
                 match running_states !! pool_idx with Some (V3 _ _) => true | _ => false end
             | None => false
             end) (windows (path cycle)).

(** A swap on a local copy of a pair: what it gives, and the reserves after it. *)
Definition swap_local (r0 r1 : Z) (zero_for_one : bool) (current_amount fee_bps : Z) : option (Z * (Z * Z)) :=
  let '(r_in, r_out) := if zero_for_one then (r0, r1) else (r1, r0) in
  amount_out ← uniswap_v2_get_amount_out current_amount r_in r_out fee_bps;
  if amount_out =? 0 then None
  else
    r_in_new ← u256_checked_add r_in current_amount;
    r_out_new ← u256_checked_sub r_out amount_out;
    Some (amount_out, if zero_for_one then (r_in_new, r_out_new) else (r_out_new, r_in_new)).

(** The exact walk: [local_reserves] holds the reserves of the pools already
    traded with. *)
Fixpoint walk (local_reserves : gmap nat (Z * Z)) (current_amount : Z) (hops : list (nat * nat))
    : option Z :=
  match hops with
  | [] => Some current_amount
  | (from_v, to_v) :: hops =>
      ' (_, token_in, pool_idx, pool_entry) ← resolve_hop from_v to_v;
      ' (r0, r1) ← match local_reserves !! pool_idx with
                   | Some rs => Some rs
                   | None =>
                       match running_states !! pool_idx with
                       | Some (V2 r0 r1) => Some (r0, r1)
                       | _ => None
                       end
                   end;
      ' (amount_out, new_state) ←
        swap_local r0 r1 (token_in =? token0 pool_entry) current_amount (fee_bps pool_entry);
      walk (<[pool_idx := new_state]> local_reserves) amount_out hops
  end.

Definition verify_cycle_u256 (cycle : DetectedCycle) (optimal_input_wei : Z) : option Z :=
  if (length (path cycle) <? 2)%nat || (optimal_input_wei =? 0) then None
  else walk ∅ optimal_input_wei (windows (path cycle)).

Definition protocol_label (p : ProtocolType) : string :=
  match p with
  | UniswapV2 => "uni_v2"
  | UniswapV3 => "uni_v3"
  | SushiSwap => "sushi"
  | Types.Curve => "curve"
  | BalancerV2 | BalancerV3 => "balancer"
  | BancorV3 => "bancor"
  end.

Definition hex_address (a : Address) : string := "0x" +:+ hex_encode (to_be 20 a).

(** The recorded path takes the first edge between two vertices. *)
Definition json_hop (w : nat * nat) : option JsonHop :=
  edge ← find (fun e => bool_decide (to e = w.2)) (PriceGraph.edges_from g w.1);
  token_in ← TokenIndex.get_address token_index w.1;
  token_out ← TokenIndex.get_address token_index w.2;
  let proto_label :=
    default "unknown" ((fun p => protocol_label (protocol p)) <$>
                       find (fun p => address p =? pool_address edge) pools) in
  Some (mkJsonHop (hex_address (pool_address edge)) (hex_address token_in) (hex_address token_out) proto_label).

Definition cycle_to_json (cycle : DetectedCycle) : list JsonHop := omap json_hop (windows (path cycle)).

(** ** Sizing *)

Record OptimiserSuccess : Type := mkOptimised {
  opt_net_profit_wei : Z;
  opt_gas_cost_wei : Z;
  optimal_input_wei : Z;
}.

Section Optimise.
Context `{B : Build} `{M : Libm}.

(** The reserves of the hop, its fee factor and its rate, in that order for each
    hop; the protocols; the smallest input reserve. *)
Fixpoint gather_hops (hops : list (nat * nat))
    (acc : list Detection.curve * list ProtocolType * option f64)
    : outcome (option (list Detection.curve * list ProtocolType * option f64)) :=
  match hops with
  | [] => Ret (Some acc)
  | (from_v, to_v) :: hops =>
      match resolve_hop from_v to_v with
      | None => Ret None
      | Some (edge, token_in, pool_idx, pool_entry) =>
          fee ← fee_multiplier pool_entry;
          let rate := f64_exp (f64_neg (weight edge)) in
          let '(curves, protocols, min_liquidity) := acc in
          let '(rin, rout, min_liquidity) :=
            match running_states !! pool_idx with
            | Some (V2 r0 r1) =>
                let '(ri, ro) := if token_in =? token0 pool_entry then (r0, r1) else (r1, r0) in
                let ri_f := Historical.u256_to_f64 ri in
                let smaller := match min_liquidity with None => true | Some prev => f64_gt prev ri_f end in
                (ri_f, Historical.u256_to_f64 ro, if smaller then Some ri_f else min_liquidity)
            | Some (V3 _ _) | None => (f64_zero, f64_zero, min_liquidity)
            end in
          gather_hops hops (curves ++ [(rin, rout, fee, rate)], protocols ++ [protocol pool_entry], min_liquidity)
      end
  end.

(** [hop_reserves], [hop_fee_factors] and [hop_rates] at the same index. *)
Definition profit_fn (curves : list Detection.curve) (gas_cost_wei input : Z) : Z :=
  let current := foldl Detection.swap_output (Historical.u256_to_f64 input) curves in
  let output := Detection.f64_as_i128 current in
  let input_i128 := Detection.f64_as_i128 (Historical.u256_to_f64 input) in
  Detection.i128_saturating_sub (Detection.i128_saturating_sub output input_i128) (to_signed 128 gas_cost_wei).

Definition MIN_INPUT : Z := 10000000000000000.
Definition HARD_MAX : Z := 50000000000000000000.

Definition max_input (min_liquidity_wei : option f64) : Z :=
  match min_liquidity_wei with
  | Some liq =>
      if f64_gt liq f64_zero
      then if f64_as_u128 liq <? HARD_MAX then f64_as_u128 liq else HARD_MAX
      else HARD_MAX
  | None => HARD_MAX
  end.

Definition optimise_cycle (cycle : DetectedCycle) (base_fee_wei : Z) : outcome (option OptimiserSuccess) :=
  if (length (path cycle) <? 2)%nat then Ret None
  else
    gathered ← gather_hops (windows (path cycle)) ([], [], None);
    match gathered with
    | None => Ret None
    | Some (curves, protocols, min_liquidity) =>
        gas_units ← estimate_total_gas protocols (replicate (length protocols) 0);
        let gas_cost_wei := gas_cost_wei gas_units (base_fee_gwei base_fee_wei) in
        let profit := profit_fn curves gas_cost_wei in
        ' (optimal_input_wei, net_profit_wei) ←
          (if MIN_INPUT <? max_input min_liquidity
           then ternary_search_optimal_input (fun x => Ret (profit x)) MIN_INPUT (max_input min_liquidity) 80
           else Ret (MIN_INPUT, profit MIN_INPUT));
        Ret (Some (mkOptimised net_profit_wei gas_cost_wei optimal_input_wei))
    end.
End Optimise.

(** ** Verification in the EVM *)

Section Steps.
Context `{M : Libm} {K : Keccak} {A : SolAbi}.

(** The price limit of a V3 swap. *)
Definition sqrt_limit (zero_for_one : bool) : Z := if zero_for_one then 4295128740 else 2 ^ 160 - 2.

(** What a hop gives, and its calldata. *)
Definition hop_call (edge : PriceEdge) (token_in : Address) (pool_entry : LoadedPool) (state : PoolState)
    (executor_addr : Address) (current_amount : Z) : option (Z * list Z) :=
  match protocol pool_entry, state with
  | (UniswapV2 | SushiSwap), V2 r0 r1 =>
      let zero_for_one := token_in =? token0 pool_entry in
      let '(reserve_in, reserve_out) := if zero_for_one then (r0, r1) else (r1, r0) in
      out ← uniswap_v2_get_amount_out current_amount reserve_in reserve_out (fee_bps pool_entry);
      if out =? 0 then None
      else
        let '(amount0_out, amount1_out) := if zero_for_one then (0, out) else (out, 0) in
        Some (out, Pipeline.build_univ2_swap_calldata amount0_out amount1_out executor_addr)
  | UniswapV3, V3 _ _ =>
      let rate := f64_exp (f64_neg (weight edge)) in
      let approx_out :=
        f64_as_u128 (f64_max (f64_mul (Historical.u256_to_f64 current_amount) rate) f64_zero) in
      if approx_out =? 0 then None
      else
        let zero_for_one := token_in =? token0 pool_entry in
        let amt_u128 := saturate 128 current_amount in
        if amt_u128 <=? i128_max
        then Some (approx_out,
                   Pipeline.build_univ3_swap_calldata executor_addr zero_for_one amt_u128 (sqrt_limit zero_for_one))
        else None
  | _, _ => None
  end.

Fixpoint build_steps (executor_addr : Address) (current_amount : Z) (hops : list (nat * nat))
    : option (list SwapStep) :=
  match hops with
  | [] => Some []
  | (from_v, to_v) :: hops =>
      ' (edge, token_in, pool_idx, pool_entry) ← resolve_hop from_v to_v;
      token_out ← TokenIndex.get_address token_index to_v;
      state ← running_states !! pool_idx;
      ' (amount_out, inner_calldata) ← hop_call edge token_in pool_entry state executor_addr current_amount;
      steps ← build_steps executor_addr amount_out hops;
      Some (mkSwapStep (protocol pool_entry) (address pool_entry) token_in token_out current_amount 0
              inner_calldata :: steps)
  end.

Definition build_steps_from_cycle_sync (cycle : DetectedCycle) (executor_addr : Address)
    (flashloan_amount : Z) : option (list SwapStep) :=
  if (length (path cycle) <? 2)%nat then None
  else build_steps executor_addr flashloan_amount (windows (path cycle)).
End Steps.

Record RevmVerdict : Type := mkVerdict {
  gross_profit_wei : Z;
  verdict_gas_used : Z;
  reverted : bool;
}.

Definition balance_slot_for_token (token : Address) : option Z :=
  if token =? addresses.WETH then Some 3
  else if token =? addresses.USDC then Some 9
  else if (token =? addresses.DAI) || (token =? addresses.USDT) then Some 2
  else None.

Section Revm.
Context `{M : Libm} {K : Keccak} {A : SolAbi} `{E : Revm.Revm} `{HO : HashOrder}
  (create : Address -> Z -> Address).

Definition scorer_config : Simulator.SimConfig := Simulator.mkConfig 8000000 1 SIM_OWNER 0.

Definition arb_calldata (steps : list SwapStep) (start_token : Address) (optimal_input_wei : Z) : list Z :=
  Pipeline.build_execute_arb_calldata steps start_token optimal_input_wei u64_max 0 0.

Definition ctor_args : list Z :=
  Abi.encode (STuple [SAddress; SAddress; SAddress]) (AAVE_POOL, (BALANCER_VAULT, (BANCOR_NETWORK, tt))).

(** [create owner nonce]: the address of a contract [owner] creates; [fork]: the
    database of the node at a block. *)
Definition verify_cycle_revm (cycle : DetectedCycle) (optimal_input_wei : Z)
    (fork : Revm.BlockId -> option Revm.Db) (executor_init_bytecode : list Z)
    (block_number block_timestamp base_fee : Z) : option RevmVerdict :=
  if (length (path cycle) <? 2)%nat || (optimal_input_wei =? 0) then None
  else
    v ← head (path cycle);
    start_token ← TokenIndex.get_address token_index v;
    balance_slot ← balance_slot_for_token start_token;
    steps ← build_steps_from_cycle_sync cycle (create SIM_OWNER 0) optimal_input_wei;
    if (length steps =? 0)%nat then None
    else
      fork_state ← Revm.rpc_state_new fork block_number block_timestamp base_fee;
      let result :=
        Simulator.deploy_and_simulate_with_erc20_profit scorer_config fork_state SIM_OWNER
          executor_init_bytecode ctor_args (arb_calldata steps start_token optimal_input_wei)
          start_token SIM_OWNER balance_slot in
      Some (mkVerdict (sim_profit_wei result) (sim_gas_used result) (negb (sim_success result))).
End Revm.
End Hops.

(** ** Decisions *)

(** Net, realised, decision, reason. *)
Abbreviation verdict := (Z * Z * string * string)%type (only parsing).

Definition revm_verdict_to_decision `{B : Build} (rv : RevmVerdict) (gas_cost_wei : Z) : outcome verdict :=
  if reverted rv then
    n ← i128_neg (to_signed 128 gas_cost_wei);
    Ret (n, 0, DECISION_REVERTED, REASON_REVM_REVERT)
  else
    let gross_i128 := u256_to_i128_saturating (gross_profit_wei rv) in
    let net := Detection.i128_saturating_sub gross_i128 (to_signed 128 gas_cost_wei) in
    let realised := Z.max gross_i128 0 in
    let decision := if 0 <? net then DECISION_PROFITABLE else DECISION_UNPROFITABLE in
    Ret (net, realised, decision, REASON_REVM_VERDICT).

Definition f64_fallback_verdict (f64_net gas_cost_wei : Z) : verdict :=
  let realised := Z.max (i128_saturating_add f64_net (to_signed 128 gas_cost_wei)) 0 in
  if MAX_PLAUSIBLE_F64_NET_WEI <? f64_net then (f64_net, realised, DECISION_REVERTED, REASON_ABSURDITY_FLOOR)
  else if 0 <? f64_net then (f64_net, realised, DECISION_PROFITABLE, REASON_NA)
  else (f64_net, realised, DECISION_UNPROFITABLE, REASON_NA).

(** The verdict on an exact walk that returned [gross_out]. *)
Definition walker_verdict (gross_out optimal_input_wei gas_wei : Z) : verdict :=
  let gross_i128 :=
    Detection.i128_saturating_sub (u256_to_i128_saturating gross_out)
      (u256_to_i128_saturating optimal_input_wei) in
  let exact_net := Detection.i128_saturating_sub gross_i128 (to_signed 128 gas_wei) in
  let realised := Z.max gross_i128 0 in
  let decision :=
    if gross_out <? optimal_input_wei then DECISION_REVERTED
    else if 0 <? exact_net then DECISION_PROFITABLE
    else DECISION_UNPROFITABLE in
  (exact_net, realised, decision, REASON_U256_WALKER).

(** ** Scoring *)

(** The node and the clock while one prediction is scored or the graph is
    refreshed. [get_block]: the base fee and the timestamp of a block. *)
Record Env `{E : Revm.Revm} : Type := mkEnv {
  call : Z -> Address -> list Z -> option (list Z);
  get_block_number : option Z;
  get_block : Z -> option (option Z * Z);
  fork : Revm.BlockId -> option Revm.Db;
  elapsed : nat -> Z;
}.

Definition state_to_graph_reserves `{M : Libm} (s : PoolState) : f64 * f64 :=
  match s with
  | V2 r0 r1 => (Historical.u256_to_f64 r0, Historical.u256_to_f64 r1)
  | V3 sqrt_price_x96 liquidity => default (f64_zero, f64_zero) (virtual_reserves sqrt_price_x96 liquidity)
  end.

Definition collect_running_states (latest_states : gmap nat PoolState) (affected_idx : nat)
    (affected_state : PoolState) : gmap nat PoolState := <[affected_idx := affected_state]> latest_states.

Section Score.
Context `{B : Build} `{M : Libm} {K : Keccak} {A : SolAbi} `{E : Revm.Revm} `{HO : HashOrder}
  (create : Address -> Z -> Address).

(** The verdict on the best cycle, once it has been sized. *)
Definition judge (env : Env) (pools : list LoadedPool) (st : ScorerState) (g : PriceGraph.t)
    (running_states : gmap nat PoolState) (best : DetectedCycle) (o : OptimiserSuccess)
    (executor_bytecode : option (list Z)) : outcome verdict :=
  let gas_wei := opt_gas_cost_wei o in
  let fallback := f64_fallback_verdict (opt_net_profit_wei o) gas_wei in
  if negb (is_v3_touching_cycle g (token_index st) pools running_states best) then
    match verify_cycle_u256 g (token_index st) pools running_states best (optimal_input_wei o) with
    | Some gross_out => Ret (walker_verdict gross_out (optimal_input_wei o) gas_wei)
    | None => Ret fallback
    end
  else
    match executor_bytecode with
    | Some executor_bc =>
        match verify_cycle_revm g (token_index st) pools running_states create best (optimal_input_wei o)
                (fork env) executor_bc (block_number st) (block_timestamp st) (base_fee_wei st mod 2 ^ 64) with
        | Some rv => revm_verdict_to_decision rv gas_wei
        | None => Ret fallback
        end
    | None => Ret fallback
    end.

(** The scan of the updated graph and the score of its best cycle; [None]: the
    scan ran out of fuel. *)
Definition score_graph (env : Env) (pools : list LoadedPool) (st : ScorerState) (g : PriceGraph.t)
    (pool_idx : nat) (pool_entry : LoadedPool) (actual_state : PoolState) (t0 t1 : nat)
    (executor_bytecode : option (list Z)) : outcome (option ScoreOutcome) :=
  found ← BellmanFord.detect_from_affected (BellmanFord.new MAX_HOPS DETECT_BUDGET_US) (elapsed env) g [t0; t1];
  match found with
  | None => Ret None
  | Some cycles =>
      let no_cycle :=
        gas ← gas_estimate_for_protocols [protocol pool_entry] (base_fee_wei st);
        o ← no_path_outcome (Some gas);
        Ret (Some o) in
      match List.filter is_profitable cycles with
      | [] => no_cycle
      | best :: _ =>
          let running_states := collect_running_states (latest_states st) pool_idx actual_state in
          optimised ← optimise_cycle g (token_index st) pools running_states best (base_fee_wei st);
          match optimised with
          | None => no_cycle
          | Some o =>
              ' (net, realized, decision, reason) ←
                judge env pools st g running_states best o executor_bytecode;
              Ret (Some (mkOutcome (cycle_to_json g (token_index st) pools best) (realized mod 2 ^ 128)
                           (opt_gas_cost_wei o) net decision reason))
          end
      end
  end.

(** The error is a failed request for the pool's state. *)
Definition score_one (env : Env) (pools : list LoadedPool) (st : ScorerState)
    (pred : UnscoredConfirmedPrediction) (executor_bytecode : option (list Z))
    : outcome (option (string + ScoreOutcome)) :=
  let no_path := o ← no_path_outcome None; Ret (Some (inr o)) in
  match find_pool pools (pred_pool_address pred) with
  | None => no_path
  | Some (pool_idx, pool_entry) =>
      match fetch_pool_state_at (call env) pool_entry (actual_target_block pred) with
      | None => Ret (Some (inl "fetch_pool_state_at"))
      | Some None => no_path
      | Some (Some actual_state) =>
          match TokenIndex.get_index (token_index st) (token0 pool_entry) with
          | None => no_path
          | Some t0 =>
              match TokenIndex.get_index (token_index st) (token1 pool_entry) with
              | None => no_path
              | Some t1 =>
                  let pool_id := mkPoolId (address pool_entry) (protocol pool_entry) in
                  fee_factor ← fee_multiplier pool_entry;
                  let '(post0, post1) := state_to_graph_reserves actual_state in
                  if f64_le post0 f64_zero || f64_le post1 f64_zero then no_path
                  else
                    g ← PriceGraph.update_edge_from_reserves (graph st) t0 t1 pool_id post0 post1 fee_factor;
                    g ← PriceGraph.update_edge_from_reserves g t1 t0 pool_id post1 post0 fee_factor;
                    scored ← score_graph env pools st g pool_idx pool_entry actual_state t0 t1 executor_bytecode;
                    Ret (option_map inr scored)
              end
          end
      end
  end.

(** A row of the table. *)
Record NewProfitabilityScore : Type := mkScore {
  score_prediction_id : Z;
  score_outcome : ScoreOutcome;
  scoring_engine_git_sha : option string;
}.

(** The predictions with the answers each is scored with; a failed one is
    skipped. *)
Fixpoint score_all (pools : list LoadedPool) (st : ScorerState) (git_sha : option string)
    (executor_bytecode : option (list Z)) (batch : list (UnscoredConfirmedPrediction * Env))
    : outcome (option (list NewProfitabilityScore)) :=
  match batch with
  | [] => Ret (Some [])
  | (pred, env) :: batch =>
      r ← score_one env pools st pred executor_bytecode;
      match r with
      | None => Ret None
      | Some scored =>
          rest ← score_all pools st git_sha executor_bytecode batch;
          Ret match rest, scored with
              | None, _ => None
              | Some rows, inr o => Some (mkScore (prediction_id pred) o git_sha :: rows)
              | Some rows, inl _ => Some rows
              end
      end
  end.

(** [batch]: the unscored predictions, [None] when the query failed. *)
Definition score_batch (pools : list LoadedPool) (st : ScorerState) (git_sha : option string)
    (executor_bytecode : option (list Z)) (batch : option (list (UnscoredConfirmedPrediction * Env)))
    : outcome (option (list NewProfitabilityScore)) :=
  match batch with
  | None => Ret (Some [])
  | Some batch => score_all pools st git_sha executor_bytecode batch
  end.

(** ** The reference graph *)

Definition price_pool (g : PriceGraph.t) (t0 t1 : nat) (pool : LoadedPool) (liquidity : Z) (x y fee : f64)
    : outcome PriceGraph.t :=
  let pool_id := mkPoolId (address pool) (protocol pool) in
  g ← PriceGraph.add_edge g t0 t1 f64_one pool_id (address pool) (protocol pool) liquidity;
  g ← PriceGraph.add_edge g t1 t0 f64_one pool_id (address pool) (protocol pool) liquidity;
  g ← PriceGraph.update_edge_from_reserves g t0 t1 pool_id x y fee;
  PriceGraph.update_edge_from_reserves g t1 t0 pool_id y x fee.

(** The liquidity and reserves of the edges; [None]: the pool stays unpriced. *)
Definition priced_state (state : PoolState) : option (Z * f64 * f64) :=
  match state with
  | V2 r0 r1 =>
      let r0f := Historical.u256_to_f64 r0 in
      let r1f := Historical.u256_to_f64 r1 in
      let rate_0to1 := f64_div r1f r0f in
      if f64_eqb r0f f64_zero || f64_eqb r1f f64_zero then None
      else if negb (is_finite rate_0to1) || f64_le rate_0to1 f64_zero then None
      else Some (0, r0f, r1f)
  | V3 sqrt_price_x96 liquidity =>
      ' (x_v, y_v) ← virtual_reserves sqrt_price_x96 liquidity; Some (liquidity, x_v, y_v)
  end.

(** The vertices of a pool and its edges, when its state can be priced. *)
Definition seed_pool (ti : TokenIndex.t) (g : PriceGraph.t) (pool : LoadedPool) (state : PoolState)
    : outcome (TokenIndex.t * PriceGraph.t) :=
  let '(t0, ti) := TokenIndex.get_or_insert ti (token0 pool) in
  let '(t1, ti) := TokenIndex.get_or_insert ti (token1 pool) in
  let g := PriceGraph.resize g (TokenIndex.len ti) in
  let g := PriceGraph.set_token_decimals g t0 (default 18 (known_token_decimals (token0 pool))) in
  let g := PriceGraph.set_token_decimals g t1 (default 18 (known_token_decimals (token1 pool))) in
  let g :=
    if token0 pool =? addresses.WETH
    then PriceGraph.set_min_liquidity_weth (PriceGraph.set_weth_vertex g t0) MIN_LIQUIDITY_WETH
    else if token1 pool =? addresses.WETH
    then PriceGraph.set_min_liquidity_weth (PriceGraph.set_weth_vertex g t1) MIN_LIQUIDITY_WETH
    else g in
  fee ← fee_multiplier pool;
  match priced_state state with
  | None => Ret (ti, g)
  | Some (liquidity, x, y) => g ← price_pool g t0 t1 pool liquidity x y fee; Ret (ti, g)
  end.

Fixpoint seed_pools (latest_states : gmap nat PoolState) (idx : nat) (pools : list LoadedPool)
    (ti : TokenIndex.t) (g : PriceGraph.t) : outcome (TokenIndex.t * PriceGraph.t) :=
  match pools with
  | [] => Ret (ti, g)
  | pool :: pools =>
      match latest_states !! idx with
      | None => seed_pools latest_states (S idx) pools ti g
      | Some state =>
          ' (ti, g) ← seed_pool ti g pool state;
          seed_pools latest_states (S idx) pools ti g
      end
  end.

(** The states at the head; [None] when a request fails. *)
Fixpoint fetch_states (env : Env) (head : Z) (idx : nat) (pools : list LoadedPool)
    : option (gmap nat PoolState) :=
  match pools with
  | [] => Some ∅
  | pool :: pools =>
      r ← fetch_pool_state_at (call env) pool head;
      rest ← fetch_states env head (S idx) pools;
      Some match r with Some state => <[idx := state]> rest | None => rest end
  end.

Definition head_base_fee (env : Env) (head : Z) : Z :=
  default DEFAULT_BASE_FEE_WEI (b ← get_block env head; b.1).

Definition bootstrap_state (pools : list LoadedPool) (env : Env) : outcome (string + ScorerState) :=
  match get_block_number env with
  | None => Ret (inl "get_block_number")
  | Some head =>
      let block_timestamp := default 0 (snd <$> get_block env head) in
      match fetch_states env head 0 pools with
      | None => Ret (inl "fetch_pool_state_at")
      | Some latest_states =>
          ' (ti, g) ← seed_pools latest_states 0 pools TokenIndex.new (PriceGraph.new 10);
          Ret (inr (mkScorerState g ti latest_states (head_base_fee env head) head block_timestamp))
      end
  end.

(** ** The pools of the database *)

Definition parse_db_protocol (s : string) : option ProtocolType :=
  if decide (s = "uni_v2") then Some UniswapV2
  else if decide (s = "uni_v3") then Some UniswapV3
  else if decide (s = "sushi") then Some SushiSwap
  else None.

(** A row of the query: pool, protocol, and the tokens of one prediction. *)
Abbreviation DbPoolRow := (list Z * string * list Z * list Z)%type (only parsing).

Definition db_pool (known : gset Z) (row : DbPoolRow) : option LoadedPool :=
  let '(pool_bytes, proto_str, tin_bytes, tout_bytes) := row in
  if negb (length pool_bytes =? 20)%nat || negb (length tin_bytes =? 20)%nat
     || negb (length tout_bytes =? 20)%nat
  then None
  else
    let addr := be pool_bytes in
    if bool_decide (addr ∈ known) then None
    else
      protocol ← parse_db_protocol proto_str;
      let tin := be tin_bytes in
      let tout := be tout_bytes in
      let '(token0, token1) := if tin <? tout then (tin, tout) else (tout, tin) in
      let fee_bps := match protocol with UniswapV3 => DEFAULT_V3_FEE_BPS | _ => DEFAULT_V2_FEE_BPS end in
      Some (mkLoaded addr token0 token1 protocol fee_bps).

Definition load_predicted_pools (known : gset Z) (rows : list DbPoolRow) : list LoadedPool :=
  omap (db_pool known) rows.

(** ** The process *)

Record Scorer : Type := mkScorer {
  pools : list LoadedPool;
  state : ScorerState;
  git_sha : option string;
  bytecode : option (list Z);
}.

(** [rows]: the answer of the database, [None] when the query failed. *)
Definition augment (pools : list LoadedPool) (rows : option (list DbPoolRow)) : list LoadedPool :=
  match rows with
  | None => pools
  | Some rows => pools ++ load_predicted_pools (list_to_set (address <$> pools)) rows
  end.

Definition scorer_boot (configured : string + list LoadedPool) (git_sha : option string)
    (bytecode : option (list Z)) (rows : option (list DbPoolRow)) (env : Env) : outcome (string + Scorer) :=
  match configured with
  | inl e => Ret (inl e)
  | inr pools =>
      let pools := augment pools rows in
      r ← bootstrap_state pools env;
      Ret match r with
          | inl e => inl e
          | inr st => inr (mkScorer pools st git_sha bytecode)
          end
  end.

Inductive Tick : Type :=
| PollTick (batch : option (list (UnscoredConfirmedPrediction * Env)))
| RefreshTick (rows : option (list DbPoolRow)) (env : Env).

(** One turn of the loop, with the rows it writes. *)
Definition scorer_step (s : Scorer) (t : Tick) : outcome (option (Scorer * list NewProfitabilityScore)) :=
  match t with
  | PollTick batch =>
      rows ← score_batch (pools s) (state s) (git_sha s) (bytecode s) batch;
      Ret (option_map (fun rows => (s, rows)) rows)
  | RefreshTick rows env =>
      let pools := augment (pools s) rows in
      r ← bootstrap_state pools env;
      Ret (Some (mkScorer pools match r with inl _ => state s | inr fresh => fresh end
                   (git_sha s) (bytecode s), []))
  end.

Fixpoint scorer_run (s : Scorer) (ts : list Tick) : outcome (option (Scorer * list NewProfitabilityScore)) :=
  match ts with
  | [] => Ret (Some (s, []))
  | t :: ts =>
      r ← scorer_step s t;
      match r with
      | None => Ret None
      | Some (s, rows) =>
          r ← scorer_run s ts;
          Ret (option_map (fun '(s, rows') => (s, rows ++ rows')) r)
      end
  end.
End Score.

(** [wss://] and [ws://] become their HTTP forms. *)
Definition rewrite_ws_to_http (url : string) : string :=
  if String.prefix "wss://" url then "https://" +:+ substring 6 (String.length url - 6) url
  else if String.prefix "ws://" url then "http://" +:+ substring 5 (String.length url - 5) url
  else url.

(** ** Hops *)

Lemma length_windows p : length (windows p) = pred (length p).
Proof. unfold windows. destruct p as [|v p]; [done|]. rewrite length_zip. cbn [tail length pred]. lia. Qed.

Lemma find_pool_elem ps a i p : find_pool ps a = Some (i, p) -> ps !! i = Some p /\ address p = a.
Proof.
  unfold find_pool. intros (j & Hj & (p0 & Hp & [= -> ->])%bind_Some)%bind_Some. split; [done|].
  apply position_Some in Hj as (p1 & Hp1 & Ha). rewrite Hp in Hp1. injection Hp1 as <-. by apply Z.eqb_eq.
Qed.

Lemma resolve_elem g ti ps a b e tk i p : resolve_hop g ti ps a b = Some (e, tk, i, p) -> p ∈ ps.
Proof.
  unfold resolve_hop.
  intros (e' & _ & (tk' & _ & ([i' p'] & Hf & [= -> -> -> ->])%bind_Some)%bind_Some)%bind_Some.
  apply find_pool_elem in Hf as [Hp _]. by eapply list_elem_of_lookup_2.
Qed.

(** ** The exact walk is the execution of the pairs *)

Section Walk.
Context (g : PriceGraph.t) (ti : TokenIndex.t) (ps : list LoadedPool) (running : gmap nat PoolState).

(** A trade: the pool, its direction and its fee. *)
Definition trade : Type := nat * bool * Z.

Definition trade_of (w : nat * nat) (t : trade) : Prop :=
  exists e tk i p, resolve_hop g ti ps w.1 w.2 = Some (e, tk, i, p) /\ t = (i, tk =? token0 p, fee_bps p).

(** The pairs the states describe. *)
Definition pairs_of (s : gmap nat PoolState) : gmap nat (Z * Z) :=
  omap (fun s => match s with V2 r0 r1 => Some (r0, r1) | V3 _ _ => None end) s.

(** Trades one after the other on the pairs: each takes the largest amount its
    pair lets go, out of the reserves the trades before it left. *)
Inductive executes : gmap nat (Z * Z) -> Z -> list trade -> Z -> Prop :=
| executes_end w a : executes w a [] a
| executes_trade w a i zfo fee r0 r1 out ts gross :
    let x := if zfo : bool then r0 else r1 in
    let y := if zfo then r1 else r0 in
    w !! i = Some (r0, r1) -> 0 < a -> 0 < x -> 0 < out ->
    (forall o, pair_accepts x y fee a o <-> o <= out) ->
    a * fee_factor fee * y < 2 ^ 256 -> x * 10000 + a * fee_factor fee < 2 ^ 256 ->
    executes (<[i := if zfo then (r0 + a, r1 - out) else (r0 - out, r1 + a)]> w) out ts gross ->
    executes w a ((i, zfo, fee) :: ts) gross.

Definition pairs_ok (w : gmap nat (Z * Z)) : Prop :=
  map_Forall (fun _ r => in_u 256 r.1 /\ in_u 256 r.2) w.
Definition state_ok (s : PoolState) : Prop :=
  match s with V2 r0 r1 => in_u 256 r0 /\ in_u 256 r1 | V3 _ _ => True end.
Definition states_ok (s : gmap nat PoolState) : Prop := map_Forall (fun _ => state_ok) s.

Lemma pairs_of_ok s : states_ok s -> pairs_ok (pairs_of s).
Proof.
  intros H i r Hr. unfold pairs_of in Hr. rewrite lookup_omap in Hr.
  destruct (s !! i) as [[r0 r1|]|] eqn:E; try done. injection Hr as <-. exact (H i _ E).
Qed.

Lemma walk_state local i :
  match local !! i with
  | Some rs => Some rs
  | None => match running !! i with Some (V2 r0 r1) => Some (r0, r1) | _ => None end
  end = (local ∪ pairs_of running) !! i.
Proof.
  rewrite lookup_union. unfold pairs_of. rewrite lookup_omap.
  destruct (local !! i), (running !! i) as [[]|]; done.
Qed.

Context (Hfees : Forall (fun p => 0 <= fee_bps p) ps).

Lemma resolve_fee a b e tk i p : resolve_hop g ti ps a b = Some (e, tk, i, p) -> 0 <= fee_bps p.
Proof. intros H%resolve_elem. rewrite Forall_forall in Hfees. by apply Hfees. Qed.

Lemma quote_fits a x y fee out : 0 <= a -> 0 <= x -> in_u 256 y -> 0 <= fee ->
  uniswap_v2_get_amount_out a x y fee = Some out /\ out <> 0 -> in_u 256 (x + a) /\ in_u 256 (y - out).
Proof.
  unfold in_u. intros Ha Hx Hy Hf Hq.
  destruct (quote_largest a x y fee out) as (? & ? & ? & _); try lia; [apply Hq|].
  apply quote_iff in Hq as (_ & _ & Ho & Hk & _ & Hb); try lia.
  assert (1 <= fee_factor fee); [|nia].
  destruct (Z.eq_dec (fee_factor fee) 0) as [Hz|]; [|unfold fee_factor in *; lia].
  pose proof (proj2 (Hk out) ltac:(lia)) as K1. unfold pair_accepts in K1. rewrite Hz in K1. nia.
Qed.

(** A local swap is a trade, and its reserves fit. *)
Lemma swap_local_iff (r0 r1 : Z) zfo a fee out new : in_u 256 r0 /\ in_u 256 r1 -> 0 <= a -> 0 <= fee ->
  let x := if zfo : bool then r0 else r1 in
  let y := if zfo then r1 else r0 in
  swap_local r0 r1 zfo a fee = Some (out, new) <->
  (0 < a /\ 0 < x /\ 0 < out /\ (forall o, pair_accepts x y fee a o <-> o <= out) /\
   a * fee_factor fee * y < 2 ^ 256 /\ x * 10000 + a * fee_factor fee < 2 ^ 256) /\
  new = (if zfo then (r0 + a, r1 - out) else (r0 - out, r1 + a)).
Proof.
  intros Hr Ha Hf x y.
  assert (Hxy : 0 <= x /\ in_u 256 y) by (unfold x, y, in_u in *; destruct zfo; lia).
  pose proof (fun o => quote_fits a x y fee o Ha (proj1 Hxy) (proj2 Hxy) Hf) as Hfit.
  rewrite <-quote_iff by (unfold in_u in *; lia). unfold swap_local, u256_checked_add, u256_checked_sub.
  replace (if zfo then (r0, r1) else (r1, r0)) with (x, y) by (unfold x, y; by destruct zfo). split.
  - intros (o & Hq & H)%bind_Some. destruct (Z.eqb_spec o 0) as [|Hn]; [done|].
    destruct (Hfit o (conj Hq Hn)) as [F1 F2]. rewrite !checked_in in H by done. cbn in H.
    injection H as <- <-. split; [done|]. unfold x, y. by destruct zfo.
  - intros ([Hq Hn] & ->). destruct (Hfit out (conj Hq Hn)) as [F1 F2]. rewrite Hq. cbn [mbind option_bind].
    rewrite (proj2 (Z.eqb_neq _ _)) by done. rewrite !checked_in by done. cbn. unfold x, y. by destruct zfo.
Qed.

Lemma swap_local_fits (r0 r1 : Z) zfo a fee out new : in_u 256 r0 /\ in_u 256 r1 -> 0 <= a -> 0 <= fee ->
  swap_local r0 r1 zfo a fee = Some (out, new) -> 0 < out /\ in_u 256 new.1 /\ in_u 256 new.2.
Proof.
  intros Hr Ha Hf Hs. apply swap_local_iff in Hs as (Hc & ->); [|done|done|done].
  split; [apply Hc|]. apply quote_iff in Hc; try (unfold in_u in *; destruct zfo; lia).
  apply quote_fits in Hc; try (unfold in_u in *; destruct zfo; lia). destruct zfo; naive_solver.
Qed.

Lemma walk_iff hops : forall local a gross, pairs_ok (local ∪ pairs_of running) -> 0 <= a ->
  walk g ti ps running local a hops = Some gross <->
  exists ts, Forall2 trade_of hops ts /\ executes (local ∪ pairs_of running) a ts gross.
Proof.
  induction hops as [|[u v] hops IH]; intros local a gross Hok Ha; cbn [walk].
  { split; [intros [= ->]; exists []; split; [done|constructor]|].
    intros (ts & Hts & Hex). inversion Hts; subst. by inversion Hex. }
  split.
  - intros ([[[e tk] i] p] & Er & ([r0 r1] & Ew & ([out new] & Hs & H)%bind_Some)%bind_Some)%bind_Some.
    pose proof (resolve_fee _ _ _ _ _ _ Er) as Hfee. rewrite walk_state in Ew.
    pose proof (swap_local_fits _ _ _ _ _ _ _ (Hok i _ Ew) Ha Hfee Hs) as [Ho Hn].
    apply swap_local_iff in Hs as ((? & ? & ? & ? & ? & ?) & ->); [|by apply (Hok i _ Ew)|done|done].
    apply IH in H as (ts & Hts & Hex); [|rewrite <-insert_union_l; by apply map_Forall_insert_2|lia].
    rewrite <-insert_union_l in Hex. exists ((i, tk =? token0 p, fee_bps p) :: ts).
    split; [constructor; [by exists e, tk, i, p|done]|]. by econstructor.
  - intros (ts & Hts & Hex). inversion Hts as [|? t ? ts' (e & tk & i & p & Er & ->) Hts']; subst.
    cbn in Er. rewrite Er. cbn [mbind option_bind]. rewrite walk_state.
    inversion Hex as [|? ? ? ? ? r0 r1 out ? ? x y Hw Ha' Hx' Ho Hk Hb1 Hb2 Hrest]; subst.
    rewrite Hw. cbn [mbind option_bind]. pose proof (resolve_fee _ _ _ _ _ _ Er) as Hfee.
    destruct (swap_local r0 r1 (tk =? token0 p) a (fee_bps p)) as [[o new]|] eqn:Es.
    + pose proof (swap_local_fits _ _ _ _ _ _ _ (Hok i _ Hw) Ha Hfee Es) as [_ Hn].
      apply swap_local_iff in Es as ((_ & _ & _ & Hk' & _) & ->); [|by apply (Hok i _ Hw)|done|done].
      assert (o = out) as -> by (apply Z.le_antisymm; [apply Hk, Hk'|apply Hk', Hk]; lia).
      cbn [mbind option_bind]. apply IH; [rewrite <-insert_union_l; by apply map_Forall_insert_2|lia|].
      exists ts'. split; [done|]. by rewrite <-insert_union_l.
    + exfalso. eapply eq_None_not_Some; [exact Es|]. eexists. apply swap_local_iff; [by apply (Hok i _ Hw)|done|done|].
      by split.
Qed.

Lemma walk_range hops : forall local a gross, pairs_ok (local ∪ pairs_of running) -> in_u 256 a ->
  walk g ti ps running local a hops = Some gross -> in_u 256 gross.
Proof.
  induction hops as [|[u v] hops IH]; intros local a gross Hok Ha; cbn [walk]; [by intros [= <-]|].
  intros ([[[e tk] i] p] & Er & ([r0 r1] & Ew & ([out new] & Hs & H)%bind_Some)%bind_Some)%bind_Some.
  pose proof (resolve_fee _ _ _ _ _ _ Er) as Hfee. rewrite walk_state in Ew. pose proof (Hok i _ Ew) as Hr.
  pose proof (swap_local_fits _ _ _ _ _ _ _ Hr (proj1 Ha) Hfee Hs) as [Ho Hn].
  apply swap_local_iff in Hs as (_ & ->); [|done|apply Ha|done].
  eapply IH; [|  |exact H]; [rewrite <-insert_union_l; by apply map_Forall_insert_2|].
  cbn in Hr. unfold in_u in *. destruct (tk =? token0 p); cbn in Hn; lia.
Qed.

(** Selling back to the pair one bought from returns no more than was paid. *)
Lemma executes_round_trip w a i zfo fee gross : pairs_ok w -> 0 <= fee ->
  executes w a [(i, zfo, fee); (i, negb zfo, fee)] gross -> gross <= a.
Proof.
  intros Hok Hfee H. inversion H as [|? ? ? ? ? r0 r1 out ? ? x y Hw Ha Hx Ho Hk B1 B2 H2]; subst.
  inversion H2 as [|? ? ? ? ? r0' r1' out' ? ? x' y' Hw' Ha' Hx' Ho' Hk' B1' B2' H3]; subst. inversion H3; subst.
  rewrite lookup_insert_eq in Hw'. pose proof (Hok i _ Hw) as [H0 H1]. cbn in H0, H1. unfold in_u in *.
  assert (Hq : uniswap_v2_get_amount_out a x y fee = Some out /\ out <> 0)
    by (apply quote_iff; unfold x, y; destruct zfo; try lia; done).
  assert (x' = y - out /\ y' = x + a) as [Ex Ey]
    by (unfold x, y, x', y'; destruct zfo; cbn; by injection Hw' as <- <-).
  assert (0 <= x /\ 0 <= y) by (unfold x, y; destruct zfo; lia).
  destruct (quote_largest a x y fee out) as (_ & _ & ? & _); try lia; [apply Hq|].
  clearbody x' y'. subst x' y'.
  assert (Hq' : uniswap_v2_get_amount_out out (y - out) (x + a) fee = Some gross /\ gross <> 0)
    by (apply quote_iff; try lia; done).
  eapply (round_trip_loses a x y fee out gross); try lia; [apply Hq|apply Hq'].
Qed.

Lemma trades_unique ws : forall ts ts', Forall2 trade_of ws ts -> Forall2 trade_of ws ts' -> ts = ts'.
Proof.
  induction ws as [|w ws IH]; intros ts ts' H H'; inversion H as [|? t ? ? Hw Hws]; subst;
    inversion H' as [|? t' ? ? Hw' Hws']; subst; [done|].
  f_equal; [|by apply IH]. destruct Hw as (? & ? & ? & ? & Hr & ->), Hw' as (? & ? & ? & ? & Hr' & ->).
  rewrite Hr in Hr'. by injection Hr' as <- <- <- <-.
Qed.

Lemma verify_iff cycle input gross : states_ok running -> 0 < input ->
  verify_cycle_u256 g ti ps running cycle input = Some gross <->
  (2 <= length (path cycle))%nat /\
  exists ts, Forall2 trade_of (windows (path cycle)) ts /\ executes (pairs_of running) input ts gross.
Proof.
  intros Hok%pairs_of_ok Hpos.
  unfold verify_cycle_u256. rewrite (proj2 (Z.eqb_neq input 0)), orb_false_r by lia.
  destruct (Nat.ltb_spec (length (path cycle)) 2) as [|Hl]; [split; [done|lia]|].
  rewrite walk_iff by (rewrite ?map_empty_union; lia || done). rewrite map_empty_union.
  split; [by intros H|by intros [_ H]].
Qed.

Lemma verify_range cycle input gross : states_ok running -> in_u 256 input ->
  verify_cycle_u256 g ti ps running cycle input = Some gross -> in_u 256 gross.
Proof.
  intros Hok%pairs_of_ok Hi. unfold verify_cycle_u256. destruct (_ || _); [done|].
  apply walk_range; [by rewrite map_empty_union|done].
Qed.

(** C22. The exact verifier runs the cycle. It returns an amount exactly when every
    hop of the cycle resolves to a pair and the trades can be made one after the
    other on the reserves it was given, each for the largest amount the pair
    contract lets go and against the reserves the earlier trades left, within
    256 bits; the amount is what the last trade pays. A cycle that only goes to
    and fro on one pair is never reported to pay. *)
Theorem verify_cycle_exact cycle input gross : states_ok running -> 0 < input ->
  (verify_cycle_u256 g ti ps running cycle input = Some gross <->
   (2 <= length (path cycle))%nat /\
   exists ts, Forall2 trade_of (windows (path cycle)) ts /\ executes (pairs_of running) input ts gross) /\
  (forall i zfo fee, Forall2 trade_of (windows (path cycle)) [(i, zfo, fee); (i, negb zfo, fee)] ->
     verify_cycle_u256 g ti ps running cycle input = Some gross -> gross <= input).
Proof.
  intros Hs Hpos. pose proof (pairs_of_ok _ Hs) as Hok. pose proof (verify_iff cycle input gross Hs Hpos) as Hiff.
  split; [done|]. intros i zfo fee Ht Hv. apply Hiff in Hv as (_ & ts & Hts & Hex).
  rewrite (trades_unique _ _ _ Hts Ht) in Hex.
  apply (executes_round_trip _ _ _ _ _ _ Hok) in Hex; [done|].
  apply Forall2_cons_inv_r in Ht as (? & ? & (? & ? & ? & p & Hr & Heq) & _). injection Heq as _ _ ->. by eapply resolve_fee.
Qed.
End Walk.

(** ** Every verdict is justified *)

Lemma u256_to_i128_eq v : in_u 256 v -> u256_to_i128_saturating v = Z.min v i128_max.
Proof.
  intros [Hv0 Hv]. unfold u256_to_i128_saturating, limb, i128_max.
  change (64 * 0) with 0. change (64 * 1) with 64. change (64 * 2) with 128. change (64 * 3) with 192.
  rewrite Z.div_1_r, shiftl_lor_add by (try apply Z.mod_pos_bound; lia).
  rewrite Z.shiftr_div_pow2 by lia.
  pose proof (Z.div_mod v (2 ^ 64) ltac:(lia)) as E0.
  pose proof (Z.div_mod (v / 2 ^ 64) (2 ^ 64) ltac:(lia)) as E1.
  pose proof (Z.div_mod (v / 2 ^ 128) (2 ^ 64) ltac:(lia)) as E2.
  rewrite !Z.div_div in E1, E2 by lia. change (2 ^ 64 * 2 ^ 64) with (2 ^ 128) in E1.
  change (2 ^ 128 * 2 ^ 64) with (2 ^ 192) in E2.
  assert (0 <= v / 2 ^ 192 < 2 ^ 64) by (split; [apply Z.div_pos|apply Z.div_lt_upper_bound]; lia).
  rewrite (Z.mod_small (v / 2 ^ 192)) by done.
  pose proof (Z.mod_pos_bound v (2 ^ 64) ltac:(lia)). pose proof (Z.mod_pos_bound (v / 2 ^ 64) (2 ^ 64) ltac:(lia)).
  pose proof (Z.mod_pos_bound (v / 2 ^ 128) (2 ^ 64) ltac:(lia)).
  set (l0 := v mod 2 ^ 64) in *. set (l1 := (v / 2 ^ 64) mod 2 ^ 64) in *. set (l2 := (v / 2 ^ 128) mod 2 ^ 64) in *.
  pose proof (Z.div_mod l1 (2 ^ 63) ltac:(lia)) as E3. pose proof (Z.mod_pos_bound l1 (2 ^ 63) ltac:(lia)).
  destruct (Z.eqb_spec l2 0), (Z.eqb_spec (v / 2 ^ 192) 0), (Z.eqb_spec (l1 / 2 ^ 63) 1); cbn [negb orb]; nia.
Qed.

(** The protocol lists of at most [n] hops. *)
Definition protocols : list ProtocolType :=
  [UniswapV2; UniswapV3; SushiSwap; Types.Curve; BalancerV2; BalancerV3; BancorV3].
Fixpoint routes (n : nat) : list (list ProtocolType) :=
  match n with
  | O => [[]]
  | S n => [] :: (p ← protocols; cons p <$> routes n)
  end.

(** A base fee at which no route costs [2 ^ 126] wei. *)
Definition affordable (fee : Z) : bool :=
  forallb (fun ps => gas_cost_wei (131000 + route_gas_spec 0 ps (replicate (length ps) 0)) (base_fee_gwei fee)
                     <? 2 ^ 126) (routes MAX_HOPS).

Lemma routes_all ps : forall n, (length ps <= n)%nat -> ps ∈ routes n.
Proof.
  induction ps as [|p ps IH]; intros [|n] Hn; cbn [length routes] in *; try lia; [left|left|right].
  apply list_elem_of_bind. exists p. split; [apply list_elem_of_fmap_2, IH; lia|].
  destruct p; unfold protocols; set_solver.
Qed.

Section Verdicts.
Context `{B : Build}.

Lemma route_gas ps fee : affordable fee = true -> (length ps <= MAX_HOPS)%nat ->
  exists gas, gas_estimate_for_protocols ps fee = Ret gas /\ 0 <= gas < 2 ^ 126.
Proof.
  intros Ha Hn. unfold gas_estimate_for_protocols.
  rewrite estimate_total_gas_exact by (try (apply Forall_replicate; range; lia); unfold MAX_HOPS in *; lia).
  cbn [mbind outcome_bind]. eexists. split; [done|]. split; [apply BackrunSizing.gas_cost_nonneg|].
  apply Z.ltb_lt. unfold affordable in Ha. rewrite forallb_forall in Ha.
  apply Ha, list_elem_of_In, routes_all, Hn.
Qed.

Lemma to_signed_small gas : 0 <= gas < 2 ^ 127 -> to_signed 128 gas = gas.
Proof. intros H. unfold to_signed. rewrite Z.mod_small by lia. by rewrite (proj2 (Z.ltb_lt _ _)) by lia. Qed.

Lemma no_path_returns gas : (forall v, gas = Some v -> 0 <= v < 2 ^ 127) ->
  no_path_outcome gas = Ret (mkOutcome [] 0 (default 0 gas) (- default 0 gas) DECISION_NO_PATH REASON_NA).
Proof.
  intros H. assert (0 <= default 0 gas < 2 ^ 127) by (destruct gas; [by apply H|done]).
  unfold no_path_outcome, i128_neg. rewrite to_signed_small by done.
  by rewrite arith_s_exact by (unfold in_s; lia).
Qed.

Definition fee_ok (p : LoadedPool) : Prop := 0 <= fee_bps p <= 10000.

Lemma fee_multiplier_returns p : fee_ok p ->
  fee_multiplier p = Ret (f64_div (f64_of_Z (10000 - fee_bps p)) (f64_of_Z 10000)).
Proof. intros H. unfold fee_multiplier, fee_ok in *. rewrite u32_sub_exact by (range; lia). done. Qed.

Section Sized.
Context `{M : Libm} (g : PriceGraph.t) (ti : TokenIndex.t) (ps : list LoadedPool) (running : gmap nat PoolState).
Context (Hfees : Forall fee_ok ps).

Lemma gather_returns hops : forall acc, exists r, gather_hops g ti ps running hops acc = Ret r /\
  forall ks protos liq, r = Some (ks, protos, liq) -> length protos = (length acc.1.2 + length hops)%nat.
Proof.
  induction hops as [|[u v] hops IH]; intros acc; cbn [gather_hops].
  { eexists. split; [done|]. intros ks protos liq [= ->]. cbn. lia. }
  destruct (resolve_hop g ti ps u v) as [[[[e tk] i] p]|] eqn:Er; [|by eexists].
  rewrite Forall_forall in Hfees. rewrite (fee_multiplier_returns p) by (by eapply Hfees, resolve_elem). cbn [mbind outcome_bind].
  destruct acc as [[ks0 protos0] liq0]. cbv zeta. destruct (match running !! i with Some _ => _ | None => _ end)
    as [[rin rout] liq1]. destruct (IH (ks0 ++ [(rin, rout, f64_div (f64_of_Z (10000 - fee_bps p)) (f64_of_Z 10000),
      f64_exp (f64_neg (weight e)))], protos0 ++ [protocol p], liq1)) as (r & -> & Hr).
  exists r. split; [done|]. intros ks protos liq H. rewrite (Hr _ _ _ H). cbn. rewrite length_app. cbn. lia.
Qed.

(** A sized cycle: an input between 0.01 and 50 ether, the gas of its route, and
    the estimate at that input. *)
Record sized (fee : Z) (o : OptimiserSuccess) : Prop := {
  sized_input : MIN_INPUT <= optimal_input_wei o <= HARD_MAX;
  sized_gas : 0 <= opt_gas_cost_wei o < 2 ^ 126;
  sized_net : - 2 ^ 127 <= opt_net_profit_wei o <= i128_max;
}.

Lemma profit_fn_range ks gas x : - 2 ^ 127 <= profit_fn ks gas x <= i128_max.
Proof. unfold profit_fn, Detection.i128_saturating_sub, i128_max. lia. Qed.

Lemma optimise_returns cycle fee : affordable fee = true -> (length (path cycle) <= S MAX_HOPS)%nat ->
  exists r, optimise_cycle g ti ps running cycle fee = Ret r /\ forall o, r = Some o -> sized fee o.
Proof.
  intros Ha Hl. unfold optimise_cycle. destruct (Nat.ltb_spec (length (path cycle)) 2); [by eexists|].
  destruct (gather_returns (windows (path cycle)) ([], [], None)) as ([[[ks protos] liq]|] & -> & Hr);
    cbn [mbind outcome_bind]; [|by eexists].
  assert (Hp : (length protos <= MAX_HOPS)%nat).
  { rewrite (Hr _ _ _ eq_refl). cbn [fst snd length].
    rewrite length_windows. lia. }
  destruct (route_gas protos fee Ha Hp) as (gas & Hg & Hb). unfold gas_estimate_for_protocols in Hg.
  destruct (estimate_total_gas _ _) as [units|]; [|done]. injection Hg as Hg. cbn [mbind outcome_bind].
  cbv zeta. rewrite Hg.
  assert (Hm : max_input liq <= HARD_MAX).
  { unfold max_input. destruct liq as [q|]; [|done]. destruct (f64_gt q f64_zero); [|done].
    destruct (Z.ltb_spec (f64_as_u128 q) HARD_MAX); lia. }
  unfold HARD_MAX in Hm. destruct (Z.ltb_spec MIN_INPUT (max_input liq)) as [Hlt|].
  - unfold MIN_INPUT in Hlt. destruct (ternary_search_returns (profit_fn ks gas) (fun x => Ret (profit_fn ks gas x))
      MIN_INPUT (max_input liq) 80) as (opt & -> & Ho); [unfold MIN_INPUT; lia|lia|done|].
    cbn [mbind outcome_bind]. eexists. split; [done|]. intros o [= <-].
    split; cbn; [unfold HARD_MAX; lia|done|apply profit_fn_range].
  - cbn [mbind outcome_bind]. eexists. split; [done|]. intros o [= <-].
    split; cbn; [unfold MIN_INPUT, HARD_MAX; lia|done|apply profit_fn_range].
Qed.
End Sized.
End Verdicts.

Section Judged.
Context `{B : Build} `{M : Libm} {K : Keccak} {A : SolAbi} `{E : Revm.Revm} `{HO : HashOrder}
  (create : Address -> Z -> Address).
Context (Hlaws : Revm.cache_laws) (Hdurable : forall a, Revm.durable a).

(** The deployment of the executor and the call succeed on the fork, and the
    balance of the owner grows by [profit] over the call. *)
Definition ran (st : Revm.RpcForkedState) (init calldata : list Z) (token : Address) (slot profit : Z) : Prop :=
  let key := Revm.erc20_balance_key SIM_OWNER slot in
  exists d1 g0 data addr created d2 d' gas,
    Revm.transact (Revm.db (Revm.insert_account_balance st SIM_OWNER (100 * 10 ^ 18)))
      (Simulator.lenient_cfg (Revm.chain_id st)) (Revm.block_env st)
      (Revm.mkTx SIM_OWNER Revm.Create (init ++ ctor_args) 0 8000000 (Revm.base_fee st) 0 (Revm.chain_id st))
      = (d1, inr (Revm.Success g0 (Revm.OutCreate data (Some addr)), created)) /\
    (forall a k, Revm.read d2 a k = Revm.read (Revm.commit d1 created) a k) /\
    Simulator.succeeds d2 (Simulator.lenient_cfg (Revm.chain_id st)) (Revm.block_env st)
      (Revm.mkTx SIM_OWNER (Revm.Call addr) calldata 0 8000000 (Revm.base_fee st) 1 (Revm.chain_id st)) d' gas /\
    profit = saturate 256 (Revm.read d' token key - Revm.read d2 token key).

Section Verdict.
Context (env : Env) (ps : list LoadedPool) (st : ScorerState) (g : PriceGraph.t) (running : gmap nat PoolState)
  (best : DetectedCycle) (o : OptimiserSuccess) (bytecode : option (list Z)).

(** What stands behind a verdict: the trades on the exact reserves, the
    execution on the fork, its failure, or the floating-point estimate. *)
Inductive judged : verdict -> Prop :=
| judged_walk ts gross :
    Forall2 (trade_of g (token_index st) ps) (windows (path best)) ts ->
    executes (pairs_of running) (optimal_input_wei o) ts gross ->
    let earned := Z.min gross i128_max - optimal_input_wei o in
    judged (earned - opt_gas_cost_wei o, Z.max earned 0,
            if gross <? optimal_input_wei o then DECISION_REVERTED
            else if opt_gas_cost_wei o <? earned then DECISION_PROFITABLE else DECISION_UNPROFITABLE,
            REASON_U256_WALKER)
| judged_run init v token slot steps fork_state profit :
    bytecode = Some init -> head (path best) = Some v -> TokenIndex.get_address (token_index st) v = Some token ->
    balance_slot_for_token token = Some slot ->
    build_steps_from_cycle_sync g (token_index st) ps running best (create SIM_OWNER 0) (optimal_input_wei o)
      = Some steps ->
    Revm.rpc_state_new (fork env) (block_number st) (block_timestamp st) (base_fee_wei st mod 2 ^ 64)
      = Some fork_state ->
    ran fork_state init (arb_calldata steps token (optimal_input_wei o)) token slot profit ->
    let earned := Z.min profit i128_max in
    judged (earned - opt_gas_cost_wei o, earned,
            if opt_gas_cost_wei o <? earned then DECISION_PROFITABLE else DECISION_UNPROFITABLE,
            REASON_REVM_VERDICT)
| judged_reverted init rv :
    bytecode = Some init ->
    verify_cycle_revm g (token_index st) ps running create best (optimal_input_wei o) (fork env) init
      (block_number st) (block_timestamp st) (base_fee_wei st mod 2 ^ 64) = Some rv ->
    reverted rv = true ->
    judged (- opt_gas_cost_wei o, 0, DECISION_REVERTED, REASON_REVM_REVERT)
| judged_estimate :
    let net := opt_net_profit_wei o in
    judged (net, Z.max (Z.min (net + opt_gas_cost_wei o) i128_max) 0,
            if MAX_PLAUSIBLE_F64_NET_WEI <? net then DECISION_REVERTED
            else if 0 <? net then DECISION_PROFITABLE else DECISION_UNPROFITABLE,
            if MAX_PLAUSIBLE_F64_NET_WEI <? net then REASON_ABSURDITY_FLOOR else REASON_NA).

Context (Hs : sized (base_fee_wei st) o) (Hfees : Forall fee_ok ps) (Hst : states_ok running).

Lemma fallback_judged : judged (f64_fallback_verdict (opt_net_profit_wei o) (opt_gas_cost_wei o)).
Proof.
  destruct Hs as [Hi Hg Hn]. unfold f64_fallback_verdict, i128_saturating_add. rewrite to_signed_small by lia.
  rewrite Z.max_r with (n := - 2 ^ 127) by (unfold i128_max in *; lia).
  pose proof judged_estimate as J. cbv zeta in J. rewrite (Z.min_comm _ i128_max) in J.
  destruct (MAX_PLAUSIBLE_F64_NET_WEI <? opt_net_profit_wei o); [exact J|].
  destruct (0 <? opt_net_profit_wei o); exact J.
Qed.

Lemma walker_judged gross :
  verify_cycle_u256 g (token_index st) ps running best (optimal_input_wei o) = Some gross ->
  judged (walker_verdict gross (optimal_input_wei o) (opt_gas_cost_wei o)).
Proof.
  intros Hv. destruct Hs as [Hi Hg _]. unfold MIN_INPUT, HARD_MAX in Hi.
  assert (Hf : Forall (fun p => 0 <= fee_bps p) ps) by (eapply Forall_impl; [exact Hfees|]; unfold fee_ok; lia).
  assert (Hin : in_u 256 (optimal_input_wei o)) by (range; lia).
  pose proof (verify_range g (token_index st) ps running Hf _ _ _ Hst Hin Hv) as Hr.
  apply (verify_iff g (token_index st) ps running Hf) in Hv as (_ & ts & Hts & Hex); [|done|lia].
  pose proof (judged_walk ts gross Hts Hex) as J. cbv zeta in J. unfold walker_verdict, Detection.i128_saturating_sub.
  rewrite !u256_to_i128_eq, to_signed_small by (done || lia). rewrite (Z.min_l (optimal_input_wei o)) by (unfold i128_max; lia).
  set (earned := Z.min gross i128_max - optimal_input_wei o) in *.
  assert (Hb : - 2 ^ 126 < earned < 2 ^ 127) by (unfold earned, i128_max, in_u in *; lia).
  rewrite (Z.min_r _ earned), (Z.max_r _ earned), (Z.min_r _ (_ - _)), (Z.max_r _ (_ - _)) by lia.
  replace (0 <? earned - opt_gas_cost_wei o) with (opt_gas_cost_wei o <? earned); [exact J|].
  destruct (Z.ltb_spec (opt_gas_cost_wei o) earned), (Z.ltb_spec 0 (earned - opt_gas_cost_wei o)); lia.
Qed.

Lemma revm_judged init rv : bytecode = Some init ->
  verify_cycle_revm g (token_index st) ps running create best (optimal_input_wei o) (fork env) init
    (block_number st) (block_timestamp st) (base_fee_wei st mod 2 ^ 64) = Some rv ->
  exists v, revm_verdict_to_decision rv (opt_gas_cost_wei o) = Ret v /\ judged v.
Proof.
  intros Hb Hv. destruct Hs as [Hi Hg _]. unfold revm_verdict_to_decision.
  rewrite to_signed_small by lia. destruct (reverted rv) eqn:Er.
  { unfold i128_neg. rewrite arith_s_exact by (unfold in_s; lia). eexists. split; [done|].
    by eapply judged_reverted. }
  revert Hv. unfold verify_cycle_revm. destruct (_ || _); [done|].
  intros (v & Hh & (token & Ht & (slot & Hsl & (steps & Hst' & H)%bind_Some)%bind_Some)%bind_Some)%bind_Some.
  destruct (length steps =? 0)%nat; [done|]. apply bind_Some in H as (fs & Hfs & [= <-]). cbn [reverted] in Er.
  apply negb_false_iff in Er. cbn [gross_profit_wei].
  pose proof (Simulator.deploy_then_call_measured scorer_config fs SIM_OWNER init ctor_args _ token SIM_OWNER slot
    Hlaws Hdurable Er) as (d1 & g0 & data & addr & created & d2 & d' & Hc & Hr & Hsu & Hp).
  set (r := Simulator.deploy_and_simulate_with_erc20_profit _ _ _ _ _ _ _ _ _) in *.
  assert (in_u 256 (sim_profit_wei r)) by (rewrite Hp; apply saturate_range; lia).
  rewrite u256_to_i128_eq by done. unfold Detection.i128_saturating_sub.
  set (earned := Z.min (sim_profit_wei r) i128_max) in *.
  assert (0 <= earned < 2 ^ 127) by (unfold earned, i128_max, in_u in *; lia).
  rewrite (Z.min_r _ (_ - _)), (Z.max_r _ (_ - _)), Z.max_l by lia.
  eexists. split; [done|].
  replace (0 <? earned - opt_gas_cost_wei o) with (opt_gas_cost_wei o <? earned)
    by (destruct (Z.ltb_spec (opt_gas_cost_wei o) earned), (Z.ltb_spec 0 (earned - opt_gas_cost_wei o)); lia).
  eapply judged_run; try done. by exists d1, g0, data, addr, created, d2, d', (sim_gas_used r).
Qed.

Lemma judge_returns : exists v, judge create env ps st g running best o bytecode = Ret v /\ judged v.
Proof.
  unfold judge. destruct (negb _).
  - destruct (verify_cycle_u256 _ _ _ _ _ _) eqn:Ev; eexists; (split; [done|]);
      [by apply walker_judged|apply fallback_judged].
  - destruct bytecode as [init|] eqn:Eb; [|eexists; split; [done|apply fallback_judged]].
    destruct (verify_cycle_revm _ _ _ _ _ _ _ _ _ _ _ _) eqn:Ev; [by eapply revm_judged|].
    eexists; split; [done|apply fallback_judged].
Qed.
End Verdict.
End Judged.

(** ** The reference graph is well formed *)

Lemma num_edges_abs g : PriceGraph.inv g -> PriceGraph.num_edges g = size (PriceGraph.s_edges (PriceGraph.abs g)).
Proof.
  intros Hi. rewrite <-(size_dom (D:=gset edge_key)). unfold PriceGraph.num_edges.
  rewrite <-(length_fmap key), <-(size_list_to_set (C:=gset edge_key)) by (by apply PriceGraph.inv_nodup). f_equal.
  apply set_eq. intros k. rewrite elem_of_dom, elem_of_list_to_set, list_elem_of_fmap. split.
  - intros (ed & -> & Hed). apply PriceGraph.all_edges_abs in Hed as [d Hd]; [|done]. by eexists.
  - intros [[ed d] Hk]. pose proof Hk as Hk'. apply (PriceGraph.abs_lookup g k ed d Hi) in Hk' as (i & Hx & He & _).
    apply (PriceGraph.inv_idx g Hi) in Hx as (e' & He' & <-). rewrite He in He'. injection He' as <-.
    exists ed. split; [done|]. by eapply list_elem_of_lookup_2.
Qed.

Section Built.
Context `{B : Build} `{M : Libm}.

(** An operation adds at most one edge, and only a resize adds vertices. *)
Definition adds (o : PriceGraph.op) : nat :=
  match o with PriceGraph.AddEdge _ _ _ _ _ _ _ => 1%nat | _ => 0%nat end.
Definition grows (o : PriceGraph.op) : bool := match o with PriceGraph.Resize _ => true | _ => false end.

Lemma spec_exec_size s o : (size (PriceGraph.s_edges (PriceGraph.spec_exec s o)) <= size (PriceGraph.s_edges s) + adds o)%nat.
Proof.
  assert (Halter : forall f k, size (alter (PriceGraph.touch f) k (PriceGraph.s_edges s)) = size (PriceGraph.s_edges s)).
  { intros f k. rewrite <-!(size_dom (D:=gset edge_key)). by rewrite dom_alter_L. }
  destruct o; cbn [PriceGraph.spec_exec adds PriceGraph.s_edges PriceGraph.with_map]; try lia.
  - rewrite map_size_insert. destruct (PriceGraph.s_edges s !! _); unfold id; lia.
  - destruct (_ || _); [lia|]. cbn [PriceGraph.s_edges PriceGraph.with_map]. rewrite Halter. lia.
  - rewrite Halter. lia.
  - pose proof (map_subseteq_size _ _ (map_filter_subseteq (fun kv => kv.1.2 <> pid) (PriceGraph.s_edges s))). lia.
  - rewrite map_size_fmap. lia.
  - destruct (_ <? _)%nat; cbn; lia.
Qed.

Lemma spec_run_size os : forall s, Forall (fun o => grows o = false) os ->
  let s' := foldl PriceGraph.spec_exec s os in
  (size (PriceGraph.s_edges s') <= size (PriceGraph.s_edges s) + sum_list_with adds os)%nat /\
  PriceGraph.s_vertices s' = PriceGraph.s_vertices s.
Proof.
  induction os as [|o os IH]; intros s Hg; cbn [foldl sum_list_with]; [lia|].
  apply Forall_cons in Hg as [Ho Hos]. destruct (IH (PriceGraph.spec_exec s o) Hos) as [H1 H2].
  pose proof (spec_exec_size s o). split; [cbv zeta in *; lia|]. cbv zeta in *. rewrite H2.
  destruct o; try done. cbn. by destruct (_ || _).
Qed.

(** The graph and the token index of [k] pools. *)
Record graph_ok (k : nat) (ti : TokenIndex.t) (g : PriceGraph.t) : Prop := {
  go_inv : PriceGraph.inv g;
  go_index : TokenIndex.inverse ti;
  go_len : (TokenIndex.len ti <= PriceGraph.num_vertices g)%nat;
  go_edges : Engine.edges_ok (TokenIndex.len ti) (PriceGraph.abs g);
  go_tokens : (TokenIndex.len ti <= 2 * k)%nat;
  go_vertices : (PriceGraph.num_vertices g <= Nat.max 10 (2 * k))%nat;
  go_count : (PriceGraph.num_edges g <= 2 * k)%nat;
}.

Lemma graph_ok_new : graph_ok 0 TokenIndex.new (PriceGraph.new 10).
Proof.
  split; try done; try apply PriceGraph.graph_inv_new; try apply TokenIndex.inverse_new; cbn; try lia.
Qed.

Lemma graph_ok_mono k k' ti g : (k <= k')%nat -> graph_ok k ti g -> graph_ok k' ti g.
Proof. intros Hk []. split; try done; lia. Qed.

(** What seeding a pool does to the graph, after the resize. *)
Definition seed_ops (t0 t1 : nat) (pool : LoadedPool) (state : PoolState) : list PriceGraph.op :=
  let pool_id := mkPoolId (address pool) (protocol pool) in
  let fee := f64_div (f64_of_Z (10000 - fee_bps pool)) (f64_of_Z 10000) in
  [PriceGraph.SetTokenDecimals t0 (default 18 (known_token_decimals (token0 pool)));
   PriceGraph.SetTokenDecimals t1 (default 18 (known_token_decimals (token1 pool)))] ++
  (if token0 pool =? addresses.WETH
   then [PriceGraph.SetWethVertex t0; PriceGraph.SetMinLiquidity MIN_LIQUIDITY_WETH]
   else if token1 pool =? addresses.WETH
   then [PriceGraph.SetWethVertex t1; PriceGraph.SetMinLiquidity MIN_LIQUIDITY_WETH] else []) ++
  match priced_state state with
  | None => []
  | Some (liq, x, y) =>
      [PriceGraph.AddEdge t0 t1 f64_one pool_id (address pool) (protocol pool) liq;
       PriceGraph.AddEdge t1 t0 f64_one pool_id (address pool) (protocol pool) liq;
       PriceGraph.UpdateReserves t0 t1 pool_id x y fee; PriceGraph.UpdateReserves t1 t0 pool_id y x fee]
  end.

Lemma seed_pool_run ti g pool state : fee_ok pool ->
  seed_pool ti g pool state =
  (let '(t0, ti) := TokenIndex.get_or_insert ti (token0 pool) in
   let '(t1, ti) := TokenIndex.get_or_insert ti (token1 pool) in
   g ← PriceGraph.run (PriceGraph.resize g (TokenIndex.len ti)) (seed_ops t0 t1 pool state); Ret (ti, g)).
Proof.
  intros Hf. unfold seed_pool, seed_ops, price_pool.
  destruct (TokenIndex.get_or_insert ti (token0 pool)) as [t0 ti1].
  destruct (TokenIndex.get_or_insert ti1 (token1 pool)) as [t1 ti2].
  rewrite fee_multiplier_returns by done. cbn [mbind outcome_bind].
  destruct (priced_state state) as [[[liq x] y]|], (token0 pool =? addresses.WETH), (token1 pool =? addresses.WETH);
    cbn [app PriceGraph.run PriceGraph.exec mbind outcome_bind]; try done;
    destruct (PriceGraph.add_edge _ t0 t1 _ _ _ _ _); cbn [mbind outcome_bind]; try done;
    destruct (PriceGraph.add_edge _ t1 t0 _ _ _ _ _); cbn [mbind outcome_bind]; try done;
    destruct (PriceGraph.update_edge_from_reserves _ t0 t1 _ _ _ _); cbn [mbind outcome_bind]; try done;
    by destruct (PriceGraph.update_edge_from_reserves _ t1 t0 _ _ _ _).
Qed.

Lemma get_or_insert_index ti a : TokenIndex.inverse ti ->
  let r := TokenIndex.get_or_insert ti a in
  TokenIndex.inverse r.2 /\ (TokenIndex.len ti <= TokenIndex.len r.2 <= S (TokenIndex.len ti))%nat /\
  TokenIndex.get_index r.2 a = Some r.1.
Proof.
  intros Hi r. split; [by apply TokenIndex.get_or_insert_inverse|].
  split; [|by apply TokenIndex.get_or_insert_result].
  unfold r, TokenIndex.get_or_insert, TokenIndex.len. destruct (_ !! a); cbn; rewrite ?length_app; cbn; lia.
Qed.

Lemma seed_pool_ok k ti g pool state : graph_ok k ti g -> fee_ok pool ->
  exists ti' g', seed_pool ti g pool state = Ret (ti', g') /\ graph_ok (S k) ti' g'.
Proof.
  intros [Hg Hi Hl He Ht Hv Hc] Hf. rewrite seed_pool_run by done.
  destruct (get_or_insert_index ti (token0 pool) Hi) as (Hi1 & Hl1 & H0).
  destruct (TokenIndex.get_or_insert ti (token0 pool)) as [t0 ti1]. cbn [fst snd] in *.
  destruct (get_or_insert_index ti1 (token1 pool) Hi1) as (Hi2 & Hl2 & H1).
  assert (H0' := Engine.index_stable ti1 (token1 pool) (token0 pool) t0 Hi1 H0).
  destruct (TokenIndex.get_or_insert ti1 (token1 pool)) as [t1 ti2]. cbn [fst snd] in *.
  set (n := TokenIndex.len ti2) in *. apply (Engine.index_bound ti2) in H0', H1; [|done|done].
  pose proof (PriceGraph.exec_refines g (PriceGraph.Resize n) Hg I) as (g1 & [= <-] & Hg1 & Ha1).
  set (g1 := PriceGraph.resize g n) in *.
  assert (Hn1 : PriceGraph.num_vertices g1 = Nat.max (PriceGraph.num_vertices g) n).
  { unfold g1, PriceGraph.resize. destruct (Nat.ltb_spec (PriceGraph.num_vertices g) n); cbn; lia. }
  destruct (Engine.run_ok n (seed_ops t0 t1 pool state) g1) as (g' & Hr & Hg' & Ha & Hn' & He'); [done|lia| | |].
  { rewrite Ha1. apply Engine.spec_exec_ok; [|done]. eapply Engine.edges_ok_mono; [|exact He]. unfold n; lia. }
  { unfold seed_ops. destruct (priced_state state) as [[[liq x] y]|], (token0 pool =? addresses.WETH),
      (token1 pool =? addresses.WETH); repeat constructor; cbn; lia || done. }
  rewrite Hr. cbn [mbind outcome_bind]. exists ti2, g'. split; [done|].
  destruct (spec_run_size (seed_ops t0 t1 pool state) (PriceGraph.abs g1)) as [Hs1 Hs2].
  { unfold seed_ops. repeat case_match; repeat constructor. }
  assert (Hadd : (sum_list_with adds (seed_ops t0 t1 pool state) <= 2)%nat)
    by (unfold seed_ops; repeat case_match; cbn; lia).
  rewrite <-Ha, <-!num_edges_abs in Hs1 by done. rewrite <-Ha in Hs2.
  change (PriceGraph.num_vertices g' = PriceGraph.num_vertices g1) in Hs2.
  assert (PriceGraph.num_edges g1 = PriceGraph.num_edges g)
    by (unfold g1, PriceGraph.resize, PriceGraph.num_edges; by destruct (_ <? _)%nat).
  split; try done; fold n; lia.
Qed.
End Built.

(** ** Scoring *)

Section Scoring.
Context `{B : Build} `{M : Libm} {K : Keccak} {A : SolAbi} `{E : Revm.Revm} `{HO : HashOrder}
  (create : Address -> Z -> Address).

(** A node's answers are bytes. *)
Definition byte_answers (env : Env) : Prop := forall b a d out, call env b a d = Some out -> Forall is_byte out.

Lemma word_in_range out n : Forall is_byte out -> in_u 256 (be (take 32 (drop n out))).
Proof.
  intros H. pose proof (be_bounds (take 32 (drop n out)) ltac:(by apply Forall_take, Forall_drop)) as [H0 H1].
  split; [done|]. eapply Z.lt_le_trans; [exact H1|]. change (2 ^ 256) with (256 ^ 32).
  apply Z.pow_le_mono_r; [lia|]. rewrite length_take. lia.
Qed.

Lemma fetched_ok env p b s : byte_answers env -> fetch_pool_state_at (call env) p b = Some (Some s) -> state_ok s.
Proof.
  intros Hb. unfold fetch_pool_state_at.
  assert (H2 : forall d, (out ← call env b (address p) d;
    Some (if (64 <=? length out)%nat then Some (V2 (be (take 32 out)) (be (take 32 (drop 32 out)))) else None))
    = Some (Some s) -> state_ok s).
  { intros d (out & Ho & H)%bind_Some. destruct (_ <=? _)%nat; [|done]. injection H as <-. apply Hb in Ho.
    split; [apply (word_in_range out 0)|apply (word_in_range out 32)]; done. }
  destruct (protocol p); try done; try apply H2.
  intros (out & _ & H)%bind_Some. destruct (_ <=? _)%nat; [|done]. by injection H as <-.
Qed.

Lemma fetch_states_ok env head ps : byte_answers env -> forall idx m, fetch_states env head idx ps = Some m -> states_ok m.
Proof.
  intros Hb. induction ps as [|p ps IH]; intros idx m; cbn [fetch_states]; [intros [= <-]; apply map_Forall_empty|].
  intros (r & Hr & (rest & Hrest & [= <-])%bind_Some)%bind_Some. apply IH in Hrest.
  destruct r as [s|]; [|done]. apply map_Forall_insert_2; [by eapply fetched_ok|done].
Qed.

(** A state the scorer can work with. *)
Record ready (k : nat) (st : ScorerState) : Prop := {
  ready_graph : graph_ok k (token_index st) (graph st);
  ready_states : states_ok (latest_states st);
  ready_fee : affordable (base_fee_wei st) = true;
}.

Definition fee_affordable (env : Env) : Prop :=
  forall head, get_block_number env = Some head -> affordable (head_base_fee env head) = true.

Lemma seed_pools_ok states ps : forall k idx ti g, graph_ok k ti g -> Forall fee_ok ps ->
  exists ti' g', seed_pools states idx ps ti g = Ret (ti', g') /\ graph_ok (k + length ps) ti' g'.
Proof.
  induction ps as [|p ps IH]; intros k idx ti g Hg Hf; cbn [seed_pools length].
  { exists ti, g. split; [done|]. by rewrite Nat.add_0_r. }
  apply Forall_cons in Hf as [Hp Hf]. destruct (states !! idx) as [s|].
  - destruct (seed_pool_ok k ti g p s Hg Hp) as (ti1 & g1 & -> & Hg1). cbn [mbind outcome_bind].
    destruct (IH (S k) (S idx) ti1 g1 Hg1 Hf) as (ti2 & g2 & -> & Hg2). exists ti2, g2.
    split; [done|]. by replace (k + S (length ps))%nat with (S k + length ps)%nat by lia.
  - destruct (IH k (S idx) ti g Hg Hf) as (ti2 & g2 & -> & Hg2). exists ti2, g2. split; [done|].
    eapply graph_ok_mono; [|exact Hg2]. lia.
Qed.

Lemma bootstrap_returns ps env : Forall fee_ok ps -> byte_answers env -> fee_affordable env ->
  exists r, bootstrap_state ps env = Ret r /\ forall st, r = inr st -> ready (length ps) st.
Proof.
  intros Hf Hb Ha. unfold bootstrap_state. destruct (get_block_number env) as [head|] eqn:Eh; [|by eexists].
  destruct (fetch_states env head 0 ps) as [m|] eqn:Em; [|by eexists].
  destruct (seed_pools_ok m ps 0 0 _ _ graph_ok_new Hf) as (ti & g & -> & Hg). cbn [mbind outcome_bind].
  eexists. split; [done|]. intros st [= <-]. split; [done|by eapply fetch_states_ok|by apply Ha].
Qed.

(** The pools the scan of a graph has room for. *)
Definition POOLS_LIMIT : nat := 800.

(** The graph of a prediction: the reference with the pool's state at the block. *)
Definition repriced (st : ScorerState) (p : LoadedPool) (actual : PoolState) (t0 t1 : nat) (g : PriceGraph.t) : Prop :=
  let pool_id := mkPoolId (address p) (protocol p) in
  let fee := f64_div (f64_of_Z (10000 - fee_bps p)) (f64_of_Z 10000) in
  let '(x, y) := state_to_graph_reserves actual in
  PriceGraph.abs g = PriceGraph.spec_exec
    (PriceGraph.spec_exec (PriceGraph.abs (graph st)) (PriceGraph.UpdateReserves t0 t1 pool_id x y fee))
    (PriceGraph.UpdateReserves t1 t0 pool_id y x fee).

Definition detector : BellmanFord.t := BellmanFord.new MAX_HOPS DETECT_BUDGET_US.

(** What a row says: no cycle was found, or the most negative of the profitable
    cycles through the pool was sized and judged. *)
Inductive scored (env : Env) (ps : list LoadedPool) (st : ScorerState) (pred : UnscoredConfirmedPrediction)
    (bytecode : option (list Z)) : ScoreOutcome -> Prop :=
| scored_no_path gas : 0 <= gas ->
    scored env ps st pred bytecode (mkOutcome [] 0 gas (- gas) DECISION_NO_PATH REASON_NA)
| scored_cycle i p actual t0 t1 g cycles best o net realized d r :
    ps !! i = Some p -> address p = pred_pool_address pred ->
    fetch_pool_state_at (call env) p (actual_target_block pred) = Some (Some actual) ->
    repriced st p actual t0 t1 g ->
    BellmanFord.reported detector g cycles -> head (List.filter is_profitable cycles) = Some best ->
    sized (base_fee_wei st) o ->
    judged create env ps st g (<[i := actual]> (latest_states st)) best o bytecode (net, realized, d, r) ->
    scored env ps st pred bytecode
      (mkOutcome (cycle_to_json g (token_index st) ps best) realized (opt_gas_cost_wei o) net d r).

Lemma judged_realized env ps st g running best o bytecode net realized d r : sized (base_fee_wei st) o ->
  judged create env ps st g running best o bytecode (net, realized, d, r) -> 0 <= realized < 2 ^ 128.
Proof.
  intros [Hi Hg Hn] H. unfold i128_max, MIN_INPUT in *. inversion H as [ts gross _ _ earned|
    init v token slot steps fs profit _ _ _ _ _ _ Hran earned| |net']; subst.
  - unfold earned, i128_max. lia.
  - destruct Hran as (? & ? & ? & ? & ? & ? & ? & ? & _ & _ & _ & ->). unfold earned, i128_max.
    pose proof (saturate_range 256) as Hsat. unfold in_u in Hsat. split; [|lia].
    apply Z.min_glb; [|lia]. by apply Hsat.
  - lia.
  - unfold net', i128_max. lia.
Qed.

Lemma repriced_scannable k st p actual t0 t1 : ready k st -> (k <= POOLS_LIMIT)%nat ->
  TokenIndex.get_index (token_index st) (token0 p) = Some t0 ->
  TokenIndex.get_index (token_index st) (token1 p) = Some t1 ->
  let pool_id := mkPoolId (address p) (protocol p) in
  let fee := f64_div (f64_of_Z (10000 - fee_bps p)) (f64_of_Z 10000) in
  let '(x, y) := state_to_graph_reserves actual in
  exists g1 g, PriceGraph.update_edge_from_reserves (graph st) t0 t1 pool_id x y fee = Ret g1 /\
    PriceGraph.update_edge_from_reserves g1 t1 t0 pool_id y x fee = Ret g /\ repriced st p actual t0 t1 g /\
    BellmanFord.scannable g (2 + PriceGraph.num_vertices g * PriceGraph.num_vertices g).
Proof.
  intros [[Hg Hi Hl He Ht Hv Hc] _ _] Hk H0 H1 pool_id fee.
  destruct (state_to_graph_reserves actual) as [x y] eqn:Ea.
  apply (Engine.index_bound _ _ _ Hi) in H0, H1.
  destruct (Engine.run_ok _ [PriceGraph.UpdateReserves t0 t1 pool_id x y fee; PriceGraph.UpdateReserves t1 t0 pool_id y x fee]
    (graph st) Hg Hl He) as (g & Hr & Hg' & Ha & Hn' & He'); [by repeat constructor|].
  destruct (PriceGraph.update_reserves_shape (graph st) t0 t1 pool_id x y fee Hg ltac:(lia)) as (g1 & E1 & I1 & V1 & K1).
  destruct (PriceGraph.update_reserves_shape g1 t1 t0 pool_id y x fee I1 ltac:(lia)) as (g2 & E2 & I2 & V2 & K2).
  exists g1, g2. cbn [PriceGraph.run PriceGraph.exec] in Hr. rewrite E1 in Hr. cbn [mbind outcome_bind] in Hr.
  rewrite E2 in Hr. cbn [mbind outcome_bind] in Hr. injection Hr as <-.
  split; [done|]. split; [done|]. split; [unfold repriced; by rewrite Ea|].
  assert (PriceGraph.num_edges g2 = PriceGraph.num_edges (graph st)).
  { unfold PriceGraph.num_edges. rewrite <-!(length_fmap key), K2. congruence. }
  unfold POOLS_LIMIT in *. split; [done| |lia|].
  - apply Forall_forall. intros ed Hed. apply PriceGraph.all_edges_abs in Hed as [d Hd]; [|done].
    apply He' in Hd as (_ & _ & _ & Hto). lia.
  - assert (PriceGraph.num_vertices g2 <= 1600)%nat by lia. assert (PriceGraph.num_edges g2 <= 1600)%nat by lia.
    set (n := PriceGraph.num_vertices g2) in *. set (m := PriceGraph.num_edges g2) in *. clearbody n m. nia.
Qed.

Context (Hlaws : Revm.cache_laws) (Hdurable : forall a, Revm.durable a).

(** The node did not answer for the state of the prediction's pool. *)
Definition unreadable (env : Env) (ps : list LoadedPool) (pred : UnscoredConfirmedPrediction) : Prop :=
  exists i p, find_pool ps (pred_pool_address pred) = Some (i, p) /\
    fetch_pool_state_at (call env) p (actual_target_block pred) = None.

Section One.
Context (env : Env) (ps : list LoadedPool) (st : ScorerState) (pred : UnscoredConfirmedPrediction)
  (bytecode : option (list Z)) (k : nat).
Context (Hready : ready k st) (Hk : (k <= POOLS_LIMIT)%nat) (Hfees : Forall fee_ok ps) (Hbytes : byte_answers env).

Lemma no_path_scored : exists o, no_path_outcome None = Ret o /\ scored env ps st pred bytecode o.
Proof. rewrite no_path_returns by done. eexists. split; [done|]. by apply (scored_no_path _ _ _ _ _ 0). Qed.

Lemma no_cycle_scored p : exists o,
  (gas ← gas_estimate_for_protocols [p] (base_fee_wei st); o ← no_path_outcome (Some gas); Ret (Some o)) = Ret (Some o) /\
  scored env ps st pred bytecode o.
Proof.
  destruct (route_gas [p] (base_fee_wei st) (ready_fee _ _ Hready)) as (gas & -> & Hg); [unfold MAX_HOPS; cbn; lia|].
  cbn [mbind outcome_bind]. rewrite no_path_returns by (intros v [= <-]; lia). cbn [mbind outcome_bind].
  eexists. split; [done|]. apply scored_no_path. cbn. lia.
Qed.

Lemma score_graph_scored i p actual t0 t1 g : find_pool ps (pred_pool_address pred) = Some (i, p) ->
  fetch_pool_state_at (call env) p (actual_target_block pred) = Some (Some actual) ->
  repriced st p actual t0 t1 g ->
  BellmanFord.scannable g (2 + PriceGraph.num_vertices g * PriceGraph.num_vertices g) ->
  exists o, score_graph create env ps st g i p actual t0 t1 bytecode = Ret (Some o) /\ scored env ps st pred bytecode o.
Proof.
  intros [Hp Ha]%find_pool_elem Hfetch Hrep Hscan. unfold score_graph. fold detector.
  destruct (BellmanFord.partial_scan_reports detector (elapsed env) g [t0; t1] Hscan) as (cycles & -> & Hrp).
  cbn [mbind outcome_bind]. destruct (List.filter is_profitable cycles) as [|best rest] eqn:Ef; [apply no_cycle_scored|].
  assert (Hbest : best ∈ cycles).
  { apply list_elem_of_In. eapply (proj1 (filter_In is_profitable best cycles)). rewrite Ef. by left. }
  assert (Hlen : (length (path best) <= S MAX_HOPS)%nat).
  { destruct Hrp as [Hv _]. rewrite Forall_forall in Hv. apply Hv in Hbest as [_ [_ H] _ _ _]. exact H. }
  set (running := collect_running_states (latest_states st) i actual).
  assert (Hrun : states_ok running).
  { apply map_Forall_insert_2; [by eapply fetched_ok|apply Hready]. }
  destruct (optimise_returns g (token_index st) ps running Hfees best (base_fee_wei st) (ready_fee _ _ Hready) Hlen)
    as ([o|] & -> & Ho); cbn [mbind outcome_bind]; [|apply no_cycle_scored].
  specialize (Ho o eq_refl).
  destruct (judge_returns create Hlaws Hdurable env ps st g running best o bytecode Ho Hfees Hrun)
    as ([[[net realized] d] r] & -> & Hj). cbn [mbind outcome_bind].
  rewrite Z.mod_small by (by eapply judged_realized). eexists. split; [done|].
  eapply (scored_cycle env ps st pred bytecode i p actual t0 t1 g cycles best o); try done. by rewrite Ef.
Qed.

Lemma score_one_scored : exists r, score_one create env ps st pred bytecode = Ret (Some r) /\
  match r with inl _ => unreadable env ps pred | inr o => scored env ps st pred bytecode o end.
Proof.
  unfold score_one.
  assert (Hno : exists r : string + ScoreOutcome, (o ← no_path_outcome None; Ret (Some (inr o))) = Ret (Some r) /\
    match r with inl _ => unreadable env ps pred | inr o => scored env ps st pred bytecode o end).
  { destruct no_path_scored as (o & -> & Ho). by exists (inr o). }
  destruct (find_pool ps (pred_pool_address pred)) as [[i p]|] eqn:Ef; [|done].
  destruct (fetch_pool_state_at (call env) p (actual_target_block pred)) as [[actual|]|] eqn:Es;
    [|done|eexists; split; [done|by exists i, p]].
  destruct (TokenIndex.get_index (token_index st) (token0 p)) as [t0|] eqn:E0; [|done].
  destruct (TokenIndex.get_index (token_index st) (token1 p)) as [t1|] eqn:E1; [|done].
  assert (Hp : fee_ok p).
  { rewrite Forall_forall in Hfees. apply Hfees. apply find_pool_elem in Ef as [Hp _]. by eapply list_elem_of_lookup_2. }
  rewrite fee_multiplier_returns by done. cbn [mbind outcome_bind].
  pose proof (repriced_scannable k st p actual t0 t1 Hready Hk E0 E1) as H.
  destruct (state_to_graph_reserves actual) as [x y]. destruct (_ || _); [done|].
  destruct H as (g1 & g & -> & H2 & Hrep & Hscan). cbn [mbind outcome_bind]. rewrite H2. cbn [mbind outcome_bind].
  destruct (score_graph_scored i p actual t0 t1 g Ef Es Hrep Hscan) as (o & -> & Ho). by exists (inr o).
Qed.
End One.

(** The rows of a batch: one per prediction in order, except those whose pool
    could not be read. *)
Inductive written (ps : list LoadedPool) (st : ScorerState) (sha : option string) (bytecode : option (list Z))
    : list (UnscoredConfirmedPrediction * Env) -> list NewProfitabilityScore -> Prop :=
| written_end : written ps st sha bytecode [] []
| written_skip pred env batch rows :
    unreadable env ps pred -> written ps st sha bytecode batch rows ->
    written ps st sha bytecode ((pred, env) :: batch) rows
| written_row pred env batch o rows :
    scored env ps st pred bytecode o -> written ps st sha bytecode batch rows ->
    written ps st sha bytecode ((pred, env) :: batch) (mkScore (prediction_id pred) o sha :: rows).

Lemma score_all_written ps st sha bytecode k batch : ready k st -> (k <= POOLS_LIMIT)%nat -> Forall fee_ok ps ->
  Forall (fun x => byte_answers x.2) batch ->
  exists rows, score_all create ps st sha bytecode batch = Ret (Some rows) /\ written ps st sha bytecode batch rows.
Proof.
  intros Hr Hk Hf. induction 1 as [|[pred env] batch Hb _ (rows & IH & Hw)]; cbn [score_all].
  { eexists. split; [done|constructor]. }
  destruct (score_one_scored env ps st pred bytecode k Hr Hk Hf Hb) as (r & -> & Hs). cbn [mbind outcome_bind].
  rewrite IH. cbn [mbind outcome_bind]. destruct r as [e|o]; eexists; (split; [done|]); by constructor.
Qed.

(** A scorer at work: the rows are those of the polls, each on the pools and the
    state of its time; a refresh adds the pools of the database and replaces the
    state, or keeps it when the node failed. *)
Inductive serves : Scorer -> list Tick -> Scorer -> list NewProfitabilityScore -> Prop :=
| serves_end s : serves s [] s []
| serves_poll s batch rows ts s' rows' :
    written (pools s) (state s) (git_sha s) (bytecode s) (default [] batch) rows -> serves s ts s' rows' ->
    serves s (PollTick batch :: ts) s' (rows ++ rows')
| serves_refresh s db env st ts s' rows' :
    st = state s \/ bootstrap_state (augment (pools s) db) env = Ret (inr st) ->
    serves (mkScorer (augment (pools s) db) st (git_sha s) (bytecode s)) ts s' rows' ->
    serves s (RefreshTick db env :: ts) s' rows'.

Record scorer_ok (s : Scorer) : Prop := {
  so_fees : Forall fee_ok (pools s);
  so_ready : ready (length (pools s)) (state s);
  so_limit : (length (pools s) <= POOLS_LIMIT)%nat;
}.

(** What the outside must respect: nodes answer bytes, base fees are not absurd,
    and the pools fit the scan. *)
Fixpoint acceptable (ps : list LoadedPool) (ts : list Tick) : Prop :=
  match ts with
  | [] => True
  | PollTick batch :: ts => Forall (fun x => byte_answers x.2) (default [] batch) /\ acceptable ps ts
  | RefreshTick db env :: ts =>
      byte_answers env /\ fee_affordable env /\ (length (augment ps db) <= POOLS_LIMIT)%nat /\
      acceptable (augment ps db) ts
  end.

Lemma augment_fees ps db : Forall fee_ok ps -> Forall fee_ok (augment ps db).
Proof.
  intros Hf. destruct db as [rows|]; [|done]. apply Forall_app. split; [done|]. apply Forall_forall.
  intros p ([[[pb pr] tb] ob] & _ & Hp)%list_elem_of_omap. unfold db_pool in Hp.
  destruct (_ || _); [done|]. destruct (bool_decide _); [done|]. apply bind_Some in Hp as (proto & _ & Hp).
  destruct (_ <? _); injection Hp as <-; unfold fee_ok; cbn; destruct proto; unfold DEFAULT_V2_FEE_BPS, DEFAULT_V3_FEE_BPS; lia.
Qed.

Lemma augment_length ps db : (length ps <= length (augment ps db))%nat.
Proof. destruct db; cbn; rewrite ?length_app; lia. Qed.

Lemma ready_mono k k' st : (k <= k')%nat -> ready k st -> ready k' st.
Proof. intros Hk [Hg Hs Hf]. split; [by eapply graph_ok_mono|done|done]. Qed.

Lemma run_serves ts : forall s, scorer_ok s -> acceptable (pools s) ts ->
  exists s' rows, scorer_run create s ts = Ret (Some (s', rows)) /\ serves s ts s' rows /\ scorer_ok s'.
Proof.
  induction ts as [|[batch|db env] ts IH]; intros s Hs Ha; cbn [scorer_run].
  { exists s, []. split; [done|]. split; [constructor|done]. }
  - destruct Ha as [Hb Ha], (Hs) as [Hf Hr Hl]. cbn [scorer_step].
    assert (exists rows, score_batch create (pools s) (state s) (git_sha s) (bytecode s) batch = Ret (Some rows) /\
      written (pools s) (state s) (git_sha s) (bytecode s) (default [] batch) rows) as (rows & -> & Hw).
    { destruct batch as [batch|]; [by eapply score_all_written|]. eexists. split; [done|constructor]. }
    cbn [mbind outcome_bind option_map]. destruct (IH s Hs Ha) as (s' & rows' & -> & Hsv & Hok).
    cbn [mbind outcome_bind option_map]. exists s', (rows ++ rows'). split; [done|]. split; [by constructor|done].
  - destruct Ha as (Hb & Hfee & Hl & Ha), Hs as [Hf Hr _]. cbn [scorer_step]. set (ps := augment (pools s) db) in *.
    assert (Hf' : Forall fee_ok ps) by (by apply augment_fees).
    destruct (bootstrap_returns ps env Hf' Hb Hfee) as (r & Hbs & Hr'). rewrite Hbs. cbn [mbind outcome_bind].
    set (st := match r with inl _ => state s | inr fresh => fresh end).
    destruct (IH (mkScorer ps st (git_sha s) (bytecode s))) as (s' & rows' & -> & Hsv & Hok).
    { split; [done| |done]. cbn [pools state]. unfold st. destruct r as [e|st']; [|by apply Hr'].
      eapply ready_mono; [apply augment_length|done]. }
    { done. }
    cbn [mbind outcome_bind option_map]. exists s', rows'. split; [done|]. split; [|done].
    apply (serves_refresh s db env st); [|done]. unfold st. destruct r; [by left|by right].
Qed.



(** A refresh needs an answer for every pool: while the node fails for one of
    them, say a row of the database that is no pool, the state stays the old one. *)
Theorem dead_pool_freezes s db env head p : get_block_number env = Some head ->
  p ∈ augment (pools s) db -> fetch_pool_state_at (call env) p head = None ->
  scorer_step create s (RefreshTick db env)
  = Ret (Some (mkScorer (augment (pools s) db) (state s) (git_sha s) (bytecode s), [])).
Proof.
  intros Hh Hp Hfail. cbn [scorer_step]. unfold bootstrap_state. rewrite Hh.
  assert (Hnone : forall ps, p ∈ ps -> forall idx, fetch_states env head idx ps = None).
  { induction ps as [|q ps IH]; intros Hin idx; [by apply not_elem_of_nil in Hin|]. cbn [fetch_states].
    apply elem_of_cons in Hin as [<-|Hin]; [by rewrite Hfail|]. rewrite IH by done.
    by destruct (fetch_pool_state_at (call env) q head). }
  by rewrite Hnone.
Qed.
End Scoring.

(** ** What the code does not do *)

(** The bound of Uniswap V3 prices, of which the comment says one less. *)
Definition MAX_SQRT_RATIO : Z := 1461446703485210103287273052203988822378723970342.

(** The limit of a swap of token 1 is above every price the pool contract
    accepts. *)
Theorem v3_limit_above_max : MAX_SQRT_RATIO < sqrt_limit false /\ sqrt_limit false <> MAX_SQRT_RATIO - 1.
Proof. done. Qed.

(** ** A concrete scorer *)

(** Two pairs of one token with ether, ten percent apart. The logarithm is its
    tangent at one; the powers are exact. *)
Definition tangent_libm : Libm :=
  {| f64_ln x := f64_sub x f64_one; f64_exp x := f64_add x f64_one;
     f64_powi x n := foldl f64_mul f64_one (replicate (Z.to_nat n) x); f64_powf x _ := x |}.
Definition pair_a : LoadedPool := mkLoaded 100 1 addresses.WETH UniswapV2 30.
Definition pair_b : LoadedPool := mkLoaded 101 1 addresses.WETH SushiSwap 30.
Definition sample_call (_ : Z) (a : Address) (_ : list Z) : option (list Z) :=
  if a =? 100 then Some (words [1000 * 10 ^ 18; 1000 * 10 ^ 18; 0])
  else Some (words [1000 * 10 ^ 18; 1100 * 10 ^ 18; 0]).
Definition sample_evm : Revm.Revm :=
  Revm.store_evm (fun _ _ _ _ => inr (Revm.Success 21000 (Revm.OutCall []), ∅)).
Definition sample_env : Env (E:=sample_evm) :=
  mkEnv sample_evm sample_call (Some 7) (fun _ => Some (Some 20000000000, 1700000000)) (fun _ => None) (fun _ => 0).
Definition sample_pools : list LoadedPool := [pair_a; pair_b].
Definition sample_prediction : UnscoredConfirmedPrediction := mkPrediction 1 "uni_v2" 100 1 addresses.WETH 5 7.

Definition sample_state : ScorerState :=
  match bootstrap_state (B:=debug) (M:=tangent_libm) (K:=keccak_reference) (A:=abi_reference) sample_pools sample_env with
  | Ret (inr st) => st
  | _ => mkScorerState (PriceGraph.new 0) TokenIndex.new ∅ 0 0 0
  end.
Definition sample_score : outcome (option (string + ScoreOutcome)) :=
  score_one (B:=debug) (M:=tangent_libm) (K:=keccak_reference) (A:=abi_reference) (HO:=canonical_order)
    (fun a _ => a) sample_env sample_pools sample_state sample_prediction None.

Lemma sample_bytes : byte_answers sample_env.
Proof.
  assert (Hall : forall vs, forallb (fun b => (0 <=? b) && (b <? 256)) (words vs) = true -> Forall is_byte (words vs)).
  { intros vs H. apply Forall_forall. intros b Hb%list_elem_of_In. rewrite forallb_forall in H. specialize (H b Hb).
    unfold is_byte. lia. }
  intros b a d out. cbn [call sample_env]. unfold sample_call. destruct (a =? 100); intros H; injection H as <-;
    apply Hall; vm_compute; reflexivity.
Qed.

Lemma sample_affordable : fee_affordable sample_env.
Proof. intros head _. vm_compute. reflexivity. Qed.

Lemma sample_fees : Forall fee_ok sample_pools.
Proof. repeat constructor; done. Qed.

Lemma sample_durable a : Revm.durable (E:=sample_evm) a.
Proof. by intros d cfg blk tx d' r touched [= _ _ <-] acc Ha. Qed.

Lemma sample_ready : ready 2 sample_state.
Proof.
  destruct (bootstrap_returns (B:=debug) (M:=tangent_libm) (K:=keccak_reference) (A:=abi_reference)
    sample_pools sample_env sample_fees sample_bytes sample_affordable) as (r & Hr & Hst).
  assert (Hs : r = inr sample_state); [|by apply Hst].
  unfold sample_state. rewrite Hr. destruct r as [e|st]; [|done]. exfalso. revert Hr. vm_compute. discriminate.
Qed.

(** The row of the sample prediction. *)
Definition row_of (r : outcome (option (string + ScoreOutcome))) : option ScoreOutcome :=
  match r with Ret (Some (inr o)) => Some o | _ => None end.
Definition sample_row : ScoreOutcome := default (mkOutcome [] 0 0 0 "" "") (row_of sample_score).

Lemma row_scored r d : bool_decide (is_Some (row_of r)) = true -> r = Ret (Some (inr (default d (row_of r)))).
Proof. by destruct r as [[[e|o]|]|]. Qed.

Lemma sample_scored : sample_score = Ret (Some (inr sample_row)).
Proof. apply row_scored. vm_compute. reflexivity. Qed.



(** A walk over both pairs. *)
Definition sample_cycle : DetectedCycle := mkCycle [1; 0; 1]%nat f64_zero.

Lemma verify_cycle_exact_witness :
  exists gross ts, 10 ^ 18 < gross /\
    Forall2 (trade_of (graph sample_state) (token_index sample_state) sample_pools) (windows (path sample_cycle)) ts /\
    executes (pairs_of (latest_states sample_state)) (10 ^ 18) ts gross.
Proof.
  destruct (verify_cycle_u256 (graph sample_state) (token_index sample_state) sample_pools (latest_states sample_state)
    sample_cycle (10 ^ 18)) as [gross|] eqn:Ev; [|exfalso; revert Ev; vm_compute; discriminate].
  assert (Hbig : match verify_cycle_u256 (graph sample_state) (token_index sample_state) sample_pools
    (latest_states sample_state) sample_cycle (10 ^ 18) with Some g => 10 ^ 18 <? g | None => false end = true)
    by (vm_compute; reflexivity).
  rewrite Ev in Hbig. apply Z.ltb_lt in Hbig.
  destruct (verify_cycle_exact (graph sample_state) (token_index sample_state) sample_pools (latest_states sample_state)
    ltac:(repeat constructor; done) sample_cycle (10 ^ 18) gross (ready_states _ _ sample_ready) ltac:(lia)) as [Hiff _].
  destruct (proj1 Hiff Ev) as (_ & ts & Hts & Hex).
  exact (ex_intro _ gross (ex_intro _ ts (conj Hbig (conj Hts Hex)))).
Defined.

(** The path written with the sample row names the first pair on both hops,
    although the trades of the row also use the second, which is cheaper. *)
Theorem recorded_path_differs :
  json_pool <$> cycle_path sample_row = [hex_address 100; hex_address 100] /\
  exists e tk p, resolve_hop (graph sample_state) (token_index sample_state) sample_pools 0 1 = Some (e, tk, 1%nat, p) /\
    address p = 101.
Proof. split; [vm_compute; reflexivity|]. do 3 eexists. split; [vm_compute; reflexivity|done]. Qed.

End ProfitScorer.
