(* ===== verification/AetherExecutor.v ===== *)
(** * The executor contract

    [contracts/src/AetherExecutor.sol], with what it inherits and uses of the
    OpenZeppelin contracts (Ownable2Step, AccessControl, ReentrancyGuard,
    SafeERC20). A function of the contract is a computation on its storage and on
    the rest of the chain that ends or reverts. Every other contract is a
    [Prog]: it reads and changes its part of the chain, calls the executor back
    under any address, opens frames of its own, and returns or reverts. [call]
    runs such a program with the executor's own code for the calls back, up to
    the call depth the EVM allows; a frame that reverts leaves no trace. Gas is
    not modelled; the [gasUsed] field of [ArbExecuted] is left out. *)

From Stdlib Require Import ZArith Lia String.
From S2P Require Import Prelude.
From S2P Require Import Machine.
From S2P Require Import Types.
From S2P Require Import Bytes.
From S2P Require Import Keccak.
From S2P Require Import Abi.
From S2P Require Import Pipeline.
From stdpp Require Import base option numbers strings gmap list.

Local Open Scope Z_scope.

Module AetherExecutor.

(** ** Data *)

Definition WETH : Address := 0xC02aaA39b223FE8D0A0e5C4F27eAD9083C756Cc2.

Definition UNISWAP_V2 : Z := 1.
Definition UNISWAP_V3 : Z := 2.
Definition SUSHISWAP : Z := 3.
Definition CURVE : Z := 4.
Definition BALANCER_V2 : Z := 5.
Definition BANCOR_V3 : Z := 6.

Definition ROUTER_TIMELOCK_24H : Z := 24 * 3600.
Definition ROUTER_TIMELOCK_48H : Z := 48 * 3600.
Definition CURVE_EXCHANGE_DX_OFFSET : nat := 68.

Record PendingRouterUpdate : Type := mkPending {
  router : Address;
  executeAfter : Z;
  expiresAt : Z;
}.

Record SwapStep : Type := mkStep {
  protocol : Z;
  pool : Address;
  tokenIn : Address;
  tokenOut : Address;
  amountIn : Z;
  minAmountOut : Z;
  data : list Z;
}.

Inductive Event : Type :=
| ArbExecuted (flashloanToken : Address) (flashloanAmount profit tipAmount : Z)
| DexRouterSet (protocol : Z) (router : Address)
| RouterUpdateQueued (protocol : Z) (router : Address) (executeAfter expiresAt : Z)
| RouterUpdateCancelled (protocol : Z)
| RouterTimelockDurationSet (newDuration : Z)
| DexEnabledSet (protocol : Z) (enabled : bool)
| PausedSet (paused : bool)
| MinProfitThresholdSet (newThreshold : Z)
| RoleGranted (role : Z) (account : Address)
| RoleRevoked (role : Z) (account : Address)
| OwnershipTransferStarted (previousOwner newOwner : Address)
| OwnershipTransferred (previousOwner newOwner : Address).

(** The reasons a call reverts for. [Bubble] passes on the data of a callee,
    [Empty] carries none (a failed ABI decoding, a call to an address without
    code), [Overflow] is the panic of checked arithmetic. *)
Inductive Err : Type :=
| NotAavePool | InvalidInitiator | FlashLoanFailed | NotPendingV3Pool | DeadlineExpired
| InsufficientProfit (actual required : Z)
| InsufficientOutput (stepIndex actual expected : Z)
| ZeroAddress | ZeroFlashloanAmount | ArrayLengthMismatch
| SwapFailed (stepIndex : Z)
| TipBpsTooHigh | CoinbaseTipFailed
| UnknownProtocol (protocol : Z)
| ProtocolDisabled (protocol : Z)
| ZeroRouter | Paused
| BalanceInvariantViolation (token : Address) (expectedMin actual : Z)
| InsufficientLiveBalance (stepIndex requested available : Z)
| TokenListTooLarge | V3NoAmountOwed | RescueFailed
| InvalidTimelockDuration (duration : Z)
| RouterUpdateAlreadyPending (protocol : Z)
| NoPendingRouterUpdate (protocol : Z)
| RouterUpdateTimelockActive (protocol executeAfter : Z)
| RouterUpdateExpired (protocol expiresAt : Z)
| RenounceDisabled
| OwnableUnauthorizedAccount (account : Address)
| AccessControlUnauthorizedAccount (account : Address) (role : Z)
| AccessControlBadConfirmation
| ReentrancyGuardReentrantCall
| SafeERC20FailedOperation (token : Address)
| Overflow | Empty
| Bubble (returndata : list Z).

(** What the owner and the role holders administer. *)
Record Config : Type := mkConfig {
  owner : Address;
  pendingOwner : Address;
  roles : gset (Z * Address);
  protocolRouter : gmap Z Address;
  protocolEnabled : gmap Z bool;
  routerTimelockDuration : Z;
  pendingRouterUpdates : gmap Z PendingRouterUpdate;
  paused : bool;
  minProfitThreshold : Z;
}.

(** What is set only while a call runs: the reentrancy guard and the state of
    the V3 callback. *)
Record Running : Type := mkRunning {
  entered : bool;
  swapInProgress : bool;
  pendingV3Pool : Address;
  pendingV3TokenIn : Address;
  pendingV3AmountIn : Z;
}.

Record Storage : Type := mkStorage {
  config : Config;
  running : Running;
  events : list Event;
}.

Record Block : Type := mkBlock { timestamp : Z; coinbase : Address }.

Definition set_config (f : Config -> Config) (s : Storage) : Storage :=
  mkStorage (f (config s)) (running s) (events s).
Definition set_running (f : Running -> Running) (s : Storage) : Storage :=
  mkStorage (config s) (f (running s)) (events s).

Definition set_owner (o : Address) (c : Config) : Config :=
  mkConfig o (pendingOwner c) (roles c) (protocolRouter c) (protocolEnabled c)
    (routerTimelockDuration c) (pendingRouterUpdates c) (paused c) (minProfitThreshold c).
Definition set_pendingOwner (o : Address) (c : Config) : Config :=
  mkConfig (owner c) o (roles c) (protocolRouter c) (protocolEnabled c)
    (routerTimelockDuration c) (pendingRouterUpdates c) (paused c) (minProfitThreshold c).
Definition set_roles (r : gset (Z * Address)) (c : Config) : Config :=
  mkConfig (owner c) (pendingOwner c) r (protocolRouter c) (protocolEnabled c)
    (routerTimelockDuration c) (pendingRouterUpdates c) (paused c) (minProfitThreshold c).
Definition set_protocolRouter (m : gmap Z Address) (c : Config) : Config :=
  mkConfig (owner c) (pendingOwner c) (roles c) m (protocolEnabled c)
    (routerTimelockDuration c) (pendingRouterUpdates c) (paused c) (minProfitThreshold c).
Definition set_protocolEnabled (m : gmap Z bool) (c : Config) : Config :=
  mkConfig (owner c) (pendingOwner c) (roles c) (protocolRouter c) m
    (routerTimelockDuration c) (pendingRouterUpdates c) (paused c) (minProfitThreshold c).
Definition set_routerTimelockDuration (d : Z) (c : Config) : Config :=
  mkConfig (owner c) (pendingOwner c) (roles c) (protocolRouter c) (protocolEnabled c)
    d (pendingRouterUpdates c) (paused c) (minProfitThreshold c).
Definition set_pendingRouterUpdates (m : gmap Z PendingRouterUpdate) (c : Config) : Config :=
  mkConfig (owner c) (pendingOwner c) (roles c) (protocolRouter c) (protocolEnabled c)
    (routerTimelockDuration c) m (paused c) (minProfitThreshold c).
Definition set_paused (b : bool) (c : Config) : Config :=
  mkConfig (owner c) (pendingOwner c) (roles c) (protocolRouter c) (protocolEnabled c)
    (routerTimelockDuration c) (pendingRouterUpdates c) b (minProfitThreshold c).
Definition set_minProfitThreshold (z : Z) (c : Config) : Config :=
  mkConfig (owner c) (pendingOwner c) (roles c) (protocolRouter c) (protocolEnabled c)
    (routerTimelockDuration c) (pendingRouterUpdates c) (paused c) z.

Definition set_entered (b : bool) (r : Running) : Running :=
  mkRunning b (swapInProgress r) (pendingV3Pool r) (pendingV3TokenIn r) (pendingV3AmountIn r).
Definition set_swapInProgress (b : bool) (r : Running) : Running :=
  mkRunning (entered r) b (pendingV3Pool r) (pendingV3TokenIn r) (pendingV3AmountIn r).
Definition set_pendingV3 (p t : Address) (a : Z) (r : Running) : Running :=
  mkRunning (entered r) (swapInProgress r) p t a.

(** ** The rest of the chain *)

(** Native balances, and everything else. *)
Record World (R : Type) : Type := mkWorld {
  eth : Address -> Z;
  chain : R;
}.
Arguments mkWorld {R} _ _.
Arguments eth {R} _ _.
Arguments chain {R} _.

Definition move_eth {R} (from to : Address) (v : Z) (w : World R) : World R :=
  let debited a := if decide (a = from) then eth w a - v else eth w a in
  mkWorld (fun a => if decide (a = to) then debited a + v else debited a) (chain w).

(** The calls the contract accepts. *)
Inductive Msg : Type :=
| ExecuteArb (steps : list SwapStep) (flashloanToken : Address)
    (flashloanAmount deadline minProfitOut tipBps : Z)
| ExecuteOperation (asset : Address) (amount premium : Z) (initiator : Address) (params : list Z)
| UniswapV3SwapCallback (amount0Delta amount1Delta : Z)
| SetRouterTimelockDuration (duration : Z)
| QueueRouterUpdate (protocol : Z) (router : Address)
| ExecuteRouterUpdate (protocol : Z)
| CancelRouterUpdate (protocol : Z)
| SetDexEnabled (protocol : Z) (enabled : bool)
| SetPaused (newPaused : bool)
| SetMinProfitThreshold (newThreshold : Z)
| SetApprovals (tokens spenders : list Address)
| Rescue (token : Address) (amount : Z)
| GrantRole (role : Z) (account : Address)
| RevokeRole (role : Z) (account : Address)
| RenounceRole (role : Z) (callerConfirmation : Address)
| GrantExecutor (executor : Address)
| RevokeExecutor (executor : Address)
| GrantPauser (pauser : Address)
| TransferOwnership (newOwner : Address)
| AcceptOwnership
| RenounceOwnership
| Receive.

(** The code of another contract. It sees the executor's storage through its
    getters. [Into] calls the executor with a sender and a value, [Try] opens a
    frame that is undone when it reverts. *)
Inductive Prog (R : Type) : Type :=
| Halt (ok : bool) (returndata : list Z)
| Do (f : Storage -> World R -> World R) (k : Storage -> World R -> Prog R)
| Into (sender : Address) (value : Z) (m : Msg) (k : Err + unit -> Storage -> World R -> Prog R)
| Try (p : Prog R) (k : bool -> list Z -> Storage -> World R -> Prog R).
Arguments Halt {R} _ _.
Arguments Do {R} _ _.
Arguments Into {R} _ _ _ _.
Arguments Try {R} _ _.

(** ** Computations of the contract *)

Definition M (R A : Type) : Type := Storage -> World R -> Err + (A * Storage * World R).

#[export] Instance M_ret {R} : MRet (M R) := fun A a s w => inr (a, s, w).
#[export] Instance M_bind {R} : MBind (M R) := fun A B f m s w =>
  match m s w with inl e => inl e | inr (a, s', w') => f a s' w' end.

Section Contract.
Context {R : Type} {K : Keccak} {A : SolAbi}.
(** The contract's own address, the immutable pool address and the block. *)
Context (self AAVE_POOL : Address) (block : Block).
(** A message call with value and data; a static call; whether an address has
    code. *)
Context (call : Address -> Z -> list Z -> Storage -> World R ->
                bool * list Z * Storage * World R).
Context (static_call : Address -> list Z -> Storage -> World R -> option (list Z)).
Context (has_code : World R -> Address -> bool).

Definition revert {T} (e : Err) : M R T := fun _ _ => inl e.
Definition require (b : bool) (e : Err) : M R () := if b then mret () else revert e.
Definition gets {T} (f : Storage -> T) : M R T := fun s w => inr (f s, s, w).
Definition modify (f : Storage -> Storage) : M R () := fun s w => inr ((), f s, w).
Definition emit (e : Event) : M R () :=
  modify (fun s => mkStorage (config s) (running s) (events s ++ [e])).

Definition checked (z : Z) : M R Z := if decide (0 <= z < 2 ^ 256) then mret z else revert Overflow.

Definition ext_call (target : Address) (value : Z) (data : list Z) : M R (bool * list Z) :=
  fun s w => let '(ok, ret, s', w') := call target value data s w in inr ((ok, ret), s', w').

(** A call through an interface: the target must have code, and a revert is
    passed on. *)
Definition interface_call (target : Address) (value : Z) (data : list Z) : M R () :=
  (fun s w => if has_code w target then inr ((), s, w) else inl Empty) ≫= fun _ =>
  '(ok, ret) ← ext_call target value data;
  if ok : bool then mret () else revert (Bubble ret).

(** A view call that returns one word. *)
Definition view_word (target : Address) (data : list Z) : M R Z := fun s w =>
  match static_call target data s w with
  | Some ret => match Decoder.word_at ret 0 with Some v => inr (v, s, w) | None => inl Empty end
  | None => inl Empty
  end.

(** ** Tokens *)

Definition transfer_data (to : Address) (amount : Z) : list Z :=
  abi_encode_call "transfer" [SAddress; SUint 256] (to, (amount, tt)).
Definition approve_data (spender : Address) (amount : Z) : list Z :=
  abi_encode_call "approve" [SAddress; SUint 256] (spender, (amount, tt)).
Definition balanceOf_data (account : Address) : list Z :=
  abi_encode_call "balanceOf" [SAddress] (account, tt).
Definition allowance_data (account spender : Address) : list Z :=
  abi_encode_call "allowance" [SAddress; SAddress] (account, (spender, tt)).
Definition withdraw_data (wad : Z) : list Z := abi_encode_call "withdraw" [SUint 256] (wad, tt).
Definition deposit_data : list Z := abi_encode_call "deposit" [] tt.

Definition balanceOf (token : Address) : M R Z := view_word token (balanceOf_data self).
Definition allowance (token spender : Address) : M R Z := view_word token (allowance_data self spender).

(** The word at memory 0 after a call that wrote its data there and up to 32
    bytes of the answer over it. *)
Definition scratch (data ret : list Z) : Z :=
  be (take 32 (take 32 ret ++ drop (length (take 32 ret)) data)).

(** [_safeTransfer] and [_safeApprove]: an absent answer counts as success when
    the token has code. *)
Definition call_optional_bool (token : Address) (data : list Z) (bubble : bool) : M R bool :=
  '(success, ret) ← ext_call token 0 data;
  if (success : bool) && (scratch data ret =? 1) then mret true
  else if negb success && bubble then revert (Bubble ret)
  else fun s w => inr (success && (Z.of_nat (length ret) =? 0) && has_code w token, s, w).

Definition safeTransfer (token to : Address) (value : Z) : M R () :=
  ok ← call_optional_bool token (transfer_data to value) true;
  require ok (SafeERC20FailedOperation token).

Definition forceApprove (token spender : Address) (value : Z) : M R () :=
  ok ← call_optional_bool token (approve_data spender value) false;
  if ok : bool then mret ()
  else
    zeroed ← call_optional_bool token (approve_data spender 0) true;
    require zeroed (SafeERC20FailedOperation token) ≫= fun _ =>
    again ← call_optional_bool token (approve_data spender value) true;
    require again (SafeERC20FailedOperation token).

(** ** Roles and ownership *)

Definition DEFAULT_ADMIN_ROLE : Z := 0.
Definition EXECUTOR_ROLE : Z := keccak256 (string_bytes "EXECUTOR_ROLE").
Definition PAUSER_ROLE : Z := keccak256 (string_bytes "PAUSER_ROLE").

Definition hasRole (role : Z) (account : Address) (s : Storage) : bool :=
  bool_decide ((role, account) ∈ roles (config s)).

Definition onlyRole (role : Z) (sender : Address) : M R () :=
  has ← gets (hasRole role sender);
  require has (AccessControlUnauthorizedAccount sender role).

Definition onlyOwner (sender : Address) : M R () :=
  o ← gets (fun s => owner (config s));
  require (o =? sender) (OwnableUnauthorizedAccount sender).

Definition _grantRole (role : Z) (account : Address) : M R () :=
  has ← gets (hasRole role account);
  if has : bool then mret ()
  else
    modify (set_config (fun c => set_roles ({[(role, account)]} ∪ roles c) c)) ≫= fun _ =>
    emit (RoleGranted role account).

Definition _revokeRole (role : Z) (account : Address) : M R () :=
  has ← gets (hasRole role account);
  if has : bool then
    modify (set_config (fun c => set_roles (roles c ∖ {[(role, account)]}) c)) ≫= fun _ =>
    emit (RoleRevoked role account)
  else mret ().

Definition _transferOwnership (newOwner : Address) : M R () :=
  previousOwner ← gets (fun s => owner (config s));
  modify (set_config (set_pendingOwner 0)) ≫= fun _ =>
  modify (set_config (set_owner newOwner)) ≫= fun _ =>
  emit (OwnershipTransferred previousOwner newOwner) ≫= fun _ =>
  (if previousOwner =? 0 then mret () else _revokeRole DEFAULT_ADMIN_ROLE previousOwner) ≫= fun _ =>
  if newOwner =? 0 then mret () else _grantRole DEFAULT_ADMIN_ROLE newOwner.

Definition transferOwnership (sender newOwner : Address) : M R () :=
  onlyOwner sender ≫= fun _ =>
  modify (set_config (set_pendingOwner newOwner)) ≫= fun _ =>
  o ← gets (fun s => owner (config s));
  emit (OwnershipTransferStarted o newOwner).

Definition acceptOwnership (sender : Address) : M R () :=
  p ← gets (fun s => pendingOwner (config s));
  require (p =? sender) (OwnableUnauthorizedAccount sender) ≫= fun _ =>
  _transferOwnership sender.

Definition renounceOwnership : M R () := revert RenounceDisabled.

Definition grantRole (sender : Address) (role : Z) (account : Address) : M R () :=
  onlyOwner sender ≫= fun _ => _grantRole role account.
Definition revokeRole (sender : Address) (role : Z) (account : Address) : M R () :=
  onlyOwner sender ≫= fun _ => _revokeRole role account.
Definition renounceRole (sender : Address) (role : Z) (callerConfirmation : Address) : M R () :=
  require (callerConfirmation =? sender) AccessControlBadConfirmation ≫= fun _ =>
  _revokeRole role callerConfirmation.

Definition grantExecutor (sender executor : Address) : M R () :=
  onlyOwner sender ≫= fun _ =>
  require (negb (executor =? 0)) ZeroAddress ≫= fun _ =>
  _grantRole EXECUTOR_ROLE executor.
Definition revokeExecutor (sender executor : Address) : M R () :=
  onlyOwner sender ≫= fun _ => _revokeRole EXECUTOR_ROLE executor.
Definition grantPauser (sender pauser : Address) : M R () :=
  onlyOwner sender ≫= fun _ =>
  require (negb (pauser =? 0)) ZeroAddress ≫= fun _ =>
  _grantRole PAUSER_ROLE pauser.

(** ** The registry of routers *)

Definition _isValidProtocol (protocol : Z) : bool :=
  (UNISWAP_V2 - 1 <? protocol) && (protocol <? BANCOR_V3 + 1).

(** An entry of a mapping; an unset one is zero. *)
Definition routerOf (p : Z) (s : Storage) : Address := default 0 (protocolRouter (config s) !! p).
Definition enabledOf (p : Z) (s : Storage) : bool := default false (protocolEnabled (config s) !! p).
Definition pendingOf (p : Z) (s : Storage) : PendingRouterUpdate :=
  default (mkPending 0 0 0) (pendingRouterUpdates (config s) !! p).

Definition setRouterTimelockDuration (sender : Address) (duration : Z) : M R () :=
  onlyOwner sender ≫= fun _ =>
  require ((duration =? ROUTER_TIMELOCK_24H) || (duration =? ROUTER_TIMELOCK_48H))
    (InvalidTimelockDuration duration) ≫= fun _ =>
  modify (set_config (set_routerTimelockDuration duration)) ≫= fun _ =>
  emit (RouterTimelockDurationSet duration).

Definition queueRouterUpdate (sender : Address) (protocol : Z) (r : Address) : M R () :=
  onlyOwner sender ≫= fun _ =>
  require (_isValidProtocol protocol) (UnknownProtocol protocol) ≫= fun _ =>
  require (negb (r =? 0)) ZeroRouter ≫= fun _ =>
  pending ← gets (pendingOf protocol);
  require (router pending =? 0) (RouterUpdateAlreadyPending protocol) ≫= fun _ =>
  duration ← gets (fun s => routerTimelockDuration (config s));
  after ← checked (timestamp block + duration);
  double ← checked (duration * 2);
  expires ← checked (timestamp block + double);
  let pending := mkPending r (after mod 2 ^ 48) (expires mod 2 ^ 48) in
  modify (set_config (fun c =>
    set_pendingRouterUpdates (<[protocol := pending]> (pendingRouterUpdates c)) c)) ≫= fun _ =>
  emit (RouterUpdateQueued protocol r (after mod 2 ^ 48) (expires mod 2 ^ 48)).

Definition delete_pending (protocol : Z) : M R () :=
  modify (set_config (fun c => set_pendingRouterUpdates (delete protocol (pendingRouterUpdates c)) c)).

Definition executeRouterUpdate (sender : Address) (protocol : Z) : M R () :=
  onlyOwner sender ≫= fun _ =>
  pending ← gets (pendingOf protocol);
  require (negb (router pending =? 0)) (NoPendingRouterUpdate protocol) ≫= fun _ =>
  require (negb (timestamp block <? executeAfter pending))
    (RouterUpdateTimelockActive protocol (executeAfter pending)) ≫= fun _ =>
  require (negb (expiresAt pending <? timestamp block))
    (RouterUpdateExpired protocol (expiresAt pending)) ≫= fun _ =>
  delete_pending protocol ≫= fun _ =>
  modify (set_config (fun c =>
    set_protocolRouter (<[protocol := router pending]> (protocolRouter c)) c)) ≫= fun _ =>
  emit (DexRouterSet protocol (router pending)).

Definition cancelRouterUpdate (sender : Address) (protocol : Z) : M R () :=
  onlyOwner sender ≫= fun _ =>
  pending ← gets (pendingOf protocol);
  require (negb (router pending =? 0)) (NoPendingRouterUpdate protocol) ≫= fun _ =>
  delete_pending protocol ≫= fun _ =>
  emit (RouterUpdateCancelled protocol).

Definition setDexEnabled (sender : Address) (protocol : Z) (enabled : bool) : M R () :=
  onlyOwner sender ≫= fun _ =>
  require (_isValidProtocol protocol) (UnknownProtocol protocol) ≫= fun _ =>
  now ← gets (enabledOf protocol);
  if bool_decide (now = enabled) then mret ()
  else
    modify (set_config (fun c =>
      set_protocolEnabled (<[protocol := enabled]> (protocolEnabled c)) c)) ≫= fun _ =>
    emit (DexEnabledSet protocol enabled).

Definition setPaused (sender : Address) (newPaused : bool) : M R () :=
  onlyRole PAUSER_ROLE sender ≫= fun _ =>
  now ← gets (fun s => paused (config s));
  if bool_decide (now = newPaused) then mret ()
  else modify (set_config (set_paused newPaused)) ≫= fun _ => emit (PausedSet newPaused).

Definition setMinProfitThreshold (sender : Address) (newThreshold : Z) : M R () :=
  onlyOwner sender ≫= fun _ =>
  modify (set_config (set_minProfitThreshold newThreshold)) ≫= fun _ =>
  emit (MinProfitThresholdSet newThreshold).

Fixpoint approve_all (tokens spenders : list Address) : M R () :=
  match tokens, spenders with
  | t :: tokens, sp :: spenders =>
      require (negb (sp =? 0)) ZeroAddress ≫= fun _ =>
      forceApprove t sp (2 ^ 256 - 1) ≫= fun _ =>
      approve_all tokens spenders
  | _, _ => mret ()
  end.

Definition setApprovals (sender : Address) (tokens spenders : list Address) : M R () :=
  onlyOwner sender ≫= fun _ =>
  require (length tokens =? length spenders)%nat ArrayLengthMismatch ≫= fun _ =>
  approve_all tokens spenders.

Definition rescue (sender token : Address) (amount : Z) : M R () :=
  onlyOwner sender ≫= fun _ =>
  o ← gets (fun s => owner (config s));
  if token =? 0 then
    '(ok, _) ← ext_call o amount [];
    require ok RescueFailed
  else safeTransfer token o amount.

(** ** Swaps *)

Definition _liveAmountIn (step : SwapStep) (index : Z) : M R Z :=
  bal ← balanceOf (tokenIn step);
  if amountIn step <=? bal then mret (amountIn step)
  else require (negb (bal <? 1)) (InsufficientLiveBalance index (amountIn step) 0) ≫= fun _ =>
       mret bal.

(** [_bubbleCallRevert], then [revert SwapFailed]. *)
Definition swap_failed {T} (returndata : list Z) (index : Z) : M R T :=
  if (4 <=? length returndata)%nat then revert (Bubble returndata) else revert (SwapFailed index).

Definition _patchCalldataAmount (data : list Z) (offset : nat) (newAmount : Z) : list Z :=
  if (length data <? offset + 32)%nat then data
  else take offset data ++ word newAmount ++ drop (offset + 32) data.

Definition _curveCalldataWithLiveDx (data : list Z) (actualIn : Z) : list Z :=
  if (length data <? CURVE_EXCHANGE_DX_OFFSET + 32)%nat then data
  else _patchCalldataAmount data CURVE_EXCHANGE_DX_OFFSET actualIn.

Definition _swapUniV2 (step : SwapStep) (index : Z) : M R () :=
  '(success, returndata) ← ext_call (pool step) 0 (data step);
  if success : bool then mret () else swap_failed returndata index.

Definition _swapUniV3 (step : SwapStep) (index : Z) : M R () :=
  actualIn ← _liveAmountIn step index;
  modify (set_running (set_pendingV3 (pool step) (tokenIn step) actualIn)) ≫= fun _ =>
  '(success, returndata) ← ext_call (pool step) 0 (data step);
  if success : bool then modify (set_running (set_pendingV3 0 0 0))
  else swap_failed returndata index.

(** The body [_swapCurve], [_swapBalancer] and [_swapBancor] share: an allowance
    for the call only. *)
Definition approved_call (step : SwapStep) (index : Z) (target : Address) (actualIn : Z)
    (callData : list Z) : M R () :=
  forceApprove (tokenIn step) target actualIn ≫= fun _ =>
  '(success, returndata) ← ext_call target 0 callData;
  if success : bool then forceApprove (tokenIn step) target 0 else swap_failed returndata index.

Definition _swapCurve (step : SwapStep) (index : Z) : M R () :=
  actualIn ← _liveAmountIn step index;
  approved_call step index (pool step) actualIn (_curveCalldataWithLiveDx (data step) actualIn).

Definition _swapBalancer (step : SwapStep) (index : Z) : M R () :=
  vault ← gets (routerOf BALANCER_V2);
  require (negb (vault =? 0)) ZeroRouter ≫= fun _ =>
  actualIn ← _liveAmountIn step index;
  approved_call step index vault actualIn (data step).

Definition _swapBancor (step : SwapStep) (index : Z) : M R () :=
  network ← gets (routerOf BANCOR_V3);
  require (negb (network =? 0)) ZeroRouter ≫= fun _ =>
  actualIn ← _liveAmountIn step index;
  approved_call step index network actualIn (data step).

(** The dispatch on the protocol inside [_executeSwap]. *)
Definition swap_on (step : SwapStep) (index : Z) : M R () :=
  if (protocol step =? UNISWAP_V2) || (protocol step =? SUSHISWAP) then
    actualIn ← _liveAmountIn step index;
    safeTransfer (tokenIn step) (pool step) actualIn ≫= fun _ =>
    _swapUniV2 step index
  else if protocol step =? UNISWAP_V3 then _swapUniV3 step index
  else if protocol step =? CURVE then _swapCurve step index
  else if protocol step =? BALANCER_V2 then _swapBalancer step index
  else if protocol step =? BANCOR_V3 then _swapBancor step index
  else
    modify (set_running (set_swapInProgress false)) ≫= fun _ =>
    revert (UnknownProtocol (protocol step)).

Definition _executeSwap (step : SwapStep) (index : Z) : M R () :=
  busy ← gets (fun s => swapInProgress (running s));
  require (negb busy) (SwapFailed index) ≫= fun _ =>
  enabled ← gets (enabledOf (protocol step));
  require enabled (ProtocolDisabled (protocol step)) ≫= fun _ =>
  balanceBefore ← balanceOf (tokenOut step);
  modify (set_running (set_swapInProgress true)) ≫= fun _ =>
  swap_on step index ≫= fun _ =>
  modify (set_running (set_swapInProgress false)) ≫= fun _ =>
  balanceAfter ← balanceOf (tokenOut step);
  require (negb (balanceAfter <? balanceBefore)) (InsufficientOutput index 0 (minAmountOut step))
    ≫= fun _ =>
  let amountOut := balanceAfter - balanceBefore in
  require (negb (amountOut <? minAmountOut step)) (InsufficientOutput index amountOut (minAmountOut step)).

Fixpoint run_swaps (steps : list SwapStep) (index : Z) : M R () :=
  match steps with
  | [] => mret ()
  | step :: steps => _executeSwap step index ≫= fun _ => run_swaps steps (index + 1)
  end.
Definition _runSwaps (steps : list SwapStep) : M R () := run_swaps steps 0.

(** Payment of a V3 pool, in its callback. *)
Definition uniswapV3SwapCallback (sender : Address) (amount0Delta amount1Delta : Z) : M R () :=
  r ← gets running;
  require (swapInProgress r) NotPendingV3Pool ≫= fun _ =>
  require (sender =? pendingV3Pool r) NotPendingV3Pool ≫= fun _ =>
  require (negb ((amount0Delta <=? 0) && (amount1Delta <=? 0))) V3NoAmountOwed ≫= fun _ =>
  let owed := if 0 <? amount0Delta then amount0Delta else amount1Delta in
  let amountOwed := if pendingV3AmountIn r <? owed then pendingV3AmountIn r else owed in
  modify (set_running (set_pendingV3 (pendingV3Pool r) (pendingV3TokenIn r) 0)) ≫= fun _ =>
  if amountOwed =? 0 then mret () else safeTransfer (pendingV3TokenIn r) sender amountOwed.

(** ** Balances around the swaps *)

(** The loop that fills [tmp]: the distinct tokens, in order of appearance. *)
Definition add_token (tmp : list Address) (t : Address) : list Address :=
  if bool_decide (t ∈ tmp) then tmp else tmp ++ [t].
Definition tracked (steps : list SwapStep) (flashAsset : Address) : list Address :=
  foldl (fun tmp step => add_token (add_token tmp (tokenIn step)) (tokenOut step)) [flashAsset] steps.

Fixpoint balances (tokens : list Address) : M R (list Z) :=
  match tokens with
  | [] => mret []
  | t :: tokens => b ← balanceOf t; bs ← balances tokens; mret (b :: bs)
  end.

Definition _snapshotBalances (steps : list SwapStep) (flashAsset : Address)
    : M R (list Address * list Z) :=
  require (negb (32 <? Z.of_nat (length steps) * 2 + 1)) TokenListTooLarge ≫= fun _ =>
  let tokens := tracked steps flashAsset in
  bs ← balances tokens;
  mret (tokens, bs).

Fixpoint check_intermediates (flashAsset : Address) (snapshot : list (Address * Z)) : M R () :=
  match snapshot with
  | [] => mret ()
  | (token, pre) :: snapshot =>
      (if token =? flashAsset then mret ()
       else
         current ← balanceOf token;
         require (negb (pre <? current)) (BalanceInvariantViolation token pre current)) ≫= fun _ =>
      check_intermediates flashAsset snapshot
  end.

Definition _verifyBalanceInvariants (tokens : list Address) (preBalances : list Z)
    (flashAsset : Address) (flashAmount premium : Z) : M R () :=
  totalDebt ← checked (flashAmount + premium);
  flashBal ← balanceOf flashAsset;
  require (negb (flashBal <? totalDebt)) (BalanceInvariantViolation flashAsset totalDebt flashBal)
    ≫= fun _ =>
  check_intermediates flashAsset (zip tokens preBalances).

Definition _runSwapsAndVerify (steps : list SwapStep) (asset : Address) (amount premium : Z) : M R () :=
  '(tokens, preBalances) ← _snapshotBalances steps asset;
  _runSwaps steps ≫= fun _ =>
  _verifyBalanceInvariants tokens preBalances asset amount premium.

(** ** Repayment and distribution *)

Definition pay_tip (asset : Address) (tipAmount : Z) : M R () :=
  if asset =? WETH then
    interface_call asset 0 (withdraw_data tipAmount) ≫= fun _ =>
    '(sent, _) ← ext_call (coinbase block) tipAmount [];
    if sent : bool then mret ()
    else
      interface_call WETH tipAmount deposit_data ≫= fun _ =>
      safeTransfer WETH (coinbase block) tipAmount
  else safeTransfer asset (coinbase block) tipAmount.

Definition _repayAndDistribute (asset : Address) (amount premium tipBps minProfitOut : Z)
    : M R (Z * Z) :=
  totalDebt ← checked (amount + premium);
  allowed ← allowance asset AAVE_POOL;
  (if allowed <? totalDebt then forceApprove asset AAVE_POOL (2 ^ 256 - 1) else mret ()) ≫= fun _ =>
  balance ← balanceOf asset;
  require (negb (balance <? totalDebt)) (BalanceInvariantViolation asset totalDebt balance) ≫= fun _ =>
  let profit := balance - totalDebt in
  require (negb (profit <? minProfitOut)) (InsufficientProfit profit minProfitOut) ≫= fun _ =>
  scaled ← checked (profit * tipBps);
  let tipAmount := scaled / 10000 in
  let ownerProfit := (profit - tipAmount) mod 2 ^ 256 in
  (if 0 <? tipAmount then pay_tip asset tipAmount else mret ()) ≫= fun _ =>
  (if 0 <? ownerProfit then
     o ← gets (fun s => owner (config s));
     safeTransfer asset o ownerProfit
   else mret ()) ≫= fun _ =>
  mret (profit, tipAmount).

(** ** The flash loan *)

Definition loan_params : list sol := [SArray (STuple Pipeline.SolSwapStep); SUint 256; SUint 256].

Definition step_value (s : SwapStep) : params Pipeline.SolSwapStep :=
  (protocol s, (pool s, (tokenIn s, (tokenOut s, (amountIn s, (minAmountOut s, (data s, tt))))))).
Definition step_of (v : params Pipeline.SolSwapStep) : SwapStep :=
  let '(protocol, (pool, (token_in, (token_out, (amount_in, (min_out, (data, _))))))) := v in
  mkStep protocol pool token_in token_out amount_in min_out data.

Definition encode_params (steps : list SwapStep) (tipBps minProfitOut : Z) : list Z :=
  Abi.encode (STuple loan_params) (map step_value steps, (tipBps, (minProfitOut, tt))).

Definition decode_params (params : list Z) : M R (list SwapStep * Z * Z) :=
  match abi_decode_params loan_params params with
  | inr (steps, (tipBps, (minProfitOut, _))) => mret (map step_of steps, tipBps, minProfitOut)
  | inl _ => revert Empty
  end.

Definition executeOperation (sender asset : Address) (amount premium : Z) (initiator : Address)
    (params : list Z) : M R () :=
  require (sender =? AAVE_POOL) NotAavePool ≫= fun _ =>
  require (initiator =? self) InvalidInitiator ≫= fun _ =>
  '(steps, tipBps, minProfitOut) ← decode_params params;
  _runSwapsAndVerify steps asset amount premium ≫= fun _ =>
  '(profit, tipAmount) ← _repayAndDistribute asset amount premium tipBps minProfitOut;
  emit (ArbExecuted asset amount profit tipAmount).

Fixpoint _validateStepsBeforeFlashLoan (steps : list SwapStep) : M R () :=
  match steps with
  | [] => mret ()
  | step :: steps =>
      require (_isValidProtocol (protocol step)) (UnknownProtocol (protocol step)) ≫= fun _ =>
      enabled ← gets (enabledOf (protocol step));
      require enabled (ProtocolDisabled (protocol step)) ≫= fun _ =>
      _validateStepsBeforeFlashLoan steps
  end.

Definition flash_loan_params : list sol := [SAddress; SAddress; SUint 256; SBytes; SUint 16].
Definition flash_loan_data (flashloanToken : Address) (flashloanAmount : Z) (params : list Z) : list Z :=
  abi_encode_call "flashLoanSimple" flash_loan_params
    (self, (flashloanToken, (flashloanAmount, (params, (0, tt))))).

Definition _initiateFlashLoanSimple (flashloanToken : Address) (flashloanAmount : Z)
    (params : list Z) : M R () :=
  '(success, returndata) ← ext_call AAVE_POOL 0 (flash_loan_data flashloanToken flashloanAmount params);
  if success : bool then mret ()
  else if (0 <? length returndata)%nat then revert (Bubble returndata) else revert FlashLoanFailed.

Definition executeArb (sender : Address) (steps : list SwapStep) (flashloanToken : Address)
    (flashloanAmount deadline minProfitOut tipBps : Z) : M R () :=
  onlyRole EXECUTOR_ROLE sender ≫= fun _ =>
  busy ← gets (fun s => entered (running s));
  require (negb busy) ReentrancyGuardReentrantCall ≫= fun _ =>
  modify (set_running (set_entered true)) ≫= fun _ =>
  stopped ← gets (fun s => paused (config s));
  require (negb stopped) Paused ≫= fun _ =>
  require (negb (flashloanToken =? 0)) ZeroAddress ≫= fun _ =>
  require (negb (flashloanAmount =? 0)) ZeroFlashloanAmount ≫= fun _ =>
  require (negb (deadline <? timestamp block)) DeadlineExpired ≫= fun _ =>
  require (negb (10000 <? tipBps)) TipBpsTooHigh ≫= fun _ =>
  floor ← gets (fun s => minProfitThreshold (config s));
  require (negb (minProfitOut <? floor)) (InsufficientProfit minProfitOut floor) ≫= fun _ =>
  _validateStepsBeforeFlashLoan steps ≫= fun _ =>
  _initiateFlashLoanSimple flashloanToken flashloanAmount (encode_params steps tipBps minProfitOut)
    ≫= fun _ =>
  modify (set_running (set_entered false)).

(** The function a message names. *)
Definition dispatch (sender : Address) (m : Msg) : M R () :=
  match m with
  | ExecuteArb steps t a d p b => executeArb sender steps t a d p b
  | ExecuteOperation asset a p i params => executeOperation sender asset a p i params
  | UniswapV3SwapCallback a0 a1 => uniswapV3SwapCallback sender a0 a1
  | SetRouterTimelockDuration d => setRouterTimelockDuration sender d
  | QueueRouterUpdate p r => queueRouterUpdate sender p r
  | ExecuteRouterUpdate p => executeRouterUpdate sender p
  | CancelRouterUpdate p => cancelRouterUpdate sender p
  | SetDexEnabled p b => setDexEnabled sender p b
  | SetPaused b => setPaused sender b
  | SetMinProfitThreshold z => setMinProfitThreshold sender z
  | SetApprovals ts sps => setApprovals sender ts sps
  | Rescue t a => rescue sender t a
  | GrantRole r a => grantRole sender r a
  | RevokeRole r a => revokeRole sender r a
  | RenounceRole r a => renounceRole sender r a
  | GrantExecutor a => grantExecutor sender a
  | RevokeExecutor a => revokeExecutor sender a
  | GrantPauser a => grantPauser sender a
  | TransferOwnership a => transferOwnership sender a
  | AcceptOwnership => acceptOwnership sender
  | RenounceOwnership => renounceOwnership
  | Receive => mret ()
  end.

(** Only [receive] takes ether. *)
Definition entry (sender : Address) (value : Z) (m : Msg) : M R () := fun s w =>
  if eth w sender <? value then inl Empty
  else match m with
       | Receive => dispatch sender m s (move_eth sender self value w)
       | _ => if value =? 0 then dispatch sender m s w else inl Empty
       end.

End Contract.

(** ** Calls to other contracts *)

Section Machine.
Context {R : Type} {K : Keccak} {A : SolAbi}.
Context (self AAVE_POOL : Address) (block : Block).
(** The code at an address, run for a caller with a value and data. *)
Context (code : Address -> Address -> Z -> list Z -> Prog R).
Context (static_call : Address -> list Z -> Storage -> World R -> option (list Z)).
Context (has_code : World R -> Address -> bool).

Fixpoint run (into : Address -> Z -> Msg -> M R ()) (p : Prog R) (s : Storage) (w : World R)
    : bool * list Z * Storage * World R :=
  match p with
  | Halt ok ret => (ok, ret, s, w)
  | Do f k => let w' := f s w in run into (k s w') s w'
  | Into sender value m k =>
      match into sender value m s w with
      | inl e => run into (k (inl e) s w) s w
      | inr (_, s', w') => run into (k (inr ()) s' w') s' w'
      end
  | Try p k =>
      match run into p s w with
      | (true, ret, s', w') => run into (k true ret s' w') s' w'
      | (false, ret, _, _) => run into (k false ret s w) s w
      end
  end.

(** A message call of the executor with [depth] frames left on the stack. *)
Fixpoint call (depth : nat) (target : Address) (value : Z) (data : list Z) (s : Storage)
    (w : World R) : bool * list Z * Storage * World R :=
  match depth with
  | O => (false, [], s, w)
  | S depth =>
      if eth w self <? value then (false, [], s, w)
      else match run (entry self AAVE_POOL block (call depth) static_call has_code)
                   (code target self value data) s (move_eth self target value w) with
           | (true, ret, s', w') => (true, ret, s', w')
           | (false, ret, _, _) => (false, ret, s, w)
           end
  end.

(** A transaction to the executor. The stack holds 1024 frames. *)
Definition transact (sender : Address) (value : Z) (m : Msg) : M R () :=
  entry self AAVE_POOL block (call 1023) static_call has_code sender value m.

End Machine.

(** ** Deployment *)

Definition protocols : list Z := [UNISWAP_V2; UNISWAP_V3; SUSHISWAP; CURVE; BALANCER_V2; BANCOR_V3].

(** The constructor. The fields with an initial value have it before the body
    runs, and [Ownable(msg.sender)] runs the overriding [_transferOwnership]. *)
Definition constructor `{K : Keccak} (sender _aavePool _balancerVault _bancorNetwork : Address)
    : M unit () :=
  _transferOwnership sender ≫= fun _ =>
  require (negb (_aavePool =? 0)) ZeroAddress ≫= fun _ =>
  require (negb (_balancerVault =? 0)) ZeroAddress ≫= fun _ =>
  require (negb (_bancorNetwork =? 0)) ZeroAddress ≫= fun _ =>
  modify (set_config (fun c => set_protocolRouter
    (<[BANCOR_V3 := _bancorNetwork]> (<[BALANCER_V2 := _balancerVault]> (protocolRouter c))) c)) ≫= fun _ =>
  modify (set_config (fun c => set_protocolEnabled
    (foldl (fun m p => <[p := true]> m) (protocolEnabled c) protocols) c)) ≫= fun _ =>
  _grantRole DEFAULT_ADMIN_ROLE sender ≫= fun _ =>
  _grantRole PAUSER_ROLE sender.

Definition blank : Storage :=
  mkStorage (mkConfig 0 0 ∅ ∅ ∅ ROUTER_TIMELOCK_24H ∅ false (45 * 10 ^ 14))
    (mkRunning false false 0 0 0) [].

Definition deploy `{K : Keccak} (sender _aavePool _balancerVault _bancorNetwork : Address)
    : Err + Storage :=
  match constructor sender _aavePool _balancerVault _bancorNetwork blank (mkWorld (fun _ => 0) ()) with
  | inl e => inl e
  | inr (_, s, _) => inr s
  end.

End AetherExecutor.
