(* ===== verification/ExecutorSpec.v ===== *)
(** * The executor contract: what its calls keep

    Theorems about [AetherExecutor], for arbitrary code at every other address
    and arbitrary calls back into the contract: who can change its
    administration, when a router can change, and what its guards are worth. The
    sample market at the end runs a whole arbitrage. *)

From Stdlib Require Import ZArith Lia String.
From S2P Require Import Prelude.
From S2P Require Import Machine.
From S2P Require Import Types.
From S2P Require Import Bytes.
From S2P Require Import Keccak.
From S2P Require Import Abi.
From S2P Require Import Pipeline.
From S2P Require Import AetherExecutor.
From stdpp Require Import base option numbers strings gmap list.

Local Open Scope Z_scope.

Module ExecutorSpec.
Import AetherExecutor.

Create HintDb exec.

(** ** Invariants of computations *)

(** A computation that ends leaves [I] true of the storage. *)
Definition keeps {R T} (I : Storage -> Prop) (m : M R T) : Prop :=
  forall s w a s' w', I s -> m s w = inr (a, s', w') -> I s'.

Section Keeps.
Context {R : Type} (I : Storage -> Prop).

Lemma keeps_ret {T} (a : T) : keeps I (mret a : M R T).
Proof. intros s w b s' w' Hs [= <- <- <-]. done. Qed.

Lemma keeps_bind {T U} (m : M R T) (f : T -> M R U) :
  keeps I m -> (forall a, keeps I (f a)) -> keeps I (m ≫= f).
Proof.
  intros Hm Hf s w b s' w' Hs E. unfold mbind, M_bind in E.
  destruct (m s w) as [e|[[a s1] w1]] eqn:Em; [done|]. exact (Hf a _ _ _ _ _ (Hm _ _ _ _ _ Hs Em) E).
Qed.

Lemma keeps_revert {T} e : keeps I (revert e : M R T).
Proof. intros s w b s' w' Hs E. done. Qed.

Lemma keeps_then_revert {T U} (m : M R T) e : keeps I (m ≫= fun _ => revert e : M R U).
Proof.
  intros s w b s' w' Hs E. unfold mbind, M_bind in E. by destruct (m s w) as [|[[a s1] w1]].
Qed.

Lemma keeps_require b e : keeps I (require b e : M R ()).
Proof. destruct b; [apply keeps_ret|apply keeps_revert]. Qed.

Lemma keeps_gets {T} (f : Storage -> T) : keeps I (gets f : M R T).
Proof. intros s w b s' w' Hs [= <- <- <-]. done. Qed.

Lemma keeps_modify f : (forall s, I s -> I (f s)) -> keeps I (modify f : M R ()).
Proof. intros H s w b s' w' Hs [= <- <- <-]. auto. Qed.

Lemma keeps_checked z : keeps I (checked z : M R Z).
Proof. unfold checked. destruct (decide _); [apply keeps_ret|apply keeps_revert]. Qed.

Lemma keeps_view sc target data : keeps I (view_word (R:=R) sc target data).
Proof.
  intros s w b s' w' Hs E. unfold view_word in E.
  destruct (sc target data s w); [|done]. destruct (Decoder.word_at _ _); [|done].
  by injection E as _ <- _.
Qed.

End Keeps.

#[export] Hint Resolve keeps_ret keeps_revert keeps_then_revert keeps_require keeps_gets keeps_checked keeps_view : exec.

(** Walk through a computation; the calls and the assignments are left. *)
Ltac walk :=
  repeat first
    [ progress intros
    | solve [eauto with exec]
    | apply keeps_bind
    | match goal with
      | |- keeps _ (match ?x with _ => _ end) => destruct x
      | |- keeps _ (let _ := _ in _) => cbv zeta
      end ].

(** Name the result of the first step of a sequence that ends. *)
Ltac step_in E a s w H :=
  match type of E with
  | (match ?m with _ => _ end) = _ => destruct m as [?|[[a s] w]] eqn:H; [done|]
  end.

(** Reduce past a check that held. *)
Ltac passed E := cbn [negb mret M_ret config set_running] in E.

(** ** Calls keep what the contract keeps *)

Section Trading.
Context {R : Type} {K : Keccak} {A : SolAbi}.
Context (self AAVE_POOL : Address) (block : Block).
Context (call : Address -> Z -> list Z -> Storage -> World R -> bool * list Z * Storage * World R).
Context (static_call : Address -> list Z -> Storage -> World R -> option (list Z)).
Context (has_code : World R -> Address -> bool).
Context (I : Storage -> Prop).

Definition call_keeps : Prop := forall target value data s w ok ret s' w',
  I s -> call target value data s w = (ok, ret, s', w') -> I s'.
Context (Hcall : call_keeps).

Lemma keeps_ext_call target value data : keeps I (ext_call (R:=R) call target value data).
Proof using Hcall.
  intros s w b s' w' Hs E. unfold ext_call in E.
  destruct (call target value data s w) as [[[ok ret] s1] w1] eqn:Ec.
  injection E as _ <- _. exact (Hcall _ _ _ _ _ _ _ _ _ Hs Ec).
Qed.
Hint Resolve keeps_ext_call : exec.

Lemma keeps_interface_call target value data :
  keeps I (interface_call (R:=R) call has_code target value data).
Proof using Hcall.
  unfold interface_call. apply keeps_bind; [|walk].
  intros s w b s' w' Hs E. destruct (has_code w target); [|done]. by injection E as _ <- _.
Qed.
Hint Resolve keeps_interface_call : exec.

Lemma keeps_call_optional_bool token data bubble :
  keeps I (call_optional_bool (R:=R) call has_code token data bubble).
Proof using Hcall.
  unfold call_optional_bool. walk. intros s w b' s' w' Hs E. by injection E as _ <- _.
Qed.
Hint Resolve keeps_call_optional_bool : exec.

Lemma keeps_safeTransfer token to value : keeps I (safeTransfer (R:=R) call has_code token to value).
Proof using Hcall. unfold safeTransfer. walk. Qed.

Lemma keeps_forceApprove token spender value :
  keeps I (forceApprove (R:=R) call has_code token spender value).
Proof using Hcall. unfold forceApprove. walk. Qed.
Hint Resolve keeps_safeTransfer keeps_forceApprove : exec.

Lemma keeps_liveAmountIn step index : keeps I (_liveAmountIn (R:=R) self static_call step index).
Proof using. unfold _liveAmountIn, balanceOf. walk. Qed.
Hint Resolve keeps_liveAmountIn : exec.

Lemma keeps_swap_failed {T} ret index : keeps I (swap_failed ret index : M R T).
Proof using. unfold swap_failed. walk. Qed.
Hint Resolve keeps_swap_failed : exec.

Lemma keeps_swapUniV2 step index : keeps I (_swapUniV2 (R:=R) call step index).
Proof using Hcall. unfold _swapUniV2. walk. Qed.

Lemma keeps_approved_call step index target actualIn callData :
  keeps I (approved_call (R:=R) call has_code step index target actualIn callData).
Proof using Hcall. unfold approved_call. walk. Qed.
Hint Resolve keeps_swapUniV2 keeps_approved_call : exec.

Lemma keeps_approve_all tokens : forall spenders,
  keeps I (approve_all (R:=R) call has_code tokens spenders).
Proof using Hcall. induction tokens as [|t tokens IH]; intros [|sp spenders]; simpl; walk. Qed.
Hint Resolve keeps_approve_all : exec.

Lemma keeps_setApprovals sender tokens spenders :
  keeps I (setApprovals (R:=R) call has_code sender tokens spenders).
Proof using Hcall. unfold setApprovals, onlyOwner. walk. Qed.

Lemma keeps_rescue sender token amount :
  keeps I (rescue (R:=R) call has_code sender token amount).
Proof using Hcall. unfold rescue, onlyOwner. walk. Qed.

Lemma keeps_balances tokens : keeps I (balances (R:=R) self static_call tokens).
Proof using. induction tokens as [|t tokens IH]; simpl; unfold balanceOf; walk. Qed.
Hint Resolve keeps_balances : exec.

Lemma keeps_snapshot steps asset : keeps I (_snapshotBalances (R:=R) self static_call steps asset).
Proof using. unfold _snapshotBalances. walk. Qed.

Lemma keeps_check_intermediates asset snapshot :
  keeps I (check_intermediates (R:=R) self static_call asset snapshot).
Proof using. induction snapshot as [|[t pre] snapshot IH]; simpl; unfold balanceOf; walk. Qed.
Hint Resolve keeps_snapshot keeps_check_intermediates : exec.

Lemma keeps_verify tokens pre asset amount premium :
  keeps I (_verifyBalanceInvariants (R:=R) self static_call tokens pre asset amount premium).
Proof using. unfold _verifyBalanceInvariants, balanceOf. walk. Qed.
Hint Resolve keeps_verify : exec.

Lemma keeps_pay_tip asset tip : keeps I (pay_tip (R:=R) block call has_code asset tip).
Proof using Hcall. unfold pay_tip. walk. Qed.
Hint Resolve keeps_pay_tip : exec.

Lemma keeps_repay asset amount premium tipBps minProfitOut :
  keeps I (_repayAndDistribute (R:=R) self AAVE_POOL block call static_call has_code
             asset amount premium tipBps minProfitOut).
Proof using Hcall. unfold _repayAndDistribute, balanceOf, allowance. walk. Qed.

Lemma keeps_validate steps : keeps I (_validateStepsBeforeFlashLoan (R:=R) steps).
Proof using. induction steps as [|step steps IH]; simpl; walk. Qed.

Lemma keeps_flash_loan token amount params :
  keeps I (_initiateFlashLoanSimple (R:=R) self AAVE_POOL call token amount params).
Proof using Hcall. unfold _initiateFlashLoanSimple. walk. Qed.

Lemma validated steps s w u s' w' : _validateStepsBeforeFlashLoan (R:=R) steps s w = inr (u, s', w') ->
  (s', w') = (s, w) /\
  Forall (fun st => _isValidProtocol (protocol st) = true /\ enabledOf (protocol st) s = true) steps.
Proof using.
  revert u. induction steps as [|step steps IH]; intros u E; cbn [_validateStepsBeforeFlashLoan] in E.
  { by injection E as _ <- <-. }
  unfold mbind, M_bind, gets, require in E. destruct (_isValidProtocol _) eqn:E1; [|done].
  cbn in E. destruct (enabledOf _ _) eqn:E2; [|done]. apply IH in E as [-> H]. by split; [|constructor].
Qed.

(** What a call of [executeArb] that ends has checked, and the call it made. *)
Lemma executed sender steps token amount deadline minProfitOut tipBps s w u s' w' :
  executeArb (R:=R) self AAVE_POOL block call sender steps token amount deadline minProfitOut tipBps s w
  = inr (u, s', w') ->
  hasRole EXECUTOR_ROLE sender s = true /\ entered (running s) = false /\
  paused (config s) = false /\ timestamp block <= deadline /\ tipBps <= 10000 /\
  minProfitThreshold (config s) <= minProfitOut /\
  Forall (fun st => _isValidProtocol (protocol st) = true /\ enabledOf (protocol st) s = true) steps /\
  exists ret s2, s' = set_running (set_entered false) s2 /\
    call AAVE_POOL 0 (flash_loan_data self token amount (encode_params steps tipBps minProfitOut))
      (set_running (set_entered true) s) w = (true, ret, s2, w').
Proof using.
  intros E. unfold executeArb, onlyRole, mbind, M_bind, gets, require, modify in E.
  destruct (hasRole _ _ _); [|done]. passed E.
  destruct (entered (running s)); [done|]. passed E.
  destruct (paused (config s)); [done|]. passed E.
  do 2 (destruct (negb _); [|done]; passed E).
  destruct (Z.ltb_spec deadline (timestamp block)); [done|]. passed E.
  destruct (Z.ltb_spec 10000 tipBps); [done|]. passed E.
  destruct (Z.ltb_spec minProfitOut (minProfitThreshold (config s))); [done|]. passed E.
  step_in E u1 s1 w1 E1. apply validated in E1 as [[= -> ->] Hv]. step_in E u2 s2 w2 E2.
  injection E as _ <- <-. repeat (split; [done|]).
  unfold _initiateFlashLoanSimple, mbind, M_bind, ext_call in E2.
  destruct (call _ _ _ _ _) as [[[[] ret] s3] w3]; cbv beta iota in E2;
    [|by destruct (0 <? length ret)%nat].
  injection E2 as _ <- <-. by exists ret, s3.
Qed.

Lemma keeps_decode params : keeps I (decode_params (R:=R) params).
Proof using. unfold decode_params. walk. Qed.
Hint Resolve keeps_repay keeps_validate keeps_flash_loan keeps_decode
  keeps_setApprovals keeps_rescue : exec.

(** Emitting an event keeps [I]. *)
Definition event_blind : Prop := forall s evs, I s -> I (mkStorage (config s) (running s) evs).

Lemma keeps_emit e : event_blind -> keeps I (emit e : M R ()).
Proof using. intros H. apply keeps_modify. intros s Hs. by apply H. Qed.

End Trading.

#[export] Hint Resolve keeps_ext_call keeps_interface_call keeps_call_optional_bool
  keeps_safeTransfer keeps_forceApprove keeps_liveAmountIn keeps_swap_failed keeps_swapUniV2
  keeps_approved_call keeps_setApprovals keeps_rescue keeps_snapshot keeps_verify keeps_repay
  keeps_validate keeps_flash_loan keeps_decode : exec.

(** ** Programs and depth *)

(** Every call a program makes into the executor has a sender in [U]. *)
Inductive calls_only {R} (U : Address -> Prop) : Prog R -> Prop :=
| co_halt ok ret : calls_only U (Halt ok ret)
| co_do f k : (forall s w, calls_only U (k s w)) -> calls_only U (Do f k)
| co_into sender value m k : U sender -> (forall r s w, calls_only U (k r s w)) ->
    calls_only U (Into sender value m k)
| co_try p k : calls_only U p -> (forall ok ret s w, calls_only U (k ok ret s w)) ->
    calls_only U (Try p k).

Lemma calls_any {R} (p : Prog R) : calls_only (fun _ => True) p.
Proof. induction p; by constructor. Qed.

(** The calls that trade or move funds; the others administer the contract. *)
Definition trades (m : Msg) : bool :=
  match m with
  | ExecuteArb _ _ _ _ _ _ | ExecuteOperation _ _ _ _ _ | UniswapV3SwapCallback _ _
  | SetApprovals _ _ | Rescue _ _ | Receive => true
  | _ => false
  end.

Section Depth.
Context {R : Type} {K : Keccak} {A : SolAbi}.
Context (self AAVE_POOL : Address) (block : Block).
Context (code : Address -> Address -> Z -> list Z -> Prog R).
Context (static_call : Address -> list Z -> Storage -> World R -> option (list Z)).
Context (has_code : World R -> Address -> bool).
Context (I : Storage -> Prop) (U : Address -> Prop).
Context (Hcode : forall target value data, calls_only U (code target self value data)).

Lemma run_keeps into p : (forall sender value m, U sender -> keeps I (into sender value m)) ->
  calls_only U p -> forall s w ok ret s' w', I s -> run (R:=R) into p s w = (ok, ret, s', w') -> I s'.
Proof using.
  intros Hinto Hp. induction Hp as [ok ret|f k _ IH|sender value m k Hu _ IH|p k _ IHp _ IH];
    intros s w ok' ret' s' w' Hs E; cbn [run] in E.
  - by injection E as _ _ <- _.
  - exact (IH _ _ _ _ _ _ _ _ Hs E).
  - destruct (into sender value m s w) as [e|[[u s1] w1]] eqn:Ei.
    + exact (IH _ _ _ _ _ _ _ _ _ Hs E).
    + exact (IH _ _ _ _ _ _ _ _ _ (Hinto _ _ _ Hu _ _ _ _ _ Hs Ei) E).
  - destruct (run into p s w) as [[[[] ret1] s1] w1] eqn:Er.
    + exact (IH _ _ _ _ _ _ _ _ _ _ (IHp _ _ _ _ _ _ Hs Er) E).
    + exact (IH _ _ _ _ _ _ _ _ _ _ Hs E).
Qed.

(** When every function keeps [I] over calls that keep it, calls keep it at any
    depth, and so does a transaction. *)
Context (Hentry : forall call, call_keeps call I -> forall sender value m, U sender ->
  keeps I (entry (R:=R) self AAVE_POOL block call static_call has_code sender value m)).

Lemma call_keeps_depth depth :
  call_keeps (call self AAVE_POOL block code static_call has_code depth) I.
Proof using Hcode Hentry.
  induction depth as [|d IH]; intros target value data s w ok ret s' w' Hs E; cbn [call] in E.
  { by injection E as _ _ <- _. }
  destruct (_ <? _); [by injection E as _ _ <- _|].
  destruct (run _ _ _ _) as [[[[] ret1] s1] w1] eqn:Er; injection E as <- <- <- <-; [|done].
  refine (run_keeps _ _ _ (Hcode _ _ _) _ _ _ _ _ _ Hs Er). intros. by apply Hentry.
Qed.

Lemma transact_keeps sender value m : U sender ->
  keeps I (transact self AAVE_POOL block code static_call has_code sender value m).
Proof using Hcode Hentry. apply Hentry, call_keeps_depth. Qed.
End Depth.

(** ** Administration *)

Section Administration.
Context {R : Type} {K : Keccak} {A : SolAbi}.
Context (self AAVE_POOL : Address) (block : Block).
Context (call : Address -> Z -> list Z -> Storage -> World R -> bool * list Z * Storage * World R).
Context (static_call : Address -> list Z -> Storage -> World R -> option (list Z)).
Context (has_code : World R -> Address -> bool).
(** An invariant of the administration only. *)
Context (I : Config -> Prop).
Local Abbreviation J := (fun s => I (config s)).
Context (Hcall : call_keeps call J).

Lemma keeps_running f : keeps J (modify (set_running f) : M R ()).
Proof using. by apply keeps_modify. Qed.
Lemma keeps_emit_config e : keeps J (emit e : M R ()).
Proof using. apply keeps_emit. intros s evs H. exact H. Qed.
Hint Resolve keeps_running keeps_emit_config : exec.

Lemma keeps_swap_on step index :
  keeps J (swap_on (R:=R) self call static_call has_code step index).
Proof using Hcall.
  unfold swap_on, _swapUniV3, _swapCurve, _swapBalancer, _swapBancor. walk.
Qed.

Hint Resolve keeps_swap_on : exec.

Lemma keeps_run_swaps steps : forall index,
  keeps J (run_swaps (R:=R) self call static_call has_code steps index).
Proof using Hcall.
  induction steps as [|step steps IH]; intros index; simpl; [walk|].
  apply keeps_bind; [|walk]. unfold _executeSwap, balanceOf. walk.
Qed.

(** Trading does not touch the administration. *)
Lemma keeps_trades sender m : trades m = true ->
  keeps J (dispatch (R:=R) self AAVE_POOL block call static_call has_code sender m).
Proof using Hcall.
  destruct m; try discriminate; intros _; cbn [dispatch].
  - unfold executeArb, onlyRole. walk.
  - unfold executeOperation, _runSwapsAndVerify, _runSwaps. pose proof keeps_run_swaps. walk.
  - unfold uniswapV3SwapCallback. walk.
  - walk.
  - walk.
  - walk.
Qed.

Lemma keeps_entry (U : Address -> Prop) :
  (forall sender m, U sender -> trades m = false ->
     keeps J (dispatch (R:=R) self AAVE_POOL block call static_call has_code sender m)) ->
  forall sender value m, U sender ->
  keeps J (entry (R:=R) self AAVE_POOL block call static_call has_code sender value m).
Proof using Hcall.
  intros Hadmin sender value m Hu s w a s' w' Hs E. unfold entry in E.
  destruct (_ <? _); [done|].
  assert (Hd : keeps J (dispatch self AAVE_POOL block call static_call has_code sender m)).
  { destruct (trades m) eqn:Em; [by apply keeps_trades|by apply Hadmin]. }
  destruct m; try (destruct (value =? 0); [|done]); exact (Hd _ _ _ _ _ Hs E).
Qed.
End Administration.

(** *** Who can change it *)

(** The administration of [c] is that of [c0], except for roles given up. *)
Definition same_administration (c0 c : Config) : Prop :=
  owner c = owner c0 /\ pendingOwner c = pendingOwner c0 /\
  protocolRouter c = protocolRouter c0 /\ protocolEnabled c = protocolEnabled c0 /\
  routerTimelockDuration c = routerTimelockDuration c0 /\
  pendingRouterUpdates c = pendingRouterUpdates c0 /\
  paused c = paused c0 /\ minProfitThreshold c = minProfitThreshold c0 /\
  roles c ⊆ roles c0.

Definition unprivileged `{Keccak} (c0 : Config) (a : Address) : Prop :=
  a <> owner c0 /\ a <> pendingOwner c0 /\ (PAUSER_ROLE, a) ∉ roles c0.

Section Unprivileged.
Context {R : Type} {K : Keccak} {A : SolAbi} (c0 : Config).
Local Abbreviation J := (fun s => same_administration c0 (config s)).

Lemma not_owner {T} sender (k : M R T) : unprivileged c0 sender ->
  keeps J (onlyOwner sender ≫= fun _ => k).
Proof using.
  intros (Ho & _ & _) s w a s' w' (E1 & _) E.
  unfold onlyOwner, mbind, M_bind, gets, require in E. rewrite E1 in E.
  destruct (Z.eqb_spec (owner c0) sender); [by subst|done].
Qed.

Lemma keeps_revokeRole role account : keeps J (_revokeRole role account : M R ()).
Proof using.
  unfold _revokeRole. walk; [|by apply keeps_emit_config]. apply keeps_modify.
  intros s (? & ? & ? & ? & ? & ? & ? & ? & Hr). unfold same_administration. cbn. set_solver.
Qed.

Lemma unprivileged_keeps self AAVE_POOL block call static_call has_code sender m :
  unprivileged c0 sender -> trades m = false ->
  keeps J (dispatch (R:=R) self AAVE_POOL block call static_call has_code sender m).
Proof using.
  intros Hu Hm. destruct m; try discriminate; cbn [dispatch]; try by apply not_owner.
  - destruct Hu as (_ & _ & Hp). intros s w a s' w' (_ & _ & _ & _ & _ & _ & _ & _ & Hr) E.
    exfalso. unfold setPaused, onlyRole, mbind, M_bind, gets, require, hasRole in E.
    rewrite bool_decide_eq_false_2 in E by set_solver. done.
  - unfold renounceRole. apply keeps_bind; [apply keeps_require|intros; apply keeps_revokeRole].
  - destruct Hu as (_ & Hp & _). intros s w a s' w' (_ & E1 & _) E.
    exfalso. unfold acceptOwnership, mbind, M_bind, gets, require in E. rewrite E1 in E.
    destruct (Z.eqb_spec (pendingOwner c0) sender); [by subst|done].
Qed.
End Unprivileged.

(** C6. Only the privileged administer the contract. Whatever the code of the other
    contracts, and however deep they call back: as long as neither the owner, nor
    the pending owner, nor a pauser calls, a transaction leaves owner, routers,
    switches, pause flag, timelock and profit floor as they were, and gives nobody
    a role. *)
Theorem administration_protected {R} {K : Keccak} {A : SolAbi} self AAVE_POOL block
    (code : Address -> Address -> Z -> list Z -> Prog R) static_call has_code sender value m
    s w s' w' :
  (forall target value data, calls_only (unprivileged (config s)) (code target self value data)) ->
  unprivileged (config s) sender ->
  transact self AAVE_POOL block code static_call has_code sender value m s w = inr ((), s', w') ->
  same_administration (config s) (config s').
Proof.
  intros Hcode Hu E.
  refine (transact_keeps self AAVE_POOL block code static_call has_code
            (fun s1 => same_administration (config s) (config s1)) _ Hcode _ sender value m Hu
            s w () s' w' _ E); [|done].
  intros call Hcall sender' value' m' Hu'. apply (keeps_entry _ _ _ _ _ _ (same_administration (config s)))
    with (U := unprivileged (config s)); [done| |done].
  intros. by apply unprivileged_keeps.
Qed.

(** *** When a router can change *)

Definition router_of (c : Config) (p : Z) : Address := default 0 (protocolRouter c !! p).

Definition timelock_ok (c : Config) : Prop :=
  routerTimelockDuration c = ROUTER_TIMELOCK_24H \/ routerTimelockDuration c = ROUTER_TIMELOCK_48H.

(** The update was queued at time [q]. *)
Definition queued_at (q : Z) (u : PendingRouterUpdate) : Prop :=
  exists d, (d = ROUTER_TIMELOCK_24H \/ d = ROUTER_TIMELOCK_48H) /\
    executeAfter u = q + d /\ expiresAt u = q + 2 * d.

(** What a transaction at time [t] can do to the registry: apply updates that
    were ripe when it started, and queue others. *)
Definition timelocked (t : Z) (c0 c : Config) : Prop :=
  timelock_ok c /\
  (forall p, router_of c p = router_of c0 p \/
     exists u, pendingRouterUpdates c0 !! p = Some u /\ router u = router_of c p /\
       executeAfter u <= t <= expiresAt u) /\
  (forall p u, pendingRouterUpdates c !! p = Some u ->
     pendingRouterUpdates c0 !! p = Some u \/ queued_at t u).

Definition in_time (t : Z) : Prop := 0 <= t < 2 ^ 48 - 4 * 86400.

Section Timelock.
Context {R : Type} {K : Keccak} {A : SolAbi} (block : Block) (c0 : Config).
Context (Ht : in_time (timestamp block)).
Local Abbreviation J := (fun s => timelocked (timestamp block) c0 (config s)).

(** An assignment that leaves duration, routers and pending updates alone. *)
Lemma keeps_other f : (forall c, routerTimelockDuration (f c) = routerTimelockDuration c) ->
  (forall c, protocolRouter (f c) = protocolRouter c) ->
  (forall c, pendingRouterUpdates (f c) = pendingRouterUpdates c) ->
  keeps J (modify (set_config f) : M R ()).
Proof using.
  intros H1 H2 H3. apply keeps_modify. intros s. unfold timelocked, timelock_ok, router_of.
  cbn [set_config config]. by rewrite H1, H2, H3.
Qed.

Lemma timelock_emit e : keeps J (emit e : M R ()).
Proof using. by apply keeps_emit_config. Qed.

Lemma timelock_onlyOwner sender : keeps J (onlyOwner sender : M R ()).
Proof using. unfold onlyOwner. walk. Qed.
Hint Resolve timelock_emit timelock_onlyOwner : exec.

Lemma timelock_grantRole role account : keeps J (_grantRole role account : M R ()).
Proof using. unfold _grantRole. walk. by apply keeps_other. Qed.
Lemma timelock_revokeRole role account : keeps J (_revokeRole role account : M R ()).
Proof using. unfold _revokeRole. walk. by apply keeps_other. Qed.
Hint Resolve timelock_grantRole timelock_revokeRole : exec.

Lemma timelock_duration sender d : keeps J (setRouterTimelockDuration (R:=R) sender d).
Proof using.
  unfold setRouterTimelockDuration. apply keeps_bind; [walk|intros _].
  destruct (_ || _) eqn:Ed; [|by intros s w a s' w' _ E].
  apply orb_true_iff in Ed. rewrite !Z.eqb_eq in Ed. cbn [require]. walk.
  apply keeps_modify. intros s (_ & H). by split.
Qed.

Lemma timelock_queue sender p r : keeps J (queueRouterUpdate (R:=R) block sender p r).
Proof using Ht.
  unfold queueRouterUpdate. do 5 (apply keeps_bind; [walk|intros ?]).
  intros s w b s' w' (Hd & Hr & Hp) E.
  unfold mbind, M_bind, gets, checked, mret, M_ret in E.
  do 3 (destruct (decide _) in E; [|done]). injection E as _ <- _. split; [exact Hd|]. split; [exact Hr|].
  intros p' u. cbn. rewrite lookup_insert_Some. intros [[<- <-]|[_ Hu]]; [|by apply Hp].
  right. exists (routerTimelockDuration (config s)). split; [exact Hd|]. cbn [executeAfter expiresAt].
  unfold in_time, timelock_ok, ROUTER_TIMELOCK_24H, ROUTER_TIMELOCK_48H in *.
  rewrite !Z.mod_small by lia. lia.
Qed.

Lemma timelock_delete p : keeps J (delete_pending p : M R ()).
Proof using.
  apply keeps_modify. intros s (Hd & Hr & Hp). split; [exact Hd|]. split; [exact Hr|].
  intros p' u. cbn. rewrite lookup_delete_Some. intros [_ Hu]. by apply Hp.
Qed.
Hint Resolve timelock_delete timelock_queue timelock_duration : exec.

Lemma timelock_execute sender p : keeps J (executeRouterUpdate (R:=R) block sender p).
Proof using.
  unfold executeRouterUpdate. apply keeps_bind; [walk|intros _].
  intros s w a s' w' (Hd & Hr & Hp) E. unfold mbind, M_bind, gets, require, pendingOf in E.
  destruct (pendingRouterUpdates (config s) !! p) as [u|] eqn:Eu; [|done]. cbn [default from_option id] in E.
  destruct (router u =? 0); [done|].
  destruct (Z.ltb_spec (timestamp block) (executeAfter u)); [done|].
  destruct (Z.ltb_spec (expiresAt u) (timestamp block)); [done|]. cbn in E. injection E as _ <- _.
  destruct (Hp p u Eu) as [Hu|(d & Hdd & Ha & _)].
  2: { unfold ROUTER_TIMELOCK_24H, ROUTER_TIMELOCK_48H in *. lia. }
  split; [exact Hd|]. split.
  - intros p'. unfold router_of. cbn. destruct (decide (p = p')) as [<-|Hne].
    + rewrite lookup_insert_eq. right. exists u. done.
    + rewrite lookup_insert_ne by done. apply Hr.
  - intros p' u'. cbn. rewrite lookup_delete_Some. intros [_ Hu']. by apply Hp.
Qed.
Hint Resolve timelock_execute : exec.

Lemma timelock_keeps self AAVE_POOL call static_call has_code sender m : trades m = false ->
  keeps J (dispatch (R:=R) self AAVE_POOL block call static_call has_code sender m).
Proof using Ht.
  intros Hm. destruct m; try discriminate; cbn [dispatch]; try solve [eauto with exec];
    unfold cancelRouterUpdate, setDexEnabled, setPaused, onlyRole, setMinProfitThreshold, grantRole,
      revokeRole, renounceRole, grantExecutor, revokeExecutor, grantPauser, transferOwnership,
      acceptOwnership, _transferOwnership, renounceOwnership;
    walk; by apply keeps_other.
Qed.

Lemma timelock_transact self AAVE_POOL code static_call has_code sender value m :
  keeps J (transact (R:=R) self AAVE_POOL block code static_call has_code sender value m).
Proof using Ht.
  apply transact_keeps with (U := fun _ => True); [|intros|done].
  - intros. apply calls_any.
  - apply (keeps_entry _ _ _ _ _ _ (timelocked (timestamp block) c0)) with (U := fun _ => True);
      [done| |done]. intros. by apply timelock_keeps.
Qed.
End Timelock.

(** No call is running. *)
Definition at_rest : Running := mkRunning false false 0 0 0.

(** The storages of a deployed contract after each transaction that changed
    it, with the times, newest first. Other contracts and the world may differ
    from one transaction to the next. *)
Inductive history {K : Keccak} {A : SolAbi} (R : Type) (self AAVE_POOL : Address)
    : list (Z * Storage) -> Prop :=
| h_deploy t deployer vault network s : in_time t ->
    deploy deployer AAVE_POOL vault network = inr s -> history R self AAVE_POOL [(t, s)]
| h_transact t0 s h block code static_call has_code sender value m w s' w' :
    history R self AAVE_POOL ((t0, s) :: h) -> t0 <= timestamp block -> in_time (timestamp block) ->
    transact (R:=R) self AAVE_POOL block code static_call has_code sender value m s w
    = inr ((), s', w') ->
    history R self AAVE_POOL ((timestamp block, s') :: (t0, s) :: h).

Lemma deployed {K : Keccak} deployer pool vault network s :
  deploy deployer pool vault network = inr s ->
  timelock_ok (config s) /\ pendingRouterUpdates (config s) = ∅ /\ running s = at_rest.
Proof.
  unfold deploy. destruct (constructor _ _ _ _ _ _) as [e|[[u s1] w1]] eqn:E; [done|].
  intros [= <-].
  assert (H : keeps (R:=unit) (fun s => timelock_ok (config s) /\
                pendingRouterUpdates (config s) = ∅ /\ running s = at_rest)
                (constructor deployer pool vault network)).
  { unfold constructor, _transferOwnership, _grantRole, _revokeRole, emit.
    walk; by apply keeps_modify. }
  refine (H _ _ _ _ _ _ E). split; [by left|done].
Qed.

Lemma announced {K : Keccak} {A : SolAbi} R self AAVE_POOL h : history R self AAVE_POOL h ->
  exists t s h', h = (t, s) :: h' /\ timelock_ok (config s) /\
    forall p u, pendingRouterUpdates (config s) !! p = Some u ->
    exists q sq, (q, sq) ∈ h /\ queued_at q u /\ pendingRouterUpdates (config sq) !! p = Some u.
Proof.
  induction 1 as [t deployer vault network s _ E|t0 s h block code sc hc sender value m w s' w'
                 Hh IH Ht Hb E].
  - destruct (deployed _ _ _ _ _ E) as (Hd & Hp & _). exists t, s, []. split; [done|]. split; [done|].
    intros p u. by rewrite Hp, lookup_empty.
  - destruct IH as (t & s1 & h' & [= <- <- <-] & Hd & IH).
    destruct (timelock_transact block (config s) Hb self AAVE_POOL code sc hc sender value m
                s w () s' w') as (Hd' & _ & Hp); [|done|].
    { split; [done|]. split; [by left|by left]. }
    eexists _, _, _. split; [done|]. split; [done|]. intros p u Hu.
    destruct (Hp p u Hu) as [Hu0|Hq].
    + destruct (IH p u Hu0) as (q & sq & Hin & Hq). exists q, sq. split; [by right|done].
    + exists (timestamp block), s'. split; [left|done].
Qed.

(** C23. A router changes only after notice. In the history of a deployed contract,
    whatever the other contracts do, a transaction that leaves another router
    for a protocol than it found does so at least one day, and at most four
    days, after a transaction that left exactly that router pending for the
    protocol. *)
Theorem router_change_announced {K : Keccak} {A : SolAbi} R self AAVE_POOL t s' t0 s h p :
  history R self AAVE_POOL ((t, s') :: (t0, s) :: h) ->
  routerOf p s' <> routerOf p s ->
  exists q sq, (q, sq) ∈ (t0, s) :: h /\ router (pendingOf p sq) = routerOf p s' /\
    q + 86400 <= t <= q + 4 * 86400.
Proof.
  intros H Hne. inversion H as [|? ? ? block code sc hc sender value m w ? w' Hh Ht Hb E]; subst.
  destruct (announced _ _ _ _ Hh) as (t & s1 & h' & [= <- <- <-] & Hd & Hann).
  destruct (timelock_transact block (config s) Hb self AAVE_POOL code sc hc sender value m
              s w () s' w') as (_ & Hr & _); [|done|].
  { split; [done|]. split; [by left|by left]. }
  destruct (Hr p) as [Heq|(u & Hu & Hru & Hw)]; [by destruct Hne|].
  destruct (Hann p u Hu) as (q & sq & Hin & (d & Hdd & Ha & He) & Hpq).
  exists q, sq. split; [done|]. split.
  - unfold pendingOf. by rewrite Hpq.
  - unfold ROUTER_TIMELOCK_24H, ROUTER_TIMELOCK_48H in Hdd. lia.
Qed.

(** *** Sample chain *)

(** Account 1 deploys the contract at 2 with the pool 3, the vault 4 and the
    network 5; no other address has code. *)
Definition deployed_sample : Storage :=
  match deploy (K:=keccak_reference) 1 3 4 5 with inr s => s | inl _ => blank end.
Definition no_code (_ _ : Address) (_ : Z) (_ : list Z) : Prog () := Halt true [].
Definition no_view (_ : Address) (_ : list Z) (_ : Storage) (_ : World ()) : option (list Z) := None.
Definition sample_world : World () := mkWorld (fun _ => 0) ().
Definition sample_tx (t sender : Z) (m : Msg) (s : Storage) : Storage :=
  match transact (K:=keccak_reference) (A:=abi_reference) 2 3 (mkBlock t 9) no_code no_view
          (fun _ _ => false) sender 0 m s sample_world with
  | inr (_, s', _) => s'
  | inl _ => s
  end.

(** The owner queues router 7 for Balancer and applies it a day later. *)
Lemma router_change_announced_witness :
  let s1 := sample_tx 1000 1 (QueueRouterUpdate 5 7) deployed_sample in
  let s2 := sample_tx 87400 1 (ExecuteRouterUpdate 5) s1 in
  exists q sq, (q, sq) ∈ [(1000, s1); (900, deployed_sample)] /\
    router (pendingOf 5 sq) = routerOf 5 s2 /\ q + 86400 <= 87400 <= q + 4 * 86400.
Proof.
  intros s1 s2.
  apply (router_change_announced (K:=keccak_reference) (A:=abi_reference) () 2 3).
  - eapply (h_transact _ _ _ 1000 s1 _ (mkBlock 87400 9) no_code no_view (fun _ _ => false) 1 0
              (ExecuteRouterUpdate 5) sample_world s2 sample_world).
    + eapply (h_transact _ _ _ 900 deployed_sample _ (mkBlock 1000 9) no_code no_view
                (fun _ _ => false) 1 0 (QueueRouterUpdate 5 7) sample_world s1 sample_world).
      * apply (h_deploy _ _ _ 900 1 4 5); [unfold in_time; lia|vm_compute; reflexivity].
      * cbn. lia.
      * unfold in_time. cbn. lia.
      * vm_compute. reflexivity.
    + cbn. lia.
    + unfold in_time. cbn. lia.
    + vm_compute. reflexivity.
  - vm_compute. discriminate.
Defined.

(** ** Guards *)

(** Outside a swap no V3 payment is open. *)
Definition quiet (r : Running) : Prop :=
  swapInProgress r = false -> pendingV3Pool r = 0 /\ pendingV3TokenIn r = 0 /\ pendingV3AmountIn r = 0.

(** What a call may do to the guards: use up the open V3 payment. *)
Definition steady (r r' : Running) : Prop :=
  entered r' = entered r /\ swapInProgress r' = swapInProgress r /\
  pendingV3Pool r' = pendingV3Pool r /\ pendingV3TokenIn r' = pendingV3TokenIn r /\
  (pendingV3AmountIn r' = pendingV3AmountIn r \/ pendingV3AmountIn r' = 0).

#[export] Instance steady_preorder : PreOrder steady.
Proof.
  split.
  - intros r. unfold steady. naive_solver.
  - intros r1 r2 r3 (A1 & B1 & C1 & D1 & E1) (A2 & B2 & C2 & D2 & E2). unfold steady.
    repeat split; try congruence. destruct E1 as [<-|E1]; [done|]. right. by destruct E2 as [->|].
Qed.

Lemma quiet_steady r r' : quiet r -> steady r r' -> quiet r'.
Proof.
  intros Hq (_ & E2 & E3 & E4 & E5) Hs. rewrite E2 in Hs. destruct (Hq Hs) as (Hp & Ht & Ha).
  rewrite E3, E4. split; [done|]. split; [done|]. destruct E5 as [->|]; done.
Qed.

(** A computation that is steady from every quiet storage. *)
Definition stable {R T} (m : M R T) : Prop := forall s w a s' w',
  quiet (running s) -> m s w = inr (a, s', w') -> steady (running s) (running s').

Lemma stable_bind {R T U} (m : M R T) (f : T -> M R U) :
  stable m -> (forall a, stable (f a)) -> stable (m ≫= f).
Proof.
  intros Hm Hf s w b s' w' Hq E. unfold mbind, M_bind in E.
  destruct (m s w) as [e|[[a s1] w1]] eqn:Em; [done|].
  pose proof (Hm _ _ _ _ _ Hq Em) as H1. transitivity (running s1); [done|].
  exact (Hf _ _ _ _ _ _ (quiet_steady _ _ Hq H1) E).
Qed.

(** Every invariant of the form "steady since [r0]" is kept. *)
Lemma stable_keeps {R T} (m : M R T) :
  (forall r0, quiet r0 -> keeps (fun s => steady r0 (running s)) m) -> stable m.
Proof. intros H s w a s' w' Hq E. exact (H _ Hq _ _ _ _ _ (reflexivity _) E). Qed.

Section Guards.
Context {R : Type} {K : Keccak} {A : SolAbi}.
Context (self AAVE_POOL : Address) (block : Block).
Context (call : Address -> Z -> list Z -> Storage -> World R -> bool * list Z * Storage * World R).
Context (static_call : Address -> list Z -> Storage -> World R -> option (list Z)).
Context (has_code : World R -> Address -> bool).
Context (Hcall : forall r0, quiet r0 -> call_keeps call (fun s => steady r0 (running s))).

(** Inside a swap, before and after its V3 payment: the flag is up and the payment is closed. *)
Definition swapping (r : Running) : Prop :=
  swapInProgress r = true /\ pendingV3Pool r = 0 /\ pendingV3TokenIn r = 0 /\ pendingV3AmountIn r = 0.

Lemma swapping_quiet r : swapping r -> quiet r.
Proof. intros [E _] E'. congruence. Qed.

Lemma v3_steady r0 step index : swapping r0 ->
  keeps (fun s => steady r0 (running s)) (_swapUniV3 (R:=R) self call static_call step index).
Proof.
  intros (Hf & Hp & Ht & Ha) s w a s' w' Hs E. unfold _swapUniV3, mbind, M_bind in E.
  destruct (_liveAmountIn _ _ _ _ s w) as [e|[[actualIn s1] w1]] eqn:E1; [done|].
  pose proof (keeps_liveAmountIn self static_call (fun x => s = x) _ _ _ _ _ _ _ eq_refl E1) as <-.
  cbn [modify] in E. unfold ext_call in E.
  destruct (call _ _ _ _ _) as [[[ok ret] s2] w2] eqn:E2.
  destruct Hs as (H1 & H2 & _).
  apply (Hcall (set_pendingV3 (pool step) (tokenIn step) actualIn (running s))) in E2 as (H3 & H4 & _);
    [|intros Hq; cbn in Hq; congruence|done].
  destruct ok; [|unfold swap_failed in E; by destruct (4 <=? length ret)%nat].
  injection E as _ <- _. cbn in *. unfold steady. cbn. rewrite Hp, Ht, Ha. naive_solver.
Qed.

Lemma swap_on_steady r0 step index : swapping r0 ->
  keeps (fun s => steady r0 (running s))
    (swap_on (R:=R) self call static_call has_code step index).
Proof.
  intros Hr. pose proof (Hcall r0 (swapping_quiet _ Hr)) as Hc. pose proof (v3_steady r0) as Hv3.
  unfold swap_on, _swapCurve, _swapBalancer, _swapBancor. walk.
Qed.

Lemma executeSwap_stable step index :
  stable (_executeSwap (R:=R) self call static_call has_code step index).
Proof.
  intros s w a s' w' Hq E. unfold _executeSwap, mbind, M_bind, gets, require, modify in E.
  destruct (swapInProgress (running s)) eqn:Ef; [done|]. cbn in E.
  destruct (enabledOf _ _); [|done]. cbn in E. destruct (Hq Ef) as (Hp & Ht & Ha).
  destruct (balanceOf _ _ _ s w) as [e|[[before s1] w1]] eqn:E1; [done|].
  pose proof (keeps_view (fun x => s = x) _ _ _ _ _ _ _ _ eq_refl E1) as <-.
  destruct (swap_on _ _ _ _ _ _ _ _) as [e|[[u s2] w2]] eqn:E2; [done|].
  apply (swap_on_steady (set_swapInProgress true (running s))) in E2 as (A2 & B2 & C2 & D2 & F2);
    [|done|reflexivity].
  destruct (balanceOf _ _ _ _ w2) as [e|[[after s3] w3]] eqn:E3; [done|].
  pose proof (keeps_view (fun x => _ = x) _ _ _ _ _ _ _ _ eq_refl E3) as <-.
  destruct (negb (after <? before)); [|done]. cbn in E. destruct (negb _); [|done].
  injection E as _ <- _. unfold steady. cbn in *. rewrite Ef, Ha in *. naive_solver.
Qed.

Lemma run_swaps_stable steps : forall index,
  stable (run_swaps (R:=R) self call static_call has_code steps index).
Proof.
  induction steps as [|step steps IH]; intros index; simpl.
  - apply stable_keeps. eauto with exec.
  - apply stable_bind; [apply executeSwap_stable|done].
Qed.

Lemma steady_emit r0 e : keeps (fun s => steady r0 (running s)) (emit e : M R ()).
Proof. apply keeps_emit. by intros s evs H. Qed.
Lemma steady_config r0 f : keeps (fun s => steady r0 (running s)) (modify (set_config f) : M R ()).
Proof. by apply keeps_modify. Qed.
Hint Resolve steady_emit steady_config : exec.

Lemma executeOperation_stable sender asset amount premium initiator params :
  stable (executeOperation (R:=R) self AAVE_POOL block call static_call has_code sender asset
            amount premium initiator params).
Proof.
  unfold executeOperation, _runSwapsAndVerify, _runSwaps.
  repeat first
    [ apply run_swaps_stable
    | apply stable_keeps; intros r0 Hr0; pose proof (Hcall r0 Hr0);
      solve [eauto with exec]
    | apply stable_bind; intros
    | match goal with |- stable (match ?x with _ => _ end) => destruct x end ].
Qed.

Lemma callback_stable sender a0 a1 :
  stable (uniswapV3SwapCallback (R:=R) call has_code sender a0 a1).
Proof.
  intros s w a s' w' Hq E. unfold uniswapV3SwapCallback, mbind, M_bind, gets, require, modify in E.
  destruct (swapInProgress _) eqn:Ef; [|done]. cbn in E. destruct (sender =? _); [|done]. cbn in E.
  destruct (negb _); [|done]. cbn in E.
  set (s1 := set_running _ s) in E.
  assert (H1 : steady (running s) (running s1)) by (unfold steady; cbn; naive_solver).
  destruct (_ =? 0); [by injection E as _ <- _|].
  refine (keeps_safeTransfer _ _ _ (Hcall (running s) Hq) _ _ _ _ _ _ _ _ H1 E).
Qed.

Lemma executeArb_stable sender steps token amount deadline minProfitOut tipBps :
  stable (executeArb (R:=R) self AAVE_POOL block call sender steps token amount deadline
            minProfitOut tipBps).
Proof.
  intros s w a s' w' Hq E.
  apply executed in E as (_ & Een & _ & _ & _ & _ & _ & ret & s2 & -> & E).
  apply (Hcall (set_entered true (running s)) Hq) in E as (_ & B2 & C2 & D2 & F2); [|reflexivity].
  unfold steady. cbn in *. rewrite Een. naive_solver.
Qed.

(** The guards survive every call: whatever is called, the flags are as before
    and an open V3 payment is at most used up. *)
Lemma entry_stable sender value m :
  stable (entry (R:=R) self AAVE_POOL block call static_call has_code sender value m).
Proof.
  intros s w a s' w' Hq E. unfold entry in E. destruct (_ <? _); [done|].
  assert (Hd : stable (dispatch self AAVE_POOL block call static_call has_code sender m)).
  { destruct m; cbn [dispatch]; try apply executeArb_stable; try apply executeOperation_stable;
      try apply callback_stable; apply stable_keeps; intros r0 Hr0; pose proof (Hcall r0 Hr0);
      unfold setRouterTimelockDuration, queueRouterUpdate, executeRouterUpdate, delete_pending,
        cancelRouterUpdate, setDexEnabled, setPaused, onlyRole, setMinProfitThreshold, grantRole,
        revokeRole, renounceRole, grantExecutor, revokeExecutor, grantPauser, transferOwnership,
        acceptOwnership, _transferOwnership, renounceOwnership, _grantRole, _revokeRole, onlyOwner;
      walk. }
  destruct m; try (destruct (value =? 0); [|done]); exact (Hd _ _ _ _ _ Hq E).
Qed.

End Guards.

Section Guarded.
Context {R : Type} {K : Keccak} {A : SolAbi}.
Context (self AAVE_POOL : Address) (block : Block).
Context (code : Address -> Address -> Z -> list Z -> Prog R).
Context (static_call : Address -> list Z -> Storage -> World R -> option (list Z)).
Context (has_code : World R -> Address -> bool).

Lemma call_steady depth : forall r0, quiet r0 ->
  call_keeps (call self AAVE_POOL block code static_call has_code depth)
    (fun s => steady r0 (running s)).
Proof.
  induction depth as [|d IH]; intros r0 Hq target value data s w ok ret s' w' Hs E; cbn [call] in E.
  { by injection E as _ _ <- _. }
  destruct (_ <? _); [by injection E as _ _ <- _|].
  destruct (run _ _ _ _) as [[[[] ret1] s1] w1] eqn:Er; injection E as <- <- <- <-; [|done].
  refine (run_keeps (fun s => steady r0 (running s)) (fun _ => True) _ _ _ (calls_any _)
            _ _ _ _ _ _ Hs Er).
  intros sender v m _ s2 w2 u s3 w3 H2 E2. transitivity (running s2); [done|].
  exact (entry_stable _ _ _ _ _ _ IH _ _ _ _ _ _ _ _ (quiet_steady _ _ Hq H2) E2).
Qed.

Lemma transact_rests sender value m s w s' w' :
  running s = at_rest ->
  transact self AAVE_POOL block code static_call has_code sender value m s w = inr ((), s', w') ->
  running s' = at_rest.
Proof.
  intros Hr E.
  destruct (entry_stable _ _ _ _ _ _ (call_steady 1023) _ _ _ _ _ _ _ _
              ltac:(rewrite Hr; by intros _) E) as (A1 & B1 & C1 & D1 & E1).
  rewrite Hr in *. destruct (running s'). cbn in *. unfold at_rest. f_equal; naive_solver.
Qed.

(** A callback when the payment is used up. *)
Lemma spent_callback call sender a0 a1 s w r :
  pendingV3AmountIn (running s) = 0 ->
  uniswapV3SwapCallback (R:=R) call has_code sender a0 a1 s w = inr r -> r = ((), s, w).
Proof.
  intros H0 E. unfold uniswapV3SwapCallback, mbind, M_bind, gets, require, modify in E.
  destruct (swapInProgress _); [|done]. cbn in E. destruct (sender =? _); [|done]. cbn in E.
  destruct (negb _) eqn:En; [|done]. cbn in E. rewrite H0 in E.
  assert (Hpos : (0 <? (if 0 <? a0 then a0 else a1)) = true).
  { destruct (Z.ltb_spec 0 a0); [lia|]. apply negb_true_iff, andb_false_iff in En. lia. }
  rewrite Hpos in E. injection E as <-. destruct s as [c [e f p t a] ev]. cbn in *. by subst.
Qed.

(** C24. A V3 pool is paid once. A swap callback that succeeds was made inside a swap
    by the pool of that swap, and pays it the amount it reports, capped by the
    amount of the step. Whatever is called afterwards, to any depth, every further
    callback during the swap that succeeds pays nothing and changes nothing. *)
Theorem v3_pool_paid_once depth sender a0 a1 s w s' w' :
  let call := call self AAVE_POOL block code static_call has_code depth in
  uniswapV3SwapCallback call has_code sender a0 a1 s w = inr ((), s', w') ->
  swapInProgress (running s) = true /\ sender = pendingV3Pool (running s) /\
  (exists paid, paid = Z.min (if 0 <? a0 then a0 else a1) (pendingV3AmountIn (running s)) /\
     let s0 := set_running (fun r => set_pendingV3 (pendingV3Pool r) (pendingV3TokenIn r) 0 r) s in
     if paid =? 0 then (s', w') = (s0, w)
     else safeTransfer call has_code (pendingV3TokenIn (running s)) sender paid s0 w
          = inr ((), s', w')) /\
  forall depth' target value data w1 ok ret s2 w2,
    AetherExecutor.call self AAVE_POOL block code static_call has_code depth' target value data s' w1
    = (ok, ret, s2, w2) ->
    forall sender' b0 b1 w3 r,
      uniswapV3SwapCallback call has_code sender' b0 b1 s2 w3 = inr r -> r = ((), s2, w3).
Proof.
  intros call0 E.
  unfold uniswapV3SwapCallback, mbind, M_bind, gets, require, modify in E.
  destruct (swapInProgress _) eqn:Ef; [|done]. cbn in E.
  destruct (Z.eqb_spec sender (pendingV3Pool (running s))) as [Hs|]; [|done]. cbn in E.
  destruct (negb _); [|done]. cbn in E.
  set (s0 := set_running (fun r => set_pendingV3 (pendingV3Pool r) (pendingV3TokenIn r) 0 r) s).
  change (set_running _ s) with s0 in E.
  split; [done|]. split; [done|].
  set (owed := if 0 <? a0 then a0 else a1) in *.
  replace (if pendingV3AmountIn (running s) <? owed then pendingV3AmountIn (running s) else owed)
    with (Z.min owed (pendingV3AmountIn (running s))) in E
    by (destruct (Z.ltb_spec (pendingV3AmountIn (running s)) owed); lia).
  assert (H0 : steady (running s0) (running s')).
  { destruct (_ =? 0) in E; [by injection E as <- _|].
    refine (keeps_safeTransfer _ _ _ (call_steady depth (running s0) _) _ _ _ _ _ _ _ _ _ E); [|done].
    intros Hq. cbn in Hq. congruence. }
  split.
  - eexists. split; [done|]. destruct (_ =? 0); [by injection E as <- <-|done].
  - intros d target value data w1 ok ret s2 w2 Ec sender' b0 b1 w3 r Er.
    destruct H0 as (_ & B0 & _ & _ & F0).
    apply (call_steady d (running s')) in Ec as (_ & _ & _ & _ & F2);
      [|intros Hq; cbn in *; congruence|reflexivity].
    refine (spent_callback _ _ _ _ _ _ _ _ Er).
    destruct F2 as [->|]; [|done]. by destruct F0 as [->|].
Qed.
End Guarded.

(** C7. The guards are always released. After every transaction in the history of a
    deployed contract, with arbitrary code at the other addresses and arbitrary
    calls back, the reentrancy guard is off, no swap is in progress and no V3
    payment is open. *)
Theorem guards_released {K : Keccak} {A : SolAbi} R self AAVE_POOL h t s :
  history R self AAVE_POOL h -> (t, s) ∈ h -> running s = at_rest.
Proof.
  intros Hh. revert t s.
  induction Hh as [t deployer vault network s _ E|t0 s h block code sc hc sender value m w s' w'
                   Hh IH Ht Hb E]; intros t' s1; rewrite elem_of_cons.
  - intros [[= -> ->]|Hin]; [|by apply elem_of_nil in Hin]. apply (deployed _ _ _ _ _ E).
  - intros [[= -> ->]|Hin]; [|by apply (IH t')].
    refine (transact_rests _ _ _ _ _ _ _ _ _ _ _ _ _ (IH t0 s _) E). left.
Qed.

(** ** A sample market *)

(** Two tokens, 10 and 11, whose ledger is the rest of the chain; a lending pool
    3 with a premium of 1; a pool 20 that gives 120 of token 11 and a pool 21 that
    gives 130 of token 10. *)
Module Sample.
#[local] Existing Instance keccak_reference.
#[local] Existing Instance abi_reference.

Definition ledger : Type := Address -> Address -> Z.

Definition moved (t from to : Address) (x : Z) (_ : Storage) (w : World ledger) : World ledger :=
  mkWorld (eth w) (fun t' a =>
    if decide (t' = t) then
      chain w t' a - (if decide (a = from) then x else 0) + (if decide (a = to) then x else 0)
    else chain w t' a).

Definition token_code (t sender : Address) (data : list Z) : Prog ledger :=
  match abi_decode_call "transfer" [SAddress; SUint 256] data with
  | inr (to, (x, _)) =>
      Do (fun _ w => w) (fun _ w =>
        if x <=? chain w t sender then Do (moved t sender to x) (fun _ _ => Halt true (word 1))
        else Halt false [])
  | inl _ => Halt true (word 1)
  end.

Definition pool_code (sender : Address) (data : list Z) : Prog ledger :=
  match abi_decode_call "flashLoanSimple" flash_loan_params data with
  | inr (borrower, (t, (x, (params, _)))) =>
      Do (moved t 3 borrower x) (fun _ _ =>
        Into 3 0 (ExecuteOperation t x 1 sender params) (fun r _ w =>
          match r with
          | inr _ =>
              if x + 1 <=? chain w t borrower then
                Do (moved t borrower 3 (x + 1)) (fun _ _ => Halt true [])
              else Halt false []
          | inl _ => Halt false []
          end))
  | inl _ => Halt false []
  end.

Definition code (target sender : Address) (_ : Z) (data : list Z) : Prog ledger :=
  if decide (target = 10 \/ target = 11) then token_code target sender data
  else if decide (target = 3) then pool_code sender data
  else if decide (target = 20) then Do (moved 11 20 sender 120) (fun _ _ => Halt true [])
  else if decide (target = 21) then Do (moved 10 21 sender 130) (fun _ _ => Halt true [])
  else Halt true [].

Definition view (target : Address) (data : list Z) (_ : Storage) (w : World ledger)
    : option (list Z) :=
  match abi_decode_call "balanceOf" [SAddress] data with
  | inr (a, _) => if decide (0 <= chain w target a < 2 ^ 256) then Some (word (chain w target a)) else None
  | inl _ => Some (word 0)
  end.

Definition block : Block := mkBlock 1000 9.
Definition tx (sender : Address) (m : Msg) : M ledger () :=
  transact 2 3 block code view (fun _ _ => true) sender 0 m.

(** The searcher 6 is an executor; the lending pool holds 1000. *)
Definition funds : World ledger := mkWorld (fun _ => 0) (fun t a =>
  if decide (t = 10 /\ (a = 3 \/ a = 21)) then 1000
  else if decide (t = 11 /\ a = 20) then 1000 else 0).

Definition ready : Storage :=
  match (match deploy 1 3 4 5 with
         | inr s => (tx 1 (GrantExecutor 6) ≫= fun _ => tx 1 (SetMinProfitThreshold 20)) s funds
         | inl e => inl e
         end) with
  | inr (_, s, _) => s
  | inl _ => blank
  end.

(** Borrow 100, swap them for 120 of token 11 and those for 130. *)
Definition cycle : list SwapStep := [mkStep 1 20 10 11 100 110 [1]; mkStep 3 21 11 10 120 120 [1]].
Definition arb : Msg := ExecuteArb cycle 10 100 1010 20 9000.

Definition result (r : Err + (() * Storage * World ledger)) : Storage * World ledger :=
  match r with inr (_, s, w) => (s, w) | inl _ => (blank, funds) end.
Definition after : Storage * World ledger := result (tx 6 arb ready funds).

Lemma arb_succeeds : tx 6 arb ready funds = inr ((), after.1, after.2).
Proof.
  assert (H : (match tx 6 arb ready funds with inr _ => true | inl _ => false end) = true)
    by (vm_compute; reflexivity).
  unfold after. destruct (tx 6 arb ready funds) as [e|[[[] s] w]]; [discriminate H|reflexivity].
Qed.

(** No code of the market calls the executor as anyone but the lending pool. *)
Lemma code_calls (U : Address -> Prop) target sender value data : U 3 ->
  calls_only U (code target sender value data).
Proof.
  intros H3. unfold code, token_code, pool_code.
  repeat first [case_decide|case_match|constructor; intros|done].
Qed.

End Sample.

(** The searcher's arbitrage leaves the administration alone. *)
Lemma administration_protected_witness :
  same_administration (config Sample.ready) (config Sample.after.1).
Proof.
  assert (H : forall a, a = 3 \/ a = 6 ->
            unprivileged (H:=keccak_reference) (config Sample.ready) a).
  { assert (Ho : owner (config Sample.ready) = 1) by (vm_compute; reflexivity).
    assert (Hp : pendingOwner (config Sample.ready) = 0) by (vm_compute; reflexivity).
    intros a Ha. unfold unprivileged. rewrite Ho, Hp. split; [lia|]. split; [lia|].
    apply (bool_decide_eq_false_1 (_ ∈ _)). destruct Ha as [-> | ->]; vm_compute; reflexivity. }
  refine (administration_protected (K:=keccak_reference) (A:=abi_reference) 2 3 Sample.block
            Sample.code Sample.view (fun _ _ => true) 6 0 Sample.arb Sample.ready Sample.funds
            Sample.after.1 Sample.after.2 _ _ _).
  - intros. apply Sample.code_calls. apply H. by left.
  - apply H. by right.
  - pose proof Sample.arb_succeeds as E. unfold Sample.tx in E. exact E.
Defined.

(** The pool 20 asks for 30 of the 50 of its step and gets them. *)
Lemma v3_pool_paid_once_witness :
  let s := mkStorage (config Sample.ready) (mkRunning true true 20 10 50) [] in
  let w := mkWorld (fun _ => 0) (fun _ _ => 100) : World Sample.ledger in
  exists s' (w' : World Sample.ledger), running s' = mkRunning true true 20 10 0 /\
    chain w' 10 20 = 130 /\ chain w' 10 2 = 70 /\
    swapInProgress (running s) = true /\ 20 = pendingV3Pool (running s).
Proof.
  intros s w.
  set (r := uniswapV3SwapCallback (K:=keccak_reference) (A:=abi_reference)
              (call (K:=keccak_reference) (A:=abi_reference) 2 3 Sample.block Sample.code Sample.view
                 (fun _ _ => true) 10%nat) (fun _ _ => true) 20 30 (-1) s w).
  assert (Hr : (match r with
               | inr (_, s', w') => running s' = mkRunning true true 20 10 0 /\
                   chain w' 10 20 = 130 /\ chain w' 10 2 = 70
               | _ => False
               end)) by (vm_compute; auto).
  destruct r as [e|[[[] s'] w']] eqn:E; [destruct Hr|]. exists s', w'. destruct Hr as (H0 & H1 & H2).
  pose proof (v3_pool_paid_once (K:=keccak_reference) (A:=abi_reference) 2 3 Sample.block
                Sample.code Sample.view (fun _ _ => true) 10%nat 20 30 (-1) s w s' w' E) as (H3 & H4 & _).
  exact (conj H0 (conj H1 (conj H2 (conj H3 H4)))).
Defined.

(** After the sample deployment and a queued update the contract is at rest. *)
Lemma guards_released_witness :
  running (sample_tx 1000 1 (QueueRouterUpdate 5 7) deployed_sample) = at_rest.
Proof.
  set (s1 := sample_tx 1000 1 (QueueRouterUpdate 5 7) deployed_sample).
  apply (guards_released (K:=keccak_reference) (A:=abi_reference) () 2 3
           [(1000, s1); (900, deployed_sample)] 1000 s1); [|left].
  eapply (h_transact _ _ _ 900 deployed_sample _ (mkBlock 1000 9) no_code no_view
            (fun _ _ => false) 1 0 (QueueRouterUpdate 5 7) sample_world s1 sample_world).
  - apply (h_deploy _ _ _ 900 1 4 5); [unfold in_time; lia|vm_compute; reflexivity].
  - cbn. lia.
  - unfold in_time. cbn. lia.
  - vm_compute. reflexivity.
Defined.

(** ** Intentions the code does not meet *)

(** The comment on [_transferOwnership] says that the admin role can never be
    orphaned or split from ownership. The owner can renounce it, after which
    nobody holds it, and can grant it to somebody else. *)
Theorem admin_role_splits :
  let s := deployed_sample in
  let orphaned := sample_tx 1000 1 (RenounceRole DEFAULT_ADMIN_ROLE 1) s in
  let shared := sample_tx 1000 1 (GrantRole DEFAULT_ADMIN_ROLE 8) s in
  owner (config orphaned) = 1 /\ hasRole DEFAULT_ADMIN_ROLE 1 s = true /\
  hasRole DEFAULT_ADMIN_ROLE 1 orphaned = false /\
  owner (config shared) = 1 /\ hasRole DEFAULT_ADMIN_ROLE 8 shared = true.
Proof. vm_compute. auto. Qed.

(** The profit is the whole balance above the debt, so what the contract held
    before counts: with 50 in the contract, a loan without any swap reports a
    profit of 49, meets the floor of 20, and gives 44 to the block's
    beneficiary. *)
Theorem held_balance_counts_as_profit :
  let w := Sample.moved 10 21 2 50 blank Sample.funds in
  match Sample.tx 6 (ExecuteArb [] 10 100 1010 20 9000) Sample.ready w with
  | inr (_, s', w') => last (events s') = Some (ArbExecuted 10 100 49 44) /\
      chain w 10 2 = 50 /\ chain w' 10 2 = 0 /\ chain w' 10 9 = 44
  | inl _ => False
  end.
Proof. vm_compute. auto. Qed.

End ExecutorSpec.
