(* ===== verification/ExecutorProfit.v ===== *)
(** * The executor contract: what a flash loan pays

    Under the documented behaviour of the borrowed token and of the lending pool,
    with arbitrary code at the pools traded with: a transaction [executeArb] pays
    the owner and the lender or reverts. *)

From Stdlib Require Import ZArith Lia String.
From S2P Require Import Prelude.
From S2P Require Import Machine.
From S2P Require Import Types.
From S2P Require Import Bytes.
From S2P Require Import Keccak.
From S2P Require Import Abi.
From S2P Require Import Pipeline.
From S2P Require Import AetherExecutor.
From S2P Require Import ExecutorSpec.
From stdpp Require Import base option numbers strings gmap list.

Local Open Scope Z_scope.

Module ExecutorProfit.
Import AetherExecutor ExecutorSpec.

(** ** What a flash loan pays *)

Section Profit.
Context {R : Type} {K : Keccak} {A : SolAbi}.
Context (self AAVE_POOL : Address) (block : Block).
Context (code : Address -> Address -> Z -> list Z -> Prog R).
Context (static_call : Address -> list Z -> Storage -> World R -> option (list Z)).
Context (has_code : World R -> Address -> bool).
(** The borrowed asset and the balances of its ledger. *)
Context (asset : Address) (bal : R -> Address -> Z) (premium : Z -> Z).

Local Abbreviation calls := (call self AAVE_POOL block code static_call has_code).

Definition same_balances (w w' : World R) : Prop := forall a, bal (chain w') a = bal (chain w) a.

(** The asset is a plain ERC-20 token: [balanceOf] answers with the ledger, a transfer
    that succeeds moves exactly the amount, an approval moves nothing, and no
    call leaves the executor changed. *)
Record plain_token : Prop := {
  pt_view : forall s w ret, static_call asset (balanceOf_data self) s w = Some ret ->
    ret = word (bal (chain w) self) /\ in_u 256 (bal (chain w) self);
  pt_silent : forall depth data s w ok ret s' w',
    calls depth asset 0 data s w = (ok, ret, s', w') -> s' = s;
  pt_transfer : forall depth to x s w ret s' w', in_u 160 to -> in_u 256 x ->
    calls depth asset 0 (transfer_data to x) s w = (true, ret, s', w') ->
    forall a, bal (chain w') a = bal (chain w) a - (if decide (a = self) then x else 0)
                                         + (if decide (a = to) then x else 0);
  pt_approve : forall depth spender x s w ok ret s' w', in_u 160 spender -> in_u 256 x ->
    calls depth asset 0 (approve_data spender x) s w = (ok, ret, s', w') -> same_balances w w';
}.

(** The pool lends, calls the borrower back with the loan, and collects the
    loan and the premium, or fails as a whole. *)
Definition lends_and_collects : Prop := forall depth x params s w ret s' w',
  encodable (STuple flash_loan_params) (self, (asset, (x, (params, (0, tt))))) ->
  calls (S depth) AAVE_POOL 0 (flash_loan_data self asset x params) s w = (true, ret, s', w') ->
  exists w1 w2,
    entry self AAVE_POOL block (calls depth) static_call has_code AAVE_POOL 0
      (ExecuteOperation asset x (premium x) self params) s w1 = inr ((), s', w2) /\
    bal (chain w') self = bal (chain w2) self - (x + premium x) /\
    forall a, a <> self -> bal (chain w2) a <= bal (chain w') a.

(** Wrapped ether is redeemed and deposited one to one, and the block's
    beneficiary takes or refuses ether without touching the asset. *)
Record plain_tip : Prop := {
  pl_withdraw : forall depth x s w ret s' w', asset = WETH -> in_u 256 x ->
    calls depth WETH 0 (withdraw_data x) s w = (true, ret, s', w') ->
    forall a, bal (chain w') a = bal (chain w) a - (if decide (a = self) then x else 0);
  pl_deposit : forall depth x s w ret s' w', asset = WETH -> in_u 256 x ->
    calls depth WETH x deposit_data s w = (true, ret, s', w') ->
    s' = s /\ forall a, bal (chain w') a = bal (chain w) a + (if decide (a = self) then x else 0);
  pl_coinbase : forall depth x s w ok ret s' w', asset = WETH ->
    calls depth (coinbase block) x [] s w = (ok, ret, s', w') -> s' = s /\ same_balances w w';
}.

Context (Htoken : plain_token) (Hpool : lends_and_collects) (Htip : plain_tip).
Context (Hcoinbase : coinbase block <> self) (Hcb160 : in_u 160 (coinbase block))
  (Hpool160 : in_u 160 AAVE_POOL).

Lemma balance_read s w v s' w' : balanceOf self static_call asset s w = inr (v, s', w') ->
  (v, s', w') = (bal (chain w) self, s, w) /\ in_u 256 (bal (chain w) self).
Proof.
  unfold balanceOf, view_word. destruct (static_call _ _ _ _) as [ret|] eqn:E; [|done].
  apply (pt_view Htoken) in E as [-> Hr].
  pose proof (Decoder.word_at_0 (bal (chain w) self) [] Hr) as E. rewrite app_nil_r in E.
  rewrite E. by intros [= <- <- <-].
Qed.

Lemma optional_bool_called depth token data bubble s w ok s' w' :
  call_optional_bool (calls depth) has_code token data bubble s w = inr (ok, s', w') ->
  exists b ret, calls depth token 0 data s w = (b, ret, s', w') /\ (ok = true -> b = true).
Proof.
  unfold call_optional_bool, mbind, M_bind, ext_call.
  destruct (calls depth token 0 data s w) as [[[b ret] s1] w1]. intros E. exists b, ret.
  destruct b, (scratch data ret =? 1), bubble; cbn in E; try done; by injection E as <- <- <-.
Qed.

Lemma transfer_silent depth to x s w u s' w' :
  safeTransfer (calls depth) has_code asset to x s w = inr (u, s', w') ->
  s' = s /\ exists ret, calls depth asset 0 (transfer_data to x) s w = (true, ret, s', w').
Proof.
  unfold safeTransfer, mbind, M_bind.
  destruct (call_optional_bool _ _ _ _ _ _ _) as [|[[ok s1] w1]] eqn:E; [done|].
  apply optional_bool_called in E as (b & ret & Ec & Hb).
  destruct ok; [|done]. rewrite Hb in Ec by done. intros [= _ <- <-].
  split; [exact (pt_silent Htoken _ _ _ _ _ _ _ _ Ec)|by exists ret].
Qed.

Lemma transferred depth to x s w u s' w' : in_u 160 to -> in_u 256 x ->
  safeTransfer (calls depth) has_code asset to x s w = inr (u, s', w') ->
  s' = s /\ forall a, bal (chain w') a = bal (chain w) a - (if decide (a = self) then x else 0)
                                       + (if decide (a = to) then x else 0).
Proof.
  intros Hto Hx E. apply transfer_silent in E as [-> [ret E]]. split; [done|].
  exact (pt_transfer Htoken _ _ _ _ _ _ _ _ Hto Hx E).
Qed.

Lemma approved_once depth x bubble s w ok s' w' : in_u 256 x ->
  call_optional_bool (calls depth) has_code asset (approve_data AAVE_POOL x) bubble s w
  = inr (ok, s', w') -> s' = s /\ same_balances w w'.
Proof.
  intros Hx E. apply optional_bool_called in E as (b & ret & Ec & _).
  split; [exact (pt_silent Htoken _ _ _ _ _ _ _ _ Ec)|].
  exact (pt_approve Htoken _ _ _ _ _ _ _ _ _ Hpool160 Hx Ec).
Qed.

Lemma approved depth x s w u s' w' : in_u 256 x ->
  forceApprove (calls depth) has_code asset AAVE_POOL x s w = inr (u, s', w') ->
  s' = s /\ same_balances w w'.
Proof.
  intros Hx. unfold forceApprove, mbind, M_bind.
  destruct (call_optional_bool _ _ _ _ _ s w) as [|[[ok1 s1] w1]] eqn:E1; [done|].
  apply approved_once in E1 as [-> H1]; [|done]. destruct ok1; [by intros [= _ <- <-]|].
  destruct (call_optional_bool _ _ _ _ _ s w1) as [|[[ok2 s2] w2]] eqn:E2; [done|].
  apply approved_once in E2 as [-> H2]; [|by unfold in_u]. destruct ok2; [|done]. cbn.
  destruct (call_optional_bool _ _ _ _ _ s w2) as [|[[ok3 s3] w3]] eqn:E3; [done|].
  apply approved_once in E3 as [-> H3]; [|done]. destruct ok3; [|done]. intros [= _ <- <-].
  split; [done|]. intros a. by rewrite H3, H2, H1.
Qed.

Lemma interface_called depth target value data s w u s' w' :
  interface_call (calls depth) has_code target value data s w = inr (u, s', w') ->
  exists ret, calls depth target value data s w = (true, ret, s', w').
Proof.
  unfold interface_call, mbind, M_bind, ext_call. destruct (has_code w target); [|done].
  destruct (calls depth target value data s w) as [[[[] ret] s1] w1]; [|done].
  intros [= _ <- <-]. by exists ret.
Qed.

(** However the tip is paid, it leaves the contract, and takes from nobody else. *)
Lemma tipped depth tip s w u s' w' : in_u 256 tip ->
  pay_tip block (calls depth) has_code asset tip s w = inr (u, s', w') ->
  s' = s /\ bal (chain w') self = bal (chain w) self - tip /\
  forall a, a <> self -> bal (chain w) a <= bal (chain w') a.
Proof.
  intros Ht. unfold pay_tip. destruct (Z.eqb_spec asset WETH) as [Hw|].
  2: { intros E. apply transferred in E as [-> H]; [|done..]. unfold in_u in Ht. split; [done|]. rewrite (H self).
       rewrite decide_True, (decide_False (P:=self = _)) by done. split; [lia|].
       intros a Ha. rewrite H, decide_False by done. case_decide; lia. }
  unfold mbind, M_bind, ext_call.
  destruct (interface_call _ _ asset _ _ _ _) as [|[[u1 s1] w1]] eqn:E1; [done|].
  apply interface_called in E1 as (ret1 & E1).
  pose proof (pt_silent Htoken _ _ _ _ _ _ _ _ E1) as ->. rewrite Hw in E1.
  pose proof (pl_withdraw Htip _ _ _ _ _ _ _ Hw Ht E1) as H1.
  destruct (calls depth (coinbase block) tip [] s w1) as [[[sent ret2] s2] w2] eqn:E2.
  apply (pl_coinbase Htip) in E2 as [-> H2]; [|done].
  pose proof (H1 self) as Hs. rewrite decide_True in Hs by done.
  destruct sent.
  { unfold in_u in Ht. intros [= _ <- <-]. split; [done|]. rewrite H2, Hs. split; [lia|].
    intros a Ha. rewrite H2, H1, decide_False by done. lia. }
  destruct (interface_call _ _ WETH _ _ _ _) as [|[[u3 s3] w3]] eqn:E3; [done|].
  apply interface_called in E3 as (ret3 & E3).
  apply (pl_deposit Htip) in E3 as [-> H3]; [|done..]. rewrite <- Hw. intros E.
  apply transferred in E as [-> H4]; [|done..]. unfold in_u in Ht. split; [done|]. split.
  - rewrite H4, H3, H2, Hs, !decide_True by done. rewrite decide_False by done. lia.
  - intros a Ha. rewrite H4, H3, H2, H1, !(decide_False (P:=a = self)) by done. case_decide; lia.
Qed.

(** Repayment: what remains is the debt, the owner has the profit less the tip. *)
Lemma distributed depth amount prem tipBps minProfitOut s w profit tip s' w' :
  0 <= tipBps <= 10000 -> owner (config s') <> self -> in_u 160 (owner (config s')) ->
  _repayAndDistribute self AAVE_POOL block (calls depth) static_call has_code asset amount prem
    tipBps minProfitOut s w = inr ((profit, tip), s', w') ->
  s' = s /\ minProfitOut <= profit /\ 0 <= profit /\ tip = profit * tipBps / 10000 /\
  bal (chain w) self = amount + prem + profit /\ bal (chain w') self = amount + prem /\
  bal (chain w) (owner (config s)) + (profit - tip) <= bal (chain w') (owner (config s)).
Proof.
  intros Htb Hown Hown160 E. unfold _repayAndDistribute, mbind, M_bind, checked, gets in E.
  destruct (decide (0 <= amount + prem < _)) as [Hdebt|]; [|done]. cbn [mret M_ret] in E.
  destruct (allowance _ _ _ _ s w) as [|[[al s1] w1]] eqn:E1; [done|].
  assert (Hpure : (s1, w1) = (s, w)).
  { unfold allowance, view_word in E1. destruct (static_call _ _ _ _); [|done].
    destruct (Decoder.word_at _ _); [|done]. by injection E1 as _ <- <-. }
  injection Hpure as -> ->.
  step_in E u s2 w2 E2.
  assert (H2 : s2 = s /\ same_balances w w2).
  { destruct (al <? amount + prem); [by apply approved in E2; [|by unfold in_u]|]. by injection E2 as _ <- <-. }
  destruct H2 as [-> H2]. step_in E b s1 w1 Eb. apply balance_read in Eb as [[= -> -> ->] Hrange].
  rewrite H2 in E, Hrange. unfold require, in_u in *.
  pose proof (H2 (owner (config s))) as Ho2. pose proof (H2 self) as Hs2. clear E1 E2 H2.
  destruct (Z.ltb_spec (bal (chain w) self) (amount + prem)); [done|].
  set (p := bal (chain w) self - (amount + prem)) in *. cbn in E.
  destruct (Z.ltb_spec p minProfitOut); [done|]. cbn in E.
  destruct (decide _) as [Hsc|]; [|done]. cbn [mret M_ret] in E.
  set (t := p * tipBps / 10000) in *.
  assert (Ht : 0 <= t <= p).
  { subst t. split; [apply Z.div_pos; lia|]. apply Z.div_le_upper_bound; nia. }
  rewrite Z.mod_small in E by lia.
  step_in E u3 s3 w3 E3.
  assert (H3 : s3 = s /\ bal (chain w3) self = bal (chain w2) self - t /\
               forall a, a <> self -> bal (chain w2) a <= bal (chain w3) a).
  { destruct (Z.ltb_spec 0 t); [by apply tipped in E3; [|unfold in_u; lia]|].
    injection E3 as _ <- <-. split; [done|]. split; [lia|]. intros. lia. }
  destruct H3 as (-> & Hs3 & Ho3). step_in E u4 s4 w4 E4.
  assert (s4 = s) as ->.
  { destruct (0 <? p - t); [exact (proj1 (transfer_silent _ _ _ _ _ _ _ _ E4))|by injection E4 as _ <- _]. }
  injection E as <- <- <- <-. specialize (Ho3 _ Hown).
  assert (H4 : bal (chain w4) self = bal (chain w3) self - (p - t) /\
               bal (chain w3) (owner (config s)) + (p - t) <= bal (chain w4) (owner (config s))).
  { destruct (Z.ltb_spec 0 (p - t)).
    - apply transferred in E4 as [_ H4]; [|done|unfold in_u; lia]. rewrite !H4.
      rewrite (decide_True (P:=self = self)), (decide_False (P:=self = _)),
        (decide_False (P:=owner _ = self)), decide_True by done. lia.
    - injection E4 as _ <-. lia. }
  destruct H4 as (Hs4 & Ho4). split; [done|]. split; [done|]. lia.
Qed.

Definition loan_encodable (steps : list SwapStep) (tipBps minProfitOut : Z) : Prop :=
  encodable (STuple loan_params) (map step_value steps, (tipBps, (minProfitOut, tt))).

Lemma params_round_trip steps tipBps minProfitOut s w : loan_encodable steps tipBps minProfitOut ->
  decode_params (R:=R) (encode_params steps tipBps minProfitOut) s w
  = inr ((steps, tipBps, minProfitOut), s, w).
Proof.
  intros H. unfold decode_params, encode_params. rewrite abi_params_inverse by done.
  rewrite map_map. replace (map _ steps) with steps; [done|]. clear H.
  induction steps as [|[] steps IH]; [done|]. cbn. f_equal. apply IH.
Qed.

(** The callback, from the loan to the event. *)
Lemma operated depth x prem steps tipBps minProfitOut s w s' w' :
  loan_encodable steps tipBps minProfitOut -> 0 <= tipBps <= 10000 ->
  owner (config s') <> self -> in_u 160 (owner (config s')) ->
  entry self AAVE_POOL block (calls depth) static_call has_code AAVE_POOL 0
    (ExecuteOperation asset x prem self (encode_params steps tipBps minProfitOut)) s w
  = inr ((), s', w') ->
  exists profit wr, minProfitOut <= profit /\ bal (chain wr) self = x + prem + profit /\
    bal (chain w') self = x + prem /\
    bal (chain wr) (owner (config s')) + (profit - profit * tipBps / 10000)
    <= bal (chain w') (owner (config s')) /\
    last (events s') = Some (ArbExecuted asset x profit (profit * tipBps / 10000)).
Proof.
  intros Hen Htb Hown Hown160 E. unfold entry in E. destruct (_ <? _); [done|].
  cbn [Z.eqb dispatch] in E. unfold executeOperation, mbind, M_bind, require in E.
  rewrite !Z.eqb_refl in E. cbn [mret M_ret] in E. rewrite params_round_trip in E by done.
  step_in E u1 s1 w1 E1. step_in E pt s2 w2 E2. destruct pt as [profit tip].
  injection E as <- <-. cbn [config events] in *.
  apply distributed in E2 as (-> & Hmin & _ & -> & Hs & Hs' & Ho); [|done..].
  exists profit, w1. rewrite last_snoc. done.
Qed.


End Profit.

(** ** The sample market keeps the laws *)

Section SampleLaws.
#[local] Existing Instance keccak_reference.
#[local] Existing Instance abi_reference.
Local Abbreviation calls := (call 2 3 Sample.block Sample.code Sample.view (fun _ _ => true)).

Definition asset_balance (r : Sample.ledger) (a : Address) : Z := r 10 a.

(** Frame by frame: a call of the executor runs the code of its target. *)
Lemma sample_call depth target data s w ok ret s' w' :
  calls depth target 0 data s w = (ok, ret, s', w') ->
  (ok, s', w') = (false, s, w) \/
  exists d w0, depth = S d /\ chain w0 = chain w /\ ok = true /\
    run (entry 2 3 Sample.block (calls d) Sample.view (fun _ _ => true))
      (Sample.code target 2 0 data) s w0 = (true, ret, s', w').
Proof.
  destruct depth as [|d]; cbn [call]; [by intros [= <- <- <- <-]; left|].
  destruct (_ <? _); [by intros [= <- <- <- <-]; left|].
  destruct (run _ _ _ _) as [[[[] r] s1] w1] eqn:E; intros [= <- <- <- <-]; [right|by left].
  by exists d, (move_eth 2 target 0 w).
Qed.

Lemma transfer_decodes to x : in_u 160 to -> in_u 256 x ->
  abi_decode_call "transfer" [SAddress; SUint 256] (transfer_data to x) = inr (to, (x, tt)).
Proof.
  intros Ht Hx. unfold transfer_data. rewrite abi_encode_spec. apply abi_call_inverse. split.
  - cbn. unfold in_u in *. lia.
  - by rewrite Decoder.static_length.
Qed.

Lemma approve_is_no_transfer spender x :
  exists e, abi_decode_call "transfer" [SAddress; SUint 256] (approve_data spender x) = inl e.
Proof.
  unfold approve_data. rewrite abi_encode_spec. cbn [abi_decode_call abi_reference].
  unfold reference_call. rewrite take_app_length' by (by rewrite length_selector).
  rewrite decide_False; [by eexists|]. intros H. apply (f_equal be) in H. vm_compute in H. discriminate.
Qed.

(** A call of the token: no change, or a transfer it could decode. *)
Lemma token_called depth data s w ok ret s' w' :
  calls depth 10 0 data s w = (ok, ret, s', w') ->
  s' = s /\ ((ok = false \/ exists e, abi_decode_call "transfer" [SAddress; SUint 256] data = inl e) /\
              chain w' = chain w \/
    exists to x, abi_decode_call "transfer" [SAddress; SUint 256] data = inr (to, (x, tt)) /\
    forall a, chain w' 10 a = chain w 10 a - (if decide (a = 2) then x else 0)
                            + (if decide (a = to) then x else 0)).
Proof.
  intros E. apply sample_call in E as [[= -> -> ->]|(d & w0 & _ & Hw & -> & E)]; [auto|].
  generalize dependent (entry 2 3 Sample.block (calls d) Sample.view (fun _ _ => true)).
  intros into E. unfold Sample.code in E. rewrite decide_True in E by auto. unfold Sample.token_code in E.
  destruct (abi_decode_call _ _ _) as [e|[to [x []]]] eqn:Ed; cbn [run] in E.
  { injection E as _ <- <-. split; [done|]. left. eauto. }
  destruct (_ <=? _); cbn [run] in E; [|done]. injection E as _ <- <-.
  split; [done|]. right. exists to, x. split; [done|]. intros a. cbn. by rewrite decide_True, Hw by done.
Qed.

Lemma sample_token : plain_token 2 3 Sample.block Sample.code Sample.view (fun _ _ => true) 10 asset_balance.
Proof.
  split.
  - intros s w ret. unfold Sample.view.
    assert (E : abi_decode_call "balanceOf" [SAddress] (balanceOf_data 2) = inr (2, tt))
      by (vm_compute; reflexivity).
    rewrite E. case_decide as Hr; [|discriminate]. intros Ew. apply (inj Some) in Ew as <-.
    exact (conj eq_refl Hr).
  - intros depth data s w ok ret s' w' E. by apply token_called in E as [-> _].
  - intros depth to x s w ret s' w' Ht Hx E. pose proof (transfer_decodes to x Ht Hx) as Ed.
    apply token_called in E as [_ [[[E|[e E]] _]|(to' & x' & E & H)]];
      [discriminate E|rewrite Ed in E; discriminate E|].
    rewrite Ed in E. injection E as <- <-. exact H.
  - intros depth spender x s w ok ret s' w' _ _ E a.
    destruct (approve_is_no_transfer spender x) as [e Ed].
    apply token_called in E as [_ [[_ H]|(to & y & E & _)]]; [|rewrite Ed in E; discriminate E].
    unfold asset_balance. rewrite H. reflexivity.
Qed.

Lemma sample_pool : lends_and_collects 2 3 Sample.block Sample.code Sample.view (fun _ _ => true)
    10 asset_balance (fun _ => 1).
Proof.
  intros depth x params s w ret s' w' Hen E.
  assert (Ed : abi_decode_call "flashLoanSimple" flash_loan_params (flash_loan_data 2 10 x params)
               = inr (2, (10, (x, (params, (0, tt)))))).
  { unfold flash_loan_data. rewrite abi_encode_spec. by apply abi_call_inverse. }
  apply sample_call in E as [[= ]|(d & w0 & [= ->] & Hw & _ & E)].
  assert (Ep : Sample.code 3 2 0 (flash_loan_data 2 10 x params)
               = Sample.pool_code 2 (flash_loan_data 2 10 x params)).
  { unfold Sample.code. rewrite decide_False, decide_True by lia. reflexivity. }
  rewrite Ep in E. unfold Sample.pool_code in E. rewrite Ed in E. cbn [run] in E.
  destruct (entry _ _ _ _ _ _ _ _ _ _ _) as [e|[[[] s2] w2]] eqn:Ee; cbn [run] in E;
    [discriminate E|].
  destruct (_ <=? _); cbn [run] in E; [|discriminate E]. injection E as _ <- <-.
  eexists _, w2. split; [exact Ee|]. unfold asset_balance. cbn.
  rewrite (decide_True (P:=10 = 10)) by done. split; [repeat case_decide; lia|].
  intros a Ha. rewrite (decide_True (P:=10 = 10)), decide_False by done. destruct Hen as [(_ & _ & Hx & _) _]. cbn in Hx.
  case_decide; lia.
Qed.

Lemma sample_tip : plain_tip 2 3 Sample.block Sample.code Sample.view (fun _ _ => true) 10 asset_balance.
Proof. split; intros; discriminate. Qed.

End SampleLaws.


End ExecutorProfit.
